(* ===== verification/_CoqProject ===== *)
-Q . S2P
Prelude.v
Monad.v
GoLib.v
Json.v
Crypto.v
Ledger.v
Policy.v
ContextStore.v
State.v
Taint.v
Mailbox.v
Lifecycle.v
Revocation.v
Witness.v
Runner.v
Gateway.v
Hostfs.v
Wake.v
KernelWake.v
Url.v
Net.v
UrlProofs.v
Web.v
Invariant.v
Safety.v
MailboxProofs.v
TaintProofs.v
LifecycleProofs.v
RecoveryProofs.v
RunnerProofs.v
GatewayProofs.v
HostfsProofs.v
WakeProofs.v
KernelWakeProofs.v
System.v
Durability.v
SystemProperties.v
TurnProperties.v
GateProperties.v
WebProperties.v
MailProperties.v
AuditProperties.v
WakeProperties.v
ErrorProperties.v
Protocol.v
Engine.v
EngineProofs.v
EngineSystem.v
Server.v
ServerProofs.v
ServerRun.v
EngineProperties.v
Token.v
Control.v
ControlProperties.v
Router.v
Restart.v
Sandbox.v
Process.v
Wire.v
Dialogue.v
Completion.v
Ainf.v
AinfProofs.v
AinfProperties.v
KernelInfer.v
KernelInferProofs.v
Providers.v
ProviderProperties.v
Resource.v
Launch.v
AppQueue.v
AppQueueProofs.v
AppQueueSpec.v
AppQueueProperties.v
EventPath.v
