(* ===== verification/Prelude.v ===== *)
(** * AOK: a verification development

    AOK runs model-driven applications under a supervisor.  The supervisor (src/runtime)
    keeps the applications' durable state, hands their messages to providers turn by
    turn, and guards what leaves them; an engine, usually in a sandboxed process of its
    own, serves the model over a JSON-RPC protocol; a kernel with the patches of
    src/kernel offers event queues and an inference device with token budgets.  The
    development is a shallow embedding: handlers are functions on records, the code that
    runs concurrently is a step relation or a sequence of operations in any order, and
    every definition that models code can be evaluated.

    ** How the program is modelled

    - A method that runs under the supervisor's mutex is a function of the monad of
      Monad.v: from a [Supervisor] (State.v: the in-memory state, the committed state,
      the hash of the last audit record, the turns in flight) to a result or an error and
      the next [Supervisor].  What it changed before an error stays changed.
    - A commit ([persistLocked]) either stores the durable part of the state or fails and
      restores it; which, the environment [Env] decides, as it decides what the clock and
      the random source give.
    - Unsigned integers are [Z] with the wrap-around written out ([u64], [u32]); strings
      are byte strings; maps are [gmap]s, and where Go visits a map in an arbitrary order
      the order is a parameter.
    - JSON (Json.v), SHA-256 and base64 (Crypto.v), and the parts of strings, strconv and
      path/filepath the code uses (GoLib.v) are written out, as are url.Parse, addresses
      and query escaping (Url.v, Net.v).  Ed25519 is the class
      [Ed25519]: signing with a key pair verifies.  Nothing is assumed about SHA-256; a
      theorem that needs it to be injective gives a collision as its alternative.

    ** The files

    Shared: Prelude (integers, errors, strings, lists, sums), Monad (handlers and their
    weakest preconditions), GoLib, Json, Crypto.

    The supervisor.  Ledger (ledger.go), Policy (policy.go and the manifest of
    supervisor.go), ContextStore (context_store.go), State (supervisor.go: records, audit,
    commits), Taint (taint.go), Mailbox (mailbox.go), Lifecycle (supervisor.go and
    runner.go: recovery, creation, forks, budgets, timers, retirement), Revocation
    (revocation.go), Witness (witness.go), Runner (runner.go: claiming, settling, the turn
    body), Gateway (gateway.go), Hostfs (hostfs.go), Wake (wake.go), KernelWake
    (kernelwake.go), Web (web.go).  System puts them together: [op] is any operation of the
    supervisor, [reachable] any state after any operations, failed commits, crashes and
    restarts.
    Invariant and Safety state what every operation preserves ([SInv], [Good]) and the
    preorder along which states evolve ([evolves]); MailboxProofs, TaintProofs,
    LifecycleProofs, RecoveryProofs, RunnerProofs, GatewayProofs, HostfsProofs, WakeProofs,
    KernelWakeProofs and Durability prove it operation by operation.

    The control plane.  Token (policy.go: the text form of tokens), Control (control.go,
    peer_linux.go: every method of the switch, its parameters and error codes).

    The engine.  Protocol (protocol.go: messages and framing), Engine (protocol.go and
    limits.go: sessions, events, histories), EngineSystem (the engine with turns in
    flight as a step relation), Server (server.go: reader, writer and prompts of one
    connection; a prompt's goroutine is started, takes its turn, answers and gives its slot
    back in steps of its own, and the reader goes on when the goroutine has begun), with
    EngineProofs and ServerProofs.  ServerRun says what the state of a connection owes to
    what was read from it ([conduit]).

    Providers and processes.  Router (router.go), Restart (pid1.go), Sandbox
    (sandbox/policy.go, compile.go and native/aok-sandbox.c, with an interpreter of the
    seccomp program), Process (process_provider.go, the loop that waits for a new child's
    engine included), Wire, Dialogue and Completion (the
    process provider talking to the engine's server), KernelInfer
    (kernel_infer_linux_arm64.go and kernelbridge) on Ainf (the kernel's inference device,
    kernel/patches/0006), with AinfProofs, AinfProperties and KernelInferProofs.
    Providers (provider.go, provider_llama.go, provider_metal.go, provider_anthropic.go, on
    the redirects of the HTTP client with the CheckRedirect of each constructor),
    Resource (resource_controller.go, resource_monitor.go) and Launch (cmd/aok-init and
    cmd/aok-supervisor: the command line, the choice of a provider, the boot probe).

    The kernel's events.  AppQueue (kernel/patches/0005, 0009 and 0010, and
    kernelbridge/event_linux_arm64.go): the durable queue of an application and the
    sources that feed it, with AppQueueProofs.  AppQueueSpec specifies every operation on
    plain lists ([kspec]), to which AppQueue is a refinement.  EventPath (the rest of the bridge and
    kernel_adapter_linux_arm64.go) runs the loop of kernelwake.go on the queue itself.

    ** What the theorems show

    - SystemProperties, of every reachable supervisor and of everything that can happen
      next: tokens are charged once, the audit log verifies, nothing reported is only in
      memory, mailboxes and histories are bounded, committed messages, results and
      revocations are never lost or changed.
    - TurnProperties, MailProperties, GateProperties, WakeProperties, AuditProperties,
      ErrorProperties: settling a turn once, fair and live claims, exactly-once delivery
      through the mailbox and the gateway, the export gate, final revocation, exact host
      path checks, kernel events acknowledged only after the commit, recovery, detection
      of a rewritten log, and failed requests without effect.
    - ControlProperties: a control request is at most two operations of the system on
      behalf of the peer, so that all of the above holds under any clients.
    - EngineProperties: a connection hands its requests to the engine in order and once,
      and every response is the answer to a request read; its queue and histories are
      bounded, events are in order, requests are answered once, prompts are replayed, and
      a session resumed while its history is retained catches up.
    - Protocol, Token: messages and tokens survive the wire.  Completion: a completion
      through the process provider returns what the engine's provider gave, whatever the
      interleaving.
    - Sandbox: the seccomp program computes its specification, and the launcher enforces
      exactly the policy its arguments were compiled from.  Restart and Process: bounded
      restarts, and what a provider holds of the system.
    - WebProperties: content from the web was within its capability at every redirect and
      marks its application for good.  ProviderProperties: what the HTTP providers report
      adds up, and prompts and keys go to the endpoints they may go to, redirects or not.  Resource, Launch:
      the limits written are the limits asked for, and every provider that starts keeps
      the interface the supervisor relies on.
    - AppQueueProperties: every operation of the registry does what the specification on
      lists does, an event stays in the kernel until it is acknowledged, and a queue survives
      a snapshot, a reboot and a restore.  EventPath: from the kernel's queue to the committed mailbox no event is lost, repeated or changed.
    - AinfProperties: the kernel's budgets hold at every ancestor without wrap-around,
      requests are admitted exactly when they can be paid, exports are confined and
      revocation is final.  KernelInferProofs: the provider's mirror of the kernel's
      ledger is exact after every turn, under interference.

    ** Bounds and fuel

    Loops over lists are structural.  [persisted_loop] (KernelWake) has fuel, and
    WakeProperties proves how much is enough; [parse] (Json) and [raw_members] (Protocol)
    take the length of their input, and their lemmas show that printed values are read
    back; [trim] and [reclaim] (Engine) take the number of events they can drop; [await]
    (Process) takes the length of the stream, of which every message consumes a part;
    [run] (Sandbox) takes the length of the program, whose jumps only go forward, and the
    theorem says that every run returns; [chain] (Ainf) takes the capability's number,
    which is above those of its ancestors; [client_Do] (Providers) takes ten rounds, after
    which the default policy of the HTTP client refuses, and the policies of the providers
    refuse the first redirect; [hrefs] (Web) takes the length of the body, of
    which every link consumes a part, [groups] (Net) the eight groups of an address, and
    [read_all] (AppQueueProofs) and [live_drain] (EventPath) the depth of the
    queue, which is proved to be enough.

    ** Not modelled

    Processes, sockets, files, SQLite and HTTP are outside: their answers are arguments
    or the environment's.  So are the accept loops and goroutine plumbing (Serve,
    ControlServer.Serve, Runner.Run), whose critical sections are operations here.
    The vsock and engine addresses, the mounting of /proc, the search for the root
    descriptor and the stubs of other systems are system calls; the remaining commands
    under runtime/cmd parse flags and print. Of the kernel the inference device and the
    application registry are modelled; the tasks and resource domains of patches 0001 to
    0004, 0007, 0008 and 0011, and the waking of bound tasks in 0009, drive a scheduler
    that is not in the repository. The host application (src/host, Swift), build scripts
    and self-tests are not modelled. *)

From stdpp Require Import base tactics option list gmap strings sorting numbers.
From stdpp Require Import pretty.

#[export] Set Warnings "-clear-no-such-hyp,-register-all".

(** ** Machine integers

    A [uint64] is a [Z] in [[0, 2^64)]; the wrap-around of the language is
    written out with [u64]. *)

Definition MaxUint64 : Z := 18446744073709551615.
Definition u64 (z : Z) : Z := z `mod` 18446744073709551616.
Definition u32 (z : Z) : Z := z `mod` 4294967296.
Definition in_u64 (z : Z) : Prop := (0 ≤ z ≤ MaxUint64)%Z.

(** Bitwise complement of a [uint64] (Go's unary [^]). *)
Definition u64_not (z : Z) : Z := Z.lxor z MaxUint64.

Lemma u64_small z : (0 ≤ z ≤ MaxUint64)%Z → u64 z = z.
Proof. unfold u64, MaxUint64. intros. apply Z.mod_small. lia. Qed.

Lemma u64_range z : in_u64 (u64 z).
Proof.
  unfold u64, in_u64, MaxUint64.
  pose proof (Z.mod_pos_bound z 18446744073709551616). lia.
Qed.

(** ** Bit masks of 64-bit words *)

(** The bits of [x] are among those of [y]. *)
Definition submask (x y : Z) : Prop := Z.lor y x = y.

Global Instance submask_preorder : PreOrder submask.
Proof.
  split.
  - intros x. apply Z.lor_diag.
  - intros x y z Hxy Hyz. unfold submask in *. rewrite <-Hyz at 1. rewrite <-Z.lor_assoc. by rewrite Hxy.
Qed.

Lemma submask_lor x y : submask x (Z.lor x y).
Proof. unfold submask. rewrite (Z.lor_comm _ x), Z.lor_assoc, Z.lor_diag. done. Qed.

Lemma lor_u64 x y : in_u64 x → in_u64 y → in_u64 (Z.lor x y).
Proof.
  unfold in_u64, MaxUint64. intros Hx Hy. split; [by apply Z.lor_nonneg; lia|].
  destruct (decide (Z.lor x y = 0)%Z) as [->|]; [lia|].
  assert (0 ≤ Z.lor x y)%Z by (apply Z.lor_nonneg; lia).
  cut (Z.lor x y < 2 ^ 64)%Z; [lia|]. apply Z.log2_lt_pow2; [lia|]. rewrite Z.log2_lor by lia.
  assert (∀ z, 0 ≤ z < 2 ^ 64 → Z.log2 z < 64)%Z as Hl.
  { intros z Hz. destruct (decide (z = 0)%Z) as [->|]; [done|]. apply Z.log2_lt_pow2; lia. }
  pose proof (Hl x ltac:(lia)). pose proof (Hl y ltac:(lia)). lia.
Qed.

Lemma u64_bit z n : in_u64 z → (64 ≤ n)%Z → Z.testbit z n = false.
Proof.
  intros [H0 H1] Hn. destruct (decide (z = 0)%Z) as [->|Hz]; [apply Z.testbit_0_l|]. apply Z.bits_above_log2; [done|].
  assert (Z.log2 z < 64)%Z by (apply Z.log2_lt_pow2; [lia|unfold MaxUint64 in H1; lia]). lia.
Qed.

Lemma submask_bits x y : submask x y ↔ ∀ n, (0 ≤ n)%Z → Z.testbit x n = true → Z.testbit y n = true.
Proof.
  unfold submask. split.
  - intros E n Hn Hx. rewrite <-E, Z.lor_spec, Hx. apply orb_true_r.
  - intros H. apply Z.bits_inj'. intros n Hn. rewrite Z.lor_spec. specialize (H n Hn). destruct (Z.testbit x n), (Z.testbit y n); try done. by discriminate H.
Qed.

(** Masking with the complement leaves nothing exactly for a submask. *)
Lemma masked_submask x y : in_u64 x → in_u64 y → Z.land x (u64_not y) = 0%Z ↔ submask x y.
Proof.
  intros Hx Hy. rewrite submask_bits. change MaxUint64 with (Z.ones 64) in *. unfold u64_not. split.
  - intros E n Hn Hb. destruct (decide (n < 64)%Z) as [Hlt|Hge]; [|rewrite u64_bit in Hb; [done|done|lia]].
    assert (Z.testbit (Z.land x (Z.lxor y MaxUint64)) n = false) as H by (rewrite E; apply Z.testbit_0_l).
    rewrite Z.land_spec, Z.lxor_spec, Hb in H. change MaxUint64 with (Z.ones 64) in H. rewrite Z.ones_spec_low in H by lia.
    by destruct (Z.testbit y n).
  - intros H. apply Z.bits_inj'. intros n Hn. rewrite Z.land_spec, Z.lxor_spec, Z.testbit_0_l. destruct (Z.testbit x n) eqn:Hb; [|done].
    destruct (decide (n < 64)%Z) as [Hlt|Hge]; [|rewrite u64_bit in Hb; [done|done|lia]].
    rewrite (H n Hn Hb). change MaxUint64 with (Z.ones 64). by rewrite Z.ones_spec_low by lia.
Qed.

(** [x & ^m] has no bit in common with [m]. *)
Lemma land_not_zero_iff x m :
  (0 ≤ x ≤ MaxUint64)%Z →
  Z.land x (u64_not m) = 0%Z ↔ ∀ i, (0 ≤ i)%Z → Z.testbit x i = true → Z.testbit m i = true.
Proof.
  intros Hx. unfold u64_not.
  assert (Hmax : ∀ i, (0 ≤ i)%Z → Z.testbit x i = true → Z.testbit MaxUint64 i = true).
  { intros i Hi Hb.
    assert (i < 64)%Z as Hlt.
    { destruct (decide (i < 64)%Z); [done|].
      destruct (decide (x = 0)%Z) as [->|]; [by rewrite Z.bits_0 in Hb|].
      assert (Z.log2 x < i)%Z as Hl.
      { apply Z.log2_lt_pow2; [lia|].
        apply Z.lt_le_trans with (2 ^ 64)%Z; [unfold MaxUint64 in Hx; lia|].
        apply Z.pow_le_mono_r; lia. }
      rewrite Z.bits_above_log2 in Hb by lia. done. }
    change MaxUint64 with (Z.ones 64). apply Z.ones_spec_low. lia. }
  split.
  - intros H0 i Hi Hb.
    assert (Z.testbit (Z.land x (Z.lxor m MaxUint64)) i = false) as Hf.
    { rewrite H0. apply Z.bits_0. }
    rewrite Z.land_spec, Z.lxor_spec, Hb, (Hmax i Hi Hb) in Hf.
    by destruct (Z.testbit m i).
  - intros H. apply Z.bits_inj'. intros i Hi.
    rewrite Z.land_spec, Z.lxor_spec, Z.bits_0.
    destruct (Z.testbit x i) eqn:Hb; [|done].
    by rewrite (H i Hi Hb), (Hmax i Hi Hb).
Qed.

(** ** Errors

    The sentinel errors of the package, which callers compare with [errors.Is],
    and the others, which only carry a text. *)

Inductive error : Type :=
  | ErrApplicationNotFound
  | ErrApplicationRetired
  | ErrDuplicateMessage
  | ErrCapabilityDenied
  | ErrMailboxFull
  | ErrTaintBlocked
  | ErrConfirmationPending (requestID : string)
  | ErrRevocationCapacity
  | ErrWitnessMismatch
  | ErrUsageSequence
  | ErrQuota
  | ErrRouteDenied
  | ErrTurnBusy
  | ErrChannelNotFound
  | ErrConversationNotFound
  | ErrConversationBound
  | ErrMountNotFound
  | ErrMountDenied
  | ErrTransferDenied
  | ErrContextAccess
  | ErrContextCorrupt
  | ErrContextIdempotency
  | ErrEventHistoryExpired
  | ErrDeliveryRefused
  | ErrInvalidMessage
  | ErrWebDenied
  | ErrWebLayerMismatch
  | ErrRestartIntensity
  | EAGAIN
  | EBUSY
  | ErrIO (* a failed read, write or random source *)
  | New (text : string).

Global Instance error_eq_dec : EqDecision error.
Proof. solve_decision. Defined.

(** ** Results of fallible calls *)

Inductive result (E A : Type) : Type :=
  | Ok (a : A)
  | Err (e : E).
Arguments Ok {_ _} _.
Arguments Err {_ _} _.

Definition is_ok {E A} (r : result E A) : bool :=
  match r with Ok _ => true | Err _ => false end.

(** ** Byte strings *)

(** Go's [len] of a string or byte slice. *)
Definition len (s : string) : Z := Z.of_nat (String.length s).

Lemma len_nonneg s : (0 ≤ len s)%Z.
Proof. unfold len. lia. Qed.

Lemma string_length_app s t : String.length (s +:+ t) = String.length s + String.length t.
Proof. induction s; simpl; auto. Qed.

Lemma len_app s t : len (s +:+ t) = (len s + len t)%Z.
Proof. unfold len. rewrite string_length_app. lia. Qed.

Lemma string_app_cons c s t : String c s +:+ t = String c (s +:+ t).
Proof. reflexivity. Qed.

Lemma string_app_nil_r s : s +:+ "" = s.
Proof. induction s as [|c s IH]; [done|]. by rewrite string_app_cons, IH. Qed.

Lemma string_app_assoc s t u : s +:+ (t +:+ u) = (s +:+ t) +:+ u.
Proof. induction s as [|c s IH]; [done|]. by rewrite !string_app_cons, IH. Qed.

Lemma string_app_inv_head p s t : p +:+ s = p +:+ t → s = t.
Proof. induction p; [done|]. rewrite !string_app_cons. intros [= H]. auto. Qed.

(** ** Loops over slices *)

(** The first element a loop with an early exit stops at. *)
Fixpoint find_first {A} (P : A → bool) (l : list A) : option A :=
  match l with
  | [] => None
  | x :: l => if P x then Some x else find_first P l
  end.

Lemma find_first_Some {A} (P : A → bool) l x :
  find_first P l = Some x → x ∈ l ∧ P x = true.
Proof.
  induction l as [|y l IH]; simpl; [done|].
  destruct (P y) eqn:HP; intros; simplify_eq; [by split; [left|]|].
  destruct IH; [done|]. split; [by right|done].
Qed.

Lemma find_first_None {A} (P : A → bool) l :
  find_first P l = None ↔ ∀ x, x ∈ l → P x = false.
Proof.
  induction l as [|y l IH]; simpl.
  { split; [|done]. intros _ x Hx. by apply elem_of_nil in Hx. }
  destruct (P y) eqn:HP; split.
  - done.
  - intros H. rewrite (H y) in HP; [done|by left].
  - intros H x [->|Hx]%elem_of_cons; [done|]. by apply IH.
  - intros H. apply IH. intros x Hx. apply H. by right.
Qed.

(** Replace the first element that satisfies [P]: the loops that search a slice
    by index, assign to the element found and return. *)
Fixpoint update_first {A} (P : A → bool) (f : A → A) (l : list A) : list A :=
  match l with
  | [] => []
  | x :: l => if P x then f x :: l else x :: update_first P f l
  end.

Lemma update_first_length {A} (P : A → bool) f l : length (update_first P f l) = length l.
Proof. induction l as [|x l IH]; simpl; [done|]. destruct (P x); simpl; auto. Qed.

Lemma update_first_none {A} (P : A → bool) f l :
  find_first P l = None → update_first P f l = l.
Proof.
  induction l as [|x l IH]; simpl; [done|].
  destruct (P x); [done|]. intros H. by rewrite IH.
Qed.

Lemma update_first_fmap {A B} (P : A → bool) f (g : A → B) l :
  (∀ x, P x = true → g (f x) = g x) → g <$> update_first P f l = g <$> l.
Proof.
  intros H. induction l as [|x l IH]; csimpl; [done|].
  destruct (P x) eqn:HP; csimpl; [by rewrite H|by rewrite IH].
Qed.

Lemma update_first_split {A} (P : A → bool) f l x :
  find_first P l = Some x →
  ∃ l1 l2, l = l1 ++ x :: l2 ∧ update_first P f l = l1 ++ f x :: l2.
Proof.
  induction l as [|y l IH]; simpl; [done|].
  destruct (P y) eqn:HP; intros H; simplify_eq.
  - by exists [], l.
  - destruct IH as (l1 & l2 & -> & Hu); [done|].
    exists (y :: l1), l2. by rewrite Hu.
Qed.

(** A history bounded to its newest [n] entries. *)
Definition keep_last {A} (n : nat) (l : list A) : list A := drop (length l - n) l.

Lemma keep_last_length {A} n (l : list A) : length (keep_last n l) ≤ n.
Proof. unfold keep_last. rewrite length_drop. lia. Qed.

Lemma keep_last_small {A} n (l : list A) : length l ≤ n → keep_last n l = l.
Proof. intros. unfold keep_last. by replace (length l - n) with 0 by lia. Qed.

Lemma keep_last_suffix {A} n (l : list A) : keep_last n l `suffix_of` l.
Proof. exists (take (length l - n) l). unfold keep_last. by rewrite take_drop. Qed.

Lemma keep_last_snoc {A} n (l : list A) x :
  0 < n → ∃ k, keep_last n (l ++ [x]) = k ++ [x] ∧ k `suffix_of` l.
Proof.
  intros Hn. unfold keep_last. rewrite length_app. simpl.
  exists (drop (length l + 1 - n) l). split.
  - rewrite drop_app_le by lia. done.
  - exists (take (length l + 1 - n) l). by rewrite take_drop.
Qed.

(** Sums over slices and maps. *)
Definition sumZ {A} (f : A → Z) (l : list A) : Z := foldr (λ x acc, (f x + acc)%Z) 0%Z l.

Lemma sumZ_app {A} (f : A → Z) l1 l2 : sumZ f (l1 ++ l2) = (sumZ f l1 + sumZ f l2)%Z.
Proof. unfold sumZ. induction l1; simpl; [done|]. rewrite IHl1. lia. Qed.

Lemma sumZ_nonneg {A} (f : A → Z) l : (∀ x, 0 ≤ f x)%Z → (0 ≤ sumZ f l)%Z.
Proof. intros H. unfold sumZ. induction l as [|x l IH]; simpl; [done|]. specialize (H x). lia. Qed.

Lemma sumZ_cons {A} (f : A → Z) x l : sumZ f (x :: l) = (f x + sumZ f l)%Z.
Proof. done. Qed.

Lemma sumZ_nonneg_Forall {A} (f : A → Z) l : Forall (λ x, 0 ≤ f x)%Z l → (0 ≤ sumZ f l)%Z.
Proof. induction 1; [done|]. rewrite sumZ_cons. lia. Qed.

Lemma sumZ_ext {A} (f g : A → Z) l : (∀ x, x ∈ l → f x = g x) → sumZ f l = sumZ g l.
Proof.
  unfold sumZ. intros H. induction l as [|x l IH]; simpl; [done|].
  rewrite (H x) by (by left). rewrite IH; [done|].
  intros y Hy. apply H. by right.
Qed.

Lemma sumZ_perm {A} (f : A → Z) l1 l2 : l1 ≡ₚ l2 → sumZ f l1 = sumZ f l2.
Proof. unfold sumZ. induction 1; simpl; lia. Qed.

Lemma sumZ_elem {A} (f : A → Z) l x : (∀ x, 0 ≤ f x)%Z → x ∈ l → (f x ≤ sumZ f l)%Z.
Proof.
  intros Hf Hx. apply list_elem_of_split in Hx as (l1 & l2 & ->).
  rewrite sumZ_app. unfold sumZ at 2. simpl. fold (sumZ f l2).
  pose proof (sumZ_nonneg f l1 Hf). pose proof (sumZ_nonneg f l2 Hf). lia.
Qed.

Lemma sumZ_le {A} (f g : A → Z) l : (∀ x, x ∈ l → f x ≤ g x)%Z → (sumZ f l ≤ sumZ g l)%Z.
Proof.
  unfold sumZ. intros H. induction l as [|x l IH]; simpl; [done|].
  pose proof (H x ltac:(by left)).
  assert (∀ y, y ∈ l → f y ≤ g y)%Z as Hl by (intros y Hy; apply H; by right).
  specialize (IH Hl). lia.
Qed.

(** ** The development's tactics *)

Create HintDb aok.

(** Split the branches of an executed handler. *)
Ltac branches :=
  repeat (case_match || case_decide); simplify_eq/=.
