(* ===== verification/Monad.v ===== *)
(** * Handlers as state transformers

    A method of the runtime that runs under its mutex is a function from the
    state to its return values and the next state; what it did to the state
    before returning an error stays done, as in the source.  The rules below
    compute what a handler establishes, statement by statement. *)

From stdpp Require Import base tactics.
From S2P Require Import Prelude.

Definition M (St A : Type) : Type := St → result error A * St.

Section monad.
Context {St : Type}.

Global Instance M_ret : MRet (M St) := λ A a s, (Ok a, s).

Global Instance M_bind : MBind (M St) := λ A B f m s,
  match m s with
  | (Ok a, s') => f a s'
  | (Err e, s') => (Err e, s')
  end.

Definition get : M St St := λ s, (Ok s, s).
Definition put (s : St) : M St unit := λ _, (Ok (), s).
Definition modify (f : St → St) : M St unit := λ s, (Ok (), f s).
Definition throw {A} (e : error) : M St A := λ s, (Err e, s).

(** [if cond { return err }] *)
Definition reject_if (P : Prop) `{Decision P} (e : error) : M St unit :=
  if decide P then throw e else mret ().

Definition of_option {A} (e : error) (o : option A) : M St A :=
  match o with Some a => mret a | None => throw e end.

Definition of_result {A} (r : result error A) : M St A :=
  match r with Ok a => mret a | Err e => throw e end.

(** Run a handler and hand its error to the caller as a value. *)
Definition try {A} (m : M St A) : M St (result error A) := λ s,
  let '(r, s') := m s in (Ok r, s').

(** ** Weakest preconditions *)

Definition wp {A} (m : M St A) (Q : result error A → St → Prop) (s : St) : Prop :=
  let '(r, s') := m s in Q r s'.

Implicit Types s : St.

Lemma wp_mono {A} (m : M St A) (Q Q' : result error A → St → Prop) s :
  wp m Q s → (∀ r s', Q r s' → Q' r s') → wp m Q' s.
Proof. unfold wp. destruct (m s). auto. Qed.

Lemma wp_bind {A B} (m : M St A) (f : A → M St B) Q s :
  wp m (λ r s', match r with Ok a => wp (f a) Q s' | Err e => Q (Err e) s' end) s →
  wp (m ≫= f) Q s.
Proof. unfold wp, mbind, M_bind. destruct (m s) as [[a|e] s']; auto. Qed.

Lemma wp_ret {A} (a : A) (Q : result error A → St → Prop) s : Q (Ok a) s → wp (mret a) Q s.
Proof. done. Qed.

Lemma wp_get (Q : result error St → St → Prop) s : Q (Ok s) s → wp get Q s.
Proof. done. Qed.

Lemma wp_put s1 (Q : result error unit → St → Prop) s : Q (Ok ()) s1 → wp (put s1) Q s.
Proof. done. Qed.

Lemma wp_modify f (Q : result error unit → St → Prop) s : Q (Ok ()) (f s) → wp (modify f) Q s.
Proof. done. Qed.

Lemma wp_throw {A} e (Q : result error A → St → Prop) s : Q (Err e) s → wp (throw e) Q s.
Proof. done. Qed.

Lemma wp_reject_if P `{Decision P} e (Q : result error unit → St → Prop) s :
  (P → Q (Err e) s) → (¬ P → Q (Ok ()) s) → wp (reject_if P e) Q s.
Proof. unfold reject_if, wp. case_decide; simpl; auto. Qed.

Lemma wp_of_option {A} e (o : option A) (Q : result error A → St → Prop) s :
  (∀ a, o = Some a → Q (Ok a) s) → (o = None → Q (Err e) s) → wp (of_option e o) Q s.
Proof. destruct o; simpl; intros H1 H2; [by apply H1|by apply H2]. Qed.

Lemma wp_of_result {A} (r : result error A) (Q : result error A → St → Prop) s :
  Q r s → wp (of_result r) Q s.
Proof. by destruct r. Qed.

Lemma wp_try {A} (m : M St A) (Q : result error (result error A) → St → Prop) s :
  wp m (λ r s', Q (Ok r) s') s → wp (try m) Q s.
Proof. unfold wp, try. by destruct (m s). Qed.

(** From a triple to the run it is about. *)
Lemma wp_run {A} (m : M St A) Q s r s' : wp m Q s → m s = (r, s') → Q r s'.
Proof. unfold wp. intros H E. by rewrite E in H. Qed.

Lemma wp_intro {A} (m : M St A) (Q : result error A → St → Prop) s :
  (∀ r s', m s = (r, s') → Q r s') → wp m Q s.
Proof. unfold wp. destruct (m s). auto. Qed.

Lemma wp_and {A} (m : M St A) (Q1 Q2 : result error A → St → Prop) s :
  wp m Q1 s → wp m Q2 s → wp m (λ r s', Q1 r s' ∧ Q2 r s') s.
Proof. unfold wp. by destruct (m s). Qed.

Lemma wp_snd {A} (m : M St A) (P : St → Prop) s : wp m (λ _ s', P s') s → P (snd (m s)).
Proof. unfold wp. by destruct (m s). Qed.
End monad.

Arguments M_ret {_} _ /.

(** One statement of a handler. *)
Ltac wp_step :=
  lazymatch goal with
  | |- wp (mbind _ _) _ _ => apply wp_bind
  | |- wp (mret _) _ _ => apply wp_ret
  | |- wp get _ _ => apply wp_get
  | |- wp (put _) _ _ => apply wp_put
  | |- wp (modify _) _ _ => apply wp_modify
  | |- wp (throw _) _ _ => apply wp_throw
  | |- wp (reject_if _ _) _ _ => apply wp_reject_if; intros ?
  | |- wp (of_option _ _) _ _ => apply wp_of_option; [intros ? ?|intros ?]
  | |- wp (of_result _) _ _ => apply wp_of_result
  | |- wp (try _) _ _ => apply wp_try
  | |- wp (if decide ?P then _ else _) _ _ => destruct (decide P)
  | |- wp (let '(_, _) := ?x in _) _ _ => destruct x as [? ?] eqn:?
  | |- wp (match ?x with _ => _ end) _ _ => destruct x eqn:?
  end; cbn beta iota.

Ltac wp_steps := repeat wp_step.
