(* ===== verification/GoLib.v ===== *)
(** * Go standard library functions used by the runtime

    The parts of [strings], [path/filepath], [strconv] and [encoding/hex] the
    sources call, on byte strings, with the relational characterisations the
    component proofs use.  [filepath] is the Unix variant. *)

From Stdlib Require Import Ascii.
From stdpp Require Import base tactics option list strings numbers pretty.
From S2P Require Import Prelude.

(** ** strings *)

(** [strings.CutPrefix]: what follows the prefix. *)
Fixpoint strip_prefix (p s : string) : option string :=
  match p, s with
  | EmptyString, _ => Some s
  | String a p', String b s' => if decide (a = b) then strip_prefix p' s' else None
  | String _ _, EmptyString => None
  end.

Lemma strip_prefix_Some p s r : strip_prefix p s = Some r ↔ s = p +:+ r.
Proof.
  revert s. induction p as [|a p IH]; intros s; simpl.
  - split; [by intros [= ->]|by intros ->].
  - destruct s as [|b s]; [split; [done|by rewrite string_app_cons]|].
    rewrite string_app_cons. case_decide as Hab.
    + subst. rewrite IH. split; [by intros ->|by intros [= ->]].
    + split; [done|]. by intros [= -> _].
Qed.

Definition HasPrefix (s p : string) : bool := bool_decide (is_Some (strip_prefix p s)).

Lemma HasPrefix_true s p : HasPrefix s p = true ↔ ∃ r, s = p +:+ r.
Proof.
  unfold HasPrefix. rewrite bool_decide_eq_true. split.
  - intros [r Hr]. exists r. by apply strip_prefix_Some.
  - intros [r Hr]. exists r. by apply strip_prefix_Some.
Qed.

(** What precedes a suffix. *)
Fixpoint strip_suffix (suf s : string) : option string :=
  if decide (s = suf) then Some EmptyString
  else match s with
       | EmptyString => None
       | String c s' => String c <$> strip_suffix suf s'
       end.

Lemma strip_suffix_Some suf s b : strip_suffix suf s = Some b ↔ s = b +:+ suf.
Proof.
  revert b. induction s as [|c s IH]; intros b; simpl.
  - case_decide as Hd.
    + subst. split; [by intros [= <-]|].
      destruct b; [done|]. by rewrite string_app_cons.
    + split; [done|]. intros H. destruct b; [done|]. by rewrite string_app_cons in H.
  - case_decide as Hd.
    + subst. split; [by intros [= <-]|].
      intros H. assert (len (String c s) = len b + len (String c s))%Z as Hl.
      { by rewrite <- len_app, <- H. }
      destruct b as [|b0 b1]; [done|]. unfold len in Hl. simpl in Hl. lia.
    + rewrite fmap_Some. split.
      * intros (b' & Hb' & ->). rewrite string_app_cons. f_equal. by apply IH.
      * intros H. destruct b as [|b0 b']; [done|].
        rewrite string_app_cons in H. injection H as -> H.
        exists b'. split; [by apply IH|done].
Qed.

Definition HasSuffix (s suf : string) : bool := bool_decide (is_Some (strip_suffix suf s)).

Definition TrimSuffix (s suf : string) : string := default s (strip_suffix suf s).

Lemma TrimSuffix_app b suf : TrimSuffix (b +:+ suf) suf = b.
Proof.
  unfold TrimSuffix.
  destruct (strip_suffix suf (b +:+ suf)) as [x|] eqn:H.
  - apply strip_suffix_Some in H. simpl.
    assert (∀ x y : string, x +:+ suf = y +:+ suf → x = y) as Hinj.
    { clear. induction x as [|a x IH]; intros [|c y] E; [done| | |].
      - exfalso. assert (len suf = len (String c y) + len suf)%Z as Hl.
        { by rewrite <- len_app, <- E. }
        unfold len in Hl. simpl in Hl. lia.
      - exfalso. assert (len suf = len (String a x) + len suf)%Z as Hl.
        { by rewrite <- len_app, E. }
        unfold len in Hl. simpl in Hl. lia.
      - rewrite !string_app_cons in E. injection E as -> E. f_equal. by apply IH. }
    symmetry. by apply Hinj.
  - assert (strip_suffix suf (b +:+ suf) = Some b) as E by (by apply strip_suffix_Some).
    congruence.
Qed.

Lemma HasSuffix_true s suf : HasSuffix s suf = true ↔ s = TrimSuffix s suf +:+ suf.
Proof.
  unfold HasSuffix, TrimSuffix. rewrite bool_decide_eq_true. split.
  - intros [b Hb]. rewrite Hb. simpl. by apply strip_suffix_Some.
  - intros H. destruct (strip_suffix suf s) as [b|] eqn:E; [by exists b|]. simpl in H.
    apply strip_suffix_Some in H. congruence.
Qed.

(** [strings.ContainsAny] with a predicate for the character set. *)
Fixpoint contains_byte (P : Ascii.ascii → bool) (s : string) : bool :=
  match s with
  | EmptyString => false
  | String c s => P c || contains_byte P s
  end.

(** The bytes of a set given as a string. *)
Fixpoint one_of (set : string) (c : Ascii.ascii) : bool :=
  match set with
  | EmptyString => false
  | String d set => bool_decide (c = d) || one_of set c
  end.

(** ASCII case folding; [strings.EqualFold] and [strings.ToUpper] on ASCII. *)
Definition lower_ascii (c : Ascii.ascii) : Ascii.ascii :=
  let n := Ascii.nat_of_ascii c in
  if decide (65 ≤ n ∧ n ≤ 90) then Ascii.ascii_of_nat (n + 32) else c.

Fixpoint ToLower (s : string) : string :=
  match s with
  | EmptyString => EmptyString
  | String c s => String (lower_ascii c) (ToLower s)
  end.

Definition EqualFold (s t : string) : bool := bool_decide (ToLower s = ToLower t).

Definition is_space (c : Ascii.ascii) : bool :=
  let n := Ascii.nat_of_ascii c in
  bool_decide (n = 32 ∨ (9 ≤ n ∧ n ≤ 13)).

(** [strings.TrimSpace (s) == ""]: the text consists of Unicode white space, in
    UTF-8 (U+0085, U+00A0, U+1680, U+2000 to U+200A, U+2028, U+2029, U+202F,
    U+205F and U+3000 besides the ASCII ones). *)
Fixpoint all_space (s : string) : bool :=
  match s with
  | EmptyString => true
  | String "194"%char (String c r) =>
      one_of (String "133" (String "160" "")) c && all_space r
  | String "225"%char (String "154"%char (String "128"%char r)) => all_space r
  | String "226"%char (String "128"%char (String c r)) =>
      bool_decide (128 ≤ Ascii.nat_of_ascii c ∧ Ascii.nat_of_ascii c ≤ 138
                   ∨ Ascii.nat_of_ascii c ∈ [168; 169; 175]) && all_space r
  | String "226"%char (String "129"%char (String "159"%char r)) => all_space r
  | String "227"%char (String "128"%char (String "128"%char r)) => all_space r
  | String c r => is_space c && all_space r
  end.

(** ** path/filepath (Unix) *)

Definition slash : Ascii.ascii := "/"%char.

Fixpoint split_slash (s : string) : list string :=
  match s with
  | EmptyString => [EmptyString]
  | String c s =>
      if decide (c = slash) then EmptyString :: split_slash s
      else match split_slash s with
           | [] => [String c EmptyString]
           | h :: t => String c h :: t
           end
  end.

Definition IsAbs (p : string) : bool := HasPrefix p "/".

(** One step of [filepath.Clean] over the path's components; the stack holds the
    kept components, last first. *)
Definition clean_step (rooted : bool) (stack : list string) (c : string) : list string :=
  if decide (c = "" ∨ c = ".") then stack
  else if decide (c = "..") then
    match stack with
    | top :: rest => if decide (top = "..") then ".." :: stack else rest
    | [] => if rooted then [] else [".."]
    end
  else c :: stack.

Definition Clean (p : string) : string :=
  if decide (p = "") then "."
  else
    let rooted := IsAbs p in
    let comps := rev (fold_left (clean_step rooted) (split_slash p) []) in
    if rooted then "/" +:+ String.concat "/" comps
    else match comps with [] => "." | _ => String.concat "/" comps end.

(** A component that names one directory entry. *)
Definition no_slash (s : string) : bool := negb (contains_byte (λ c, bool_decide (c = slash)) s).
Definition normal (c : string) : Prop := no_slash c = true ∧ c ≠ "" ∧ c ≠ "." ∧ c ≠ "..".

Lemma split_slash_no_slash p : Forall (λ c, no_slash c = true) (split_slash p).
Proof.
  induction p as [|c p IH]; simpl; [by repeat constructor|].
  case_decide as Hc; [by constructor|].
  destruct (split_slash p) as [|h t].
  - repeat constructor. unfold no_slash. simpl. by rewrite bool_decide_eq_false_2.
  - apply Forall_cons_1 in IH as [Hh Ht]. constructor; [|done].
    unfold no_slash in *. simpl. by rewrite bool_decide_eq_false_2.
Qed.

Lemma no_slash_cons c a : no_slash (String c a) = true ↔ c ≠ slash ∧ no_slash a = true.
Proof.
  unfold no_slash. simpl. case_bool_decide; simpl; split; try done; [|tauto]. by intros [? _].
Qed.

Lemma split_slash_single a : no_slash a = true → split_slash a = [a].
Proof.
  induction a as [|c a IH]; [done|]. intros [Hc Ha]%no_slash_cons. cbn [split_slash].
  rewrite decide_False by done. by rewrite IH.
Qed.

Lemma split_slash_app a b :
  no_slash a = true → split_slash (a +:+ "/" +:+ b) = a :: split_slash b.
Proof.
  induction a as [|c a IH]; [done|]. intros [Hc Ha]%no_slash_cons.
  rewrite string_app_cons. cbn [split_slash]. rewrite decide_False by done. by rewrite IH.
Qed.

Lemma concat_cons c cs :
  cs ≠ [] → String.concat "/" (c :: cs) = c +:+ "/" +:+ String.concat "/" cs.
Proof. by destruct cs. Qed.

Lemma split_slash_concat cs :
  Forall (λ c, no_slash c = true) cs → cs ≠ [] → split_slash (String.concat "/" cs) = cs.
Proof.
  induction 1 as [|c cs Hc Hcs IH]; [done|]. intros _.
  destruct (decide (cs = [])) as [->|Hne]; [by apply split_slash_single|].
  rewrite concat_cons, split_slash_app by done. by rewrite IH.
Qed.

Lemma clean_step_normal stack c :
  Forall normal stack → no_slash c = true → Forall normal (clean_step true stack c).
Proof.
  intros Hs Hc. unfold clean_step.
  case_decide as H1; [done|]. case_decide as H2.
  - destruct stack as [|top rest]; [done|]. apply Forall_cons_1 in Hs as [Ht Hr].
    rewrite decide_False; [done|]. by destruct Ht as (? & ? & ? & ?).
  - constructor; [|done]. unfold normal. tauto.
Qed.

Lemma clean_fold_normal cs : ∀ stack,
  Forall normal stack → Forall (λ c, no_slash c = true) cs →
  Forall normal (fold_left (clean_step true) cs stack).
Proof.
  induction cs as [|c cs IH]; intros stack Hs Hcs; simpl; [done|].
  apply Forall_cons_1 in Hcs as [Hc Hcs]. apply IH; [|done]. by apply clean_step_normal.
Qed.

(** An absolute path that [filepath.Clean] leaves alone is the root or a list of
    proper entry names: it has no empty, dot or dot-dot component. *)
Lemma clean_abs_components p :
  IsAbs p = true → Clean p = p →
  p = "/" ∨ ∃ cs, cs ≠ [] ∧ split_slash p = "" :: cs ∧ Forall normal cs.
Proof.
  intros Habs Hclean. unfold Clean in Hclean. rewrite Habs in Hclean.
  case_decide as Hp; [by subst|].
  set (cs := rev (fold_left (clean_step true) (split_slash p) [])) in *.
  assert (Forall normal cs) as Hn.
  { apply Forall_rev, clean_fold_normal; [done|apply split_slash_no_slash]. }
  destruct (decide (cs = [])) as [E|Hne].
  - left. by rewrite E in Hclean.
  - right. exists cs. split; [done|]. split; [|done].
    rewrite <- Hclean. change (split_slash (String slash (String.concat "/" cs)) = "" :: cs).
    simpl. f_equal. apply split_slash_concat; [|done].
    eapply Forall_impl; [exact Hn|]. by intros ? (? & _).
Qed.

Lemma clean_abs_no_dotdot p :
  IsAbs p = true → Clean p = p → ".." ∉ split_slash p.
Proof.
  intros Habs Hc. destruct (clean_abs_components p Habs Hc) as [->|(cs & _ & E & Hn)].
  - change (split_slash "/") with ["" : string; ""]. 
    by intros [?|[?|?%elem_of_nil]%elem_of_cons]%elem_of_cons.
  - rewrite E. intros [?|Hin]%elem_of_cons; [done|].
    rewrite Forall_forall in Hn. by destruct (Hn _ Hin) as (_ & _ & _ & ?).
Qed.

(** ** encoding/hex and the UUID layout of the identifiers *)

Definition hex_digit (n : Z) : Ascii.ascii :=
  Ascii.ascii_of_nat (Z.to_nat (if decide (n < 10)%Z then 48 + n else 87 + n)%Z).

Definition hex_byte (b : Z) : string :=
  String (hex_digit (b `div` 16)%Z) (String (hex_digit (b `mod` 16)%Z) EmptyString).

Definition hex_encode (bs : list Z) : string := foldr (λ b acc, hex_byte b +:+ acc) "" bs.

(** ** sort.Strings *)

Definition string_le (a b : string) : Prop := String.leb a b = true.

Global Instance string_le_dec : RelDecision string_le.
Proof. intros a b. unfold string_le. apply _. Defined.
