(* ===== verification/Json.v ===== *)
(** * encoding/json, as far as the runtime uses it

    Message payloads are raw bytes that the supervisor validates
    ([json.Valid]), normalises ([json.Marshal] of a [json.RawMessage], which
    drops white space and escapes HTML characters) and reads single fields of
    ([json.Unmarshal] into a small struct).  This file holds an executable
    definition of these functions: a recursive-descent reader with the grammar,
    nesting limit and UTF-8 treatment of Go's decoder, the compactor, and the
    encoder for the structs the sources marshal. *)

From Stdlib Require Import Ascii.
From stdpp Require Import base tactics option list sets strings numbers pretty.
From S2P Require Import Prelude GoLib.

#[warnings="-register-all"]
Inductive json : Type :=
  | JNull
  | JBool (b : bool)
  | JNum (literal : string)
  | JStr (s : string)
  | JArr (elems : list json)
  | JObj (members : list (string * json)).

(** ** Characters *)

Definition quote : ascii := "034"%char.
Definition backslash : ascii := "092"%char.
Definition code (c : ascii) : Z := Z.of_nat (nat_of_ascii c).
Definition of_code (z : Z) : ascii := ascii_of_nat (Z.to_nat z).
Definition between (lo hi : Z) (c : ascii) : bool := bool_decide (lo ≤ code c ∧ code c ≤ hi)%Z.
Definition is_digit (c : ascii) : bool := between 48 57 c.
Definition is_ws (c : ascii) : bool :=
  bool_decide (code c = 32 ∨ code c = 9 ∨ code c = 10 ∨ code c = 13)%Z.

Definition hex_value (c : ascii) : option Z :=
  if is_digit c then Some (code c - 48)%Z
  else if between 97 102 c then Some (code c - 87)%Z
  else if between 65 70 c then Some (code c - 55)%Z
  else None.

Definition hex4 (a b c d : ascii) : option Z :=
  a ← hex_value a; b ← hex_value b; c ← hex_value c; d ← hex_value d;
  Some (((a * 16 + b) * 16 + c) * 16 + d)%Z.

Fixpoint skip_ws (s : string) : string :=
  match s with
  | String c r => if is_ws c then skip_ws r else s
  | EmptyString => s
  end.

(** ** UTF-8 *)

(** Number of bytes of the valid encoding at the front of [s]; 0 when there is
    none ([utf8.DecodeRune] reports [RuneError] with width 1). *)
Definition cont (lo hi : Z) (s : string) : bool :=
  match s with String c _ => between lo hi c | EmptyString => false end.
Definition tail (s : string) : string := match s with String _ r => r | EmptyString => s end.

Definition utf8_len (s : string) : nat :=
  match s with
  | EmptyString => 0
  | String c r =>
      let any := cont 128 191 in
      let r2 := tail r in let r3 := tail r2 in
      if between 0 127 c then 1
      else if between 194 223 c then if any r then 2 else 0
      else if between 224 224 c then if cont 160 191 r && any r2 then 3 else 0
      else if between 237 237 c then if cont 128 159 r && any r2 then 3 else 0
      else if between 225 239 c then if any r && any r2 then 3 else 0
      else if between 240 240 c then if cont 144 191 r && any r2 && any r3 then 4 else 0
      else if between 241 243 c then if any r && any r2 && any r3 then 4 else 0
      else if between 244 244 c then if cont 128 143 r && any r2 && any r3 then 4 else 0
      else 0
  end.

Definition replacement : string :=
  String (of_code 239) (String (of_code 191) (String (of_code 189) "")).

(** [utf8.AppendRune]. *)
Definition encode_rune (r : Z) : string :=
  if decide (r < 128)%Z then String (of_code r) ""
  else if decide (r < 2048)%Z then
    String (of_code (192 + r `div` 64)) (String (of_code (128 + r `mod` 64)) "")
  else if decide (r < 65536)%Z then
    String (of_code (224 + r `div` 4096))
      (String (of_code (128 + (r `div` 64) `mod` 64)) (String (of_code (128 + r `mod` 64)) ""))
  else
    String (of_code (240 + r `div` 262144))
      (String (of_code (128 + (r `div` 4096) `mod` 64))
        (String (of_code (128 + (r `div` 64) `mod` 64)) (String (of_code (128 + r `mod` 64)) ""))).

(** ** Reading *)

(** The bytes between the quotes of a string literal, escapes checked but kept,
    and what follows the closing quote. *)
Fixpoint scan_string (s : string) : option (string * string) :=
  match s with
  | EmptyString => None
  | String c r =>
      if decide (c = quote) then Some ("", r)
      else if decide (c = backslash) then
        match r with
        | String e r1 =>
            if one_of "\/bfnrt" e || bool_decide (e = quote) then
              '(raw, rest) ← scan_string r1; Some (String c (String e raw), rest)
            else if decide (e = "u"%char) then
              match r1 with
              | String h1 (String h2 (String h3 (String h4 r2))) =>
                  _ ← hex4 h1 h2 h3 h4;
                  '(raw, rest) ← scan_string r2;
                  Some (String c (String e (String h1 (String h2 (String h3 (String h4 raw))))), rest)
              | _ => None
              end
            else None
        | EmptyString => None
        end
      else if decide (code c < 32)%Z then None
      else '(raw, rest) ← scan_string r; Some (String c raw, rest)
  end.

Definition simple_escape (e : ascii) : ascii :=
  if decide (e = "b"%char) then of_code 8
  else if decide (e = "f"%char) then of_code 12
  else if decide (e = "n"%char) then of_code 10
  else if decide (e = "r"%char) then of_code 13
  else if decide (e = "t"%char) then of_code 9
  else e.

(** The decoded value of a string literal's bytes; [copy] counts the bytes of the
    current valid UTF-8 sequence still to be copied. *)
Fixpoint unquote (copy : nat) (s : string) : string :=
  match s with
  | EmptyString => ""
  | String c r =>
      match copy with
      | S n => String c (unquote n r)
      | 0 =>
          if decide (c = backslash) then
            match r with
            | String "u"%char (String a (String b (String c' (String d r1)))) =>
                match hex4 a b c' d with
                | None => ""
                | Some hi =>
                    if decide (55296 ≤ hi ∧ hi ≤ 57343)%Z then
                      match r1 with
                      | String "092"%char (String "u"%char (String e (String f (String g (String h r2))))) =>
                          match hex4 e f g h with
                          | Some lo =>
                              if decide (hi ≤ 56319 ∧ 56320 ≤ lo ∧ lo ≤ 57343)%Z then
                                encode_rune (65536 + (hi - 55296) * 1024 + (lo - 56320)) +:+ unquote 0 r2
                              else replacement +:+ unquote 0 r1
                          | None => replacement +:+ unquote 0 r1
                          end
                      | _ => replacement +:+ unquote 0 r1
                      end
                    else encode_rune hi +:+ unquote 0 r1
                end
            | String e r1 => String (simple_escape e) (unquote 0 r1)
            | EmptyString => ""
            end
          else
            match utf8_len s with
            | 0 => replacement +:+ unquote 0 r
            | S n => String c (unquote n r)
            end
      end
  end.

Fixpoint digits (s : string) : string * string :=
  match s with
  | String c r => if is_digit c then let '(d, rest) := digits r in (String c d, rest) else ("", s)
  | EmptyString => ("", "")
  end.

Definition digits1 (s : string) : option (string * string) :=
  let '(d, rest) := digits s in if decide (d = "") then None else Some (d, rest).

Definition scan_number (s : string) : option (string * string) :=
  let '(sign, s1) := match s with String "-"%char r => ("-", r) | _ => ("", s) end in
  '(int, s2) ← match s1 with
               | String "0"%char r => Some ("0", r)
               | _ => digits1 s1
               end;
  '(frac, s3) ← match s2 with
                | String "."%char r => '(d, rest) ← digits1 r; Some ("." +:+ d, rest)
                | _ => Some ("", s2)
                end;
  '(exp, s4) ← match s3 with
               | String c r =>
                   if one_of "eE" c then
                     let '(es, r1) := match r with
                                      | String x r' => if one_of "+-" x then (String x "", r') else ("", r)
                                      | EmptyString => ("", r)
                                      end in
                     '(d, rest) ← digits1 r1; Some (String c (es +:+ d), rest)
                   else Some ("", s3)
               | EmptyString => Some ("", s3)
               end;
  Some (sign +:+ int +:+ frac +:+ exp, s4).

Definition maxNestingDepth : Z := 10000.

(** The text after an expected byte. *)
Definition expect (c : ascii) (s : string) : option string :=
  match s with
  | String d r => if decide (d = c) then Some r else None
  | EmptyString => None
  end.

(** A value, the members of an object after the opening brace, and the elements
    of an array after the opening bracket.  Every call but the first one of
    [value] from [elements] consumes a byte, so fuel of twice the length of the
    text plus two is never used up. *)
Fixpoint value (fuel : nat) (depth : Z) (s : string) : option (json * string) :=
  match fuel with
  | 0 => None
  | S fuel =>
      let s := skip_ws s in
      match s with
      | EmptyString => None
      | String c r =>
          if decide (c = "{"%char) then
            if decide (maxNestingDepth ≤ depth)%Z then None
            else match expect "}" (skip_ws r) with
                 | Some r1 => Some (JObj [], r1)
                 | None => '(ms, rest) ← members fuel (depth + 1) r; Some (JObj ms, rest)
                 end
          else if decide (c = "["%char) then
            if decide (maxNestingDepth ≤ depth)%Z then None
            else match expect "]" (skip_ws r) with
                 | Some r1 => Some (JArr [], r1)
                 | None => '(es, rest) ← elements fuel (depth + 1) r; Some (JArr es, rest)
                 end
          else if decide (c = quote) then
            '(raw, rest) ← scan_string r; Some (JStr (unquote 0 raw), rest)
          else match strip_prefix "null" s, strip_prefix "true" s, strip_prefix "false" s with
               | Some rest, _, _ => Some (JNull, rest)
               | _, Some rest, _ => Some (JBool true, rest)
               | _, _, Some rest => Some (JBool false, rest)
               | None, None, None => '(lit, rest) ← scan_number s; Some (JNum lit, rest)
               end
      end
  end
with members (fuel : nat) (depth : Z) (s : string) : option (list (string * json) * string) :=
  match fuel with
  | 0 => None
  | S fuel =>
      r ← expect quote (skip_ws s);
      '(raw, r1) ← scan_string r;
      r2 ← expect ":" (skip_ws r1);
      '(v, r3) ← value fuel depth r2;
      match expect "," (skip_ws r3) with
      | Some r4 => '(ms, rest) ← members fuel depth r4; Some ((unquote 0 raw, v) :: ms, rest)
      | None => r4 ← expect "}" (skip_ws r3); Some ([(unquote 0 raw, v)], r4)
      end
  end
with elements (fuel : nat) (depth : Z) (s : string) : option (list json * string) :=
  match fuel with
  | 0 => None
  | S fuel =>
      '(v, r1) ← value fuel depth s;
      match expect "," (skip_ws r1) with
      | Some r2 => '(es, rest) ← elements fuel depth r2; Some (v :: es, rest)
      | None => r2 ← expect "]" (skip_ws r1); Some ([v], r2)
      end
  end.

Definition parse (s : string) : option json :=
  match value (2 * String.length s + 2) 0 s with
  | Some (v, rest) => if decide (skip_ws rest = "") then Some v else None
  | None => None
  end.

(** [json.Valid]. *)
Definition json_valid (s : string) : bool := bool_decide (is_Some (parse s)).

(** ** Normalising raw messages *)

Definition u_escape (hex : string) : string := String backslash (String "u"%char hex).

Definition html_escape (c : ascii) : option string :=
  if decide (c = "<"%char) then Some (u_escape "003c")
  else if decide (c = ">"%char) then Some (u_escape "003e")
  else if decide (c = "&"%char) then Some (u_escape "0026")
  else None.

(** U+2028 and U+2029 in UTF-8. *)
Definition line_separator (s : string) : option string :=
  match s with
  | String a r =>
      if decide (a = "226"%char) then
        match r with
        | String b (String c _) =>
            if decide (b = "128"%char ∧ c = "168"%char) then Some (u_escape "2028")
            else if decide (b = "128"%char ∧ c = "169"%char) then Some (u_escape "2029")
            else None
        | _ => None
        end
      else None
  | EmptyString => None
  end.

(** Where the compactor stands: outside a string, inside one, after a backslash,
    or with bytes of a replaced separator left to drop. *)
Inductive compact_state : Type := Outside | Inside | Escaped | Skip2 | Skip1.

(** [json.Marshal] of a [json.RawMessage]: white space outside strings dropped,
    HTML characters and the line separators U+2028 and U+2029 escaped. *)
Fixpoint compact_from (st : compact_state) (s : string) : string :=
  match s with
  | EmptyString => ""
  | String c r =>
      match st with
      | Outside =>
          if is_ws c then compact_from Outside r
          else String c (compact_from (if decide (c = quote) then Inside else Outside) r)
      | Escaped => String c (compact_from Inside r)
      | Skip2 => compact_from Skip1 r
      | Skip1 => compact_from Inside r
      | Inside =>
          if decide (c = backslash) then String c (compact_from Escaped r)
          else if decide (c = quote) then String c (compact_from Outside r)
          else match html_escape c, line_separator s with
               | Some esc, _ => esc +:+ compact_from Inside r
               | None, Some esc => esc +:+ compact_from Skip2 r
               | None, None => String c (compact_from Inside r)
               end
      end
  end.

Definition json_compact (s : string) : string := compact_from Outside s.

(** ** Reading struct fields

    A member of the object sets a field when its name equals the field's under
    Unicode simple folding; a later member overrides an earlier one, [null]
    leaves the field alone, and a value of another type leaves it alone and
    makes [Unmarshal] report an error at the end. *)

Fixpoint fold_name (s : string) : string :=
  match s with
  | EmptyString => ""
  | String "197"%char (String "191"%char r) => String "s"%char (fold_name r)
  | String "226"%char (String "132"%char (String "170"%char r)) => String "k"%char (fold_name r)
  | String c r => String (lower_ascii c) (fold_name r)
  end.

Definition field_match (name key : string) : bool := bool_decide (fold_name key = name).

Section decode_field.
Context {A : Type} (set : json → option A).

Definition decode_member (name : string) (acc : A * bool) (kv : string * json) : A * bool :=
  if field_match name (fst kv) then
    match snd kv with
    | JNull => acc
    | v => match set v with Some x => (x, snd acc) | None => (fst acc, false) end
    end
  else acc.

(** The field's value after [Unmarshal], and whether it met a type error. *)
Definition decode_field (name : string) (zero : A) (v : option json) : A * bool :=
  match v with
  | Some (JObj ms) => fold_left (decode_member name) ms (zero, true)
  | Some JNull => (zero, true)
  | _ => (zero, false)
  end.
End decode_field.

Definition as_string (v : json) : option string :=
  match v with JStr s => Some s | _ => None end.

Fixpoint decimal (acc : Z) (s : string) : option Z :=
  match s with
  | EmptyString => Some acc
  | String c r => if is_digit c then decimal (acc * 10 + (code c - 48)) r else None
  end.

(** [strconv.ParseUint (s, 10, 64)]. *)
Definition ParseUint (s : string) : option Z :=
  if decide (s = "") then None
  else n ← decimal 0 s; if decide (n ≤ MaxUint64)%Z then Some n else None.

Definition as_uint64 (v : json) : option Z :=
  match v with JNum lit => ParseUint lit | _ => None end.

(** [strconv.ParseInt (s, 10, 64)]. *)
Definition ParseInt (s : string) : option Z :=
  let '(sign, s) := match strip_prefix "-" s with Some r => (-1, r)%Z | None => (1%Z, s) end in
  if decide (s = "") then None
  else n ← decimal 0 s;
       if decide (-9223372036854775808 ≤ sign * n ≤ 9223372036854775807)%Z then Some (sign * n)%Z else None.

Definition as_int64 (v : json) : option Z :=
  match v with JNum lit => ParseInt lit | _ => None end.

Definition string_field (name payload : string) : string * bool :=
  decode_field as_string name "" (parse payload).
Definition uint64_field (name payload : string) : Z * bool :=
  decode_field as_uint64 name 0%Z (parse payload).

(** ** Encoding *)

Definition control_escape (c : ascii) : string :=
  if decide (code c = 8)%Z then "\b"
  else if decide (code c = 12)%Z then "\f"
  else if decide (code c = 10)%Z then "\n"
  else if decide (code c = 13)%Z then "\r"
  else if decide (code c = 9)%Z then "\t"
  else u_escape "00" +:+ hex_byte (code c).

(** The body of a string literal; [copy] and [drop] count bytes of the current
    UTF-8 sequence to be copied, or left out because already escaped. *)
Fixpoint quote_body (copy drop : nat) (s : string) : string :=
  match s with
  | EmptyString => ""
  | String c r =>
      match drop, copy with
      | S n, _ => quote_body 0 n r
      | 0, S n => String c (quote_body n 0 r)
      | 0, 0 =>
          if decide (code c < 128)%Z then
            if decide (c = quote ∨ c = backslash) then String backslash (String c (quote_body 0 0 r))
            else if decide (code c < 32)%Z then control_escape c +:+ quote_body 0 0 r
            else match html_escape c with
                 | Some esc => esc +:+ quote_body 0 0 r
                 | None => String c (quote_body 0 0 r)
                 end
          else match utf8_len s with
               | 0 => u_escape "fffd" +:+ quote_body 0 0 r
               | S n =>
                   match line_separator s with
                   | Some esc => esc +:+ quote_body 0 n r
                   | None => String c (quote_body n 0 r)
                   end
               end
      end
  end.

Definition json_quote (s : string) : string :=
  String quote (quote_body 0 0 s +:+ String quote "").

Fixpoint join_comma (l : list string) : string :=
  match l with
  | [] => ""
  | [x] => x
  | x :: l => x +:+ "," +:+ join_comma l
  end.

(** Object and array literals from already encoded parts. *)
Definition obj_literal (fields : list (string * string)) : string :=
  "{" +:+ join_comma ((λ kv, json_quote (fst kv) +:+ ":" +:+ snd kv) <$> fields) +:+ "}".
Definition arr_literal (elems : list string) : string := "[" +:+ join_comma elems +:+ "]".

Definition json_int (z : Z) : string := pretty z.

(** ** Printing and the round trip

    [print] is the encoding without white space.  Reading it back gives the same
    value, for values whose strings are valid UTF-8 and whose numbers are
    integer literals: the form of every structure the runtime stores for itself
    (identifiers, hashes, counters). *)

Fixpoint print (v : json) : string :=
  match v with
  | JNull => "null"
  | JBool true => "true"
  | JBool false => "false"
  | JNum lit => lit
  | JStr s => json_quote s
  | JArr es => arr_literal (map print es)
  | JObj ms => "{" +:+ join_comma (map (λ kv, json_quote (fst kv) +:+ ":" +:+ print (snd kv)) ms) +:+ "}"
  end.

Definition plain_char (c : ascii) : bool :=
  between 32 126 c && negb (bool_decide (c = quote ∨ c = backslash))
  && negb (one_of "<>&" c).

Fixpoint plain (s : string) : bool :=
  match s with
  | EmptyString => true
  | String c s => plain_char c && plain s
  end.

Lemma plain_char_spec c :
  plain_char c = true →
  c ≠ quote ∧ c ≠ backslash ∧ (32 ≤ code c < 127)%Z ∧ html_escape c = None.
Proof.
  unfold plain_char, between. rewrite !andb_true_iff, !negb_true_iff, bool_decide_eq_true, bool_decide_eq_false.
  intros [[Hr Hq] Ho]. split_and!; [tauto|tauto|lia|lia|].
  unfold html_escape. simpl in Ho. repeat rewrite orb_false_iff in Ho.
  destruct Ho as (H1%bool_decide_eq_false & H2%bool_decide_eq_false & H3%bool_decide_eq_false & _).
  by rewrite !decide_False.
Qed.

Lemma quote_body_plain s : plain s = true → quote_body 0 0 s = s.
Proof.
  induction s as [|c s IH]; simpl; [done|]. intros [Hc Hs]%andb_true_iff.
  apply plain_char_spec in Hc as (Hq & Hb & Hr & Hh).
  rewrite decide_True by lia. rewrite decide_False by tauto. rewrite decide_False by lia.
  rewrite Hh. by rewrite IH.
Qed.

(** *** Strings

    A string literal is read back as the string it was made from when that is
    valid UTF-8; for other strings it is still one literal. *)

(** Valid UTF-8, after [skip] more bytes of the current sequence. *)
Fixpoint utf8_valid (skip : nat) (s : string) : bool :=
  match s with
  | EmptyString => bool_decide (skip = 0)
  | String _ r =>
      match skip with
      | S n => utf8_valid n r
      | 0 => match utf8_len s with 0 => false | S n => utf8_valid n r end
      end
  end.
Definition utf8 (s : string) : bool := utf8_valid 0 s.

(** The first [n] bytes are not ASCII. *)
Fixpoint high (n : nat) (s : string) : bool :=
  match n, s with
  | 0, _ => true
  | S n, String c r => bool_decide (128 ≤ code c)%Z && high n r
  | S n, EmptyString => false
  end.

Lemma cont_high lo hi s : (128 ≤ lo)%Z → cont lo hi s = true → ∃ c r, s = String c r ∧ (128 ≤ code c)%Z.
Proof.
  intros Hlo. destruct s as [|c r]; [done|]. unfold cont, between. intros H%bool_decide_eq_true.
  exists c, r. split; [done|lia].
Qed.

Lemma utf8_len_high c r n : utf8_len (String c r) = S n → high n r = true.
Proof.
  unfold utf8_len. intros H.
  repeat case_match; simplify_eq; try done;
  repeat match goal with
  | H : _ && _ = true |- _ => apply andb_true_iff in H as [? ?]
  | H : cont _ _ ?s = true |- _ => apply cont_high in H as (? & ? & ? & ?); [|lia]; simplify_eq/=
  end; cbn [high]; rewrite ?bool_decide_true by lia; done.
Qed.

Lemma utf8_len_ascii c r : (code c < 128)%Z → utf8_len (String c r) = 1.
Proof.
  intros H. unfold utf8_len, between. rewrite bool_decide_true; [done|].
  unfold code in *. lia.
Qed.

Lemma scan_escape c X :
  (code c < 32)%Z →
  scan_string (control_escape c +:+ X) = '(raw, rest) ← scan_string X; Some (control_escape c +:+ raw, rest).
Proof.
  destruct c as [[] [] [] [] [] [] [] []]; intros H; first [by vm_compute in H|reflexivity].
Qed.

Lemma scan_u_escape a b c d X :
  is_Some (hex4 a b c d) →
  scan_string (u_escape (String a (String b (String c (String d "")))) +:+ X) =
    '(raw, rest) ← scan_string X; Some (u_escape (String a (String b (String c (String d "")))) +:+ raw, rest).
Proof. intros [z Hz]. unfold u_escape. rewrite !string_app_cons. cbn [scan_string]. simpl. by rewrite Hz. Qed.

Lemma scan_char c X :
  c ≠ quote → c ≠ backslash → (32 ≤ code c)%Z →
  scan_string (String c X) = '(raw, rest) ← scan_string X; Some (String c raw, rest).
Proof. intros. cbn [scan_string]. rewrite !decide_False by (done || lia). done. Qed.

Lemma high_char c : (128 ≤ code c)%Z → c ≠ quote ∧ c ≠ backslash ∧ (32 ≤ code c)%Z.
Proof. intros H. split_and!; [by intros ->|by intros ->|lia]. Qed.

Lemma html_escape_scan c esc X :
  html_escape c = Some esc →
  scan_string (esc +:+ X) = '(raw, rest) ← scan_string X; Some (esc +:+ raw, rest).
Proof. unfold html_escape. intros H. repeat case_decide; simplify_eq; by apply scan_u_escape. Qed.

Lemma line_separator_scan s esc X :
  line_separator s = Some esc →
  scan_string (esc +:+ X) = '(raw, rest) ← scan_string X; Some (esc +:+ raw, rest).
Proof.
  unfold line_separator. intros H. repeat case_match; simplify_eq; by apply scan_u_escape.
Qed.

Lemma scan_quote_body s : ∀ copy drop rest, high copy s = true →
  scan_string (quote_body copy drop s +:+ String quote rest) = Some (quote_body copy drop s, rest).
Proof.
  induction s as [|c s IH]; intros copy drop rest Hh; cbn [quote_body]; [done|].
  destruct drop as [|drop]; [|by apply IH].
  destruct copy as [|copy].
  - case_decide.
    + case_decide.
      * rewrite !string_app_cons. cbn [scan_string]. rewrite decide_False by done. rewrite decide_True by done.
        assert (one_of "\/bfnrt" c || bool_decide (c = quote) = true) as -> by (destruct_or!; by subst).
        by rewrite IH.
      * case_decide; [rewrite <-string_app_assoc, scan_escape, IH by done; done|].
        destruct (html_escape c) as [esc|] eqn:Hesc.
        -- rewrite <-string_app_assoc, (html_escape_scan _ _ _ Hesc), IH by done. done.
        -- rewrite string_app_cons, scan_char, IH by (tauto || lia || done). done.
    + destruct (utf8_len (String c s)) as [|n] eqn:Hn.
      * rewrite <-string_app_assoc, scan_u_escape, IH by (done || by eexists). done.
      * apply utf8_len_high in Hn. destruct (line_separator (String c s)) as [esc|] eqn:Hesc.
        -- rewrite <-string_app_assoc, (line_separator_scan _ _ _ Hesc), IH by done. done.
        -- destruct (high_char c) as (? & ? & ?); [lia|]. rewrite string_app_cons, scan_char, IH by done. done.
  - cbn [high] in Hh. apply andb_true_iff in Hh as [Hc%bool_decide_eq_true Hh].
    destruct (high_char c Hc) as (? & ? & ?). rewrite string_app_cons, scan_char, IH by done. done.
Qed.

Lemma unquote_u a b c d X z :
  hex4 a b c d = Some z → ¬ (55296 ≤ z ∧ z ≤ 57343)%Z →
  unquote 0 (u_escape (String a (String b (String c (String d "")))) +:+ X) = encode_rune z +:+ unquote 0 X.
Proof.
  intros Hz Hs. unfold u_escape. rewrite !string_app_cons. cbn [unquote]. rewrite decide_True by done.
  rewrite Hz. by rewrite decide_False.
Qed.

Lemma unquote_control c X : (code c < 32)%Z → unquote 0 (control_escape c +:+ X) = String c (unquote 0 X).
Proof.
  destruct c as [[] [] [] [] [] [] [] []]; intros H; first [by vm_compute in H|reflexivity].
Qed.

Lemma unquote_html c esc X : html_escape c = Some esc → unquote 0 (esc +:+ X) = String c (unquote 0 X).
Proof. unfold html_escape. intros H. repeat case_decide; simplify_eq; reflexivity. Qed.

(** The rest of a sequence is copied, so its first byte still starts one. *)
Lemma utf8_len_copied c r n : utf8_len (String c r) = S n → utf8_len (String c (quote_body n 0 r)) = S n.
Proof.
  intros H. pose proof (utf8_len_high _ _ _ H) as Hh.
  destruct n as [|[|[|[|n]]]].
  - unfold utf8_len in *. repeat case_match; by simplify_eq.
  - destruct r as [|d r]; [done|]. cbn [quote_body]. unfold utf8_len in *. cbn [tail cont] in *. repeat case_match; by simplify_eq.
  - destruct r as [|d [|d2 r]]; try (cbn in Hh; rewrite ?andb_false_r in Hh; done). cbn [quote_body].
    unfold utf8_len in *. cbn [tail cont] in *. repeat case_match; by simplify_eq.
  - destruct r as [|d [|d2 [|d3 r]]]; cbn in Hh; rewrite ?andb_false_r in Hh; done.
  - unfold utf8_len in H. repeat case_match; by simplify_eq.
Qed.

Lemma unquote_line c s esc X :
  line_separator (String c s) = Some esc →
  ∃ a b r, s = String a (String b r) ∧ utf8_len (String c s) = 3 ∧
    unquote 0 (esc +:+ X) = String c (String a (String b (unquote 0 X))).
Proof.
  unfold line_separator. intros H. repeat case_match; simplify_eq; destruct_and!; subst; by eexists _, _, _.
Qed.

Lemma unquote_quote_body s : ∀ copy, utf8_valid copy s = true → high copy s = true →
  unquote copy (quote_body copy 0 s) = s.
Proof.
  induction s as [s IH] using (induction_ltof1 _ String.length). intros copy Hv Hh. unfold ltof in IH.
  destruct s as [|c s]; [done|]. cbn [quote_body utf8_valid] in *. destruct copy as [|copy].
  2: { cbn [high] in Hh. apply andb_true_iff in Hh as [Hc%bool_decide_eq_true Hh]. cbn [unquote].
       rewrite IH by (done || simpl; lia). done. }
  case_decide as Hlt.
  { rewrite utf8_len_ascii in Hv by done.
    assert (unquote 0 (quote_body 0 0 s) = s) as Hrest by (apply IH; [simpl; lia|done|done]).
    case_decide as Hqb; [destruct_or!; subst; cbn [unquote]; rewrite decide_True by done; cbn; by rewrite Hrest|].
    case_decide; [by rewrite unquote_control, Hrest|].
    destruct (html_escape c) as [esc|] eqn:Hesc; [by rewrite (unquote_html _ _ _ Hesc), Hrest|].
    cbn [unquote]. rewrite decide_False by tauto. by rewrite utf8_len_ascii, Hrest. }
  destruct (utf8_len (String c s)) as [|n] eqn:Hn; [done|]. pose proof (utf8_len_high _ _ _ Hn) as Hhn.
  destruct (line_separator (String c s)) as [esc|] eqn:Hesc.
  - destruct (unquote_line _ _ _ (quote_body 0 n s) Hesc) as (a & b & r & -> & Hl & ->).
    rewrite Hn in Hl. injection Hl as ->. cbn [quote_body utf8_valid] in *.
    rewrite IH by (done || simpl; lia). done.
  - destruct (high_char c) as (_ & Hb & _); [lia|]. cbn [unquote]. rewrite decide_False by done.
    rewrite (utf8_len_copied _ _ _ Hn), IH by (done || simpl; lia). done.
Qed.

Lemma plain_utf8 s : plain s = true → utf8 s = true.
Proof.
  unfold utf8. induction s as [|c s IH]; [done|]. cbn [plain utf8_valid]. intros [Hc Hs]%andb_true_iff.
  apply plain_char_spec in Hc as (_ & _ & Hr & _). rewrite utf8_len_ascii by lia. auto.
Qed.

(** The round trip of a string literal. *)
Lemma scan_json_quote s rest :
  utf8 s = true →
  scan_string (quote_body 0 0 s +:+ String quote rest) = Some (quote_body 0 0 s, rest) ∧ unquote 0 (quote_body 0 0 s) = s.
Proof. intros. split; [by apply scan_quote_body|by apply unquote_quote_body]. Qed.

(** What may follow a value. *)
Definition delimited (rest : string) : bool :=
  match rest with EmptyString => true | String c _ => one_of ",}]" c end.

Fixpoint all_digits (s : string) : bool :=
  match s with
  | EmptyString => true
  | String c s => is_digit c && all_digits s
  end.

Definition natural_literal (lit : string) : bool :=
  match lit with
  | EmptyString => false
  | String "0"%char r => bool_decide (r = "")
  | _ => all_digits lit
  end.

Lemma digits_app d rest :
  all_digits d = true → delimited rest = true → digits (d +:+ rest) = (d, rest).
Proof.
  induction d as [|c d IH].
  - intros _ Hr. destruct rest as [|c rest]; [done|]. change ("" +:+ String c rest) with (String c rest).
    simpl. destruct (is_digit c) eqn:Hd; [|done]. exfalso.
    simpl in Hr. rewrite !orb_true_iff, !bool_decide_eq_true in Hr.
    destruct Hr as [->|[->|[->|?]]]; done.
  - cbn [all_digits]. intros [Hc Hd]%andb_true_iff Hr. rewrite string_app_cons. cbn [digits].
    by rewrite Hc, IH.
Qed.

Lemma digit_char c : is_digit c = true → c ∈ ["0"; "1"; "2"; "3"; "4"; "5"; "6"; "7"; "8"; "9"]%char.
Proof.
  destruct c as [[] [] [] [] [] [] [] []]; intros H; try (vm_compute in H; discriminate H);
    repeat (first [left | right]).
Qed.

Lemma delimited_stop rest :
  delimited rest = true →
  match rest with
  | String "."%char r => '(d, rest) ← digits1 r; Some ("." +:+ d, rest)
  | _ => Some ("", rest)
  end = Some ("", rest) ∧
  match rest with
  | String c r =>
      if one_of "eE" c then
        let '(es, r1) := match r with
                         | String x r' => if one_of "+-" x then (String x "", r') else ("", r)
                         | EmptyString => ("", r)
                         end in
        '(d, rest) ← digits1 r1; Some (String c (es +:+ d), rest)
      else Some ("", rest)
  | EmptyString => Some ("", rest)
  end = Some ("", rest).
Proof.
  destruct rest as [|c rest]; [done|]. simpl.
  rewrite !orb_true_iff, !bool_decide_eq_true. by intros [->|[->|[->|?]]].
Qed.

Lemma scan_number_natural lit rest :
  natural_literal lit = true → delimited rest = true →
  scan_number (lit +:+ rest) = Some (lit, rest).
Proof.
  intros Hn Hr. destruct lit as [|c lit]; [done|].
  destruct (delimited_stop rest Hr) as [Hdot Hexp].
  assert (Hc : is_digit c = true).
  { destruct (decide (c = "0"%char)) as [->|]; [done|]. unfold natural_literal in Hn.
    assert (all_digits (String c lit) = true) as Ha; [|by apply andb_true_iff in Ha as [? _]].
    destruct c as [[] [] [] [] [] [] [] []]; done. }
  assert (match c with "0"%char => Some ("0", lit +:+ rest) | _ => digits1 (String c (lit +:+ rest)) end
          = Some (String c lit, rest)) as Hint.
  { destruct (decide (c = "0"%char)) as [->|Hne].
    - unfold natural_literal in Hn. apply bool_decide_eq_true in Hn as ->. done.
    - assert (all_digits (String c lit) = true) as Ha.
      { unfold natural_literal in Hn. destruct c as [[] [] [] [] [] [] [] []]; done. }
      assert (digits1 (String c (lit +:+ rest)) = Some (String c lit, rest)) as E.
      { unfold digits1. change (String c (lit +:+ rest)) with (String c lit +:+ rest).
        by rewrite digits_app. }
      destruct c as [[] [] [] [] [] [] [] []]; done. }
  rewrite string_app_cons. unfold scan_number.
  assert (match String c (lit +:+ rest) with String "-"%char r => ("-", r) | _ => ("", String c (lit +:+ rest)) end
          = ("", String c (lit +:+ rest))) as ->.
  { apply digit_char in Hc. repeat (apply elem_of_cons in Hc as [->|Hc]; [done|]).
    by apply elem_of_nil in Hc. }
  cbn beta iota. rewrite Hint. cbn [mbind option_bind]. rewrite Hdot. cbn [mbind option_bind].
  rewrite Hexp. cbn [mbind option_bind]. by rewrite !string_app_nil_r.
Qed.

Section json_induction.
Variable P : json → Prop.
Hypothesis Hnull : P JNull.
Hypothesis Hbool : ∀ b, P (JBool b).
Hypothesis Hnum : ∀ l, P (JNum l).
Hypothesis Hstr : ∀ s, P (JStr s).
Hypothesis Harr : ∀ es, Forall P es → P (JArr es).
Hypothesis Hobj : ∀ ms, Forall (λ kv, P (snd kv)) ms → P (JObj ms).

Fixpoint json_nested_ind (v : json) : P v :=
  match v with
  | JNull => Hnull
  | JBool b => Hbool b
  | JNum l => Hnum l
  | JStr s => Hstr s
  | JArr es => Harr es ((fix go es : Forall P es :=
                                      match es with
                                      | [] => Forall_nil_2 _
                                      | e :: es => Forall_cons_2 _ _ _ (json_nested_ind e) (go es)
                                      end) es)
  | JObj ms => Hobj ms ((fix go ms : Forall (λ kv, P (snd kv)) ms :=
                                      match ms with
                                      | [] => Forall_nil_2 _
                                      | kv :: ms => Forall_cons_2 _ _ _ (json_nested_ind (snd kv)) (go ms)
                                      end) ms)
  end.
End json_induction.

(** Values [print] is read back from. *)
Fixpoint simple (v : json) : bool :=
  match v with
  | JNull | JBool _ => true
  | JNum lit => natural_literal lit
  | JStr s => utf8 s
  | JArr es => forallb simple es
  | JObj ms => forallb (λ kv, utf8 (fst kv) && simple (snd kv)) ms
  end.

Fixpoint nesting (v : json) : Z :=
  match v with
  | JArr es => (1 + foldr Z.max 0 (map nesting es))%Z
  | JObj ms => (1 + foldr Z.max 0 (map (λ kv, nesting (snd kv)) ms))%Z
  | _ => 0%Z
  end.

Fixpoint weight (v : json) : nat :=
  match v with
  | JArr es => S (list_sum (map (λ e, S (weight e)) es))
  | JObj ms => S (list_sum (map (λ kv, S (weight (snd kv))) ms))
  | _ => 1
  end.

Lemma json_quote_plain s : plain s = true → json_quote s = String quote (s +:+ String quote "").
Proof. intros. unfold json_quote. by rewrite quote_body_plain. Qed.

(** The first byte of a printed value is not white space and closes nothing. *)
Lemma print_head v :
  simple v = true → ∃ c t, print v = String c t ∧ is_ws c = false ∧ one_of "]}" c = false.
Proof.
  destruct v as [|[]|lit|s|es|ms]; simpl; intros H; try by eexists _, _.
  destruct lit as [|c lit]; [done|]. exists c, lit. split; [done|].
  assert (is_digit c = true) as Hc.
  { destruct c as [[] [] [] [] [] [] [] []]; try done; by apply andb_true_iff in H as [? _]. }
  apply digit_char in Hc. repeat (apply elem_of_cons in Hc as [->|Hc]; [done|]).
  by apply elem_of_nil in Hc.
Qed.

Lemma skip_ws_head c t : is_ws c = false → skip_ws (String c t) = String c t.
Proof. intros H. simpl. by rewrite H. Qed.

Lemma expect_head c r : expect c (String c r) = Some r.
Proof. simpl. by rewrite decide_True. Qed.

Lemma join_comma_cons x l : l ≠ [] → join_comma (x :: l) = x +:+ "," +:+ join_comma l.
Proof. by destruct l. Qed.

Definition reads (v : json) : Prop := ∀ fuel depth rest,
  weight v ≤ fuel → (depth + nesting v ≤ maxNestingDepth)%Z → delimited rest = true →
  value fuel depth (print v +:+ rest) = Some (v, rest).

Lemma elements_read es : ∀ fuel depth rest,
  es ≠ [] → Forall reads es → list_sum (map (λ e, S (weight e)) es) ≤ fuel →
  (depth + foldr Z.max 0 (map nesting es) ≤ maxNestingDepth)%Z →
  elements fuel depth (join_comma (map print es) +:+ "]" +:+ rest) = Some (es, rest).
Proof.
  induction es as [|e es IH]; [done|]. intros fuel depth rest _ Hr Hf Hd.
  apply Forall_cons_1 in Hr as [He Hes]. simpl in Hf, Hd.
  destruct fuel as [|fuel]; [lia|].
  destruct (decide (es = [])) as [->|Hne].
  - cbn [map join_comma elements]. rewrite He; [|lia|simpl in *; lia|done]. done.
  - cbn [map]. rewrite join_comma_cons by (by destruct es).
    rewrite <- !string_app_assoc. cbn [elements]. rewrite He; [|lia|lia|done].
    cbn [mbind option_bind]. change ("," +:+ ?x) with (String ","%char x).
    rewrite skip_ws_head, expect_head by done. cbn beta iota. rewrite IH; [done|done|done|lia|lia].
Qed.

Definition print_member (kv : string * json) : string :=
  json_quote (fst kv) +:+ ":" +:+ print (snd kv).

Lemma members_read ms : ∀ fuel depth rest,
  ms ≠ [] → Forall (λ kv, utf8 (fst kv) = true ∧ reads (snd kv)) ms →
  list_sum (map (λ kv, S (weight (snd kv))) ms) ≤ fuel →
  (depth + foldr Z.max 0 (map (λ kv, nesting (snd kv)) ms) ≤ maxNestingDepth)%Z →
  members fuel depth (join_comma (map print_member ms) +:+ "}" +:+ rest) = Some (ms, rest).
Proof.
  induction ms as [|[k v] ms IH]; [done|]. intros fuel depth rest _ Hr Hf Hd.
  apply Forall_cons_1 in Hr as [[Hk Hv] Hms]. simpl in Hf, Hd, Hk, Hv.
  destruct fuel as [|fuel]; [lia|].
  assert (∀ tl, members (S fuel) depth (print_member (k, v) +:+ tl) =
    ('(v', r3) ← value fuel depth (print v +:+ tl);
     match expect "," (skip_ws r3) with
     | Some r4 => '(ms, rest) ← members fuel depth r4; Some ((k, v') :: ms, rest)
     | None => r4 ← expect "}" (skip_ws r3); Some ([(k, v')], r4)
     end)) as Hstep.
  { intros tl. unfold print_member. cbn [fst snd]. unfold json_quote.
    rewrite !string_app_cons, <- !string_app_assoc. cbn [members].
    rewrite skip_ws_head, expect_head by done. cbn [mbind option_bind]. rewrite string_app_cons.
    match goal with |- context [scan_string (_ +:+ String quote ?r)] => destruct (scan_json_quote k r Hk) as [Hq Hu] end.
    rewrite Hq. cbn [mbind option_bind]. by rewrite Hu. }
  destruct (decide (ms = [])) as [->|Hne].
  - cbn [map join_comma]. rewrite Hstep, Hv; [done|lia|lia|done].
  - cbn [map]. rewrite join_comma_cons by (by destruct ms).
    rewrite <- !string_app_assoc, Hstep, Hv; [|lia|lia|done].
    cbn [mbind option_bind]. change ("," +:+ ?x) with (String ","%char x).
    rewrite skip_ws_head, expect_head by done. cbn beta iota. rewrite IH; [done|done|done|lia|lia].
Qed.

Lemma value_open c r fuel depth :
  c = "["%char ∨ c = "{"%char → (depth < maxNestingDepth)%Z →
  value (S fuel) depth (String c r) =
    if decide (c = "{"%char) then
      match expect "}" (skip_ws r) with
      | Some r1 => Some (JObj [], r1)
      | None => '(ms, rest) ← members fuel (depth + 1) r; Some (JObj ms, rest)
      end
    else
      match expect "]" (skip_ws r) with
      | Some r1 => Some (JArr [], r1)
      | None => '(es, rest) ← elements fuel (depth + 1) r; Some (JArr es, rest)
      end.
Proof.
  intros Hc Hd. destruct Hc as [-> | ->]; cbn [value]; rewrite skip_ws_head by done; simpl;
    by rewrite decide_False by lia.
Qed.

Lemma join_comma_head x l : ∃ t, join_comma (x :: l) = x +:+ t.
Proof. destruct l; [by exists ""; rewrite string_app_nil_r|by eexists]. Qed.

(** A printed list of items does not start with a closing bracket. *)
Lemma expect_join d x l c t tl :
  x = String c t → is_ws c = false → c ≠ d →
  expect d (skip_ws (join_comma (x :: l) +:+ tl)) = None.
Proof.
  intros -> Hw Hne. destruct (join_comma_head (String c t) l) as [u ->].
  rewrite !string_app_cons, skip_ws_head by done. simpl. by rewrite decide_False.
Qed.

Lemma foldr_max_nonneg l : (0 ≤ foldr Z.max 0 l)%Z.
Proof. induction l; simpl; lia. Qed.

Lemma reads_scalar v :
  simple v = true → match v with JArr _ | JObj _ => False | _ => True end → reads v.
Proof.
  intros Hs Hv fuel depth rest Hf _ Hr. destruct fuel as [|fuel]; [destruct v; simpl in Hf; lia|].
  destruct v as [|[]|lit|s|es|ms]; try done; simpl in Hs.
  - destruct (print_head (JNum lit) Hs) as (c & t & Hp & Hw & _). simpl in Hp. subst lit.
    cbn [print value]. rewrite string_app_cons, skip_ws_head by done.
    assert (is_digit c = true) as Hc.
    { destruct c as [[] [] [] [] [] [] [] []]; try done; by apply andb_true_iff in Hs as [? _]. }
    rewrite <- string_app_cons, scan_number_natural by done.
    apply digit_char in Hc. repeat (apply elem_of_cons in Hc as [->|Hc]; [done|]).
    by apply elem_of_nil in Hc.
  - destruct (scan_json_quote s rest Hs) as [Hq Hu]. cbn [print value]. unfold json_quote.
    rewrite string_app_cons, skip_ws_head by done. cbn beta iota.
    rewrite decide_False by done. rewrite decide_False by done. rewrite decide_True by done.
    rewrite <- string_app_assoc, string_app_cons. change ("" +:+ rest) with rest. rewrite Hq. cbn [mbind option_bind]. by rewrite Hu.
Qed.

Lemma reads_simple v : simple v = true → reads v.
Proof.
  induction v as [|b|lit|s|es IH|ms IH] using json_nested_ind; intros Hs;
    try (by apply reads_scalar).
  - intros fuel depth rest Hf Hd Hr. cbn [weight nesting] in Hf, Hd.
    pose proof (foldr_max_nonneg (map nesting es)).
    destruct fuel as [|fuel]; [lia|]. cbn [print]. unfold arr_literal.
    rewrite <- !string_app_assoc. change ("[" +:+ ?x) with (String "["%char x).
    rewrite value_open by (auto; lia). rewrite decide_False by done.
    destruct es as [|e es]; [done|]. cbn [simple forallb] in Hs.
    apply andb_true_iff in Hs as [He Hes].
    destruct (print_head e He) as (c & t & Hp & Hw & Hcl). cbn [map].
    rewrite (expect_join _ _ _ c t) by (try done; by intros ->).
    change (print e :: map print es) with (map print (e :: es)).
    rewrite elements_read; [done|done| |lia|lia].
    apply Forall_cons_1 in IH as [IHe IHes]. constructor; [by apply IHe|].
    rewrite forallb_forall in Hes. rewrite Forall_forall in IHes |- *.
    intros x Hx. apply IHes, Hes; [done|]. by apply list_elem_of_In.
  - intros fuel depth rest Hf Hd Hr. cbn [weight nesting] in Hf, Hd.
    pose proof (foldr_max_nonneg (map (λ kv, nesting kv.2) ms)).
    destruct fuel as [|fuel]; [lia|]. cbn [print].
    rewrite <- !string_app_assoc. change ("{" +:+ ?x) with (String "{"%char x).
    rewrite value_open by (auto; lia). rewrite decide_True by done.
    change (λ kv, json_quote kv.1 +:+ ":" +:+ print kv.2) with print_member.
    destruct ms as [|kv ms]; [done|]. cbn [map].
    rewrite (expect_join _ _ _ quote (quote_body 0 0 kv.1 +:+ String quote "" +:+ ":" +:+ print kv.2));
      [|unfold print_member, json_quote; by rewrite !string_app_cons, <- string_app_assoc|done|done].
    change (print_member kv :: map print_member ms) with (map print_member (kv :: ms)).
    rewrite members_read; [done|done| |lia|lia].
    cbn [simple] in Hs. rewrite forallb_forall in Hs. rewrite Forall_forall in IH |- *.
    intros x Hx. pose proof (Hs x ltac:(by apply list_elem_of_In)) as [??]%andb_true_iff. auto.
Qed.

Lemma join_comma_length l :
  list_sum (map (λ x, S (String.length x)) l) ≤ S (String.length (join_comma l)).
Proof.
  induction l as [|x l IH]; [simpl; lia|].
  destruct (decide (l = [])) as [->|Hne]; [simpl; lia|].
  rewrite join_comma_cons, !string_length_app by done. simpl in *. lia.
Qed.

Lemma list_sum_map_le {A} (f g : A → nat) l :
  Forall (λ x, f x ≤ g x) l → list_sum (map f l) ≤ list_sum (map g l).
Proof. induction 1; simpl; lia. Qed.

Lemma list_sum_map_S {A} (f : A → nat) l : list_sum (map (λ x, S (f x)) l) = length l + list_sum (map f l).
Proof. induction l; simpl; lia. Qed.

Lemma list_sum_map_double {A} (f : A → nat) l : list_sum (map (λ x, 2 * f x) l) = 2 * list_sum (map f l).
Proof. induction l; simpl in *; lia. Qed.

Lemma size_print v : simple v = true → weight v ≤ 2 * String.length (print v).
Proof.
  induction v as [|b|lit|s|es IH|ms IH] using json_nested_ind; intros Hs; cbn [weight].
  - simpl. lia.
  - destruct b; simpl; lia.
  - destruct lit; [done|]. simpl. lia.
  - cbn [print]. unfold json_quote. simpl. lia.
  - cbn [print]. unfold arr_literal. rewrite !string_length_app.
    pose proof (join_comma_length (map print es)) as Hj. rewrite map_map, list_sum_map_S in Hj.
    rewrite list_sum_map_S.
    assert (list_sum (map weight es) ≤ list_sum (map (λ e, 2 * String.length (print e)) es)) as Hle.
    { apply list_sum_map_le. cbn [simple] in Hs. rewrite forallb_forall in Hs.
      rewrite Forall_forall in IH |- *. intros x Hx. apply IH, Hs; [done|]. by apply list_elem_of_In. }
    rewrite list_sum_map_double in Hle. change (String.length "[") with 1. change (String.length "]") with 1. lia.
  - cbn [print]. rewrite !string_length_app.
    change (λ kv, json_quote kv.1 +:+ ":" +:+ print kv.2) with print_member.
    pose proof (join_comma_length (map print_member ms)) as Hj. rewrite map_map, list_sum_map_S in Hj.
    rewrite (list_sum_map_S (λ kv, weight kv.2)).
    assert (list_sum (map (λ kv, weight kv.2) ms) ≤ list_sum (map (λ kv, 2 * String.length (print_member kv)) ms)) as Hle.
    { apply list_sum_map_le. cbn [simple] in Hs. rewrite forallb_forall in Hs.
      rewrite Forall_forall in IH |- *. intros x Hx.
      pose proof (Hs x ltac:(by apply list_elem_of_In)) as [? Hsx]%andb_true_iff.
      specialize (IH x Hx Hsx). unfold print_member. rewrite !string_length_app. lia. }
    rewrite list_sum_map_double in Hle. change (String.length "{") with 1. change (String.length "}") with 1. lia.
Qed.

(** Reading what was printed gives the value back. *)
Lemma parse_print v :
  simple v = true → (nesting v ≤ maxNestingDepth)%Z → parse (print v) = Some v.
Proof.
  intros Hs Hn. unfold parse.
  pose proof (reads_simple v Hs (2 * String.length (print v) + 2) 0%Z "") as Hr.
  rewrite string_app_nil_r in Hr. rewrite Hr; [done| |lia|done].
  pose proof (size_print v Hs). lia.
Qed.

(** *** Literals made of encoded parts

    [obj_literal] puts an object together from parts that are already encoded; it
    is read as the object of what the parts are read as. *)

Definition reads_as (n : Z) (lit : string) (v : json) : Prop := ∀ fuel depth rest,
  2 * String.length lit ≤ fuel → (depth + n ≤ maxNestingDepth)%Z → delimited rest = true →
  value fuel depth (lit +:+ rest) = Some (v, rest).

Lemma reads_as_print v : simple v = true → reads_as (nesting v) (print v) v.
Proof.
  intros Hs fuel depth rest Hf Hd Hr. apply reads_simple; [done| |done|done]. pose proof (size_print v Hs). lia.
Qed.

Lemma reads_as_mono n n' lit v : (n ≤ n')%Z → reads_as n lit v → reads_as n' lit v.
Proof. intros Hn H fuel depth rest Hf Hd Hr. apply H; [done|lia|done]. Qed.

(** What a string literal is read as, whatever it was made from. *)
Definition sanitized (s : string) : string := unquote 0 (quote_body 0 0 s).

Lemma sanitized_utf8 s : utf8 s = true → sanitized s = s.
Proof. intros. by apply unquote_quote_body. Qed.

Lemma reads_as_quote s : reads_as 0 (json_quote s) (JStr (sanitized s)).
Proof.
  intros fuel depth rest Hf _ _. unfold json_quote in *. destruct fuel as [|fuel]; [simpl in Hf; lia|]. cbn [value].
  rewrite string_app_cons, skip_ws_head by done. cbn beta iota.
  rewrite decide_False by done. rewrite decide_False by done. rewrite decide_True by done.
  rewrite <- string_app_assoc, string_app_cons. change ("" +:+ rest) with rest. by rewrite scan_quote_body.
Qed.

Definition literal_member (f : string * (string * json)) : string := json_quote (fst f) +:+ ":" +:+ fst (snd f).

Lemma members_step k lit v n fuel depth tl :
  utf8 k = true → reads_as n lit v → 2 * String.length lit ≤ fuel → (depth + n ≤ maxNestingDepth)%Z → delimited tl = true →
  members (S fuel) depth (literal_member (k, (lit, v)) +:+ tl) =
    match expect "," (skip_ws tl) with
    | Some r4 => '(ms, rest) ← members fuel depth r4; Some ((k, v) :: ms, rest)
    | None => r4 ← expect "}" (skip_ws tl); Some ([(k, v)], r4)
    end.
Proof.
  intros Hk Hv Hf Hd Htl. unfold literal_member, json_quote. cbn [fst snd].
  rewrite !string_app_cons, <- !string_app_assoc. cbn [members].
  rewrite skip_ws_head, expect_head by done. cbn [mbind option_bind]. rewrite string_app_cons.
  match goal with |- context [scan_string (_ +:+ String quote ?r)] => destruct (scan_json_quote k r Hk) as [Hq Hu] end.
  rewrite Hq. cbn [mbind option_bind]. rewrite Hu. 
  match goal with |- context [expect ":" (skip_ws ?x)] => change x with (String ":"%char (lit +:+ tl)) end.
  rewrite skip_ws_head, expect_head by done. cbn [mbind option_bind]. by rewrite Hv.
Qed.

Lemma members_as n (fs : list (string * (string * json))) : ∀ fuel depth rest,
  fs ≠ [] → Forall (λ f, utf8 (fst f) = true ∧ reads_as n (fst (snd f)) (snd (snd f))) fs →
  2 * String.length (join_comma (map literal_member fs)) ≤ fuel → (depth + n ≤ maxNestingDepth)%Z →
  members fuel depth (join_comma (map literal_member fs) +:+ "}" +:+ rest) =
    Some (map (λ f, (fst f, snd (snd f))) fs, rest).
Proof.
  induction fs as [|[k [lit v]] fs IH]; [done|]. intros fuel depth rest _ Hall Hf Hd.
  apply Forall_cons_1 in Hall as [[Hk Hv] Hall]. cbn [fst snd] in Hk, Hv.
  assert (String.length (literal_member (k, (lit, v))) > String.length lit) as Hlen.
  { unfold literal_member. cbn [fst snd]. rewrite !string_length_app. simpl. lia. }
  destruct (decide (fs = [])) as [->|Hne].
  - cbn [map join_comma] in *. destruct fuel as [|fuel]; [lia|]. rewrite (members_step _ _ _ n) by (done || lia). done.
  - cbn [map] in *. rewrite join_comma_cons in * by (by destruct fs).
    rewrite !string_length_app in Hf. change (String.length ",") with 1 in Hf.
    destruct fuel as [|fuel]; [lia|]. rewrite <- !string_app_assoc, (members_step _ _ _ n) by (done || lia).
    change ("," +:+ ?x) with (String ","%char x). rewrite skip_ws_head, expect_head by done. cbn beta iota.
    rewrite IH by (done || lia). done.
Qed.

Lemma reads_as_obj n (fs : list (string * (string * json))) :
  (0 ≤ n)%Z → Forall (λ f, utf8 (fst f) = true ∧ reads_as n (fst (snd f)) (snd (snd f))) fs →
  reads_as (1 + n) (obj_literal (map (λ f, (fst f, fst (snd f))) fs)) (JObj (map (λ f, (fst f, snd (snd f))) fs)).
Proof.
  intros Hn Hall fuel depth rest Hf Hd Hr. unfold obj_literal in *.
  assert ((λ kv, json_quote kv.1 +:+ ":" +:+ kv.2) <$> map (λ f, (f.1, f.2.1)) fs = map literal_member fs) as E
    by exact (map_map _ _ fs). rewrite E in *. clear E.
  change ("{" +:+ ?x) with (String "{"%char x) in *. destruct fuel as [|fuel]; [simpl in Hf; lia|].
  rewrite string_app_cons, value_open by (auto; lia). rewrite decide_True by done.
  destruct fs as [|[k [lit v]] fs]; [done|]. cbn [map] in *.
  rewrite <- string_app_assoc.
  erewrite expect_join; [|unfold literal_member, json_quote; reflexivity|done|done].
  change (literal_member (k, (lit, v)) :: map literal_member fs) with (map literal_member ((k, (lit, v)) :: fs)) in *.
  rewrite (members_as n); [done|done|done| |lia]. simpl in Hf. rewrite string_length_app in Hf. simpl in *. lia.
Qed.

Lemma parse_reads_as n lit v : reads_as n lit v → (n ≤ maxNestingDepth)%Z → parse lit = Some v.
Proof.
  intros H Hn. unfold parse. specialize (H (2 * String.length lit + 2) 0%Z ""). rewrite string_app_nil_r in H.
  rewrite H; [done|lia|lia|done].
Qed.

(** ** Decimal numbers *)

Lemma decimal_app s t acc n :
  decimal acc s = Some n → decimal acc (s +:+ t) = decimal n t.
Proof.
  revert acc. induction s as [|c s IH]; intros acc; [by intros [= ->]|].
  rewrite string_app_cons. cbn [decimal]. destruct (is_digit c); [|done]. apply IH.
Qed.

Lemma pretty_N_char_code d : (d < 10)%N → is_digit (pretty_N_char d) = true ∧ code (pretty_N_char d) = (48 + Z.of_N d)%Z.
Proof.
  intros H.
  assert (d = 0 ∨ d = 1 ∨ d = 2 ∨ d = 3 ∨ d = 4 ∨ d = 5 ∨ d = 6 ∨ d = 7 ∨ d = 8 ∨ d = 9)%N as Hd by lia.
  by repeat (destruct Hd as [->|Hd]; [done|]); subst.
Qed.

Lemma pretty_N_go_decimal n : ∀ s m,
  (0 < n)%N → ∃ d, pretty_N_go n s = d +:+ s ∧ all_digits d = true ∧
    (∃ c r, d = String c r ∧ c ≠ "0"%char) ∧ (decimal 0 d = Some m ↔ m = Z.of_N n).
Proof.
  induction (N.lt_wf_0 n) as [n _ IH]. intros s m Hn.
  rewrite pretty_N_go_step by done.
  pose proof (N.mod_lt n 10 ltac:(lia)) as Hlt.
  pose proof (pretty_N_char_code (n mod 10) Hlt) as [Hdig Hcode].
  destruct (decide (n / 10 = 0)%N) as [E|E].
  - rewrite E, pretty_N_go_0. exists (String (pretty_N_char (n mod 10)) "").
    assert (n mod 10 = n)%N as Emod.
    { apply N.mod_small. apply N.div_small_iff in E; lia. }
    split_and!; [done|by simpl; rewrite Hdig| |].
    + eexists _, _. split; [done|]. intros Hc. rewrite Hc in Hcode. rewrite Emod in Hcode.
      change (code "0"%char) with 48%Z in Hcode. lia.
    + simpl. rewrite Hdig, Hcode, Emod. split; intros; simplify_eq; [|f_equal]; lia.
  - destruct (IH (n / 10)%N ltac:(apply N.div_lt; lia) (String (pretty_N_char (n mod 10)) s)
      (Z.of_N (n / 10)) ltac:(by apply N.neq_0_lt_0)) as (d & -> & Hd & (c & r & -> & Hc) & Hval).
    exists (String c r +:+ String (pretty_N_char (n mod 10)) ""). split_and!.
    + rewrite <- string_app_assoc. done.
    + clear -Hd Hdig. revert Hd. generalize (String c r). intros d.
      induction d as [|x d IHd]; [by simpl; rewrite Hdig|].
      rewrite string_app_cons. cbn [all_digits]. intros [-> ?]%andb_true_iff. by rewrite IHd.
    + rewrite string_app_cons. eexists _, _. done.
    + rewrite (decimal_app _ _ _ (Z.of_N (n / 10))) by (by apply Hval).
      simpl. rewrite Hdig, Hcode.
      assert (Z.of_N (n / 10) * 10 + (48 + Z.of_N (n mod 10) - 48) = Z.of_N n)%Z as ->.
      { pose proof (N.div_mod n 10 ltac:(lia)). lia. }
      split; [by intros [= <-]|by intros ->].
Qed.

(** A printed natural number is an integer literal that reads back as itself. *)
Lemma pretty_natural z :
  (0 ≤ z)%Z → natural_literal (pretty z) = true ∧ decimal 0 (pretty z) = Some z.
Proof.
  intros Hz. destruct (decide (z = 0)%Z) as [->|Hne]; [done|].
  assert (pretty z = pretty_N_go (Z.to_N z) "") as ->.
  { destruct z as [|p|p]; [done| |lia]. done. }
  destruct (pretty_N_go_decimal (Z.to_N z) "" z ltac:(lia)) as (d & -> & Hd & (c & r & -> & Hc) & Hval).
  rewrite string_app_nil_r. split.
  - unfold natural_literal. destruct c as [[] [] [] [] [] [] [] []]; done.
  - apply Hval. lia.
Qed.

(** ** Compacting twice *)

Lemma compact_escape t esc :
  esc ∈ [u_escape "003c"; u_escape "003e"; u_escape "0026"; u_escape "2028"; u_escape "2029"] →
  compact_from Inside (esc +:+ t) = esc +:+ compact_from Inside t.
Proof.
  intros H. repeat (apply elem_of_cons in H as [->|H]; [reflexivity|]). by apply elem_of_nil in H.
Qed.

Lemma html_escape_elem c esc :
  html_escape c = Some esc →
  esc ∈ [u_escape "003c"; u_escape "003e"; u_escape "0026"; u_escape "2028"; u_escape "2029"].
Proof. unfold html_escape. repeat case_decide; intros; simplify_eq; set_solver. Qed.

Lemma line_separator_elem s esc :
  line_separator s = Some esc →
  esc ∈ [u_escape "003c"; u_escape "003e"; u_escape "0026"; u_escape "2028"; u_escape "2029"].
Proof.
  unfold line_separator. destruct s as [|a [|b [|c r]]]; repeat case_decide; intros; simplify_eq; set_solver.
Qed.

(** Every byte the compactor emits inside a string is the byte it read, unless it
    begins an escape. *)
Lemma compact_inside_head r x t :
  compact_from Inside r = String x t → x ≠ backslash → x ≠ quote →
  ∃ r', r = String x r' ∧ t = compact_from Inside r'.
Proof.
  destruct r as [|c r]; [done|]. cbn [compact_from]. intros H Hb Hq.
  repeat case_decide; simplify_eq.
  destruct (html_escape c) as [esc|] eqn:Hh.
  { apply html_escape_elem in Hh. exfalso. apply Hb.
    repeat (apply elem_of_cons in Hh as [->|Hh]; [by injection H|]). by apply elem_of_nil in Hh. }
  destruct (line_separator _) as [esc|] eqn:Hl.
  { apply line_separator_elem in Hl. exfalso. apply Hb.
    repeat (apply elem_of_cons in Hl as [->|Hl]; [by injection H|]). by apply elem_of_nil in Hl. }
  injection H as -> <-. eauto.
Qed.

Lemma line_separator_compact c r :
  line_separator (String c r) = None → line_separator (String c (compact_from Inside r)) = None.
Proof.
  intros H. unfold line_separator. case_decide as Hc; [|done].
  destruct (compact_from Inside r) as [|x [|y z]] eqn:E; [done|done|].
  repeat case_decide; destruct_and?; subst; try done.
  all: exfalso; apply compact_inside_head in E as (r1 & -> & E); [|done|done];
    symmetry in E; apply compact_inside_head in E as (r2 & -> & _); [|done|done];
    vm_compute in H; discriminate H.
Qed.

Lemma compact_from_idem s : ∀ st,
  compact_from (match st with Skip1 | Skip2 => Inside | _ => st end) (compact_from st s)
  = compact_from st s.
Proof.
  induction s as [|c s IH]; intros st; [by destruct st|].
  destruct st; cbn [compact_from].
  - destruct (is_ws c) eqn:Hw; [apply (IH Outside)|]. cbn [compact_from]. rewrite Hw.
    f_equal. case_decide; [apply (IH Inside)|apply (IH Outside)].
  - case_decide as Hb.
    { subst. cbn [compact_from]. rewrite decide_True by done. f_equal. apply (IH Escaped). }
    case_decide as Hq.
    { subst. cbn [compact_from]. rewrite decide_False, decide_True by done. f_equal. apply (IH Outside). }
    destruct (html_escape c) as [esc|] eqn:Hh.
    { rewrite compact_escape by (by eapply html_escape_elem). f_equal. apply (IH Inside). }
    destruct (line_separator (String c s)) as [esc|] eqn:Hl.
    { rewrite compact_escape by (by eapply line_separator_elem). f_equal. apply (IH Skip2). }
    cbn [compact_from]. rewrite decide_False, decide_False, Hh by done.
    rewrite line_separator_compact by done. f_equal. apply (IH Inside).
  - f_equal. apply (IH Inside).
  - apply (IH Skip1).
  - apply (IH Inside).
Qed.

(** Normalising a payload that was already normalised changes nothing. *)
Lemma json_compact_idem s : json_compact (json_compact s) = json_compact s.
Proof. apply (compact_from_idem s Outside). Qed.

(** A field decoded as [uint64] is in range. *)
Lemma decimal_nonneg s : ∀ acc n, (0 ≤ acc)%Z → decimal acc s = Some n → (0 ≤ n)%Z.
Proof.
  induction s as [|c s IH]; simpl; intros acc n H0 H; [by simplify_eq|].
  destruct (is_digit c) eqn:Ed; [|done]. eapply IH; [|done].
  unfold is_digit, between in Ed. rewrite bool_decide_eq_true in Ed. lia.
Qed.

Lemma uint64_field_range name payload : in_u64 (fst (uint64_field name payload)).
Proof.
  unfold uint64_field, decode_field. destruct (parse payload) as [[| | | | |ms]|]; try done.
  assert (∀ acc, in_u64 (fst acc) → in_u64 (fst (fold_left (decode_member as_uint64 name) ms acc))) as H;
    [|by apply H].
  induction ms as [|[k v] ms IH]; intros acc Hacc; [done|]. simpl. apply IH.
  unfold decode_member. simpl. destruct (field_match name k); [|done].
  destruct v as [| |lit| | |]; try done. simpl. unfold ParseUint. case_decide; [done|].
  destruct (decimal 0 lit) as [n|] eqn:E; simpl; [|done]. case_decide; [|done].
  split; [by eapply decimal_nonneg|done].
Qed.

Definition MaxInt64 : Z := 9223372036854775807.

Lemma decimal_no_sign s n : decimal 0 s = Some n → s ≠ "" → strip_prefix "-" s = None.
Proof.
  destruct s as [|c s]; [done|]. cbn [decimal]. intros H _. destruct (is_digit c) eqn:Hc; [|done].
  apply digit_char in Hc. repeat (apply elem_of_cons in Hc as [->|Hc]; [done|]). by apply elem_of_nil in Hc.
Qed.

Lemma as_int64_pretty z : (0 ≤ z ≤ MaxInt64)%Z → as_int64 (JNum (json_int z)) = Some z.
Proof.
  intros Hz. destruct (pretty_natural z) as [Hn Hd]; [lia|]. unfold json_int.
  assert (pretty z ≠ "") as Hne by (by intros E; rewrite E in Hn).
  cbn [as_int64]. unfold ParseInt. rewrite (decimal_no_sign _ _ Hd Hne), decide_False, Hd by done.
  cbn [mbind option_bind]. rewrite decide_True by (unfold MaxInt64 in Hz; lia). f_equal. lia.
Qed.
