(* ===== verification/Crypto.v ===== *)
(** * crypto/sha256, encoding/base64 and the interface of crypto/ed25519

    SHA-256 (FIPS 180-4) is written out, so audit chains and content addresses
    evaluate on concrete inputs.  Ed25519 is used only through key generation,
    signing and verification; it is a typeclass of operations with the laws its
    documentation states, and a small instance shows the laws can hold. *)

From Stdlib Require Import Ascii.
From stdpp Require Import base tactics option list strings numbers.
From S2P Require Import Prelude GoLib.

(** ** Bytes of a string *)

Definition byte_at (c : ascii) : Z := Z.of_nat (nat_of_ascii c).

Fixpoint bytes_of (s : string) : list Z :=
  match s with
  | EmptyString => []
  | String c s => byte_at c :: bytes_of s
  end.

Definition string_of_bytes (bs : list Z) : string :=
  foldr (λ b acc, String (ascii_of_nat (Z.to_nat b)) acc) "" bs.

Lemma string_of_bytes_length bs : String.length (string_of_bytes bs) = length bs.
Proof. induction bs; simpl; auto. Qed.

Lemma hex_encode_length bs : String.length (hex_encode bs) = 2 * length bs.
Proof.
  induction bs as [|b bs IH]; [done|].
  change (hex_encode (b :: bs)) with (hex_byte b +:+ hex_encode bs).
  rewrite string_length_app, IH. simpl. lia.
Qed.

(** ** SHA-256 *)

Definition rotr (n x : Z) : Z := Z.lor (Z.shiftr x n) (u32 (Z.shiftl x (32 - n))).
Definition big_sigma0 (x : Z) : Z := Z.lxor (Z.lxor (rotr 2 x) (rotr 13 x)) (rotr 22 x).
Definition big_sigma1 (x : Z) : Z := Z.lxor (Z.lxor (rotr 6 x) (rotr 11 x)) (rotr 25 x).
Definition small_sigma0 (x : Z) : Z := Z.lxor (Z.lxor (rotr 7 x) (rotr 18 x)) (Z.shiftr x 3).
Definition small_sigma1 (x : Z) : Z := Z.lxor (Z.lxor (rotr 17 x) (rotr 19 x)) (Z.shiftr x 10).
Definition ch (x y z : Z) : Z := Z.lxor (Z.land x y) (Z.land (Z.lxor x 4294967295) z).
Definition maj (x y z : Z) : Z := Z.lxor (Z.lxor (Z.land x y) (Z.land x z)) (Z.land y z).

(** The constants are the leading fraction bits of the cube roots of the first 64
    primes, and of the square roots of the first eight. *)
Definition first_primes : list Z :=
  filter (λ n, Forall (λ d, n `mod` d ≠ 0)%Z (Z.of_nat <$> seq 2 (Nat.sqrt (Z.to_nat n) - 1)))
    (Z.of_nat <$> seq 2 310).

Fixpoint cube_root (bits : nat) (z : Z) : Z :=
  match bits with
  | 0 => 0
  | S bits =>
      let r := (2 * cube_root bits (z `div` 8))%Z in
      if decide ((r + 1) * (r + 1) * (r + 1) ≤ z)%Z then (r + 1)%Z else r
  end.

Definition round_constants : list Z :=
  Eval vm_compute in (λ p, u32 (cube_root 36 (p * 2 ^ 96)))%Z <$> first_primes.

Definition hash_state : Type := Z * Z * Z * Z * Z * Z * Z * Z.

Definition initial_hash : hash_state :=
  Eval vm_compute in
  match (λ p, u32 (Z.sqrt (p * 2 ^ 64)))%Z <$> take 8 first_primes with
  | [a; b; c; d; e; f; g; h] => (a, b, c, d, e, f, g, h)
  | _ => (0, 0, 0, 0, 0, 0, 0, 0)%Z
  end.

(** The message schedule, kept as a window of the last 16 words, newest last. *)
Definition next_word (w : list Z) : Z :=
  u32 (small_sigma1 (nth 14 w 0) + nth 9 w 0 + small_sigma0 (nth 1 w 0) + nth 0 w 0)%Z.

Fixpoint rounds (ks w : list Z) (h : hash_state) : hash_state :=
  match ks with
  | [] => h
  | k :: ks =>
      let '(a, b, c, d, e, f, g, hh) := h in
      let t1 := (hh + big_sigma1 e + ch e f g + k + nth 0 w 0)%Z in
      let t2 := (big_sigma0 a + maj a b c)%Z in
      rounds ks (drop 1 w ++ [next_word w])
        (u32 (t1 + t2)%Z, a, b, c, u32 (d + t1)%Z, e, f, g)
  end.

Definition compress (h : hash_state) (block : list Z) : hash_state :=
  let '(a, b, c, d, e, f, g, hh) := h in
  let '(a', b', c', d', e', f', g', hh') := rounds round_constants block h in
  (u32 (a + a'), u32 (b + b'), u32 (c + c'), u32 (d + d'),
   u32 (e + e'), u32 (f + f'), u32 (g + g'), u32 (hh + hh'))%Z.

Fixpoint words_of (bs : list Z) : list Z :=
  match bs with
  | a :: b :: c :: d :: bs => (((a * 256 + b) * 256 + c) * 256 + d)%Z :: words_of bs
  | _ => []
  end.

Definition be_bytes (n : nat) (z : Z) : list Z :=
  (λ i, Z.shiftr z (8 * Z.of_nat (n - 1 - i)) `mod` 256)%Z <$> seq 0 n.

Definition pad (bs : list Z) : list Z :=
  let n := length bs in
  bs ++ 128%Z :: replicate ((119 - n `mod` 64) `mod` 64) 0%Z ++ be_bytes 8 (8 * Z.of_nat n).

Fixpoint blocks (fuel : nat) (h : hash_state) (ws : list Z) : hash_state :=
  match fuel with
  | 0 => h
  | S fuel => blocks fuel (compress h (take 16 ws)) (drop 16 ws)
  end.

Definition sum256 (bs : list Z) : list Z :=
  let ws := words_of (pad bs) in
  let '(a, b, c, d, e, f, g, hh) := blocks (length ws / 16) initial_hash ws in
  mjoin (be_bytes 4 <$> [a; b; c; d; e; f; g; hh]).

(** [sha256.Sum256] on a byte string, and its hexadecimal form. *)
Definition Sum256 (s : string) : string := string_of_bytes (sum256 (bytes_of s)).
Definition sha256_hex (s : string) : string := hex_encode (sum256 (bytes_of s)).

(** The test vector of FIPS 180-4. *)
Example sha256_abc :
  sha256_hex "abc" = "ba7816bf8f01cfea414140de5dae2223b00361a396177a9cb410ff61f20015ad".
Proof. vm_compute. reflexivity. Qed.

Lemma sum256_length bs : length (sum256 bs) = 32.
Proof.
  unfold sum256.
  destruct (blocks _ _ _) as [[[[[[[a b] c] d] e] f] g] h]. reflexivity.
Qed.

Lemma sha256_hex_length s : String.length (sha256_hex s) = 64.
Proof. unfold sha256_hex. by rewrite hex_encode_length, sum256_length. Qed.

Definition byte_list (bs : list Z) : Prop := Forall (λ b, 0 ≤ b < 256)%Z bs.

Lemma be_bytes_range n z : byte_list (be_bytes n z).
Proof.
  unfold be_bytes, byte_list. apply Forall_fmap, Forall_true. intros i. apply Z.mod_pos_bound. lia.
Qed.

Lemma sum256_range bs : byte_list (sum256 bs).
Proof.
  unfold sum256, byte_list. destruct (blocks _ _ _) as [[[[[[[a b] c] d] e] f] g] h].
  cbn [fmap list_fmap mjoin list_join].
  repeat (apply Forall_app_2; [apply be_bytes_range|]). apply Forall_nil_2.
Qed.

(** Proofs treat the digest as a black box. *)
#[global] Opaque sum256.

(** ** base64 *)

Definition std_alphabet : string :=
  "ABCDEFGHIJKLMNOPQRSTUVWXYZabcdefghijklmnopqrstuvwxyz0123456789+/".

Definition char_of (alphabet : string) (n : Z) : ascii :=
  match String.get (Z.to_nat n) alphabet with Some c => c | None => "A"%char end.

Definition url_alphabet : string :=
  "ABCDEFGHIJKLMNOPQRSTUVWXYZabcdefghijklmnopqrstuvwxyz0123456789-_".

Section base64.
Context (alphabet : string) (padding : bool).

(** [EncodeToString] *)
Fixpoint base64 (bs : list Z) : string :=
  let digit n := char_of alphabet (n `mod` 64)%Z in
  match bs with
  | a :: b :: c :: bs =>
      let v := ((a * 256 + b) * 256 + c)%Z in
      String (digit (v `div` 262144)%Z) (String (digit (v `div` 4096)%Z)
        (String (digit (v `div` 64)%Z) (String (digit v) (base64 bs))))
  | [a; b] =>
      let v := ((a * 256 + b) * 256)%Z in
      String (digit (v `div` 262144)%Z) (String (digit (v `div` 4096)%Z)
        (String (digit (v `div` 64)%Z) (if padding then "=" else "")))
  | [a] =>
      let v := (a * 65536)%Z in
      String (digit (v `div` 262144)%Z) (String (digit (v `div` 4096)%Z) (if padding then "==" else ""))
  | [] => ""
  end.

Fixpoint position (c : ascii) (n : Z) (s : string) : option Z :=
  match s with
  | EmptyString => None
  | String d r => if decide (c = d) then Some n else position c (n + 1)%Z r
  end.

Definition sextet (c : ascii) : option Z := position c 0 alphabet.

(** Quanta of four digits; the last one may be short, padded when the encoding pads. *)
Fixpoint quanta (s : string) : option (list Z) :=
  match s with
  | EmptyString => Some []
  | String a (String b EmptyString) =>
      if padding then None
      else x ← sextet a; y ← sextet b; Some [((x * 64 + y) `div` 16)%Z]
  | String a (String b (String c EmptyString)) =>
      if padding then None
      else
        x ← sextet a; y ← sextet b; z ← sextet c;
        let v := (((x * 64 + y) * 64 + z) `div` 4)%Z in Some [(v `div` 256)%Z; (v `mod` 256)%Z]
  | String a (String b (String c (String d rest))) =>
      x ← sextet a; y ← sextet b;
      if decide (padding = true ∧ c = "="%char) then
        if decide (d = "="%char ∧ rest = "") then Some [((x * 64 + y) `div` 16)%Z] else None
      else
        z ← sextet c;
        if decide (padding = true ∧ d = "="%char) then
          if decide (rest = "") then
            let v := (((x * 64 + y) * 64 + z) `div` 4)%Z in Some [(v `div` 256)%Z; (v `mod` 256)%Z]
          else None
        else
          w ← sextet d; bs ← quanta rest;
          let v := (((x * 64 + y) * 64 + z) * 64 + w)%Z in
          Some ((v `div` 65536)%Z :: ((v `div` 256) `mod` 256)%Z :: (v `mod` 256)%Z :: bs)
  | _ => None
  end.

Fixpoint without_newlines (s : string) : string :=
  match s with
  | EmptyString => ""
  | String c r => if decide (c = "010"%char ∨ c = "013"%char) then without_newlines r else String c (without_newlines r)
  end.

(** [DecodeString] *)
Definition base64_decode (s : string) : option (list Z) := quanta (without_newlines s).
End base64.

(** [base64.StdEncoding], the form of [[]byte] in JSON, and [base64.RawURLEncoding]. *)
Definition base64_std : list Z → string := base64 std_alphabet true.
Definition base64_rawurl : list Z → string := base64 url_alphabet false.

(** *** Decoding inverts encoding *)

Definition special (c : ascii) : bool := bool_decide (c = "010"%char ∨ c = "013"%char ∨ c = "="%char).

Definition good_alphabet (alphabet : string) : bool :=
  forallb (λ n, bool_decide (sextet alphabet (char_of alphabet n) = Some n) && negb (special (char_of alphabet n))) (seqZ 0 64).

Lemma bytes_of_range s : byte_list (bytes_of s).
Proof.
  induction s as [|c s IH]; simpl; constructor; [|done]. unfold byte_at. pose proof (nat_ascii_bounded c). lia.
Qed.

Lemma string_of_bytes_of s : string_of_bytes (bytes_of s) = s.
Proof. induction s as [|c s IH]; simpl; [done|]. unfold byte_at. by rewrite Nat2Z.id, ascii_nat_embedding, IH. Qed.

Section base64_round.
Context (alphabet : string) (padding : bool) (Hgood : good_alphabet alphabet = true).

Lemma digit_spec n : sextet alphabet (char_of alphabet (n `mod` 64)) = Some (n `mod` 64)%Z ∧ special (char_of alphabet (n `mod` 64)) = false.
Proof.
  pose proof (Z.mod_pos_bound n 64 ltac:(lia)) as Hn. unfold good_alphabet in Hgood. rewrite forallb_forall in Hgood.
  specialize (Hgood (n `mod` 64)%Z). apply andb_true_iff in Hgood as [H1%bool_decide_eq_true H2%negb_true_iff]; [done|].
  apply list_elem_of_In, elem_of_seqZ. lia.
Qed.

(** Bytes are taken three at a time. *)
Lemma byte_triples (P : list Z → Prop) :
  P [] → (∀ a, P [a]) → (∀ a b, P [a; b]) → (∀ a b c bs, P bs → P (a :: b :: c :: bs)) → ∀ bs, P bs.
Proof.
  intros H0 H1 H2 H3. fix IH 1. intros [|a [|b [|c bs]]]; [exact H0|apply H1|apply H2|apply H3, IH].
Qed.

Lemma not_special c : special c = false → c ≠ "010"%char ∧ c ≠ "013"%char ∧ c ≠ "="%char.
Proof. unfold special. rewrite bool_decide_eq_false. tauto. Qed.

Lemma encode_no_newlines bs : without_newlines (base64 alphabet padding bs) = base64 alphabet padding bs.
Proof.
  assert (∀ n s, without_newlines (String (char_of alphabet (n `mod` 64)) s) = String (char_of alphabet (n `mod` 64)) (without_newlines s)) as Hd.
  { intros n s. cbn [without_newlines]. destruct (digit_spec n) as [_ (H1 & H2 & _)%not_special]. by rewrite decide_False by tauto. }
  induction bs as [|a|a b|a b c bs IH] using byte_triples; cbn [base64]; rewrite ?Hd, ?IH; [done|by destruct padding..|done].
Qed.

(** Arithmetic of quotients and remainders by constants. *)
Ltac three_bytes := Z.to_euclidean_division_equations; lia.

Lemma quanta_encode bs : byte_list bs → quanta alphabet padding (base64 alphabet padding bs) = Some bs.
Proof.
  assert (∀ n, char_of alphabet (n `mod` 64) ≠ "="%char) as Heq by (intros n; by destruct (digit_spec n) as [_ (_ & _ & ?)%not_special]).
  assert (∀ n, sextet alphabet (char_of alphabet (n `mod` 64)) = Some (n `mod` 64)%Z) as Hd by (intros n; apply digit_spec).
  induction bs as [|a|a b|a b c bs IH] using byte_triples; intros Hb; cbn [base64].
  - done.
  - apply Forall_cons_1 in Hb as [Ha _]. destruct padding; cbn [quanta]; rewrite !Hd; cbn [mbind option_bind]; rewrite ?decide_True by done;
      f_equal; f_equal; three_bytes.
  - apply Forall_cons_1 in Hb as [Ha [Hb _]%Forall_cons_1]. destruct padding; cbn [quanta]; rewrite !Hd; cbn [mbind option_bind].
    + rewrite decide_False by (intros [_ ?]; by eapply Heq). rewrite ?Hd. cbn [mbind option_bind]. rewrite !decide_True by done.
      f_equal. f_equal; [three_bytes|f_equal; three_bytes].
    + f_equal. f_equal; [three_bytes|f_equal; three_bytes].
  - apply Forall_cons_1 in Hb as [Ha [Hb [Hc Hbs]%Forall_cons_1]%Forall_cons_1]. cbn [quanta]. rewrite !Hd. cbn [mbind option_bind].
    rewrite decide_False by (intros [_ ?]; by eapply Heq). rewrite ?Hd. cbn [mbind option_bind].
    rewrite decide_False by (intros [_ ?]; by eapply Heq). rewrite ?Hd. cbn [mbind option_bind]. rewrite IH by done. cbn [mbind option_bind].
    f_equal. f_equal; [three_bytes|f_equal; [three_bytes|f_equal; three_bytes]].
Qed.

Lemma base64_round bs : byte_list bs → base64_decode alphabet padding (base64 alphabet padding bs) = Some bs.
Proof. intros Hb. unfold base64_decode. by rewrite encode_no_newlines, quanta_encode. Qed.
End base64_round.

Lemma std_alphabet_good : good_alphabet std_alphabet = true.
Proof. by vm_compute. Qed.
Lemma url_alphabet_good : good_alphabet url_alphabet = true.
Proof. by vm_compute. Qed.

(** ** Ed25519 *)

Definition PublicKeySize : nat := 32.
Definition PrivateKeySize : nat := 64.
Definition SignatureSize : nat := 64.

(** [private.Public ()]: the second half of the private key. *)
Definition Public (private : string) : string := String.substring 32 32 private.

Class Ed25519 := {
  Sign : string → string → string;
  Verify_sig : string → string → string → bool;
}.

(** What [crypto/ed25519] documents: a key pair is valid when the private half
    was generated with the public one, signatures have 64 bytes and a signature
    of a valid key verifies under its public half. *)
Class Ed25519Laws (E : Ed25519) := {
  key_pair : string → bool;
  key_pair_length : ∀ k, key_pair k = true → String.length k = PrivateKeySize;
  Sign_length : ∀ k m, key_pair k = true → String.length (Sign k m) = SignatureSize;
  Verify_Sign : ∀ k m, key_pair k = true → Verify_sig (Public k) m (Sign k m) = true;
}.

Lemma substring_length n m s : n + m ≤ String.length s → String.length (String.substring n m s) = m.
Proof.
  revert n m. induction s as [|c s IH]; intros n m; simpl.
  - intros. destruct n, m; simpl in *; lia.
  - destruct n as [|n], m as [|m]; simpl; intros; try done; rewrite IH; lia.
Qed.

Lemma Public_length {E : Ed25519} {L : Ed25519Laws E} k : key_pair k = true → String.length (Public k) = PublicKeySize.
Proof.
  intros Hk. apply substring_length. rewrite (key_pair_length k Hk).
  unfold PrivateKeySize, PublicKeySize. lia.
Qed.

(** An instance: the signature is a 64-byte tag of the public key and the front of
    the message, and any key of the right length is a pair.  It has the laws, is
    cheap to evaluate, and serves the examples; it is no signature scheme. *)
Definition tag_padding : string := string_of_bytes (replicate 64 0%Z).
Definition tag (public m : string) : string := String.substring 0 64 (public +:+ m +:+ tag_padding).

Lemma tag_length public m : String.length (tag public m) = SignatureSize.
Proof.
  apply substring_length. rewrite !string_length_app.
  unfold tag_padding. rewrite string_of_bytes_length, length_replicate. unfold SignatureSize. lia.
Qed.

Global Instance tag_ed25519 : Ed25519 := {|
  Sign k m := tag (Public k) m;
  Verify_sig pub m s := bool_decide (s = tag pub m);
|}.

Global Instance tag_ed25519_laws : Ed25519Laws tag_ed25519.
Proof.
  refine {| key_pair k := bool_decide (String.length k = PrivateKeySize) |}.
  - intros k Hk. by apply bool_decide_eq_true in Hk.
  - intros k m _. apply tag_length.
  - intros k m _. by apply bool_decide_eq_true.
Defined.
