(* ===== verification/Ledger.v ===== *)
(** * ledger.go: idempotent token accounting

    [Ledger] counts the tokens of one engine session.  [Apply] is called once per
    turn with the turn's identifier and sequence; a retry of the last identifier
    is not charged again and the sum saturates at the width of [uint64]. *)

From stdpp Require Import base tactics list numbers sorting.
From S2P Require Import Prelude.

Local Open Scope Z_scope.

Record Ledger := mkLedger {
  HardLimit : Z;
  Used : Z;
  LastID : Z;
  LastSeq : Z;
}.

Definition saturatingAdd (a b : Z) : Z :=
  if decide (MaxUint64 - a < b) then MaxUint64 else u64 (a + b).

Definition Apply (l : Ledger) (id seq amount : Z) : option error * Ledger :=
  if decide (id = LastID l ∧ id ≠ 0) then (None, l)
  else if decide (seq ≤ LastSeq l) then (Some ErrUsageSequence, l)
  else if decide (HardLimit l ≠ 0 ∧ (Used l > HardLimit l ∨ amount > u64 (HardLimit l - Used l)))
  then (Some ErrQuota, l)
  else
    let used := if decide (MaxUint64 - Used l < amount) then MaxUint64 else u64 (Used l + amount) in
    (None, {| HardLimit := HardLimit l; Used := used; LastID := id; LastSeq := seq |}).

(** ** Well-formed ledgers and runs *)

Definition ledger_wf (l : Ledger) : Prop :=
  in_u64 (HardLimit l) ∧ in_u64 (Used l) ∧ in_u64 (LastID l) ∧ in_u64 (LastSeq l).

Record usage := mkUsage { u_id : Z; u_seq : Z; u_amount : Z }.

Definition usage_wf (u : usage) : Prop := in_u64 (u_id u) ∧ in_u64 (u_seq u) ∧ in_u64 (u_amount u).

(** The ledger after a sequence of calls, and the usages it charged. *)
Fixpoint run (l : Ledger) (us : list usage) : list usage * Ledger :=
  match us with
  | [] => ([], l)
  | u :: us =>
      let '(err, l1) := Apply l (u_id u) (u_seq u) (u_amount u) in
      let '(charged, l2) := run l1 us in
      (if decide (err = None ∧ LastSeq l1 ≠ LastSeq l) then u :: charged else charged, l2)
  end.

Lemma saturatingAdd_min a b :
  in_u64 a → in_u64 b → saturatingAdd a b = Z.min MaxUint64 (a + b).
Proof.
  unfold in_u64, saturatingAdd. intros. case_decide; [lia|].
  rewrite u64_small by (unfold MaxUint64 in *; lia). lia.
Qed.

(** What one call does, branch by branch. *)
Lemma Apply_cases l id seq amount :
  ledger_wf l → in_u64 amount →
  Apply l id seq amount =
    if decide (id = LastID l ∧ id ≠ 0) then (None, l)
    else if decide (seq ≤ LastSeq l) then (Some ErrUsageSequence, l)
    else if decide (HardLimit l ≠ 0 ∧ HardLimit l < Used l + amount) then (Some ErrQuota, l)
    else (None, mkLedger (HardLimit l) (Z.min MaxUint64 (Used l + amount)) id seq).
Proof.
  unfold ledger_wf, in_u64. intros (Hh & Hu & _) Ha. unfold Apply.
  case_decide; [done|]. case_decide; [done|].
  assert (u64 (HardLimit l - Used l) = HardLimit l - Used l ∨ Used l > HardLimit l) as [E|E].
  { destruct (decide (Used l > HardLimit l)); [by right|left].
    apply u64_small. unfold MaxUint64 in *. lia. }
  all: repeat case_decide; try lia; try done.
  all: unfold u64, MaxUint64 in *; repeat f_equal; try lia.
  all: rewrite Z.mod_small by lia; lia.
Qed.

Lemma Apply_wf l id seq amount :
  ledger_wf l → in_u64 id → in_u64 seq → in_u64 amount →
  ledger_wf (snd (Apply l id seq amount)).
Proof.
  intros Hl Hi Hs Ha. rewrite Apply_cases by done.
  repeat case_decide; try done. unfold ledger_wf, in_u64, MaxUint64 in *; simpl; lia.
Qed.

Lemma Apply_fields l id seq amount err l1 :
  ledger_wf l → in_u64 amount → Apply l id seq amount = (err, l1) →
  HardLimit l1 = HardLimit l ∧ LastSeq l ≤ LastSeq l1 ∧
  (err = None ∧ LastSeq l1 ≠ LastSeq l →
     LastSeq l1 = seq ∧ Used l1 = Z.min MaxUint64 (Used l + amount)) ∧
  (¬ (err = None ∧ LastSeq l1 ≠ LastSeq l) → l1 = l) ∧
  (HardLimit l ≠ 0 → Used l ≤ HardLimit l → Used l1 ≤ HardLimit l).
Proof.
  intros Hl Ha. rewrite Apply_cases by done.
  repeat case_decide; intros; simplify_eq/=; split_and!; try done; try lia;
    naive_solver lia.
Qed.

Lemma run_spec us : ∀ l,
  ledger_wf l → Forall usage_wf us →
  let '(charged, l2) := run l us in
  Forall usage_wf charged ∧
  StronglySorted Z.lt (LastSeq l :: (u_seq <$> charged)) ∧
  Used l2 = Z.min MaxUint64 (Used l + sumZ u_amount charged) ∧
  (HardLimit l ≠ 0 → Used l ≤ HardLimit l → Used l2 ≤ HardLimit l).
Proof.
  induction us as [|u us IH]; intros l Hl Hus; simpl.
  { destruct Hl as (_ & [? ?] & _). unfold sumZ. simpl. split_and!; try lia; by repeat constructor. }
  apply Forall_cons_1 in Hus as [Hu Hus]. pose proof Hu as (Hi & Hs & Ha).
  pose proof (Apply_wf l _ _ _ Hl Hi Hs Ha) as Hl1.
  destruct (Apply l _ _ _) as [err l1] eqn:E. simpl in Hl1.
  apply Apply_fields in E as (Hh & Hmono & Hyes & Hno & Hq); [|done..].
  specialize (IH l1 Hl1 Hus). destruct (run l1 us) as [charged l2].
  destruct IH as (Hc & Hsort & Hused & Hlim).
  case_decide as Hd; [|by rewrite (Hno Hd) in *].
  destruct (Hyes Hd) as [Eseq Eused]. rewrite Eseq in *.
  assert (0 ≤ sumZ u_amount charged).
  { apply sumZ_nonneg_Forall. eapply Forall_impl; [exact Hc|]. unfold usage_wf, in_u64. intros. lia. }
  split_and!.
  - by constructor.
  - csimpl. apply StronglySorted_inv in Hsort as [Hs' Hall].
    assert (LastSeq l < u_seq u) by lia. constructor; [by constructor|].
    constructor; [done|]. eapply Forall_impl; [exact Hall|]. simpl. lia.
  - rewrite Hused, Eused. rewrite sumZ_cons. destruct Ha. lia.
  - intros. rewrite Hh in Hlim. apply Hlim; auto.
Qed.

(** A session's ledger charges every accepted usage exactly once.  After any
    sequence of [Apply] calls the total is the saturated sum of the amounts that
    were charged, the charged sequence numbers are strictly increasing, and a
    total within a configured hard limit never leaves it. *)
Theorem ledger_run_charges l us :
  ledger_wf l → Forall usage_wf us →
  let '(charged, l2) := run l us in
  Used l2 = Z.min MaxUint64 (Used l + sumZ u_amount charged) ∧
  StronglySorted Z.lt (u_seq <$> charged) ∧
  (HardLimit l ≠ 0 → Used l ≤ HardLimit l → Used l2 ≤ HardLimit l).
Proof.
  intros Hl Hus. pose proof (run_spec us l Hl Hus) as H.
  destruct (run l us) as [charged l2]. destruct H as (_ & Hs & Hu & Hq).
  split_and!; [done| |done]. by apply StronglySorted_inv in Hs as [? _].
Qed.

Lemma ledger_run_charges_witness :
  run (mkLedger 100 0 0 0) [mkUsage 1 1 60; mkUsage 1 1 60; mkUsage 2 2 50; mkUsage 3 3 40]
    = ([mkUsage 1 1 60; mkUsage 3 3 40], mkLedger 100 100 3 3) ∧
  100 = Z.min MaxUint64 (0 + sumZ u_amount [mkUsage 1 1 60; mkUsage 3 3 40]).
Proof.
  split; [reflexivity|].
  refine (proj1 (ledger_run_charges (mkLedger 100 0 0 0)
    [mkUsage 1 1 60; mkUsage 1 1 60; mkUsage 2 2 50; mkUsage 3 3 40] _ _)).
  - repeat split; simpl; unfold MaxUint64; lia.
  - repeat constructor; simpl; unfold MaxUint64; lia.
Defined.
