(* ===== verification/Policy.v ===== *)
(** * policy.go: capability tokens and the deny-overrides policy

    A token carries grants signed by its issuer's key.  [Attenuate] re-signs a
    token with fewer grants and one more caveat; [CapabilityAuthorizer] combines
    the policy of the manifest with an optional token.  [LoadCapabilitySet]'s
    checks and the policy built from the manifest are in the second half. *)

From Stdlib Require Import Ascii.
From stdpp Require Import base tactics option list sets strings numbers pretty.
From S2P Require Import Prelude GoLib Json Crypto.

Record CapabilityGrant := mkGrant { Object : string; Action : string }.

Global Instance grant_eq_dec : EqDecision CapabilityGrant.
Proof. solve_decision. Defined.

Record CapabilityToken := mkToken {
  Issuer : string;
  Subject : string;
  ExpiresAt : Z;
  PublicKey : string;
  Grants : list CapabilityGrant;
  Caveats : list string;
  Signature : string;
}.

Global Instance token_eq_dec : EqDecision CapabilityToken.
Proof. solve_decision. Defined.

(** ** time.Time as nanoseconds since the Unix epoch *)

Definition Unix (t : Z) : Z := (t `div` 1000000000)%Z.
Definition zeroTime : Z := (-62135596800 * 1000000000)%Z.

(** ** Tokens *)

Definition bytes_json (b : string) : string :=
  if decide (b = "") then "null" else String quote (base64_std (bytes_of b) +:+ String quote "").

Definition grant_json (g : CapabilityGrant) : string :=
  obj_literal [("object", json_quote (Object g)); ("action", json_quote (Action g))].

(** The signed text: the JSON of the token without its signature.  An empty
    slice is the nil slice. *)
Definition tokenBytes (t : CapabilityToken) : string :=
  obj_literal (
    [("issuer", json_quote (Issuer t)); ("subject", json_quote (Subject t));
     ("expires_at", json_int (ExpiresAt t)); ("public_key", bytes_json (PublicKey t));
     ("grants", if decide (Grants t = []) then "null" else arr_literal (grant_json <$> Grants t))] ++
    (if decide (Caveats t = []) then [] else [("caveats", arr_literal (json_quote <$> Caveats t))]) ++
    [("signature", "null")]).

Definition bytesEqual (a b : string) : bool := bool_decide (Sum256 a = Sum256 b).

Definition grantContains (parent child : CapabilityGrant) : bool :=
  if negb (bool_decide (Object parent = Object child)) then false
  else if bool_decide (Action parent = Action child) || bool_decide (Action parent = "*") then true
  else if HasSuffix (Action parent) "/**" then
    let base := TrimSuffix (Action parent) "/**" in
    IsAbs (Action child) && bool_decide (Clean (Action child) = Action child) &&
    (bool_decide (Action child = base) || HasPrefix (Action child) (base +:+ "/"))
  else false.

Section tokens.
Context {E : Ed25519}.

Definition signToken (t : CapabilityToken) (private : string) : CapabilityToken :=
  {| t with Signature := Sign private (tokenBytes t) |}.

Definition MintCapabilityToken (private issuer subject : string) (expiresAt : Z)
    (grants : list CapabilityGrant) : result error CapabilityToken :=
  if decide (String.length private ≠ PrivateKeySize ∨ issuer = "" ∨ subject = ""
             ∨ expiresAt = zeroTime ∨ grants = [])
  then Err (New "invalid capability token claims")
  else Ok (signToken (mkToken issuer subject (Unix expiresAt) (Public private) grants [] "") private).

Definition Verify (t : CapabilityToken) (now : Z) : result error unit :=
  if decide (String.length (PublicKey t) ≠ PublicKeySize ∨ String.length (Signature t) ≠ SignatureSize
             ∨ Issuer t = "" ∨ Subject t = "" ∨ (ExpiresAt t < Unix now)%Z)
  then Err (New "invalid or expired capability token")
  else if negb (Verify_sig (PublicKey t) (tokenBytes t) (Signature t))
  then Err (New "capability token signature mismatch")
  else Ok ().

(** The candidates some grant of the parent contains, in their order. *)
Definition narrowed (parents candidates : list CapabilityGrant) : list CapabilityGrant :=
  filter (λ candidate, is_Some (find_first (λ parent, grantContains parent candidate) parents)) candidates.

Definition Attenuate (t : CapabilityToken) (now : Z) (private caveat : string)
    (grants : list CapabilityGrant) : result error CapabilityToken :=
  match Verify t now with
  | Err e => Err e
  | Ok _ =>
      if decide (String.length private ≠ PrivateKeySize ∨ caveat = "" ∨ grants = []
                 ∨ bytesEqual (Public private) (PublicKey t) = false)
      then Err (New "invalid attenuation")
      else
        let allowed := narrowed (Grants t) grants in
        if decide (allowed = []) then Err (New "attenuation removes all grants")
        else Ok (signToken {| t with Grants := allowed; Caveats := Caveats t ++ [caveat] |} private)
  end.

Definition Allows (t : CapabilityToken) (object action : string) : bool :=
  bool_decide (is_Some (find_first
    (λ grant, bool_decide (Object grant = object) && grantContains grant (mkGrant object action))
    (Grants t))).

(** ** The policy *)

Record CedarRule := mkRule {
  Effect : string; Principal : string; RuleObject : string; RuleAction : string }.

Definition CedarPolicy : Type := list CedarRule.

Definition matches (rule value : string) : bool := bool_decide (rule = "*") || bool_decide (rule = value).
Definition matchAction (rule value : string) : bool :=
  bool_decide (rule = "*") || bool_decide (rule = value)
  || grantContains (mkGrant "" rule) (mkGrant "" value).

Definition rule_applies (rule : CedarRule) (principal object action : string) : bool :=
  matches (Principal rule) principal && matches (RuleObject rule) object
  && matchAction (RuleAction rule) action.

Fixpoint evaluate_from (allowed : bool) (rules : list CedarRule) (principal object action : string) : bool :=
  match rules with
  | [] => allowed
  | rule :: rules =>
      if negb (rule_applies rule principal object action)
      then evaluate_from allowed rules principal object action
      else if EqualFold (Effect rule) "deny" then false
      else evaluate_from (EqualFold (Effect rule) "allow" || allowed) rules principal object action
  end.

Definition Evaluate (p : CedarPolicy) (principal object action : string) : bool :=
  evaluate_from false p principal object action.

Definition authorize (p : CedarPolicy) (principal object action : string)
    (token : option CapabilityToken) (now : Z) : result error unit :=
  if negb (Evaluate p principal object action) then Err ErrCapabilityDenied
  else match token with
       | None => Ok ()
       | Some t =>
           if is_ok (Verify t now) && bool_decide (Subject t = principal) && Allows t object action
           then Ok () else Err ErrCapabilityDenied
       end.
End tokens.

(** ** The manifest's capability set (supervisor.go) *)

Record CapabilitySet := mkCapabilitySet {
  CapEngine : string;
  MemMiB : Z;
  CPUs : Z;
  FSRead : list string;
  FSWrite : list string;
  Net : bool;
  Tools : list string;
  ExportMask : Z;
}.

Definition allow_rule (object action : string) : CedarRule := mkRule "allow" "*" object action.

Definition cedarPolicyFromCapabilitySet (policy : CapabilitySet) : CedarPolicy :=
  (if Net policy then [allow_rule "net" "*"] else []) ++
  (allow_rule "tool" <$> Tools policy) ++
  (allow_rule "fs.read" <$> FSRead policy) ++
  (allow_rule "fs.write" <$> FSWrite policy).

Definition fs_rule_ok (p : string) : bool :=
  let base := TrimSuffix p "/**" in
  IsAbs base && bool_decide (Clean base = base) && negb (contains_byte (one_of "*?[") base).

(** The checks of [LoadCapabilitySet] on the decoded manifest; opening the file
    and decoding its YAML are the caller's. *)
Definition LoadCapabilitySet (c : CapabilitySet) : result error CapabilitySet :=
  if decide (CapEngine c = "") then Err (New "manifest engine is required")
  else if decide (MemMiB c < 0 ∨ MemMiB c > 1048576 ∨ CPUs c < 0 ∨ CPUs c > 1024)%Z
  then Err (New "manifest resource limits are out of range")
  else if forallb fs_rule_ok (FSRead c ++ FSWrite c) then Ok c
  else Err (New "filesystem rules require absolute paths with optional /** suffix").

Definition path_under_rule (rule path : string) : bool :=
  let base := TrimSuffix rule "/**" in
  bool_decide (path = base)
  || (negb (bool_decide (base = rule)) && HasPrefix path (TrimSuffix base "/" +:+ "/")).

Definition allowedPath (rules : list string) (path : string) : bool :=
  if negb (IsAbs path) || negb (bool_decide (Clean path = path)) then false
  else existsb (λ rule, path_under_rule rule path) rules.

(** ** Lemmas *)

Lemma evaluate_from_true rules : ∀ allowed principal object action,
  evaluate_from allowed rules principal object action = true ↔
  (allowed = true ∨ ∃ r, r ∈ rules ∧ rule_applies r principal object action = true
                         ∧ EqualFold (Effect r) "allow" = true) ∧
  (∀ r, r ∈ rules → rule_applies r principal object action = true →
        EqualFold (Effect r) "deny" = false).
Proof.
  induction rules as [|r rules IH]; intros allowed principal object action; simpl.
  { split; [intros ?; split; [by left|by intros ? ?%elem_of_nil]|].
    by intros [[?|(r & ?%elem_of_nil & _)] _]. }
  setoid_rewrite elem_of_cons.
  destruct (rule_applies r principal object action) eqn:Ha; simpl.
  - destruct (EqualFold (Effect r) "deny") eqn:Hd.
    + split; [done|]. intros [_ H]. rewrite (H r) in Hd; auto.
    + rewrite IH, orb_true_iff. split; intros [H1 H2]; split.
      * destruct H1 as [[?|?]|(r' & ? & ?)]; eauto 7.
      * intros r' [->|?] Happ; eauto.
      * destruct H1 as [?|(r' & [->|?] & ? & ?)]; eauto 7.
      * eauto.
  - rewrite IH. split; intros [H1 H2]; split.
    + destruct H1 as [?|(r' & ? & ?)]; eauto 6.
    + intros r' [->|?] Happ; [congruence|eauto].
    + destruct H1 as [?|(r' & [->|?] & ? & ?)]; [eauto|congruence|eauto 6].
    + eauto.
Qed.

(** A grant that ends in two wildcard segments. *)
Definition double_star (action : string) : bool := HasSuffix action "/**/**".

Lemma grantContains_true p c :
  grantContains p c = true ↔
  Object p = Object c ∧
  (Action p = Action c ∨ Action p = "*" ∨
   ∃ base, Action p = base +:+ "/**" ∧ IsAbs (Action c) = true ∧ Clean (Action c) = Action c ∧
           (Action c = base ∨ ∃ r, Action c = base +:+ "/" +:+ r)).
Proof.
  unfold grantContains. case_bool_decide as Ho; simpl; [|naive_solver].
  destruct (bool_decide_reflect (Action p = Action c)); simpl; [naive_solver|].
  destruct (bool_decide_reflect (Action p = "*")); simpl; [naive_solver|].
  destruct (HasSuffix (Action p) "/**") eqn:Hs.
  - apply HasSuffix_true in Hs. set (b := TrimSuffix (Action p) "/**") in *.
    rewrite !andb_true_iff, orb_true_iff, !bool_decide_eq_true, HasPrefix_true.
    setoid_rewrite <- string_app_assoc. split.
    + intros [[? ?] ?]. split; [done|]. right; right. by exists b.
    + intros (_ & [?|[?|(b' & Hb & ? & ? & Hc)]]); [done..|].
      assert (b = b') as -> by (unfold b; by rewrite Hb, TrimSuffix_app). done.
  - split; [done|]. intros (_ & [?|[?|(b & Hb & _)]]); [done..|].
    assert (HasSuffix (Action p) "/**" = true); [|congruence].
    apply HasSuffix_true. by rewrite Hb, TrimSuffix_app.
Qed.

(** Two ways of splitting the same text. *)
Lemma string_app_split a : ∀ b x y,
  a +:+ x = b +:+ y → (∃ d, b = a +:+ d ∧ x = d +:+ y) ∨ (∃ d, a = b +:+ d ∧ y = d +:+ x).
Proof.
  induction a as [|c a IH]; intros b x y H.
  { left. by exists b. }
  destruct b as [|c' b].
  { right. by exists (String c a). }
  rewrite !string_app_cons in H. injection H as -> H.
  destruct (IH _ _ _ H) as [(d & -> & ->)|(d & -> & ->)]; [left|right]; by exists d.
Qed.

Lemma grantContains_trans p c r :
  double_star (Action p) = false →
  grantContains p c = true → grantContains c r = true → grantContains p r = true.
Proof.
  rewrite !grantContains_true.
  intros Hds (Ho & Hp) (Ho' & Hc). split; [congruence|].
  destruct Hp as [->|[->|(base & Hp & Habs & Hcl & Hpre)]]; [by destruct Hc as [->|Hc]; auto|by auto|].
  destruct Hc as [<-|[Hc|(b & Hc & ? & ? & Hr)]].
  - right; right. by exists base.
  - rewrite Hc in Habs. by vm_compute in Habs.
  - right; right. exists base. split_and!; [done..|].
    destruct Hpre as [Hpre|(r0 & Hpre)]; rewrite Hc in Hpre.
    + exfalso. subst base. assert (double_star (Action p) = true); [|congruence].
      apply HasSuffix_true. rewrite Hp, <- string_app_assoc.
      change ("/**" +:+ "/**") with "/**/**". by rewrite TrimSuffix_app.
    + destruct (string_app_split _ _ _ _ Hpre) as [(d & -> & Hd)|(d & -> & Hd)].
      * destruct d as [|d1 d].
        { rewrite string_app_nil_r. naive_solver. }
        exfalso. rewrite string_app_cons in Hd. injection Hd as <- Hd.
        destruct d as [|? [|? [|? d]]]; vm_compute in Hd; congruence.
      * destruct Hr as [->|(r1 & ->)].
        { destruct d as [|d1 d]; [left; by rewrite string_app_nil_r|].
          rewrite string_app_cons in Hd. injection Hd as <- Hd. right. exists d. by rewrite string_app_cons. }
        { destruct d as [|d1 d]; [right; exists r1; by rewrite string_app_nil_r|].
          rewrite string_app_cons in Hd. injection Hd as <- Hd. right. exists (d +:+ "/" +:+ r1).
          rewrite <- string_app_assoc. reflexivity. }
Qed.

Lemma Allows_true t object action :
  Allows t object action = true ↔
  ∃ g, g ∈ Grants t ∧ grantContains g (mkGrant object action) = true.
Proof.
  unfold Allows. rewrite bool_decide_eq_true. split.
  - intros [g Hg]. apply find_first_Some in Hg as [? [_ ?]%andb_true_iff]. by exists g.
  - intros (g & Hg & Hc). destruct (find_first _ _) as [g'|] eqn:E; [by exists g'|].
    rewrite find_first_None in E. specialize (E g Hg).
    pose proof Hc as [Ho _]%grantContains_true. simpl in Ho.
    by rewrite Hc, bool_decide_eq_true_2 in E.
Qed.

Lemma elem_of_narrowed parents candidates g :
  g ∈ narrowed parents candidates ↔
  g ∈ candidates ∧ ∃ p, p ∈ parents ∧ grantContains p g = true.
Proof.
  unfold narrowed. rewrite list_elem_of_filter. split; intros [H1 H2]; split; try done.
  - destruct H1 as [p [? ?]%find_first_Some]. by exists p.
  - destruct (find_first _ _) as [p|] eqn:E; [done|].
    rewrite find_first_None in E. destruct H2 as (p & Hp & Hc). by rewrite E in Hc.
Qed.

Lemma tokenBytes_Signature t s : tokenBytes {| t with Signature := s |} = tokenBytes t.
Proof. done. Qed.

Section token_theorems.
Context {E : Ed25519} {L : Ed25519Laws E}.

Lemma signToken_verifies t private now :
  key_pair private = true → PublicKey t = Public private →
  Issuer t ≠ "" → Subject t ≠ "" → (Unix now ≤ ExpiresAt t)%Z →
  Verify (signToken t private) now = Ok ().
Proof.
  intros Hk Hp Hi Hs He. unfold Verify, signToken. cbn [PublicKey Signature Issuer Subject ExpiresAt].
  rewrite decide_False.
  - by rewrite tokenBytes_Signature, Hp, Verify_Sign.
  - rewrite Hp, Public_length, Sign_length by done. intros [?|[?|[?|[?|?]]]]; try done. lia.
Qed.

Lemma Verify_ok t now :
  Verify t now = Ok () →
  Issuer t ≠ "" ∧ Subject t ≠ "" ∧ (Unix now ≤ ExpiresAt t)%Z ∧
  String.length (PublicKey t) = PublicKeySize ∧
  Verify_sig (PublicKey t) (tokenBytes t) (Signature t) = true.
Proof.
  unfold Verify. case_decide as Hd; [done|].
  destruct (Verify_sig _ _ _) eqn:Hv; [|done]. intros _.
  split_and!; [tauto|tauto| |apply dec_stable; tauto|done].
  destruct (decide (ExpiresAt t < Unix now)%Z); [tauto|lia].
Qed.
End token_theorems.

(** A token minted with a generated key verifies until it expires and allows
    exactly what its grants contain. *)
Theorem mint_verifies {E : Ed25519} {L : Ed25519Laws E} private issuer subject expiresAt grants now t :
  key_pair private = true →
  MintCapabilityToken private issuer subject expiresAt grants = Ok t →
  (Unix now ≤ Unix expiresAt)%Z →
  Verify t now = Ok () ∧
  (∀ object action, Allows t object action = true ↔
     ∃ g, g ∈ grants ∧ grantContains g (mkGrant object action) = true).
Proof.
  unfold MintCapabilityToken. intros Hk Hm Hn. case_decide as Hd; [done|]. injection Hm as <-.
  split; [|intros; by rewrite Allows_true].
  apply signToken_verifies; try done; simpl; tauto.
Qed.

Definition sample_key : string := string_of_bytes (replicate 64 7%Z).
Definition sample_grants : list CapabilityGrant :=
  [mkGrant "fs.read" "/data/**"; mkGrant "tool" "search"].
Definition ok_token (r : result error CapabilityToken) : CapabilityToken :=
  match r with Ok t => t | Err _ => mkToken "" "" 0 "" [] [] "" end.
Definition sample_mint (grants : list CapabilityGrant) : CapabilityToken :=
  ok_token (MintCapabilityToken sample_key "root" "app-1" 2000000000000000000 grants).
Definition sample_token : CapabilityToken := sample_mint sample_grants.
Definition sample_attenuate (t : CapabilityToken) (action : string) : CapabilityToken :=
  ok_token (Attenuate t 1000000000000000000 sample_key "narrow" [mkGrant "fs.read" action]).

Lemma mint_verifies_witness :
  key_pair sample_key = true ∧
  MintCapabilityToken sample_key "root" "app-1" 2000000000000000000 sample_grants = Ok sample_token ∧
  Verify sample_token 1000000000000000000 = Ok () ∧
  Allows sample_token "fs.read" "/data/x" = true.
Proof.
  assert (Hm : MintCapabilityToken sample_key "root" "app-1" 2000000000000000000 sample_grants
               = Ok sample_token) by (vm_compute; reflexivity).
  destruct (mint_verifies sample_key "root" "app-1" 2000000000000000000 sample_grants
    1000000000000000000 sample_token) as [Hv Ha].
  - vm_compute. reflexivity.
  - exact Hm.
  - vm_compute. discriminate.
  - split_and!; [vm_compute; reflexivity|exact Hm|exact Hv|].
    apply Ha. exists (mkGrant "fs.read" "/data/**"). split; [left|vm_compute; reflexivity].
Defined.

(** Attenuation narrows.  When no grant of the parent ends in two wildcard
    segments, everything the attenuated token allows was allowed by its parent;
    issuer, subject, key and expiry are the parent's, the caveats are the parent's
    with the new one appended, and the result verifies. *)
Theorem attenuate_narrows {E : Ed25519} {L : Ed25519Laws E} t now private caveat grants t' :
  key_pair private = true → PublicKey t = Public private →
  Forall (λ g, double_star (Action g) = false) (Grants t) →
  Attenuate t now private caveat grants = Ok t' →
  Verify t' now = Ok () ∧ Issuer t' = Issuer t ∧ Subject t' = Subject t ∧
  ExpiresAt t' = ExpiresAt t ∧ PublicKey t' = PublicKey t ∧ Caveats t' = Caveats t ++ [caveat] ∧
  (∀ object action, Allows t' object action = true → Allows t object action = true).
Proof.
  intros Hk Hpub Hds. unfold Attenuate. destruct (Verify t now) as [[]|] eqn:Hv; [|done].
  case_decide; [done|]. case_decide; [done|]. intros [= <-].
  apply Verify_ok in Hv as (Hi & Hs & He & _).
  split_and!; try done; [by apply signToken_verifies|].
  intros object action. rewrite !Allows_true. intros (g & Hg & Hc).
  apply elem_of_narrowed in Hg as [_ (p & Hp & Hpc)].
  exists p. split; [done|]. rewrite Forall_forall in Hds.
  eapply grantContains_trans; eauto.
Qed.

Lemma attenuate_narrows_witness :
  let t' := sample_attenuate sample_token "/data/a/**" in
  Attenuate sample_token 1000000000000000000 sample_key "narrow" [mkGrant "fs.read" "/data/a/**"] = Ok t' ∧
  Allows t' "fs.read" "/data/a/b" = true ∧ Allows t' "tool" "search" = false ∧
  Verify t' 1000000000000000000 = Ok ().
Proof.
  split_and!; [vm_compute; reflexivity..|].
  apply (attenuate_narrows sample_token 1000000000000000000 sample_key "narrow"
    [mkGrant "fs.read" "/data/a/**"]); [vm_compute; reflexivity..| |vm_compute; reflexivity].
  change (Grants sample_token) with sample_grants. repeat constructor; vm_compute; reflexivity.
Defined.

(** Without that condition attenuation can widen: from a parent that grants
    [/a/**/**] a token for [/a/**] is issued, and it allows a path the parent does
    not. *)
Theorem attenuate_double_star_escalates : ∃ t t',
  Verify t 1000000000000000000 = Ok () ∧
  Attenuate t 1000000000000000000 sample_key "narrow" [mkGrant "fs.read" "/a/**"] = Ok t' ∧
  Allows t "fs.read" "/a/secret" = false ∧ Allows t' "fs.read" "/a/secret" = true.
Proof.
  set (t := sample_mint [mkGrant "fs.read" "/a/**/**"]).
  exists t, (sample_attenuate t "/a/**"). split_and!; vm_compute; reflexivity.
Qed.

(** The policy's decision is deny-overrides: a request is allowed exactly when
    some applicable rule allows it and no applicable rule, wherever it stands,
    denies it. *)
Theorem evaluate_deny_overrides p principal object action :
  Evaluate p principal object action = true ↔
  (∃ r, r ∈ p ∧ rule_applies r principal object action = true ∧ EqualFold (Effect r) "allow" = true) ∧
  (∀ r, r ∈ p → rule_applies r principal object action = true → EqualFold (Effect r) "deny" = false).
Proof. unfold Evaluate. rewrite evaluate_from_true. naive_solver. Qed.

(** ** The manifest's file rules *)

Lemma split_slash_trailing b : ∃ h cs, split_slash (b +:+ "/") = h :: cs ++ [""].
Proof.
  induction b as [|c b (h & cs & IH)]; [by exists "", []|].
  rewrite string_app_cons. cbn [split_slash]. rewrite IH.
  case_decide; [by exists "", (h :: cs)|by exists (String c h), cs].
Qed.

(** Only the root ends in a slash among clean absolute paths. *)
Lemma clean_abs_no_trailing p :
  IsAbs p = true → Clean p = p → p ≠ "/" → TrimSuffix p "/" = p.
Proof.
  intros Habs Hc Hne. unfold TrimSuffix. destruct (strip_suffix "/" p) as [b|] eqn:E; [|done].
  exfalso. apply strip_suffix_Some in E.
  destruct (clean_abs_components p Habs Hc) as [?|(cs & Hcs & Hs & Hn)]; [done|].
  destruct (split_slash_trailing b) as (h & cs' & Hs').
  rewrite E, Hs' in Hs. injection Hs as _ <-.
  apply Forall_app in Hn as [_ Hn]. apply Forall_cons_1 in Hn as [(_ & ? & _) _]. done.
Qed.

Lemma fs_rule_ok_not_star p : fs_rule_ok p = true → p ≠ "*".
Proof. by intros H ->. Qed.

(** One rule decides a clean absolute path as [allowedPath] does. *)
Lemma matchAction_rule rule path :
  fs_rule_ok rule = true → TrimSuffix rule "/**" ≠ "/" →
  IsAbs path = true → Clean path = path →
  matchAction rule path = path_under_rule rule path.
Proof.
  intros Hok Hroot Habs Hc. pose proof (fs_rule_ok_not_star _ Hok) as Hstar.
  apply andb_true_iff in Hok as [[Hba Hbc%bool_decide_eq_true]%andb_true_iff _].
  unfold path_under_rule.
  rewrite (clean_abs_no_trailing (TrimSuffix rule "/**")) by done.
  unfold matchAction, grantContains. cbn [Object Action].
  rewrite (bool_decide_eq_false_2 (rule = "*")) by done.
  rewrite (bool_decide_eq_true_2 ("" = "")), Habs, (bool_decide_eq_true_2 (Clean path = path)) by done.
  cbn [negb orb andb].
  destruct (HasSuffix rule "/**") eqn:Hs.
  - apply HasSuffix_true in Hs. set (b := TrimSuffix rule "/**") in *.
    rewrite (bool_decide_eq_false_2 (b = rule)).
    + destruct (bool_decide_reflect (rule = path)) as [<-|]; simpl; [|done].
      symmetry. apply orb_true_iff. right. apply HasPrefix_true. exists "**".
      by rewrite Hs, <- string_app_assoc.
    + intros E. rewrite E in Hs. assert (len rule = len rule + 3)%Z; [|lia].
      by rewrite Hs at 1; rewrite len_app.
  - assert (TrimSuffix rule "/**" = rule) as ->.
    { unfold TrimSuffix, HasSuffix in *. apply bool_decide_eq_false in Hs.
      destruct (strip_suffix "/**" rule); [exfalso; eauto|done]. }
    rewrite (bool_decide_eq_true_2 (rule = rule)) by done. simpl.
    by destruct (bool_decide_reflect (rule = path)), (bool_decide_reflect (path = rule));
      simpl; congruence.
Qed.

Lemma rule_applies_allow object rule principal object' action :
  rule_applies (allow_rule object rule) principal object' action =
    (matches object object' && matchAction rule action).
Proof. reflexivity. Qed.

(** What the policy of a manifest decides on one kind of object. *)
Lemma evaluate_manifest c principal object action :
  Evaluate (cedarPolicyFromCapabilitySet c) principal object action = true ↔
  (object = "net" ∧ Net c = true) ∨
  (object = "tool" ∧ ∃ r, r ∈ Tools c ∧ matchAction r action = true) ∨
  (object = "fs.read" ∧ ∃ r, r ∈ FSRead c ∧ matchAction r action = true) ∨
  (object = "fs.write" ∧ ∃ r, r ∈ FSWrite c ∧ matchAction r action = true).
Proof.
  unfold Evaluate. rewrite evaluate_from_true.
  assert (Hin : ∀ r, r ∈ cedarPolicyFromCapabilitySet c ↔
    (r = allow_rule "net" "*" ∧ Net c = true) ∨
    (∃ a, r = allow_rule "tool" a ∧ a ∈ Tools c) ∨
    (∃ a, r = allow_rule "fs.read" a ∧ a ∈ FSRead c) ∨
    (∃ a, r = allow_rule "fs.write" a ∧ a ∈ FSWrite c)).
  { intros r. unfold cedarPolicyFromCapabilitySet.
    rewrite !elem_of_app, !list_elem_of_fmap.
    destruct (Net c); rewrite ?list_elem_of_singleton, ?elem_of_nil; naive_solver. }
  split.
  - intros [[?|(r & Hr & Ha & _)] _]; [done|]. apply Hin in Hr.
    destruct Hr as [[-> ?]|[(a & -> & ?)|[(a & -> & ?)|(a & -> & ?)]]];
      rewrite rule_applies_allow in Ha; apply andb_true_iff in Ha as [Ho Ha];
      apply orb_true_iff in Ho as [Ho%bool_decide_eq_true|Ho%bool_decide_eq_true]; try done;
      subst object; eauto 8.
  - intros H. split; [right|].
    + destruct H as [[-> ?]|[(-> & a & ? & ?)|[(-> & a & ? & ?)|(-> & a & ? & ?)]]].
      * exists (allow_rule "net" "*"). rewrite Hin. split_and!; [auto|reflexivity|reflexivity].
      * exists (allow_rule "tool" a). rewrite Hin, rule_applies_allow. split_and!; [eauto|done|reflexivity].
      * exists (allow_rule "fs.read" a). rewrite Hin, rule_applies_allow. split_and!; [eauto 6|done|reflexivity].
      * exists (allow_rule "fs.write" a). rewrite Hin, rule_applies_allow. split_and!; [eauto 6|done|reflexivity].
    + intros r Hr _. apply Hin in Hr.
      by destruct Hr as [[-> _]|[(a & -> & _)|[(a & -> & _)|(a & -> & _)]]].
Qed.

(** The policy built from a checked manifest decides a clean absolute path as
    the direct path test does, for reads and for writes, and such a path never
    climbs: it has no dot-dot component.  (A rule for the whole root is the one
    form the two treat differently.) *)
Theorem manifest_fs_decision c principal path :
  LoadCapabilitySet c = Ok c →
  Forall (λ r, TrimSuffix r "/**" ≠ "/") (FSRead c ++ FSWrite c) →
  IsAbs path = true → Clean path = path →
  Evaluate (cedarPolicyFromCapabilitySet c) principal "fs.read" path = allowedPath (FSRead c) path ∧
  Evaluate (cedarPolicyFromCapabilitySet c) principal "fs.write" path = allowedPath (FSWrite c) path ∧
  ".." ∉ split_slash path.
Proof.
  unfold LoadCapabilitySet. intros Hl Hroot Habs Hc.
  case_decide; [done|]. case_decide; [done|]. destruct (forallb _ _) eqn:Hall; [|done].
  rewrite forallb_forall in Hall. rewrite Forall_forall in Hroot.
  assert (∀ r, r ∈ FSRead c ++ FSWrite c → matchAction r path = path_under_rule r path) as Hm.
  { intros r Hr. apply matchAction_rule; try done; [|by apply Hroot].
    apply Hall. by apply list_elem_of_In. }
  setoid_rewrite elem_of_app in Hm.
  split_and!; [| |by apply clean_abs_no_dotdot].
  all: apply eq_true_iff_eq; rewrite evaluate_manifest; unfold allowedPath;
    rewrite Habs, bool_decide_eq_true_2 by done; cbn [negb orb];
    rewrite existsb_exists; setoid_rewrite <- list_elem_of_In; split.
  - intros [[? _]|[[? _]|[(_ & r & Hr & ?)|[? _]]]]; try done. exists r. rewrite <- Hm by auto. auto.
  - intros (r & Hr & ?). do 2 right. left. split; [done|]. exists r. rewrite Hm by auto. auto.
  - intros [[? _]|[[? _]|[[? _]|(_ & r & Hr & ?)]]]; try done. exists r. rewrite <- Hm by auto. auto.
  - intros (r & Hr & ?). do 3 right. split; [done|]. exists r. rewrite Hm by auto. auto.
Qed.

Definition sample_manifest : CapabilitySet :=
  mkCapabilitySet "echo" 64 2 ["/data/**"; "/etc/app.conf"] ["/data/out/**"] false ["search"] 0.

Lemma manifest_fs_decision_witness :
  LoadCapabilitySet sample_manifest = Ok sample_manifest ∧
  Evaluate (cedarPolicyFromCapabilitySet sample_manifest) "p" "fs.read" "/data/x"
    = allowedPath (FSRead sample_manifest) "/data/x" ∧
  allowedPath (FSRead sample_manifest) "/data/x" = true ∧
  allowedPath (FSWrite sample_manifest) "/data/x" = false.
Proof.
  split_and!; [reflexivity| |reflexivity|reflexivity].
  apply (manifest_fs_decision sample_manifest "p" "/data/x"); [reflexivity| |reflexivity|reflexivity].
  repeat constructor; vm_compute; discriminate.
Defined.
