(* ===== verification/ContextStore.v ===== *)
(** * context_store.go: content-addressed contexts

    The store's SQL tables as finite maps, and its operations as transactions on
    them: a transaction that meets an error leaves the store as it was.  The
    pages of a context are the list of their hashes in the order of their
    positions, which the code numbers 0, 1, 2, ...; a row of [commits] has its
    index plus one as its cursor.  The outcome of the database's I/O and of the
    random source are arguments. *)

From Stdlib Require Import Ascii.
From stdpp Require Import base tactics option list gmap sets strings numbers pretty.
From S2P Require Import Prelude Monad GoLib Json Crypto.

Module Commit.
Record LSFSCommit := mk {
  Cursor : Z;
  ContextID : string;
  Kind : string;
  Handle : string;
  IdempotencyKey : string;
}.
End Commit.
Abbreviation LSFSCommit := Commit.LSFSCommit.

Module Snap.
Record ContextPage := mkPage { Hash : string; Bytes : Z }.

Record ContextSnapshot := mk {
  ContextID : string;
  Prefix : list ContextPage;
  Tail : option ContextPage;
}.
End Snap.
Abbreviation ContextPage := Snap.ContextPage.
Abbreviation ContextSnapshot := Snap.ContextSnapshot.

Record ContextStore := mkStore {
  blobs : gmap string string;
  contexts : gmap string (string * option string); (* owner, tail *)
  pages : gmap string (list string);
  grants : gset (string * string * string);
  operations : gmap (string * string) (string * string); (* digest, result *)
  commits : list (string * string * string * string); (* context, kind, handle, key *)
}.

Definition empty_store : ContextStore := mkStore ∅ ∅ ∅ ∅ ∅ [].

(** ** Transactions *)

Definition transact {A} (io : bool) (body : M ContextStore A) : M ContextStore A := λ cs,
  if io then
    match body cs with
    | (Ok a, cs') => (Ok a, cs')
    | (Err e, _) => (Err e, cs)
    end
  else (Err ErrIO, cs).

Definition contextHash (data : string) : string := sha256_hex data.

Definition contextBlob (hash : string) : M ContextStore string :=
  cs ← get;
  data ← of_option ErrContextCorrupt (blobs cs !! hash);
  reject_if (contextHash data ≠ hash) ErrContextCorrupt;;
  mret data.

Definition putContextBlob (data : string) : M ContextStore string :=
  let hash := contextHash data in
  modify (λ cs, {| cs with blobs := <[hash := default data (blobs cs !! hash)]> (blobs cs) |});;
  contextBlob hash;;
  mret hash.

Definition authorizeContext (owner id : string) : M ContextStore unit :=
  cs ← get;
  reject_if (owner = "" ∨ fst <$> contexts cs !! id ≠ Some owner) ErrContextAccess.

(** 16 random bytes in hexadecimal. *)
Definition newContextID (rnd : option (list Z)) : M ContextStore string :=
  b ← of_option ErrIO rnd; mret (hex_encode b).

Definition tail_of (cs : ContextStore) (id : string) : option string :=
  contexts cs !! id ≫= snd.

Definition pages_of (cs : ContextStore) (id : string) : list string :=
  default [] (pages cs !! id).

(** The rows the statements write. *)
Definition with_context (id owner : string) (cs : ContextStore) : ContextStore :=
  {| cs with contexts := <[id := (owner, None)]> (contexts cs) |}.
Definition with_tail (id : string) (tail : option string) (cs : ContextStore) : ContextStore :=
  {| cs with contexts := alter (λ row, (fst row, tail)) id (contexts cs) |}.
Definition with_pages (id : string) (hashes : list string) (cs : ContextStore) : ContextStore :=
  {| cs with pages := <[id := hashes]> (pages cs) |}.
Definition with_grant (id hash kind : string) (cs : ContextStore) : ContextStore :=
  {| cs with grants := {[ (id, hash, kind) ]} ∪ grants cs |}.

(** [INSERT INTO contexts(id, owner)]: the identifier is the primary key. *)
Definition insert_context (id owner : string) : M ContextStore unit :=
  cs ← get;
  reject_if (is_Some (contexts cs !! id)) ErrIO;;
  modify (with_context id owner).

Definition Create (io : bool) (rnd : option (list Z)) (owner prefix : string) : M ContextStore string :=
  if all_space owner then throw ErrContextAccess
  else
    id ← newContextID rnd;
    transact io (
      insert_context id owner;;
      (if decide (prefix = "") then mret ()
       else hash ← putContextBlob prefix; modify (with_pages id [hash]));;
      mret id).

(** Bind an idempotency key to its input and its result. *)
Definition mutate (io : bool) (owner id key kind input : string) (fn : M ContextStore string) :
    M ContextStore string :=
  if decide (key = "" ∨ len key > 1024)%Z then throw (New "bounded idempotency key required")
  else transact io (
    authorizeContext owner id;;
    let digest := contextHash (kind +:+ String "000" input) in
    cs ← get;
    match operations cs !! (id, key) with
    | Some (oldDigest, result) =>
        reject_if (oldDigest ≠ digest) ErrContextIdempotency;; mret result
    | None =>
        result ← fn;
        modify (λ cs, {| cs with
          operations := <[(id, key) := (digest, result)]> (operations cs);
          commits := commits cs ++ [(id, kind, result, key)] |});;
        mret result
    end).

Definition append_body (id data : string) : M ContextStore string :=
  cs ← get;
  previous ← match tail_of cs id with
             | Some tail => contextBlob tail
             | None => mret ""
             end;
  hash ← putContextBlob (previous +:+ data);
  modify (with_tail id (Some hash));;
  mret hash.

Definition Append (io : bool) (owner id key data : string) : M ContextStore string :=
  mutate io owner id key "append" data (append_body id data).

(** Seal the parent's tail as its last page and give the child the same pages. *)
Definition fork_body (rnd : option (list Z)) (parentID childOwner : string) : M ContextStore string :=
  child ← newContextID rnd;
  insert_context child childOwner;;
  cs ← get;
  let sealed := pages_of cs parentID ++ option_list (tail_of cs parentID) in
  modify (with_pages parentID sealed);;
  modify (with_tail parentID None);;
  modify (with_pages child sealed);;
  mret child.

Definition ForkTo (io : bool) (rnd : option (list Z)) (parentOwner parentID childOwner key : string) :
    M ContextStore string :=
  if all_space childOwner then throw ErrContextAccess
  else mutate io parentOwner parentID key "fork" "" (fork_body rnd parentID childOwner).

Definition Fork (io : bool) (rnd : option (list Z)) (owner id key : string) : M ContextStore string :=
  ForkTo io rnd owner id owner key.

Definition Pages (io : bool) (owner id : string) : M ContextStore (list string * string) :=
  transact io (
    authorizeContext owner id;;
    cs ← get;
    mret (pages_of cs id, default "" (tail_of cs id))).

(** ** Snapshots *)

Definition blob_page (hash : string) : M ContextStore ContextPage :=
  data ← contextBlob hash; mret (Snap.mkPage hash (len data)).

Fixpoint blob_pages (hashes : list string) : M ContextStore (list ContextPage) :=
  match hashes with
  | [] => mret []
  | hash :: hashes => p ← blob_page hash; ps ← blob_pages hashes; mret (p :: ps)
  end.

Definition snapshotContext (id : string) : M ContextStore ContextSnapshot :=
  cs ← get;
  prefix ← blob_pages (pages_of cs id);
  tail ← match tail_of cs id with
         | Some hash => p ← blob_page hash; mret (Some p)
         | None => mret None
         end;
  mret (Snap.mk id prefix tail).

Definition Snapshot (io : bool) (owner id : string) : M ContextStore ContextSnapshot :=
  transact io (authorizeContext owner id;; snapshotContext id).

Definition page_value (p : ContextPage) : json :=
  JObj [("hash", JStr (Snap.Hash p)); ("bytes", JNum (json_int (Snap.Bytes p)))].

Definition snapshot_value (snap : ContextSnapshot) : json :=
  JObj ([("context_id", JStr (Snap.ContextID snap)); ("prefix", JArr (page_value <$> Snap.Prefix snap))] ++
        match Snap.Tail snap with Some p => [("tail", page_value p)] | None => [] end).

(** [json.Marshal (snap)]. *)
Definition snapshot_json (snap : ContextSnapshot) : string := print (snapshot_value snap).

Definition decoded {A} (r : A * bool) : option A := if snd r then Some (fst r) else None.

Definition as_page (v : json) : option ContextPage :=
  hash ← decoded (decode_field as_string "hash" "" (Some v));
  bytes ← decoded (decode_field as_int64 "bytes" 0%Z (Some v));
  Some (Snap.mkPage hash bytes).

Definition as_pages (v : json) : option (list ContextPage) :=
  match v with JArr es => mapM as_page es | _ => None end.

(** [json.Unmarshal (data, &snap)]. *)
Definition decode_snapshot (data : string) : option ContextSnapshot :=
  v ← parse data;
  id ← decoded (decode_field as_string "context_id" "" (Some v));
  prefix ← decoded (decode_field as_pages "prefix" [] (Some v));
  tail ← decoded (decode_field (λ v, Some <$> as_page v) "tail" None (Some v));
  Some (Snap.mk id prefix tail).

Definition checkpoint_body (id : string) : M ContextStore string :=
  snap ← snapshotContext id;
  hash ← putContextBlob (snapshot_json snap);
  modify (with_grant id hash "checkpoint");;
  mret hash.

Definition Checkpoint (io : bool) (owner id key : string) : M ContextStore string :=
  mutate io owner id key "checkpoint" "" (checkpoint_body id).

(** A page of a snapshot must still have its content and size. *)
Definition check_page (p : ContextPage) : M ContextStore unit :=
  data ← contextBlob (Snap.Hash p);
  reject_if (len data ≠ Snap.Bytes p) ErrContextCorrupt.

Fixpoint check_pages (ps : list ContextPage) : M ContextStore unit :=
  match ps with
  | [] => mret ()
  | p :: ps => check_page p;; check_pages ps
  end.

Definition check_tail (tail : option ContextPage) : M ContextStore unit :=
  match tail with Some p => check_page p | None => mret () end.

Definition restore_body (id checkpoint : string) : M ContextStore string :=
  cs ← get;
  reject_if ((id, checkpoint, "checkpoint") ∉ grants cs) ErrContextAccess;;
  data ← contextBlob checkpoint;
  snap ← of_option ErrContextCorrupt (decode_snapshot data);
  reject_if (Snap.ContextID snap ≠ id) ErrContextCorrupt;;
  check_pages (Snap.Prefix snap);;
  modify (with_pages id (Snap.Hash <$> Snap.Prefix snap));;
  check_tail (Snap.Tail snap);;
  modify (with_tail id (Snap.Hash <$> Snap.Tail snap));;
  mret checkpoint.

Definition Restore (io : bool) (owner id key checkpoint : string) : M ContextStore string :=
  mutate io owner id key "restore" checkpoint (restore_body id checkpoint).

Definition artifact_body (id data : string) : M ContextStore string :=
  hash ← putContextBlob data;
  modify (with_grant id hash "artifact");;
  mret hash.

Definition CommitArtifact (io : bool) (owner id key data : string) : M ContextStore string :=
  mutate io owner id key "artifact" data (artifact_body id data).

Definition ReadArtifact (io : bool) (owner id handle : string) : M ContextStore string :=
  transact io (
    authorizeContext owner id;;
    cs ← get;
    reject_if ((id, handle, "artifact") ∉ grants cs) ErrContextAccess;;
    contextBlob handle).

Definition ReadPage (io : bool) (owner id hash : string) : M ContextStore string :=
  transact io (
    authorizeContext owner id;;
    cs ← get;
    reject_if (¬ hash ∈ pages_of cs id ∧ tail_of cs id ≠ Some hash) ErrContextAccess;;
    contextBlob hash).

(** The commit log of a context after a cursor. *)
Definition commit_rows (cs : ContextStore) : list LSFSCommit :=
  imap (λ i row, let '(id, kind, handle, key) := row in
                 Commit.mk (Z.of_nat i + 1) id kind handle key) (commits cs).

Definition Commits (io : bool) (owner id : string) (after limit : Z) : M ContextStore (list LSFSCommit) :=
  if decide (after < 0 ∨ limit < 1 ∨ limit > 1000)%Z then throw (New "invalid commit cursor or limit")
  else transact io (
    authorizeContext owner id;;
    cs ← get;
    mret (take (Z.to_nat limit)
      (filter (λ c, Commit.ContextID c = id ∧ (after < Commit.Cursor c)%Z) (commit_rows cs)))).

(** ** Deduplication statistics *)

Module Stats.
Record ContextStats := mk {
  Contexts : Z;
  References : Z;
  UniqueBlobs : Z;
  SharedBlobs : Z;
  LogicalBytes : Z;
  UniqueBytes : Z;
  SavedBytes : Z;
}.
End Stats.
Abbreviation ContextStats := Stats.ContextStats.

Definition snapshot_pages (snap : ContextSnapshot) : list ContextPage :=
  Snap.Prefix snap ++ option_list (Snap.Tail snap).

(** The snapshots of the distinct identifiers, in order of first mention. *)
Fixpoint stats_snapshots (owner : string) (seen : list string) (ids : list string) :
    M ContextStore (list ContextSnapshot) :=
  match ids with
  | [] => mret []
  | id :: ids =>
      if decide (id ∈ seen) then stats_snapshots owner seen ids
      else
        authorizeContext owner id;;
        snap ← snapshotContext id;
        snaps ← stats_snapshots owner (id :: seen) ids;
        mret (snap :: snaps)
  end.

Definition count_page (refs : gmap string (Z * Z)) (p : ContextPage) : gmap string (Z * Z) :=
  <[Snap.Hash p := ((1 + default 0 (fst <$> refs !! Snap.Hash p))%Z, Snap.Bytes p)]> refs.

Definition stats_of (snaps : list ContextSnapshot) : ContextStats :=
  let all := mjoin (snapshot_pages <$> snaps) in
  let rows := snd <$> map_to_list (fold_left count_page all ∅) in
  let logical := sumZ Snap.Bytes all in
  let unique := sumZ snd rows in
  Stats.mk (Z.of_nat (length snaps)) (Z.of_nat (length all)) (Z.of_nat (length rows))
    (Z.of_nat (length (filter (λ row, 1 < fst row)%Z rows))) logical unique (logical - unique).

Definition ContextStore_Stats (io : bool) (owner : string) (ids : list string) : M ContextStore ContextStats :=
  transact io (snaps ← stats_snapshots owner [] ids; mret (stats_of snaps)).

(** ** Transactions and their rules *)

Lemma wp_transact {A} io (body : M ContextStore A) Q cs :
  (∀ e, Q (Err e) cs) →
  wp body (λ r cs', match r with Ok a => Q (Ok a) cs' | Err _ => True end) cs →
  wp (transact io body) Q cs.
Proof.
  unfold wp, transact. intros He. destruct io; [|auto].
  destruct (body cs) as [[a|e] cs']; auto.
Qed.

Definition logged (id key digest kind result : string) (cs : ContextStore) : ContextStore :=
  {| cs with
     operations := <[(id, key) := (digest, result)]> (operations cs);
     commits := commits cs ++ [(id, kind, result, key)] |}.

Definition op_digest (kind input : string) : string := contextHash (kind +:+ String "000" input).

Definition owner_of (cs : ContextStore) (id : string) : option string := fst <$> contexts cs !! id.

Lemma wp_authorize owner id (Q : result error unit → ContextStore → Prop) cs :
  (owner_of cs id = Some owner → owner ≠ "" → Q (Ok ()) cs) →
  (¬ (owner_of cs id = Some owner ∧ owner ≠ "") → Q (Err ErrContextAccess) cs) →
  wp (authorizeContext owner id) Q cs.
Proof.
  intros H1 H2. unfold authorizeContext. wp_steps.
  - apply H2. unfold owner_of. tauto.
  - apply H1; unfold owner_of; [|tauto]. apply dec_stable. tauto.
Qed.

(** The three outcomes of a mutation: an error that changed nothing, the replay
    of a logged result, and one execution that is logged. *)
Lemma wp_mutate io owner id key kind input fn Q cs :
  (∀ e, Q (Err e) cs) →
  (∀ result, operations cs !! (id, key) = Some (op_digest kind input, result) →
             owner_of cs id = Some owner → Q (Ok result) cs) →
  (operations cs !! (id, key) = None → owner_of cs id = Some owner →
   wp fn (λ r cs', match r with
                   | Ok result => Q (Ok result) (logged id key (op_digest kind input) kind result cs')
                   | Err _ => True
                   end) cs) →
  wp (mutate io owner id key kind input fn) Q cs.
Proof.
  intros He Hreplay Hexec. unfold mutate. case_decide; [by apply wp_throw|].
  apply wp_transact; [done|]. apply wp_bind, wp_authorize; [|done]. intros Hown _.
  apply wp_bind, wp_get. destruct (operations cs !! (id, key)) as [[old result]|] eqn:E.
  - wp_steps; [done|]. apply Hreplay; [|done].
    do 2 f_equal. apply dec_stable. tauto.
  - apply wp_bind. eapply wp_mono; [by apply Hexec|].
    intros [result|e] cs' HQ; [|done]. wp_steps. done.
Qed.

(** ** Hexadecimal text *)

Lemma hex_digit_plain n : (0 ≤ n < 16)%Z → plain_char (hex_digit n) = true.
Proof.
  intros H.
  assert (n = 0 ∨ n = 1 ∨ n = 2 ∨ n = 3 ∨ n = 4 ∨ n = 5 ∨ n = 6 ∨ n = 7 ∨ n = 8 ∨ n = 9 ∨
          n = 10 ∨ n = 11 ∨ n = 12 ∨ n = 13 ∨ n = 14 ∨ n = 15)%Z as Hn by lia.
  by repeat (destruct Hn as [->|Hn]; [done|]); subst.
Qed.

Lemma hex_encode_plain bs : byte_list bs → plain (hex_encode bs) = true.
Proof.
  induction 1 as [|b bs Hb _ IH]; [done|].
  change (hex_encode (b :: bs)) with (hex_byte b +:+ hex_encode bs).
  unfold hex_byte. rewrite !string_app_cons. cbn [plain].
  rewrite !hex_digit_plain, string_app_cons || rewrite !hex_digit_plain.
  - done.
  - apply Z.mod_pos_bound. lia.
  - split; [apply Z.div_pos; lia|apply Z.div_lt_upper_bound; lia].
Qed.

Lemma contextHash_plain data : plain (contextHash data) = true.
Proof. apply hex_encode_plain, sum256_range. Qed.

(** ** Well-formed stores *)

Record store_wf (cs : ContextStore) : Prop := {
  wf_blobs : ∀ h d, blobs cs !! h = Some d → contextHash d = h;
  wf_ids : ∀ id row, contexts cs !! id = Some row → plain id = true;
  wf_tails : ∀ id t, tail_of cs id = Some t → is_Some (blobs cs !! t);
  wf_pages : ∀ id h, h ∈ pages_of cs id → is_Some (blobs cs !! h);
  wf_page_owner : ∀ id, pages_of cs id ≠ [] → is_Some (contexts cs !! id);
  wf_grants : ∀ id h k, (id, h, k) ∈ grants cs → is_Some (blobs cs !! h);
}.

(** What no operation undoes: blobs, grants, logged operations, the commit log
    and the owner of a context. *)
Record extends (cs cs' : ContextStore) : Prop := {
  ext_blobs : blobs cs ⊆ blobs cs';
  ext_grants : grants cs ⊆ grants cs';
  ext_operations : operations cs ⊆ operations cs';
  ext_commits : commits cs `prefix_of` commits cs';
  ext_owners : ∀ id owner, owner_of cs id = Some owner → owner_of cs' id = Some owner;
}.

Global Instance extends_preorder : PreOrder extends.
Proof.
  split.
  - intros cs. by split.
  - intros c1 c2 c3 [] []. split; try by etrans; eauto.
Qed.

Lemma wf_blob_plain cs h d : store_wf cs → blobs cs !! h = Some d → plain h = true.
Proof. intros Hwf Hd. rewrite <- (wf_blobs _ Hwf h d Hd). apply contextHash_plain. Qed.

Lemma wp_contextBlob h (Q : result error string → ContextStore → Prop) cs :
  store_wf cs →
  (∀ d, blobs cs !! h = Some d → Q (Ok d) cs) →
  (blobs cs !! h = None → Q (Err ErrContextCorrupt) cs) →
  wp (contextBlob h) Q cs.
Proof.
  intros Hwf H1 H2. unfold contextBlob. wp_steps; auto.
  exfalso. by eapply wf_blobs in Hwf.
Qed.

Definition with_blob (data : string) (cs : ContextStore) : ContextStore :=
  {| cs with blobs := <[contextHash data := default data (blobs cs !! contextHash data)]> (blobs cs) |}.

Lemma with_blob_wf data cs : store_wf cs → store_wf (with_blob data cs).
Proof.
  intros [H1 H2 H3 H4 H5 H6]. unfold with_blob.
  assert (∀ h, is_Some (blobs cs !! h) →
    is_Some (<[contextHash data := default data (blobs cs !! contextHash data)]> (blobs cs) !! h)) as Hs.
  { intros h ?. rewrite lookup_insert. by case_decide. }
  split; cbn; eauto.
  intros h d. rewrite lookup_insert. case_decide as E; [|eauto]. intros [= <-]. subst h.
  destruct (blobs cs !! contextHash data) eqn:E; [|done]. simpl. eauto.
Qed.

Lemma with_blob_extends data cs : extends cs (with_blob data cs).
Proof.
  split; try done. cbn. apply map_subseteq_spec. intros h d Hd. rewrite lookup_insert.
  case_decide as E; [|done]. subst. by rewrite Hd.
Qed.

Lemma with_blob_lookup data cs : is_Some (blobs (with_blob data cs) !! contextHash data).
Proof. cbn. rewrite lookup_insert_eq. done. Qed.

Lemma wp_putContextBlob data (Q : result error string → ContextStore → Prop) cs :
  store_wf cs → Q (Ok (contextHash data)) (with_blob data cs) → wp (putContextBlob data) Q cs.
Proof.
  intros Hwf HQ. unfold putContextBlob. wp_steps. fold (with_blob data cs).
  apply wp_contextBlob; [by apply with_blob_wf| |].
  - intros d Hd. by wp_steps.
  - intros H. destruct (with_blob_lookup data cs) as [? ?]. congruence.
Qed.

(** The blob a [put] finds under its hash is the data itself unless the store
    already holds other data with that hash. *)
Definition no_collision (cs : ContextStore) (data : string) : Prop :=
  ∀ d, blobs cs !! contextHash data = Some d → d = data.

Lemma with_blob_data data cs :
  no_collision cs data → blobs (with_blob data cs) !! contextHash data = Some data.
Proof.
  intros Hn. cbn. rewrite lookup_insert_eq. f_equal.
  destruct (blobs cs !! contextHash data) eqn:E; [|done]. simpl. by apply Hn.
Qed.

(** ** Rows and what they preserve *)

Lemma owner_of_with_tail id t cs id' : owner_of (with_tail id t cs) id' = owner_of cs id'.
Proof.
  unfold owner_of. cbn. destruct (decide (id = id')) as [->|Hne].
  - rewrite lookup_alter_eq. by destruct (contexts cs !! id').
  - by rewrite lookup_alter_ne.
Qed.

Lemma tail_of_with_tail id t cs id' :
  tail_of (with_tail id t cs) id' =
    if decide (id = id') then (if decide (is_Some (contexts cs !! id)) then t else None) else tail_of cs id'.
Proof.
  unfold tail_of. cbn. case_decide as E.
  - subst. rewrite lookup_alter_eq. by destruct (contexts cs !! id').
  - by rewrite lookup_alter_ne.
Qed.

Lemma pages_of_with_pages id ps cs id' :
  pages_of (with_pages id ps cs) id' = if decide (id = id') then ps else pages_of cs id'.
Proof. unfold pages_of. cbn. rewrite lookup_insert. by case_decide. Qed.

Lemma with_tail_wf id t cs :
  store_wf cs → (∀ h, t = Some h → is_Some (blobs cs !! h)) → store_wf (with_tail id t cs).
Proof.
  intros [H1 H2 H3 H4 H5 H6] Ht. split; try done.
  - intros id' row Hrow. cbn in Hrow. apply lookup_alter_Some in Hrow as [(<- & r & Hr & _)|[_ Hr]]; eauto.
  - intros id' t'. rewrite tail_of_with_tail. case_decide; [|eauto]. case_decide; [|done]. intros ->. cbn. auto.
  - intros id' Hp. destruct (H5 id' Hp) as [row Hrow]. cbn.
    destruct (decide (id = id')) as [->|]; [rewrite lookup_alter_eq, Hrow; eauto|].
    rewrite lookup_alter_ne by done. eauto.
Qed.

Lemma with_pages_wf id ps cs :
  store_wf cs → is_Some (contexts cs !! id) → Forall (λ h, is_Some (blobs cs !! h)) ps →
  store_wf (with_pages id ps cs).
Proof.
  intros [H1 H2 H3 H4 H5 H6] Hid Hps. rewrite Forall_forall in Hps. split; try done.
  - intros id' h. rewrite pages_of_with_pages. case_decide; cbn; eauto.
  - intros id'. rewrite pages_of_with_pages. case_decide; cbn; subst; eauto.
Qed.

Lemma with_grant_wf id h k cs :
  store_wf cs → is_Some (blobs cs !! h) → store_wf (with_grant id h k cs).
Proof.
  intros [H1 H2 H3 H4 H5 H6] Hh. split; try done. intros id' h' k'. cbn.
  rewrite elem_of_union, elem_of_singleton. intros [[= -> -> ->]|?]; [done|eauto].
Qed.

Lemma with_context_wf id owner cs :
  store_wf cs → plain id = true → contexts cs !! id = None → store_wf (with_context id owner cs).
Proof.
  intros [H1 H2 H3 H4 H5 H6] Hp Hn. split; try done.
  - intros id' row. cbn. rewrite lookup_insert. case_decide; [by subst|eauto].
  - intros id' t. unfold tail_of. cbn. rewrite lookup_insert. case_decide; [done|]. apply H3.
  - intros id' Hps. cbn. rewrite lookup_insert. case_decide; eauto.
Qed.

Lemma extends_fields cs cs' :
  blobs cs' = blobs cs → grants cs ⊆ grants cs' → operations cs' = operations cs → commits cs' = commits cs →
  (∀ id owner, owner_of cs id = Some owner → owner_of cs' id = Some owner) → extends cs cs'.
Proof. intros Hb Hg Ho Hc Hw. split; rewrite ?Hb, ?Ho, ?Hc; done. Qed.

Lemma with_tail_extends id t cs : extends cs (with_tail id t cs).
Proof. apply extends_fields; try done. intros. by rewrite owner_of_with_tail. Qed.

Lemma with_pages_extends id ps cs : extends cs (with_pages id ps cs).
Proof. by apply extends_fields. Qed.

Lemma with_grant_extends id h k cs : extends cs (with_grant id h k cs).
Proof. apply extends_fields; try done. cbn. set_solver. Qed.

Lemma with_context_extends id owner cs : contexts cs !! id = None → extends cs (with_context id owner cs).
Proof.
  intros Hn. apply extends_fields; try done. intros id' o. unfold owner_of. cbn.
  rewrite lookup_insert. case_decide as E; [|done]. subst. by rewrite Hn.
Qed.

Lemma logged_wf id key digest kind result cs : store_wf cs → store_wf (logged id key digest kind result cs).
Proof. intros []. by split. Qed.

Lemma logged_extends id key digest kind result cs :
  operations cs !! (id, key) = None → extends cs (logged id key digest kind result cs).
Proof. intros Hn. split; cbn; try done; [by apply insert_subseteq|by apply prefix_app_r]. Qed.

#[export] Hint Resolve with_blob_wf with_tail_wf with_pages_wf with_grant_wf with_context_wf logged_wf
  with_blob_extends with_tail_extends with_pages_extends with_grant_extends with_context_extends
  logged_extends : aok.

(** ** What each operation does to a well-formed store *)

(** The text of a context: its pages and its tail, in order. *)
Definition read (cs : ContextStore) (h : string) : string := default "" (blobs cs !! h).
Definition refs_of (cs : ContextStore) (id : string) : list string :=
  pages_of cs id ++ option_list (tail_of cs id).
Definition text_of (cs : ContextStore) (hashes : list string) : string :=
  foldr String.append "" (read cs <$> hashes).
Definition content (cs : ContextStore) (id : string) : string := text_of cs (refs_of cs id).

Definition tail_text (cs : ContextStore) (id : string) : string :=
  match tail_of cs id with Some t => read cs t | None => "" end.

Definition page_of (cs : ContextStore) (h : string) : ContextPage := Snap.mkPage h (len (read cs h)).
Definition snapshot_of (cs : ContextStore) (id : string) : ContextSnapshot :=
  Snap.mk id (page_of cs <$> pages_of cs id) (page_of cs <$> tail_of cs id).

Lemma append_body_spec id data cs :
  store_wf cs →
  wp (append_body id data) (λ r cs',
    let new := tail_text cs id +:+ data in
    r = Ok (contextHash new) ∧ cs' = with_tail id (Some (contextHash new)) (with_blob new cs)) cs.
Proof.
  intros Hwf. unfold append_body, tail_text. wp_steps.
  - apply wp_contextBlob; [done| |].
    + intros d Hd. wp_steps. apply wp_putContextBlob; [done|]. wp_steps.
      unfold read. by rewrite Hd.
    + intros Hn. exfalso. eapply wf_tails in Hwf as [? ?]; [|done]. congruence.
  - apply wp_putContextBlob; [done|]. by wp_steps.
Qed.

Definition forked (parent child owner : string) (cs : ContextStore) : ContextStore :=
  let sealed := refs_of cs parent in
  with_pages child sealed (with_tail parent None (with_pages parent sealed (with_context child owner cs))).

Lemma fork_body_spec rnd parent owner cs :
  is_Some (contexts cs !! parent) →
  wp (fork_body rnd parent owner) (λ r cs',
    ∀ child, r = Ok child →
    (∃ b, rnd = Some b ∧ child = hex_encode b) ∧ contexts cs !! child = None ∧
    cs' = forked parent child owner cs) cs.
Proof.
  intros [row Hrow]. unfold fork_body, newContextID, insert_context. wp_steps; try done.
  intros child [= <-].
  assert (contexts cs !! hex_encode a = None) as Hn.
  { destruct (contexts cs !! hex_encode a) eqn:E; [|done]. exfalso. eauto. }
  split_and!; [eauto|done|]. unfold forked, refs_of.
  assert (tail_of (with_context (hex_encode a) owner cs) parent = tail_of cs parent) as ->.
  { unfold tail_of. cbn. rewrite lookup_insert_ne; [done|]. intros <-. congruence. }
  done.
Qed.

Lemma blob_pages_spec hashes cs :
  store_wf cs → Forall (λ h, is_Some (blobs cs !! h)) hashes →
  wp (blob_pages hashes) (λ r cs', r = Ok (page_of cs <$> hashes) ∧ cs' = cs) cs.
Proof.
  intros Hwf. induction 1 as [|h hashes [d Hd] _ IH]; simpl; [by wp_steps|].
  unfold blob_page. wp_steps. apply wp_contextBlob; [done| |by intros; congruence].
  intros d' Hd'. wp_steps. eapply wp_mono; [exact IH|]. intros r cs' [-> ->]. wp_steps.
  unfold page_of at 2, read. by rewrite Hd'.
Qed.

Lemma snapshotContext_spec id cs :
  store_wf cs → wp (snapshotContext id) (λ r cs', r = Ok (snapshot_of cs id) ∧ cs' = cs) cs.
Proof.
  intros Hwf. unfold snapshotContext. wp_steps. eapply wp_mono.
  { apply blob_pages_spec; [done|]. apply Forall_forall. intros h. by apply wf_pages. }
  intros r cs' [-> ->]. unfold snapshot_of. wp_steps; [|done].
  unfold blob_page. wp_steps. apply wp_contextBlob; [done| |].
  - intros d Hd. wp_steps. unfold page_of, read. simpl. by rewrite Hd.
  - intros Hn. exfalso. eapply wf_tails in Hwf as [? ?]; [|done]. congruence.
Qed.

Lemma checkpoint_body_spec id cs :
  store_wf cs →
  wp (checkpoint_body id) (λ r cs',
    let data := snapshot_json (snapshot_of cs id) in
    r = Ok (contextHash data) ∧ cs' = with_grant id (contextHash data) "checkpoint" (with_blob data cs)) cs.
Proof.
  intros Hwf. unfold checkpoint_body. wp_steps. eapply wp_mono; [by apply snapshotContext_spec|].
  intros r cs' [-> ->]. apply wp_bind, wp_putContextBlob; [done|]. by wp_steps.
Qed.

Lemma check_pages_spec ps cs :
  store_wf cs →
  wp (check_pages ps) (λ r cs', cs' = cs ∧
    (r = Ok () ↔ Forall (λ p, ∃ d, blobs cs !! Snap.Hash p = Some d ∧ len d = Snap.Bytes p) ps)) cs.
Proof.
  intros Hwf. induction ps as [|p ps IH]; simpl; [by wp_steps|].
  unfold check_page. wp_steps. apply wp_contextBlob; [done| |].
  - intros d Hd. wp_steps.
    + rewrite Forall_cons. split; [done|]. split; [done|]. intros [(d' & ? & ?) _]. congruence.
    + eapply wp_mono; [exact IH|]. intros r cs' [-> Hr]. rewrite Forall_cons, Hr. split; [done|].
      split; [|tauto]. intros. split; [|done]. exists d. split; [done|]. apply dec_stable. tauto.
  - intros Hn. rewrite Forall_cons. split; [done|]. split; [done|]. intros [(d' & ? & ?) _]. congruence.
Qed.

(** ** Snapshots survive their encoding *)


Definition page_fits (p : ContextPage) : Prop :=
  plain (Snap.Hash p) = true ∧ (0 ≤ Snap.Bytes p ≤ MaxInt64)%Z.

Definition snapshot_fits (snap : ContextSnapshot) : Prop :=
  plain (Snap.ContextID snap) = true ∧ Forall page_fits (snapshot_pages snap).

Lemma page_value_simple p : page_fits p → simple (page_value p) = true.
Proof.
  intros [Hh%plain_utf8 Hb]. destruct (pretty_natural (Snap.Bytes p)) as [Hn _]; [lia|].
  cbn. unfold json_int. by rewrite Hh, Hn.
Qed.

Lemma as_page_value p : page_fits p → as_page (page_value p) = Some p.
Proof.
  intros [Hh Hb]. unfold as_page.
  change (decode_field as_string "hash" "" (Some (page_value p))) with (Snap.Hash p, true).
  change (decode_field as_int64 "bytes" 0%Z (Some (page_value p)))
    with (match as_int64 (JNum (json_int (Snap.Bytes p))) with Some x => (x, true) | None => (0%Z, false) end).
  rewrite as_int64_pretty by done. by destruct p.
Qed.

Lemma mapM_page_values ps : Forall page_fits ps → mapM as_page (page_value <$> ps) = Some ps.
Proof.
  induction 1 as [|p ps Hp _ IH]; [done|].
  rewrite fmap_cons. cbn [mapM]. by rewrite as_page_value, IH.
Qed.

Lemma nesting_pages ps : (foldr Z.max 0 (map nesting (page_value <$> ps)) ≤ 1)%Z.
Proof.
  induction ps as [|p ps IH]; [done|]. rewrite fmap_cons. cbn [map foldr].
  change (nesting (page_value p)) with 1%Z. lia.
Qed.

Lemma snapshot_value_simple snap :
  snapshot_fits snap → simple (snapshot_value snap) = true ∧ (nesting (snapshot_value snap) ≤ maxNestingDepth)%Z.
Proof.
  destruct snap as [id prefix tail]. unfold snapshot_fits, snapshot_pages. cbn [Snap.ContextID Snap.Prefix Snap.Tail].
  intros [Hid%plain_utf8 [Hp Ht]%Forall_app].
  assert (forallb simple (page_value <$> prefix) = true) as Hs.
  { apply forallb_forall. intros v Hv. apply list_elem_of_In, list_elem_of_fmap in Hv as (p & -> & Hin).
    rewrite Forall_forall in Hp. by apply page_value_simple, Hp. }
  pose proof (nesting_pages prefix).
  unfold snapshot_value. cbn [Snap.ContextID Snap.Prefix Snap.Tail].
  destruct tail as [p|]; simpl in Ht.
  - apply Forall_cons_1 in Ht as [Hpt _]. split.
    + cbn [simple app forallb fst snd]. rewrite Hid, Hs, page_value_simple by done. reflexivity.
    + cbn [nesting app map foldr snd]. unfold maxNestingDepth. simpl. lia.
  - split.
    + cbn [simple app forallb fst snd]. rewrite Hid, Hs. reflexivity.
    + cbn [nesting app map foldr snd]. unfold maxNestingDepth. simpl. lia.
Qed.

Lemma decode_snapshot_json snap :
  snapshot_fits snap → decode_snapshot (snapshot_json snap) = Some snap.
Proof.
  intros Hfit. destruct (snapshot_value_simple snap Hfit) as [Hs Hn].
  unfold decode_snapshot, snapshot_json. rewrite parse_print by done. cbn [mbind option_bind].
  destruct snap as [id prefix tail]. destruct Hfit as [Hid [Hp Ht]%Forall_app].
  cbn [Snap.ContextID Snap.Prefix Snap.Tail] in *.
  assert (decode_field as_string "context_id" "" (Some (snapshot_value (Snap.mk id prefix tail))) = (id, true)) as ->.
  { destruct tail; reflexivity. }
  assert (decode_field as_pages "prefix" [] (Some (snapshot_value (Snap.mk id prefix tail)))
          = match mapM as_page (page_value <$> prefix) with Some x => (x, true) | None => ([], false) end) as ->.
  { destruct tail; reflexivity. }
  rewrite mapM_page_values by done.
  assert (decode_field (λ v, Some <$> as_page v) "tail" None (Some (snapshot_value (Snap.mk id prefix tail)))
          = match tail with Some p => match as_page (page_value p) with Some x => (Some x, true) | None => (None, false) end
                          | None => (None, true) end) as ->.
  { destruct tail as [p|]; [|done].
    change (decode_field (λ v, Some <$> as_page v) "tail" None (Some (snapshot_value (Snap.mk id prefix (Some p)))))
      with (match Some <$> as_page (page_value p) with Some x => (x, true) | None => (None, false) end).
    by destruct (as_page (page_value p)). }
  destruct tail as [p|]; [|done].
  apply Forall_cons_1 in Ht as [Hpt _]. by rewrite as_page_value.
Qed.

Definition present (cs : ContextStore) (p : ContextPage) : Prop :=
  ∃ d, blobs cs !! Snap.Hash p = Some d ∧ len d = Snap.Bytes p.

Definition restored (snap : ContextSnapshot) (cs : ContextStore) : ContextStore :=
  let id := Snap.ContextID snap in
  with_tail id (Snap.Hash <$> Snap.Tail snap) (with_pages id (Snap.Hash <$> Snap.Prefix snap) cs).

Lemma check_tail_spec id ps tail cs :
  store_wf cs →
  wp (check_tail tail)
    (λ r cs', cs' = with_pages id ps cs ∧ (r = Ok () ↔ Forall (present cs) (option_list tail)))
    (with_pages id ps cs).
Proof.
  intros Hwf. destruct tail as [p|]; simpl; [|wp_steps; done].
  unfold check_page, contextBlob. wp_steps.
  - rewrite Forall_singleton. split; [done|]. split; [done|]. intros (d & Hd & _). cbn in *. simplify_eq.
    exfalso. by eapply wf_blobs in Hwf.
  - rewrite Forall_singleton. split; [done|]. split; [done|]. intros (d & Hd & ?). cbn in *. by simplify_eq.
  - rewrite Forall_singleton. split; [done|]. split; [|done]. intros _. eexists. split; [done|].
    apply dec_stable. tauto.
  - rewrite Forall_singleton. split; [done|]. split; [done|]. intros (d & Hd & ?). cbn in *. by simplify_eq.
Qed.

Lemma restore_body_spec id cp cs :
  store_wf cs →
  wp (restore_body id cp) (λ r cs',
    (∀ x, r = Ok x → x = cp ∧ ∃ snap, Snap.ContextID snap = id ∧
       Forall (present cs) (snapshot_pages snap) ∧ cs' = restored snap cs) ∧
    (∀ snap, (id, cp, "checkpoint") ∈ grants cs → blobs cs !! cp = Some (snapshot_json snap) →
       snapshot_fits snap → Snap.ContextID snap = id → Forall (present cs) (snapshot_pages snap) →
       r = Ok cp ∧ cs' = restored snap cs)) cs.
Proof.
  intros Hwf. unfold restore_body. wp_steps; [by split|].
  apply wp_contextBlob; [done| |].
  2: { intros Hn. split; [done|]. intros snap _ Hb. congruence. }
  intros d Hd. wp_steps.
  - split; [done|]. intros snap _ Hb Hf Hid _. rewrite Hd in Hb. simplify_eq.
    rewrite decode_snapshot_json in * by done. by simplify_eq.
  - eapply wp_mono; [by apply check_pages_spec|].
    intros r cs' [-> Hr]. destruct r as [[]|e]; wp_steps.
    2: { split; [done|]. intros snap _ Hb Hf Hid [Hp _]%Forall_app. exfalso.
      rewrite Hd in Hb. simplify_eq. rewrite decode_snapshot_json in * by done. simplify_eq.
      by apply Hr in Hp. }
    eapply wp_mono; [by apply check_tail_spec|].
    intros r cs' [-> Ht].
    assert (Snap.ContextID a = id) as Hid by (apply dec_stable; tauto).
    destruct r as [[]|e]; wp_steps.
    + split.
      * intros x [= <-]. split; [done|]. exists a. split; [done|]. split.
        { apply Forall_app. split; [by apply Hr|by apply Ht]. }
        { unfold restored. by rewrite Hid. }
      * intros snap _ Hb Hf Hid' Hps. rewrite Hd in Hb. simplify_eq.
        rewrite decode_snapshot_json in * by done. simplify_eq. split; [done|].
        unfold restored. done.
    + split; [done|]. intros snap _ Hb Hf Hid' [_ Hp]%Forall_app. exfalso.
      rewrite Hd in Hb. simplify_eq. rewrite decode_snapshot_json in * by done. simplify_eq.
      by apply Ht in Hp.
  - split; [done|]. intros snap _ Hb Hf Hid _. rewrite Hd in Hb. simplify_eq.
    rewrite decode_snapshot_json in * by done. by simplify_eq.
Qed.

(** ** Every operation keeps the store well formed and only adds to it *)

Inductive store_op : Type :=
  | OpCreate (io : bool) (rnd : option (list Z)) (owner prefix : string)
  | OpAppend (io : bool) (owner id key data : string)
  | OpFork (io : bool) (rnd : option (list Z)) (parentOwner parentID childOwner key : string)
  | OpCheckpoint (io : bool) (owner id key : string)
  | OpRestore (io : bool) (owner id key checkpoint : string)
  | OpArtifact (io : bool) (owner id key data : string).

Definition store_exec (op : store_op) : M ContextStore string :=
  match op with
  | OpCreate io rnd owner prefix => Create io rnd owner prefix
  | OpAppend io owner id key data => Append io owner id key data
  | OpFork io rnd po pid co key => ForkTo io rnd po pid co key
  | OpCheckpoint io owner id key => Checkpoint io owner id key
  | OpRestore io owner id key cp => Restore io owner id key cp
  | OpArtifact io owner id key data => CommitArtifact io owner id key data
  end.

(** The random source delivers bytes. *)
Definition random_ok (rnd : option (list Z)) : Prop := ∀ b, rnd = Some b → byte_list b.
Definition op_ok (op : store_op) : Prop :=
  match op with
  | OpCreate _ rnd _ _ | OpFork _ rnd _ _ _ _ => random_ok rnd
  | _ => True
  end.

Definition store_step (cs cs' : ContextStore) : Prop := store_wf cs' ∧ extends cs cs'.

Lemma owner_some cs id owner : owner_of cs id = Some owner → is_Some (contexts cs !! id).
Proof. unfold owner_of. rewrite fmap_Some. intros (row & ? & _). eauto. Qed.

(** A body that keeps the log untouched makes a mutation a step. *)
Lemma mutate_step io owner id key kind input fn cs :
  store_wf cs →
  (is_Some (contexts cs !! id) →
   wp fn (λ r cs', ∀ x, r = Ok x → store_step cs cs' ∧ operations cs' = operations cs) cs) →
  wp (mutate io owner id key kind input fn) (λ _ cs', store_step cs cs') cs.
Proof.
  intros Hwf Hfn. assert (store_step cs cs) by (by split).
  apply wp_mutate; [done|done|]. intros Hn Hown.
  eapply wp_mono; [by apply Hfn; eapply owner_some|]. intros [x|e] cs' Hx; [|done].
  destruct (Hx x eq_refl) as [[Hwf' Hext] Hops]. split; [by apply logged_wf|].
  etrans; [done|]. apply logged_extends. by rewrite Hops.
Qed.

Lemma refs_present cs id h : store_wf cs → h ∈ refs_of cs id → is_Some (blobs cs !! h).
Proof.
  intros Hwf. unfold refs_of. rewrite elem_of_app. intros [?|Ht]; [by eapply wf_pages|].
  destruct (tail_of cs id) eqn:E; simpl in Ht; [|by apply elem_of_nil in Ht].
  apply list_elem_of_singleton in Ht as ->. by eapply wf_tails.
Qed.

Lemma forked_step parent child owner cs :
  store_wf cs → plain child = true → contexts cs !! child = None → is_Some (contexts cs !! parent) →
  store_step cs (forked parent child owner cs).
Proof.
  intros Hwf Hp Hn Hpar. unfold forked.
  assert (Forall (λ h, is_Some (blobs cs !! h)) (refs_of cs parent)) as Hrefs.
  { apply Forall_forall. intros h. by apply refs_present. }
  assert (is_Some (contexts (with_context child owner cs) !! parent)) as Hpar'.
  { cbn. rewrite lookup_insert. case_decide; eauto. }
  split.
  - apply with_pages_wf; [apply with_tail_wf; [apply with_pages_wf; auto using with_context_wf|done]| |done].
    cbn. rewrite lookup_alter. case_decide; [subst; by destruct Hpar; simplify_eq|].
    rewrite lookup_insert_eq. eauto.
  - etrans; [by apply with_context_extends|]. etrans; [apply with_pages_extends|].
    etrans; [apply with_tail_extends|]. apply with_pages_extends.
Qed.

Lemma restored_step snap cs :
  store_wf cs → is_Some (contexts cs !! Snap.ContextID snap) →
  Forall (present cs) (snapshot_pages snap) → store_step cs (restored snap cs).
Proof.
  intros Hwf Hid [Hp Ht]%Forall_app. unfold restored. split.
  - apply with_tail_wf; [apply with_pages_wf; [done|done|]|].
    + apply Forall_fmap. eapply Forall_impl; [exact Hp|]. intros p (d & Hd & _). simpl. eauto.
    + cbn. intros h [p [Hpt ->]]%fmap_Some. rewrite Hpt in Ht. apply Forall_singleton in Ht as (d & Hd & _). eauto.
  - etrans; [apply with_pages_extends|apply with_tail_extends].
Qed.

Lemma store_exec_step op cs :
  op_ok op → store_wf cs → wp (store_exec op) (λ _ cs', store_step cs cs') cs.
Proof.
  intros Hop Hwf. assert (store_step cs cs) as Hrefl by (by split).
  destruct op as [io rnd owner prefix|io owner id key data|io rnd po pid co key|io owner id key
    |io owner id key cp|io owner id key data]; simpl.
  - unfold Create, newContextID. wp_steps; [done| |done].
    assert (plain (hex_encode a) = true) by (by apply hex_encode_plain, Hop).
    apply wp_transact; [done|]. unfold insert_context. wp_steps; [done| |].
    all: assert (contexts cs !! hex_encode a = None)
      by (destruct (contexts cs !! hex_encode a) eqn:E; [exfalso; eauto|done]).
    { split; [by apply with_context_wf|by apply with_context_extends]. }
    apply wp_putContextBlob; [by apply with_context_wf|]. wp_steps. split.
    + apply with_pages_wf; [by apply with_blob_wf, with_context_wf| |].
      * cbn. rewrite lookup_insert_eq. eauto.
      * apply Forall_singleton, with_blob_lookup.
    + etrans; [by apply with_context_extends|]. etrans; [apply with_blob_extends|apply with_pages_extends].
  - apply mutate_step; [done|]. intros _. eapply wp_mono; [by apply append_body_spec|].
    intros r cs' [-> ->] x _. split; [|done]. split.
    + apply with_tail_wf; [by apply with_blob_wf|]. intros h [= <-]. apply with_blob_lookup.
    + etrans; [apply with_blob_extends|apply with_tail_extends].
  - unfold ForkTo. case_match; [by wp_steps|]. apply mutate_step; [done|]. intros Hid.
    eapply wp_mono; [by apply fork_body_spec|]. intros r cs' Hf x Hx.
    destruct (Hf x Hx) as ((b & -> & ->) & Hn & ->). split; [|done].
    apply forked_step; try done. by apply hex_encode_plain, Hop.
  - apply mutate_step; [done|]. intros _. eapply wp_mono; [by apply checkpoint_body_spec|].
    intros r cs' [-> ->] x _. split; [|done]. split.
    + apply with_grant_wf; [by apply with_blob_wf|apply with_blob_lookup].
    + etrans; [apply with_blob_extends|apply with_grant_extends].
  - apply mutate_step; [done|]. intros Hid. eapply wp_mono; [by apply restore_body_spec|].
    intros r cs' [H _] x Hx. destruct (H x Hx) as (_ & snap & <- & Hp & ->). split; [|done].
    by apply restored_step.
  - apply mutate_step; [done|]. intros _. unfold artifact_body. apply wp_bind, wp_putContextBlob; [done|].
    wp_steps. intros x _. split; [|done]. split.
    + apply with_grant_wf; [by apply with_blob_wf|apply with_blob_lookup].
    + etrans; [apply with_blob_extends|apply with_grant_extends].
Qed.

(** The store after a history of operations. *)
Fixpoint store_run (ops : list store_op) (cs : ContextStore) : ContextStore :=
  match ops with
  | [] => cs
  | op :: ops => store_run ops (snd (store_exec op cs))
  end.

Lemma store_run_step ops : ∀ cs, Forall op_ok ops → store_wf cs → store_step cs (store_run ops cs).
Proof.
  induction ops as [|op ops IH]; intros cs Hops Hwf; simpl; [by split|].
  apply Forall_cons_1 in Hops as [Hop Hops].
  destruct (wp_snd _ (store_step cs) _ (store_exec_step op cs Hop Hwf)) as [Hwf1 Hext1].
  destruct (IH _ Hops Hwf1) as [Hwf2 Hext2]. split; [done|]. by etrans.
Qed.

Lemma empty_store_wf : store_wf empty_store.
Proof.
  split; cbn.
  - intros h d. by rewrite lookup_empty.
  - intros id row. by rewrite lookup_empty.
  - intros id t. unfold tail_of. cbn. by rewrite lookup_empty.
  - intros id h. unfold pages_of. cbn. rewrite lookup_empty. by intros ?%elem_of_nil.
  - intros id. unfold pages_of. cbn. by rewrite lookup_empty.
  - intros id h k. set_solver.
Qed.

(** ** Reading through later stores *)

Lemma read_extends cs cs' h : extends cs cs' → is_Some (blobs cs !! h) → read cs' h = read cs h.
Proof.
  intros Hext [d Hd]. unfold read.
  rewrite Hd, (lookup_weaken _ _ _ _ Hd (ext_blobs _ _ Hext)). done.
Qed.

Lemma text_extends cs cs' hs :
  extends cs cs' → Forall (λ h, is_Some (blobs cs !! h)) hs → text_of cs' hs = text_of cs hs.
Proof.
  intros Hext. unfold text_of. induction 1 as [|h hs Hh _ IH]; csimpl; [done|].
  by rewrite (read_extends cs cs'), IH by done.
Qed.

Lemma text_app cs hs hs' : text_of cs (hs ++ hs') = text_of cs hs +:+ text_of cs hs'.
Proof.
  unfold text_of. induction hs as [|h hs IH]; csimpl; [done|]. rewrite IH.
  apply string_app_assoc.
Qed.

(** A context whose rows a step leaves alone keeps its text. *)
Lemma content_unchanged cs cs' id :
  store_wf cs → extends cs cs' → refs_of cs' id = refs_of cs id → content cs' id = content cs id.
Proof.
  intros Hwf Hext Hr. unfold content. rewrite Hr. apply text_extends; [done|].
  apply Forall_forall. intros h. by apply refs_present.
Qed.

Lemma content_split cs id : content cs id = text_of cs (pages_of cs id) +:+ tail_text cs id.
Proof.
  unfold content, refs_of. rewrite text_app. f_equal. unfold text_of, tail_text.
  destruct (tail_of cs id); csimpl; [|done]. apply string_app_nil_r.
Qed.

Lemma mutate_ok io owner id key kind input fn cs r cs' :
  mutate io owner id key kind input fn cs = (Ok r, cs') → operations cs !! (id, key) = None →
  io = true ∧ owner ≠ "" ∧ key ≠ "" ∧ (len key ≤ 1024)%Z ∧ owner_of cs id = Some owner ∧
  ∃ cs1, fn cs = (Ok r, cs1) ∧ cs' = logged id key (op_digest kind input) kind r cs1.
Proof.
  intros H Hn. unfold mutate in H. case_decide as Hk; [done|].
  unfold transact in H. destruct io; [|done].
  unfold mbind, M_bind, authorizeContext, reject_if, get, mret, M_ret, throw, modify in H. simpl in H.
  unfold mbind, M_bind in H. case_decide as Ha; [done|]. simpl in H. rewrite Hn in H.
  destruct (fn cs) as [[x|e] cs1] eqn:E; simpl in H; [|done]. simplify_eq.
  assert (owner_of cs id = Some owner) by (unfold owner_of; apply dec_stable; tauto).
  split_and!; [done|tauto|tauto|lia|done|]. by exists cs1.
Qed.

Lemma mutate_run owner id key kind input fn cs :
  owner ≠ "" → key ≠ "" → (len key ≤ 1024)%Z → owner_of cs id = Some owner →
  mutate true owner id key kind input fn cs =
    match operations cs !! (id, key) with
    | Some (old, result) => if decide (old ≠ op_digest kind input) then (Err ErrContextIdempotency, cs) else (Ok result, cs)
    | None => match fn cs with
              | (Ok r, cs1) => (Ok r, logged id key (op_digest kind input) kind r cs1)
              | (Err e, _) => (Err e, cs)
              end
    end.
Proof.
  intros Ho Hk Hl Hown. unfold mutate. rewrite decide_False by (intros [?|?]; [done|lia]).
  unfold transact, mbind, M_bind, authorizeContext, reject_if, get, mret, M_ret, throw, modify. simpl.
  unfold mbind, M_bind. rewrite (decide_False (P := owner = "" ∨ _)) by (unfold owner_of in Hown; intros [?|?]; congruence).
  fold (op_digest kind input). destruct (operations cs !! (id, key)) as [[old result]|].
  - by case_decide.
  - by destruct (fn cs) as [[x|e] cs1].
Qed.

Lemma Append_run owner id key data cs :
  store_wf cs → owner ≠ "" → key ≠ "" → (len key ≤ 1024)%Z → owner_of cs id = Some owner →
  operations cs !! (id, key) = None →
  ∃ cs', Append true owner id key data cs = (Ok (contextHash (tail_text cs id +:+ data)), cs').
Proof.
  intros Hwf Ho Hk Hl Hown Hn. unfold Append. rewrite mutate_run, Hn by done.
  pose proof (append_body_spec id data cs Hwf) as Hspec. unfold wp in Hspec.
  destruct (append_body id data cs) as [r cs1]. destruct Hspec as [-> ->]. eauto.
Qed.

(** ** Theorems *)

(** Whatever sequence of operations runs, with any I/O failures, the store
    stays well formed (every blob is stored under its hash; every page, tail and
    grant refers to a stored blob) and only grows: no blob, grant, logged result or
    commit disappears or changes, and no context changes its owner. *)
Theorem store_history_safe ops1 ops2 :
  Forall op_ok ops1 → Forall op_ok ops2 →
  let cs1 := store_run ops1 empty_store in
  let cs2 := store_run ops2 cs1 in
  store_wf cs2 ∧ extends cs1 cs2.
Proof.
  intros H1 H2. destruct (store_run_step ops1 _ H1 empty_store_wf) as [Hwf _].
  by apply store_run_step.
Qed.

Definition sample_ops : list store_op :=
  [OpCreate true (Some [1; 2; 3]%Z) "alice" "sys";
   OpAppend true "alice" "010203" "k1" "hello"].

Lemma store_history_safe_witness :
  Forall op_ok sample_ops ∧ store_wf (store_run sample_ops (store_run sample_ops empty_store)).
Proof.
  assert (Forall op_ok sample_ops) as H.
  { repeat constructor. intros b [= <-]. repeat constructor; lia. }
  split; [exact H|]. exact (proj1 (store_history_safe sample_ops sample_ops H H)).
Defined.

(** An append adds exactly its data at the end of the context's text and
    leaves every other context's text alone (unless the store already holds
    different data under the new tail's hash). *)
Theorem append_extends_text io owner id key data cs h cs' :
  store_wf cs → operations cs !! (id, key) = None →
  no_collision cs (tail_text cs id +:+ data) →
  Append io owner id key data cs = (Ok h, cs') →
  content cs' id = content cs id +:+ data ∧ h = contextHash (tail_text cs id +:+ data) ∧
  (∀ id', id' ≠ id → content cs' id' = content cs id').
Proof.
  intros Hwf Hn Hnc H. apply mutate_ok in H as (_ & _ & _ & _ & Hown & cs1 & Hfn & ->); [|done].
  pose proof (wp_run _ _ _ _ _ (append_body_spec id data cs Hwf) Hfn) as [[= ->] ->].
  set (new := tail_text cs id +:+ data) in *.
  set (cs1 := with_tail id (Some (contextHash new)) (with_blob new cs)).
  assert (extends cs cs1) as Hext.
  { etrans; [apply with_blob_extends|apply with_tail_extends]. }
  apply owner_some in Hown.
  split_and!; [|done|].
  - change (content (logged _ _ _ _ _ cs1) id) with (content cs1 id).
    rewrite !content_split. change (pages_of cs1 id) with (pages_of cs id).
    rewrite (text_extends cs cs1) by (try done; apply Forall_forall; intros ?; by apply wf_pages).
    rewrite <- string_app_assoc. f_equal. unfold tail_text at 1. unfold cs1.
    rewrite tail_of_with_tail, decide_True, decide_True by done.
    change (read (with_tail _ _ ?c) ?h) with (read c h).
    unfold read. by rewrite with_blob_data.
  - intros id' Hne. change (content (logged _ _ _ _ _ cs1) id') with (content cs1 id').
    apply content_unchanged; try done. unfold refs_of. f_equal. unfold cs1.
    by rewrite tail_of_with_tail, decide_False by done.
Qed.

Definition sample_store : ContextStore := with_context "01" "alice" empty_store.

Lemma sample_store_wf : store_wf sample_store.
Proof. by apply with_context_wf; [apply empty_store_wf|..]. Qed.

Lemma append_extends_text_witness : ∃ h cs',
  Append true "alice" "01" "k1" "hi" sample_store = (Ok h, cs') ∧ content cs' "01" = "hi".
Proof.
  destruct (Append_run "alice" "01" "k1" "hi" sample_store) as [cs' E];
    [apply sample_store_wf|done|done|vm_compute; congruence|reflexivity|reflexivity|].
  exists (contextHash "hi"), cs'. split; [exact E|].
  destruct (append_extends_text true "alice" "01" "k1" "hi" sample_store (contextHash "hi") cs') as (Hc & _);
    [apply sample_store_wf|reflexivity| |exact E|exact Hc].
  intros d. cbn [blobs sample_store with_context empty_store]. by rewrite lookup_empty.
Defined.

Section forked.
Context (cs : ContextStore) (parent child co : string).
Hypothesis Hchild : contexts cs !! child = None.
Hypothesis Hparent : is_Some (contexts cs !! parent).

Lemma fork_distinct : child ≠ parent.
Proof. intros ->. destruct Hparent. congruence. Qed.

Lemma tail_of_forked id :
  tail_of (forked parent child co cs) id = if decide (id = child ∨ id = parent) then None else tail_of cs id.
Proof.
  unfold forked. change (tail_of (with_pages child ?p ?c)) with (tail_of c).
  rewrite tail_of_with_tail. change (tail_of (with_pages parent ?p ?c)) with (tail_of c).
  pose proof fork_distinct. unfold tail_of. cbn. rewrite !lookup_insert.
  repeat case_decide; subst; naive_solver.
Qed.

Lemma pages_of_forked id :
  pages_of (forked parent child co cs) id =
    if decide (id = child ∨ id = parent) then refs_of cs parent else pages_of cs id.
Proof.
  unfold forked. rewrite pages_of_with_pages.
  change (pages_of (with_tail parent None ?c)) with (pages_of c). rewrite pages_of_with_pages.
  repeat case_decide; subst; naive_solver.
Qed.

Lemma refs_of_forked id :
  refs_of (forked parent child co cs) id =
    if decide (id = child ∨ id = parent) then refs_of cs parent else refs_of cs id.
Proof.
  unfold refs_of at 1. rewrite tail_of_forked, pages_of_forked. case_decide; [|done].
  apply app_nil_r.
Qed.

Lemma owner_of_forked id :
  owner_of (forked parent child co cs) id = if decide (id = child) then Some co else owner_of cs id.
Proof.
  unfold forked. change (owner_of (with_pages child ?p ?c)) with (owner_of c).
  rewrite owner_of_with_tail. unfold owner_of. cbn. rewrite lookup_insert.
  repeat case_decide; subst; naive_solver.
Qed.

Lemma extends_forked : extends cs (forked parent child co cs).
Proof.
  etrans; [by apply with_context_extends|]. etrans; [apply with_pages_extends|].
  etrans; [apply with_tail_extends|]. apply with_pages_extends.
Qed.
End forked.

(** A fork shares and isolates: the child and the parent refer to the same
    pages, both have the parent's text, the child belongs to the requested owner,
    and every other context is as before. *)
Theorem fork_shares_pages io rnd po parent co key cs child cs' :
  store_wf cs → operations cs !! (parent, key) = None →
  ForkTo io rnd po parent co key cs = (Ok child, cs') →
  pages_of cs' child = pages_of cs' parent ∧ child ≠ parent ∧
  tail_of cs' child = None ∧ tail_of cs' parent = None ∧
  content cs' child = content cs parent ∧ content cs' parent = content cs parent ∧
  owner_of cs' child = Some co ∧
  (∀ id, id ≠ child → owner_of cs' id = owner_of cs id) ∧
  (∀ id, id ≠ child → id ≠ parent → refs_of cs' id = refs_of cs id ∧ content cs' id = content cs id).
Proof.
  intros Hwf Hn H. unfold ForkTo in H. case_match; [done|].
  apply mutate_ok in H as (_ & _ & _ & _ & Hown & cs1 & Hfn & ->); [|done].
  apply owner_some in Hown as Hpar.
  destruct (wp_run _ _ _ _ _ (fork_body_spec rnd parent co cs Hpar) Hfn child eq_refl) as (_ & Hc & ->).
  pose proof (fork_distinct cs parent child Hc Hpar) as Hne.
  pose proof (extends_forked cs parent child co Hc) as Hext.
  assert (Htext : text_of (forked parent child co cs) (refs_of cs parent) = content cs parent).
  { apply text_extends; [done|]. apply Forall_forall. intros h. by apply refs_present. }
  change (pages_of (logged _ _ _ _ _ ?c)) with (pages_of c).
  change (tail_of (logged _ _ _ _ _ ?c)) with (tail_of c).
  change (refs_of (logged _ _ _ _ _ ?c)) with (refs_of c).
  change (owner_of (logged _ _ _ _ _ ?c)) with (owner_of c).
  change (content (logged _ _ _ _ _ ?c)) with (content c).
  rewrite !pages_of_forked, !tail_of_forked, owner_of_forked by done.
  rewrite !decide_True by auto. unfold content at 1 3. rewrite !refs_of_forked, !decide_True by auto.
  split_and!; try done.
  - intros id Hid. by rewrite owner_of_forked, decide_False by done.
  - intros id H1 H2. assert (refs_of (forked parent child co cs) id = refs_of cs id) as E.
    { rewrite refs_of_forked by done. rewrite decide_False; [done|]. intros [?|?]; done. }
    split; [done|]. by apply content_unchanged.
Qed.

Lemma fork_shares_pages_witness : ∃ cs',
  ForkTo true (Some [2]%Z) "alice" "01" "bob" "k" sample_store = (Ok "02", cs') ∧
  pages_of cs' "02" = pages_of cs' "01" ∧ owner_of cs' "02" = Some "bob".
Proof.
  assert (E : ForkTo true (Some [2]%Z) "alice" "01" "bob" "k" sample_store
    = (Ok "02", logged "01" "k" (op_digest "fork" "") "fork" "02" (forked "01" "02" "bob" sample_store))).
  { unfold ForkTo. change (all_space "bob") with false. cbn iota.
    rewrite mutate_run; [reflexivity|done|done|vm_compute; congruence|reflexivity]. }
  eexists. split; [exact E|].
  destruct (fork_shares_pages true (Some [2]%Z) "alice" "01" "bob" "k" sample_store "02" _
    sample_store_wf eq_refl E) as (Hp & _ & _ & _ & _ & _ & Ho & _). split; [exact Hp|exact Ho].
Defined.

(** A mutation happens once.  When an operation has succeeded under a key,
    repeating it after any further history returns the first result and changes
    nothing, whatever its body would do now; the same key with another input is
    refused. *)
Theorem mutation_replays io owner id key kind input input' fn fn' cs r cs1 ops :
  store_wf cs1 → Forall op_ok ops →
  mutate io owner id key kind input fn cs = (Ok r, cs1) →
  operations cs !! (id, key) = None → extends cs cs1 →
  let cs2 := store_run ops cs1 in
  mutate true owner id key kind input fn' cs2 = (Ok r, cs2) ∧
  (op_digest kind input' ≠ op_digest kind input →
   mutate true owner id key kind input' fn' cs2 = (Err ErrContextIdempotency, cs2)).
Proof.
  intros Hwf Hops H Hn Hext cs2. pose proof (store_run_step ops cs1 Hops Hwf) as [_ Hext2].
  fold cs2 in Hext2. apply mutate_ok in H as (_ & Ho & Hk & Hl & Hown & cs0 & _ & ->); [|done].
  assert (operations cs2 !! (id, key) = Some (op_digest kind input, r)) as Hop.
  { eapply lookup_weaken; [|apply ext_operations, Hext2]. cbn. apply lookup_insert_eq. }
  assert (owner_of cs2 id = Some owner) as Hown2 by (by apply Hext2, Hext).
  split.
  - rewrite mutate_run, Hop by done. by rewrite decide_False by tauto.
  - intros Hne. rewrite mutate_run, Hop by done. by rewrite decide_True by done.
Qed.

Lemma mutation_replays_witness : ∃ cs1,
  mutate true "alice" "01" "k" "artifact" "x" (mret "h") sample_store = (Ok "h", cs1) ∧
  mutate true "alice" "01" "k" "artifact" "x" (throw ErrIO) cs1 = (Ok "h", cs1).
Proof.
  set (cs1 := logged "01" "k" (op_digest "artifact" "x") "artifact" "h" sample_store).
  assert (E : mutate true "alice" "01" "k" "artifact" "x" (mret "h") sample_store = (Ok "h", cs1)).
  { rewrite mutate_run; [reflexivity|done|done|vm_compute; congruence|reflexivity]. }
  exists cs1. split; [exact E|].
  refine (proj1 (mutation_replays true "alice" "01" "k" "artifact" "x" "x" _ _ sample_store "h" cs1 []
    _ (Forall_nil_2 _) E eq_refl _)).
  - apply logged_wf, sample_store_wf.
  - by apply logged_extends.
Defined.

Lemma page_of_fits cs h :
  store_wf cs → is_Some (blobs cs !! h) → (len (read cs h) ≤ MaxInt64)%Z → page_fits (page_of cs h).
Proof.
  intros Hwf [d Hd] Hl. split; simpl; [by eapply wf_blob_plain|]. split; [apply len_nonneg|done].
Qed.

Lemma snapshot_refs cs id : Snap.Hash <$> snapshot_pages (snapshot_of cs id) = refs_of cs id.
Proof.
  unfold snapshot_pages, refs_of. simpl. rewrite fmap_app, <- list_fmap_compose.
  f_equal; [|by destruct (tail_of cs id)]. apply list_fmap_id.
Qed.

Lemma refs_of_restored snap cs :
  is_Some (contexts cs !! Snap.ContextID snap) →
  refs_of (restored snap cs) (Snap.ContextID snap) = Snap.Hash <$> snapshot_pages snap.
Proof.
  intros Hid. unfold refs_of, restored, snapshot_pages.
  rewrite tail_of_with_tail, decide_True by done.
  change (contexts (with_pages _ _ ?c)) with (contexts c). rewrite decide_True by done.
  change (pages_of (with_tail _ _ ?c)) with (pages_of c). rewrite pages_of_with_pages, decide_True by done.
  rewrite fmap_app. f_equal. by destruct (Snap.Tail snap).
Qed.

Lemma snapshot_of_fits cs id :
  store_wf cs → is_Some (contexts cs !! id) →
  Forall (λ r, len (read cs r) ≤ MaxInt64)%Z (refs_of cs id) → snapshot_fits (snapshot_of cs id).
Proof.
  intros Hwf [row Hrow] Hfit. split; [by eapply wf_ids|].
  assert (snapshot_pages (snapshot_of cs id) = page_of cs <$> refs_of cs id) as ->.
  { unfold snapshot_pages, refs_of. simpl. rewrite fmap_app. f_equal. by destruct (tail_of cs id). }
  apply Forall_fmap, Forall_forall. intros r Hr. rewrite Forall_forall in Hfit.
  apply page_of_fits; [done|by eapply refs_present|by apply Hfit].
Qed.

Lemma snapshot_of_present cs cs' id :
  store_wf cs → extends cs cs' → Forall (present cs') (snapshot_pages (snapshot_of cs id)).
Proof.
  intros Hwf Hext.
  assert (snapshot_pages (snapshot_of cs id) = page_of cs <$> refs_of cs id) as ->.
  { unfold snapshot_pages, refs_of. simpl. rewrite fmap_app. f_equal. by destruct (tail_of cs id). }
  apply Forall_fmap, Forall_forall. intros r Hr.
  destruct (refs_present cs id r Hwf Hr) as [d Hd]. exists d. simpl.
  split; [by eapply lookup_weaken; [|apply ext_blobs]|]. unfold read. by rewrite Hd.
Qed.

(** Restoring a checkpoint brings the context's text back.  A checkpoint taken
    with a fresh key can be restored after any further history of operations by
    the owner, and then the context has the text it had when the checkpoint was
    taken. *)
Theorem checkpoint_restore io owner id key key' cs h cs1 ops :
  store_wf cs → operations cs !! (id, key) = None →
  Forall (λ r, len (read cs r) ≤ MaxInt64)%Z (refs_of cs id) →
  no_collision cs (snapshot_json (snapshot_of cs id)) →
  Checkpoint io owner id key cs = (Ok h, cs1) →
  Forall op_ok ops →
  let cs2 := store_run ops cs1 in
  key' ≠ "" → (len key' ≤ 1024)%Z → operations cs2 !! (id, key') = None →
  ∃ cs3, Restore true owner id key' h cs2 = (Ok h, cs3) ∧ content cs3 id = content cs id.
Proof.
  intros Hwf Hn Hfit Hnc H Hops cs2 Hk' Hl' Hn'.
  apply mutate_ok in H as (_ & Ho & _ & _ & Hown & c & Hfn & ->); [|done].
  pose proof (wp_run _ _ _ _ _ (checkpoint_body_spec id cs Hwf) Hfn) as [[= ->] ->].
  set (data := snapshot_json (snapshot_of cs id)) in *.
  set (c := with_grant id (contextHash data) "checkpoint" (with_blob data cs)) in *.
  set (cs1 := logged id key (op_digest "checkpoint" "") "checkpoint" (contextHash data) c) in *.
  assert (store_wf cs1) as Hwf1.
  { apply logged_wf, with_grant_wf; [by apply with_blob_wf|apply with_blob_lookup]. }
  assert (extends cs cs1) as Hext1.
  { etrans; [apply with_blob_extends|]. etrans; [apply with_grant_extends|]. by apply logged_extends. }
  destruct (store_run_step ops cs1 Hops Hwf1) as [Hwf2 Hext12]. fold cs2 in Hwf2, Hext12.
  assert (extends cs cs2) as Hext by (by etrans).
  pose proof (ext_owners _ _ Hext _ _ Hown) as Hown2.
  unfold Restore. rewrite mutate_run, Hn' by done.
  pose proof (restore_body_spec id (contextHash data) cs2 Hwf2) as Hspec. unfold wp in Hspec.
  destruct (restore_body id (contextHash data) cs2) as [r cs3] eqn:E.
  destruct (proj2 Hspec (snapshot_of cs id)) as [-> ->].
  - apply (ext_grants _ _ Hext12). cbn. set_solver.
  - eapply lookup_weaken; [|apply ext_blobs, Hext12]. by apply with_blob_data.
  - apply snapshot_of_fits; [done|by eapply owner_some|done].
  - done.
  - by apply snapshot_of_present.
  - eexists. split; [done|].
    change (content (logged _ _ _ _ _ ?c) id) with (content c id). unfold content.
    rewrite (refs_of_restored (snapshot_of cs id)) by (by eapply owner_some).
    rewrite snapshot_refs. apply text_extends.
    + etrans; [done|]. etrans; [apply with_pages_extends|apply with_tail_extends].
    + apply Forall_forall. intros r. by apply refs_present.
Qed.

Lemma checkpoint_restore_witness : ∃ h cs1 cs3,
  Checkpoint true "alice" "01" "c" sample_store = (Ok h, cs1) ∧
  Restore true "alice" "01" "r" h cs1 = (Ok h, cs3) ∧ content cs3 "01" = content sample_store "01".
Proof.
  set (data := snapshot_json (snapshot_of sample_store "01")).
  set (cs1 := logged "01" "c" (op_digest "checkpoint" "") "checkpoint" (contextHash data)
    (with_grant "01" (contextHash data) "checkpoint" (with_blob data sample_store))).
  assert (E : Checkpoint true "alice" "01" "c" sample_store = (Ok (contextHash data), cs1)).
  { unfold Checkpoint. rewrite mutate_run; [|done|done|vm_compute; congruence|reflexivity].
    change (operations sample_store !! ("01", "c")) with (@None (string * string)). cbn iota.
    pose proof (checkpoint_body_spec "01" sample_store sample_store_wf) as H. unfold wp in H.
    destruct (checkpoint_body "01" sample_store) as [r c]. destruct H as [-> ->]. reflexivity. }
  exists (contextHash data), cs1.
  destruct (checkpoint_restore true "alice" "01" "c" "r" sample_store (contextHash data) cs1 [])
    as (cs3 & Hr & Hc); [apply sample_store_wf|reflexivity|constructor|..|exact E|constructor|done| | |].
  - intros d. cbn [blobs sample_store with_context empty_store]. by rewrite lookup_empty.
  - vm_compute; congruence.
  - reflexivity.
  - exists cs3. split; [exact E|]. split; [exact Hr|exact Hc].
Defined.

(** Reading is by membership, not by hash: a page or an artifact is returned
    only to the owner of a context that refers to it or was granted it, what is
    returned has the requested hash, and reading changes nothing. *)
Theorem reads_authorized io owner id h cs d cs' :
  store_wf cs →
  (ReadPage io owner id h cs = (Ok d, cs') →
   owner_of cs id = Some owner ∧ h ∈ refs_of cs id ∧ contextHash d = h ∧ cs' = cs) ∧
  (ReadArtifact io owner id h cs = (Ok d, cs') →
   owner_of cs id = Some owner ∧ (id, h, "artifact") ∈ grants cs ∧ contextHash d = h ∧ cs' = cs).
Proof.
  intros Hwf. split; intros H.
  - enough (wp (ReadPage io owner id h) (λ r cs', ∀ d, r = Ok d →
      owner_of cs id = Some owner ∧ h ∈ refs_of cs id ∧ contextHash d = h ∧ cs' = cs) cs) as Hwp.
    { by eapply wp_run in Hwp; [eapply Hwp|]. }
    apply wp_transact; [done|]. apply wp_bind, wp_authorize; [|done]. intros Hown _. wp_steps; [done|].
    apply wp_contextBlob; [done| |done]. intros d' Hd' x [= <-].
    split_and!; [done| |by eapply wf_blobs|done].
    unfold refs_of. apply elem_of_app. destruct (decide (h ∈ pages_of cs id)); [by left|right].
    assert (tail_of cs id = Some h) as -> by (apply dec_stable; tauto). by left.
  - enough (wp (ReadArtifact io owner id h) (λ r cs', ∀ d, r = Ok d →
      owner_of cs id = Some owner ∧ (id, h, "artifact") ∈ grants cs ∧ contextHash d = h ∧ cs' = cs) cs) as Hwp.
    { by eapply wp_run in Hwp; [eapply Hwp|]. }
    apply wp_transact; [done|]. apply wp_bind, wp_authorize; [|done]. intros Hown _. wp_steps; [done|].
    apply wp_contextBlob; [done| |done]. intros d' Hd' x [= <-].
    split_and!; [done|apply dec_stable; tauto|by eapply wf_blobs|done].
Qed.

Lemma ReadArtifact_run owner id h d cs :
  owner ≠ "" → owner_of cs id = Some owner → (id, h, "artifact") ∈ grants cs →
  blobs cs !! h = Some d → contextHash d = h → ReadArtifact true owner id h cs = (Ok d, cs).
Proof.
  intros Ho Hown Hg Hd Hh. unfold owner_of in Hown.
  unfold ReadArtifact, transact, authorizeContext, contextBlob, mbind, M_bind, get, reject_if, of_option.
  rewrite decide_False by (intros [?|?]; congruence). cbn.
  rewrite decide_False by tauto. cbn. unfold mbind, M_bind. rewrite Hd. cbn.
  by rewrite decide_False by tauto.
Qed.

Lemma reads_authorized_witness : ∃ cs,
  store_wf cs ∧ ReadArtifact true "alice" "01" (contextHash "x") cs = (Ok "x", cs) ∧
  owner_of cs "01" = Some "alice".
Proof.
  set (cs := with_grant "01" (contextHash "x") "artifact" (with_blob "x" sample_store)).
  assert (store_wf cs) as Hwf.
  { apply with_grant_wf; [apply with_blob_wf, sample_store_wf|apply with_blob_lookup]. }
  assert (E : ReadArtifact true "alice" "01" (contextHash "x") cs = (Ok "x", cs)).
  { apply ReadArtifact_run; [done|reflexivity|apply elem_of_union_l, elem_of_singleton; reflexivity| |reflexivity].
    apply with_blob_data. intros d. cbn [blobs sample_store with_context empty_store]. by rewrite lookup_empty. }
  exists cs. split; [exact Hwf|]. split; [exact E|].
  apply (proj2 (reads_authorized true "alice" "01" (contextHash "x") cs "x" cs Hwf) E).
Defined.
