(* ===== verification/State.v ===== *)
(** * supervisor.go: the supervisor's state, its audit log and its commits

    The records of the durable state with the fields of the source, one module
    per record so that fields keep their names; the supervisor around it; and the
    three functions every handler uses: [auditLocked] appends to the hash chain,
    [persistLocked] commits the state or rolls back to the last commit, and
    [restoreLocked] is the rollback.

    The world enters through [Env]: the clock, the random source and whether a
    write reaches the disk, each indexed by the supervisor's [tick], which every
    use advances.  Text fields are taken to be valid UTF-8, as all strings decoded
    from control requests are; encoding and decoding them is then the identity. *)

From Stdlib Require Import Ascii.
From stdpp Require Import base tactics option list gmap sets strings numbers pretty.
From S2P Require Import Prelude Monad GoLib Json Crypto Policy ContextStore.

(** ** Enumerations *)

Inductive app_state : Type := serving | frozen | retiring | tombstoned.
Global Instance app_state_eq_dec : EqDecision app_state.
Proof. solve_decision. Defined.

Definition app_state_text (st : app_state) : string :=
  match st with
  | serving => "serving" | frozen => "frozen" | retiring => "retiring" | tombstoned => "tombstoned"
  end.

Inductive wake_policy : Type := on_event | manual | on_quiescent.
Global Instance wake_policy_eq_dec : EqDecision wake_policy.
Proof. solve_decision. Defined.

Inductive message_status : Type := pending | claimed | acked | expired.
Global Instance message_status_eq_dec : EqDecision message_status.
Proof. solve_decision. Defined.

Inductive turn_status : Type := completed | failed | budget_exhausted | retired.
Global Instance turn_status_eq_dec : EqDecision turn_status.
Proof. solve_decision. Defined.

Definition turn_status_text (st : turn_status) : string :=
  match st with
  | completed => "completed" | failed => "failed"
  | budget_exhausted => "budget_exhausted" | retired => "retired"
  end.

Inductive confirmation_status : Type :=
  | cfm_pending | cfm_approved | cfm_denied | cfm_consumed | cfm_expired.
Global Instance confirmation_status_eq_dec : EqDecision confirmation_status.
Proof. solve_decision. Defined.

Inductive channel_state : Type := active | paused | revoked.
Global Instance channel_state_eq_dec : EqDecision channel_state.
Proof. solve_decision. Defined.

Inductive outbox_status : Type := out_pending | out_sent.
Global Instance outbox_status_eq_dec : EqDecision outbox_status.
Proof. solve_decision. Defined.

(** ** Records *)

Record RoutePolicy := mkRoutePolicy { Version : Z; Backends : list string }.

Record Usage := mkUsage { InputTokens : Z; OutputTokens : Z; CachedTokens : Z }.

Record RouteInfo := mkRouteInfo { Provider : string; CompatKey : string; Fallbacks : Z }.

Module Route.
Record RouteRecord := mk {
  Sequence : Z;
  Time : Z;
  ApplicationID : string;
  MessageID : string;
  PolicyVersion : Z;
  Provider : string;
  CompatKey : string;
  Fallbacks : Z;
  CacheHitKind : string;
  PromptTokens : Z;
  CachedTokens : Z;
  OutputTokens : Z;
  Status : turn_status;
  Reason : string;
}.
End Route.
Abbreviation RouteRecord := Route.RouteRecord.

Module App.
Record Application := mk {
  ApplicationID : string;
  OwnerAgent : string;
  ForkParent : string;
  ContractVersion : Z;
  State : app_state;
  WakePolicy : wake_policy;
  Checkpoint : string;
  Generation : Z;
  CreatedAt : Z;
  RetiredAt : Z;
  TokensUsed : Z;
  TokensCached : Z;
  TokenLimit : Z;
  Failures : Z;
  ContextID : string;
  KernelID : Z;
  LastProvider : string;
  LastCompat : string;
  Policy : RoutePolicy;
  TaintBits : Z;
}.
End App.
Abbreviation Application := App.Application.

Module Msg.
Record MailboxMessage := mk {
  MessageID : string;
  IdempotencyKey : string;
  Payload : string;
  Status : message_status;
  Sequence : Z;
  CreatedAt : Z;
  Attempts : Z;
}.
End Msg.
Abbreviation MailboxMessage := Msg.MailboxMessage.

Module Aud.
Record AuditRecord := mk {
  Sequence : Z;
  Time : Z;
  Principal : string;
  ApplicationID : string;
  Action : string;
  Object : string;
  Decision : string;
  Reason : string;
  PreviousHash : string;
  Hash : string;
}.
End Aud.
Abbreviation AuditRecord := Aud.AuditRecord.

Module Turn.
Record TurnResult := mk {
  ApplicationID : string;
  MessageID : string;
  Text : string;
  TurnUsage : Usage;
  Status : turn_status;
  Checkpoint : string;
  Provider : string;
  Fallbacks : Z;
  CacheHitKind : string;
  FailureReason : string;
}.
End Turn.
Abbreviation TurnResult := Turn.TurnResult.

Module Tmr.
Record ApplicationTimer := mk {
  ApplicationID : string;
  TimerID : string;
  Due : Z;
  Interval : Z;
  Payload : string;
}.
End Tmr.
Abbreviation ApplicationTimer := Tmr.ApplicationTimer.

Module Bind.
Record WakeBinding := mk {
  BindingID : string;
  ApplicationID : string;
  Kind : string;
  Ref : string;
  Cursor : Z;
  Enabled : bool;
}.
End Bind.
Abbreviation WakeBinding := Bind.WakeBinding.

Module KEv.
Record KernelEvent := mk {
  BootID : string;
  QueueBootID : string;
  RecoveryPending : bool;
  ApplicationID : Z;
  EventID : Z;
  EventSeq : Z;
  Kind : Z;
  Coalesced : Z;
  Data : Z;
}.
End KEv.
Abbreviation KernelEvent := KEv.KernelEvent.

Module Rev.
Record RevokedToken := mk {
  Digest : string;
  PublicKey : string;
  Subject : string;
  Caveats : list string;
  Time : Z;
  Reason : string;
}.
End Rev.
Abbreviation RevokedToken := Rev.RevokedToken.

Module Cfm.
Record ConfirmationRequest := mk {
  RequestID : string;
  ApplicationID : string;
  Kind : string;
  Object : string;
  Reason : string;
  CreatedAt : Z;
  ExpiresAt : Z;
  Status : confirmation_status;
  SettledBy : string;
}.
End Cfm.
Abbreviation ConfirmationRequest := Cfm.ConfirmationRequest.

Module Wit.
Record WitnessCheckpoint := mk {
  HeadHash : string;
  Count : Z;
  Time : Z;
  PublicKey : string;
  Signature : string;
  Signer : string;
}.
End Wit.
Abbreviation WitnessCheckpoint := Wit.WitnessCheckpoint.

Module Chan.
Record MessageChannel := mk {
  ChannelID : string;
  Kind : string;
  State : channel_state;
  CreatedAt : Z;
}.
End Chan.
Abbreviation MessageChannel := Chan.MessageChannel.

Module Conv.
Record MessageConversation := mk {
  ChannelID : string;
  ExternalID : string;
  Principal : string;
  ApplicationID : string;
  LastSequence : Z;
  CreatedAt : Z;
}.
End Conv.
Abbreviation MessageConversation := Conv.MessageConversation.

Module Out.
Record OutboxEntry := mk {
  EntryID : string;
  ConversationID : string;
  IdempotencyKey : string;
  Payload : string;
  Status : outbox_status;
  Attempts : Z;
  CreatedAt : Z;
  SentAt : Z;
  Receipt : string;
}.
End Out.
Abbreviation OutboxEntry := Out.OutboxEntry.

Module Mnt.
Record HostfsMount := mk {
  MountID : string;
  ApplicationID : string;
  HostPath : string;
  GuestPath : string;
  Mode : string;
  LimitsBytes : Z;
  Version : Z;
  Enabled : bool;
  CreatedAt : Z;
  ExpiresAt : Z;
}.
End Mnt.
Abbreviation HostfsMount := Mnt.HostfsMount.

Module Xfer.
Record ArtifactTransfer := mk {
  TransferID : string;
  ApplicationID : string;
  ArtifactSHA256 : string;
  Direction : string;
  Status : string;
  IdempotencyKey : string;
  Payload : string;
  CreatedAt : Z;
}.
End Xfer.
Abbreviation ArtifactTransfer := Xfer.ArtifactTransfer.

(** The durable state.  [NextSequence] is the number of sequence numbers handed
    out; the [uint64] of the source is its value modulo 2^64. *)
Record supervisorState := mkState {
  Applications : gmap string Application;
  Mailbox : gmap string (list MailboxMessage);
  Audit : list AuditRecord;
  NextSequence : Z;
  Results : gmap string TurnResult;
  Prepared : gmap string TurnResult;
  Timers : gmap string ApplicationTimer;
  Bindings : gmap string WakeBinding;
  NextKernelID : Z;
  KernelPending : gmap string (list KernelEvent);
  RouteRecords : list RouteRecord;
  RevokedTokens : list RevokedToken;
  Confirmations : gmap string ConfirmationRequest;
  WitnessCheckpoints : list WitnessCheckpoint;
  Channels : gmap string MessageChannel;
  Conversations : gmap string MessageConversation;
  Outbox : list OutboxEntry;
  HostfsMounts : gmap string HostfsMount;
  Transfers : list ArtifactTransfer;
}.

Definition empty_state : supervisorState :=
  mkState ∅ ∅ [] 0 ∅ ∅ ∅ ∅ 0 ∅ [] [] ∅ [] ∅ ∅ [] ∅ [].

(** Effects on the kernel's application registry, as the supervisor causes them:
    an event posted into an application's queue, an event acknowledged. *)
Inductive kernel_call : Type :=
  | Posted (id : string) (cursor : Z)
  | Acked (id : string) (eventID : Z).

(** The supervisor.  [committed] is what the last committed JSON decodes to.  The
    kernel bridge is present or not ([kernel]); its handles are numbers, and
    [calls] is the history of what was done through them. *)
Record Supervisor := mkSupervisor {
  state : supervisorState;
  policy : CapabilitySet;
  previousHash : string;
  committed : supervisorState;
  store : ContextStore;
  kernel : bool;
  kernelApps : gmap string Z;
  kernelSrcs : gmap string Z;
  lastClaim : gmap string Z;
  lastPrefix : string;
  sourced : gmap string string;
  inflight : gset string;
  turnConcurrency : Z;
  calls : list kernel_call;
  tick : nat;
}.

(** ** The world *)

Record Env := mkEnv {
  clock : nat → Z; (* time.Now, in nanoseconds *)
  entropy : nat → nat → option (list Z); (* rand.Read of so many bytes *)
  disk : nat → bool; (* whether a write or transaction succeeds *)
}.

(** A random source that, when it delivers, delivers as many bytes as asked. *)
Definition env_ok (env : Env) : Prop :=
  ∀ t n b, entropy env t n = Some b → length b = n ∧ byte_list b.

Section world.
Context (env : Env).

Definition with_tick {A} (f : nat → A) : M Supervisor A := λ s,
  (Ok (f (tick s)), {| s with tick := S (tick s) |}).

(** [time.Now ().UnixNano ()] *)
Definition now : M Supervisor Z := with_tick (clock env).
Definition rand_read (n : nat) : M Supervisor (list Z) :=
  b ← with_tick (λ t, entropy env t n); of_option ErrIO b.

(** A call into the context store, with the fate of its transaction. *)
Definition with_store {A} (f : bool → M ContextStore A) : M Supervisor A := λ s,
  let '(r, cs) := f (disk env (tick s)) (store s) in
  (r, {| s with store := cs; tick := S (tick s) |}).

Definition with_store_random {A} (n : nat) (f : bool → option (list Z) → M ContextStore A) : M Supervisor A :=
  b ← with_tick (λ t, entropy env t n); with_store (λ io, f io b).
End world.

Definition modify_state (f : supervisorState → supervisorState) : M Supervisor unit :=
  modify (λ s, {| s with state := f (state s) |}).

Definition gets {A} (f : supervisorState → A) : M Supervisor A := s ← get; mret (f (state s)).

(** ** The audit log *)

(** The JSON of a record with its hash blanked, in the order of the struct's
    fields; empty optional fields are left out. *)
Definition audit_json (r : AuditRecord) : string :=
  obj_literal (
    [("sequence", json_int (Aud.Sequence r)); ("time", json_int (Aud.Time r));
     ("principal", json_quote (Aud.Principal r))] ++
    (if decide (Aud.ApplicationID r = "") then [] else [("application_id", json_quote (Aud.ApplicationID r))]) ++
    [("action", json_quote (Aud.Action r)); ("object", json_quote (Aud.Object r));
     ("decision", json_quote (Aud.Decision r))] ++
    (if decide (Aud.Reason r = "") then [] else [("reason", json_quote (Aud.Reason r))]) ++
    [("previous_hash", json_quote (Aud.PreviousHash r)); ("hash", json_quote "")]).

Definition auditHash (r : AuditRecord) : string := sha256_hex (audit_json r).

Fixpoint verify_from (previous : string) (seq : Z) (records : list AuditRecord) : bool :=
  match records with
  | [] => true
  | r :: records =>
      if decide (Aud.Sequence r ≤ seq)%Z then false
      else if decide (Aud.PreviousHash r ≠ previous) then false
      else if decide (Aud.Hash r ≠ auditHash r) then false
      else verify_from (Aud.Hash r) (Aud.Sequence r) records
  end.

Definition VerifyAudit (records : list AuditRecord) : result error unit :=
  if verify_from "" 0 records then Ok () else Err (New "invalid audit chain").

(** The hash of the newest record. *)
Definition last_hash (records : list AuditRecord) : string :=
  match last records with Some r => Aud.Hash r | None => "" end.

Section audit.
Context (env : Env).

Definition auditLocked (principal applicationID action object decision reason : string) :
    M Supervisor unit :=
  modify_state (λ st, {| st with NextSequence := (NextSequence st + 1)%Z |});;
  t ← now env;
  s ← get;
  let r := Aud.mk (u64 (NextSequence (state s))) t principal applicationID action object decision reason
             (previousHash s) "" in
  let r := {| r with Aud.Hash := auditHash r |} in
  put {| s with
    previousHash := Aud.Hash r;
    state := {| (state s) with Audit := Audit (state s) ++ [r] |} |}.
End audit.

(** ** Commits *)

(** What a state is after encoding to JSON and decoding again: raw payloads are
    normalised and the process-local recovery marks are gone. *)
Definition durable (st : supervisorState) : supervisorState :=
  {| st with
     Mailbox := fmap (M := gmap string)
       (fmap (λ m, {| m with Msg.Payload := json_compact (Msg.Payload m) |})) (Mailbox st);
     Timers := (λ t, {| t with Tmr.Payload := json_compact (Tmr.Payload t) |}) <$> Timers st;
     KernelPending := fmap (M := gmap string)
       (fmap (λ e, {| e with KEv.RecoveryPending := false |})) (KernelPending st);
     Outbox := (λ e, {| e with Out.Payload := json_compact (Out.Payload e) |}) <$> Outbox st;
     Transfers := (λ x, {| x with Xfer.Payload := json_compact (Xfer.Payload x) |}) <$> Transfers st |}.

Definition conversationKey (channelID externalID : string) : string := channelID +:+ ":" +:+ externalID.

(** The conversation a mailbox payload names, when it is a gateway envelope for an
    existing conversation of this application. *)
Definition envelope_source (st : supervisorState) (applicationID payload : string) : option string :=
  let '(source, ok1) := string_field "source" payload in
  let '(channel, ok2) := string_field "channel" payload in
  let '(external, ok3) := string_field "external_id" payload in
  if decide (ok1 && ok2 && ok3 = true ∧ source = "gateway") then
    let key := conversationKey channel external in
    match Conversations st !! key with
    | Some c =>
        if decide (Conv.ChannelID c = channel ∧ Conv.ExternalID c = external
                   ∧ Conv.ApplicationID c = applicationID)
        then Some key else None
    | None => None
    end
  else None.

(** The map [rescanSourcedLocked] rebuilds: messages of the mailboxes in some
    order of the applications, later entries overriding. *)
Definition rescan_entry (st : supervisorState) (id : string) (acc : gmap string string)
    (m : MailboxMessage) : gmap string string :=
  match envelope_source st id (Msg.Payload m) with
  | Some key => <[Msg.MessageID m := key]> acc
  | None => acc
  end.

Definition rescanSourced (st : supervisorState) : gmap string string :=
  fold_left (λ acc '(id, messages), fold_left (rescan_entry st id) messages acc)
    (map_to_list (Mailbox st)) ∅.

Definition restoreLocked : M Supervisor unit :=
  modify (λ s, {| s with
    state := committed s;
    sourced := rescanSourced (committed s);
    previousHash := last_hash (Audit (committed s)) |}).

Section persist.
Context (env : Env).

(** Commit the state, or roll back to the last commit. *)
Definition persistLocked : M Supervisor unit :=
  ok ← with_tick (disk env);
  if (ok : bool) then modify (λ s, {| s with committed := durable (state s) |})
  else restoreLocked;; throw ErrIO.
End persist.
