(* ===== verification/Taint.v ===== *)
(** * taint.go: dataflow taint and the export gate

    Applications accumulate the taint bits of what their turns consume; text
    leaves only through [exportApplication], which lets clean text pass, denies,
    escalates to a human confirmation, or honours an approved one.  The iteration
    order of Go's maps matters in one place, which of several equally old settled
    requests are dropped; the order is an argument there. *)

From Stdlib Require Import Ascii.
From stdpp Require Import base tactics option list gmap sets strings numbers pretty sorting.
From S2P Require Import Prelude Monad GoLib Json Crypto Policy ContextStore State.

Definition TaintExternal : Z := 1.
Definition TaintConfidential : Z := 2.
Definition confirmationTTL : Z := 300000000000.
Definition maxPendingConfirmations : nat := 64.
Definition maxTextBytes : Z := 262144.

(** [int64] arithmetic. *)
Definition i64 (z : Z) : Z := ((z + 9223372036854775808) `mod` 18446744073709551616 - 9223372036854775808)%Z.

(** The optional taint declaration of a payload. *)
Definition taintedPayload (payload : string) : Z := fst (uint64_field "taint" payload).

Definition update_app (id : string) (f : Application → Application) (st : supervisorState) : supervisorState :=
  {| st with Applications := alter f id (Applications st) |}.

Definition add_taint (taint : Z) (a : Application) : Application :=
  {| a with App.TaintBits := Z.lor (App.TaintBits a) taint |}.

Definition accumulateTaint (id : string) (taint : Z) : M Supervisor unit :=
  if decide (taint = 0)%Z then mret () else modify_state (update_app id (add_taint taint)).

(** ** Confirmations *)

Definition set_confirmation (r : ConfirmationRequest) (st : supervisorState) : supervisorState :=
  {| st with Confirmations := <[Cfm.RequestID r := r]> (Confirmations st) |}.

Definition expire_stale (t : Z) (r : ConfirmationRequest) : ConfirmationRequest :=
  if decide (Cfm.Status r = cfm_pending ∧ t > Cfm.ExpiresAt r)%Z
  then {| r with Cfm.Status := cfm_expired |} else r.

Definition older (a b : string * ConfirmationRequest) : Prop :=
  (Cfm.CreatedAt (snd a) ≤ Cfm.CreatedAt (snd b))%Z.
Global Instance older_dec : RelDecision older.
Proof. intros a b. unfold older. apply _. Defined.

(** The settled requests in the order they are dropped; [order] is the order in
    which the map was walked. *)
Definition settled_oldest (order : list string) (confirmations : gmap string ConfirmationRequest) :
    list (string * ConfirmationRequest) :=
  merge_sort older
    (filter (λ kv, Cfm.Status (snd kv) ≠ cfm_pending)
      (omap (λ id, (λ r, (id, r)) <$> confirmations !! id) order)).

Definition sweep (order : list string) (t : Z) (confirmations : gmap string ConfirmationRequest) :
    gmap string ConfirmationRequest :=
  let fresh : gmap string ConfirmationRequest := expire_stale t <$> confirmations in
  if decide (size fresh ≤ maxPendingConfirmations) then fresh
  else foldr (λ kv m, delete (fst kv) m) fresh
         (take (size fresh - maxPendingConfirmations) (settled_oldest order fresh)).

Definition sweepConfirmationsLocked (order : list string) (t : Z) : M Supervisor unit :=
  modify_state (λ st, {| st with Confirmations := sweep order t (Confirmations st) |}).

Definition pending_confirmations (confirmations : gmap string ConfirmationRequest) : nat :=
  size (filter (λ kv, Cfm.Status (snd kv) = cfm_pending) confirmations).

Section taint.
Context (env : Env).

Definition escalateExportLocked (order : list string) (principal : string) (a : Application) (text : string) :
    M Supervisor string :=
  raw ← rand_read env 8;
  t ← now env;
  let request := Cfm.mk ("cfm-" +:+ hex_encode raw) (App.ApplicationID a) "taint.export" text
    "unmasked taint requires human approval" t (i64 (t + confirmationTTL)) cfm_pending "" in
  sweepConfirmationsLocked order t;;
  confirmations ← gets Confirmations;
  if decide (maxPendingConfirmations ≤ pending_confirmations confirmations) then
    auditLocked env principal (App.ApplicationID a) "confirmation.create" "rejected" "deny" "slow-path queue full";;
    throw (New "confirmation queue full; retry after settling pending requests")
  else
    modify_state (set_confirmation request);;
    auditLocked env principal (App.ApplicationID a) "confirmation.create" (Cfm.RequestID request) "allow"
      (Cfm.Kind request);;
    persistLocked env;;
    throw (ErrConfirmationPending (Cfm.RequestID request)).

Definition exportViaRequestLocked (principal : string) (a : Application) (text requestID : string) :
    M Supervisor string :=
  confirmations ← gets Confirmations;
  request ← of_option (New "confirmation request not found") (confirmations !! requestID);
  reject_if (Cfm.ApplicationID request ≠ App.ApplicationID a ∨ Cfm.Kind request ≠ "taint.export")
    (New "confirmation request not found");;
  reject_if (Cfm.Status request = cfm_consumed) (New "confirmation request already used");;
  reject_if (Cfm.Status request ≠ cfm_approved) (New "confirmation request not approved");;
  t ← now env;
  if decide (t > Cfm.ExpiresAt request)%Z then
    modify_state (λ st, {| st with
      Confirmations := <[requestID := {| request with Cfm.Status := cfm_expired |}]> (Confirmations st) |});;
    try (persistLocked env);;
    throw (New "confirmation request expired")
  else
    reject_if (text ≠ Cfm.Object request) (New "export payload does not match the approved request");;
    modify_state (λ st, {| st with
      Confirmations := <[requestID := {| request with Cfm.Status := cfm_consumed |}]> (Confirmations st) |});;
    auditLocked env principal (App.ApplicationID a) "taint.export.confirm" text "allow"
      ("one-shot via " +:+ requestID);;
    persistLocked env;;
    mret text.

(** The taint bits the manifest's mask does not cover. *)
Definition blocked_taint (a : Application) (c : CapabilitySet) : Z :=
  Z.land (App.TaintBits a) (u64_not (ExportMask c)).

Definition exportApplication (order : list string) (principal id text : string)
    (confirm escalate : bool) (requestID : string) : M Supervisor string :=
  s ← get;
  a ← of_option ErrApplicationNotFound (Applications (state s) !! id);
  reject_if (App.State a = tombstoned ∨ App.State a = retiring) ErrApplicationRetired;;
  reject_if (text = "" ∨ len text > maxTextBytes)%Z (New "invalid export payload");;
  if decide (requestID ≠ "") then exportViaRequestLocked principal a text requestID
  else if decide (blocked_taint a (policy s) = 0)%Z then
    auditLocked env principal id "taint.export" text "allow" "clean";;
    persistLocked env;;
    mret text
  else if escalate && negb confirm then escalateExportLocked order principal a text
  else if negb confirm then
    auditLocked env principal id "taint.export" text "deny" "unmasked taint";;
    persistLocked env;;
    throw ErrTaintBlocked
  else
    auditLocked env principal id "taint.export.confirm" text "allow" "human-confirmed unmasked taint";;
    persistLocked env;;
    mret text.

Definition SettleConfirmation (principal requestID : string) (approve : bool) :
    M Supervisor ConfirmationRequest :=
  confirmations ← gets Confirmations;
  request ← of_option (New "confirmation request not found") (confirmations !! requestID);
  reject_if (Cfm.Status request ≠ cfm_pending) (New "confirmation request already settled");;
  t ← now env;
  if decide (t > Cfm.ExpiresAt request)%Z then
    modify_state (λ st, {| st with
      Confirmations := <[requestID := {| request with Cfm.Status := cfm_expired |}]> (Confirmations st) |});;
    try (persistLocked env);;
    throw (New "confirmation request expired")
  else
    let request := {| request with
      Cfm.Status := if approve then cfm_approved else cfm_denied;
      Cfm.SettledBy := principal |} in
    modify_state (λ st, {| st with Confirmations := <[requestID := request]> (Confirmations st) |});;
    auditLocked env principal (Cfm.ApplicationID request)
      (if approve then "confirmation.approve" else "confirmation.deny") requestID "allow" (Cfm.Kind request);;
    persistLocked env;;
    mret request.

(** The entry for taint a provider reports; a failed commit is not reported. *)
Definition foldTaint (id : string) (taint : Z) : M Supervisor unit :=
  if decide (taint = 0)%Z then mret ()
  else accumulateTaint id taint;; try (persistLocked env);; mret ().
End taint.

(** The requests of one application, or all of them, oldest first. *)
Definition ListConfirmations (order : list string) (applicationID : string) : M Supervisor (list ConfirmationRequest) :=
  confirmations ← gets Confirmations;
  mret (snd <$> merge_sort older
    (filter (λ kv, applicationID = "" ∨ Cfm.ApplicationID (snd kv) = applicationID)
      (omap (λ id, (λ r, (id, r)) <$> confirmations !! id) order))).
