(* ===== verification/Mailbox.v ===== *)
(** * mailbox.go and the mailbox half of supervisor.go

    Capacity is derived from the durable message states; [enqueueLocked] stages a
    message under an idempotency key, [ClaimMailbox] and [AckMailbox] are the
    control plane's side of delivery. *)

From Stdlib Require Import Ascii.
From stdpp Require Import base tactics option list gmap sets strings numbers pretty.
From S2P Require Import Prelude Monad GoLib Json Crypto Policy ContextStore State Taint.

Definition maxApplicationMailboxMessages : Z := 256.
Definition maxApplicationMailboxBytes : Z := 2097152.
Definition maxSupervisorMailboxMessages : Z := 1024.
Definition maxSupervisorMailboxBytes : Z := 16777216.

Record MailboxUsage := mkMailboxUsage {
  Messages : Z;
  PayloadBytes : Z;
  MaxMessages : Z;
  MaxPayloadBytes : Z;
}.

Record MailboxCapacity := mkMailboxCapacity {
  ApplicationUsage : MailboxUsage;
  SupervisorUsage : MailboxUsage;
}.

Definition is_live (st : message_status) : bool :=
  match st with pending | claimed => true | acked | expired => false end.

(** Live messages and their bytes in one list, and over all lists. *)
Definition live_count (ms : list MailboxMessage) : Z :=
  sumZ (λ m, if is_live (Msg.Status m) then 1 else 0)%Z ms.
Definition live_bytes (ms : list MailboxMessage) : Z :=
  sumZ (λ m, if is_live (Msg.Status m) then len (Msg.Payload m) else 0)%Z ms.

Definition total (f : list MailboxMessage → Z) (mailbox : gmap string (list MailboxMessage)) : Z :=
  sumZ (λ kv, f (snd kv)) (map_to_list mailbox).

Definition messages_of (st : supervisorState) (id : string) : list MailboxMessage :=
  default [] (Mailbox st !! id).

Definition mailboxCapacityLocked (st : supervisorState) (id : string) : MailboxCapacity :=
  mkMailboxCapacity
    (mkMailboxUsage (live_count (messages_of st id)) (live_bytes (messages_of st id))
       maxApplicationMailboxMessages maxApplicationMailboxBytes)
    (mkMailboxUsage (total live_count (Mailbox st)) (total live_bytes (Mailbox st))
       maxSupervisorMailboxMessages maxSupervisorMailboxBytes).

Definition accepts (u : MailboxUsage) (bytes : Z) : bool :=
  bool_decide (Messages u < MaxMessages u ∧ bytes ≤ MaxPayloadBytes u - PayloadBytes u)%Z.

Definition InspectMailboxCapacity (id : string) : M Supervisor MailboxCapacity :=
  s ← get;
  of_option ErrApplicationNotFound (Applications (state s) !! id);;
  mret (mailboxCapacityLocked (state s) id).

(** Rewriting one application's messages. *)
Definition update_messages (id : string) (f : list MailboxMessage → list MailboxMessage)
    (st : supervisorState) : supervisorState :=
  {| st with Mailbox := alter f id (Mailbox st) |}.

Definition set_status (status : message_status) (m : MailboxMessage) : MailboxMessage :=
  {| m with Msg.Status := status |}.

Definition expire_message (m : MailboxMessage) : MailboxMessage :=
  if is_live (Msg.Status m) then set_status expired m else m.

Definition expireMailboxLocked (id : string) : M Supervisor unit :=
  modify_state (update_messages id (fmap expire_message)).

Definition has_key (key : string) (m : MailboxMessage) : bool := bool_decide (Msg.IdempotencyKey m = key).
Definition has_id (messageID : string) (m : MailboxMessage) : bool := bool_decide (Msg.MessageID m = messageID).

Definition retired_app (a : Application) : Prop := App.State a = tombstoned ∨ App.State a = retiring.
Global Instance retired_app_dec a : Decision (retired_app a).
Proof. unfold retired_app. apply _. Defined.

Definition next_sequence : M Supervisor Z :=
  modify_state (λ st, {| st with NextSequence := (NextSequence st + 1)%Z |});;
  n ← gets NextSequence;
  mret (u64 n).

Section mailbox.
Context (env : Env).

Definition enqueueLocked (principal id key payload : string) : M Supervisor MailboxMessage :=
  st ← gets (λ st, st);
  a ← of_option ErrApplicationNotFound (Applications st !! id);
  reject_if (retired_app a) ErrApplicationRetired;;
  reject_if (key = "" ∨ len key > 256)%Z (New "invalid idempotency key");;
  reject_if (json_valid payload = false ∨ len payload > 6 * maxTextBytes)%Z (New "invalid mailbox payload");;
  let payload := json_compact payload in
  match find_first (has_key key) (messages_of st id) with
  | Some m =>
      reject_if (Msg.Payload m ≠ payload) ErrDuplicateMessage;;
      mret m
  | None =>
      let capacity := mailboxCapacityLocked st id in
      reject_if (accepts (ApplicationUsage capacity) (len payload) = false
                 ∨ accepts (SupervisorUsage capacity) (len payload) = false) ErrMailboxFull;;
      n ← next_sequence;
      t ← now env;
      let m := Msg.mk ("msg-" +:+ pretty n) key payload pending n t 0 in
      modify_state (λ st, {| st with Mailbox := <[id := messages_of st id ++ [m]]> (Mailbox st) |});;
      auditLocked env principal id "mailbox.enqueue" key "allow" "";;
      mret m
  end.

Definition reserved_key (key : string) : bool :=
  HasPrefix key "lsfs:" || HasPrefix key "timer:" || HasPrefix key "kernel:".

Definition Enqueue (principal id key payload : string) : M Supervisor MailboxMessage :=
  reject_if (reserved_key key = true) (New "reserved event idempotency key");;
  reject_if (len payload > maxTextBytes)%Z (New "invalid mailbox payload");;
  before ← gets NextSequence;
  m ← enqueueLocked principal id key payload;
  after ← gets NextSequence;
  (if decide (after = before) then mret () else persistLocked env);;
  mret m.

Definition claim_message (m : MailboxMessage) : MailboxMessage :=
  if decide (Msg.Status m = pending) then set_status claimed m else m.

(** The messages a claim hands out, as they are after it. *)
Definition claimable (ms : list MailboxMessage) : list MailboxMessage :=
  set_status claimed <$> filter (λ m, Msg.Status m = pending) ms.

Fixpoint fold_taints (id : string) (ms : list MailboxMessage) : M Supervisor unit :=
  match ms with
  | [] => mret ()
  | m :: ms => accumulateTaint id (taintedPayload (Msg.Payload m));; fold_taints id ms
  end.

Definition ClaimMailbox (principal id : string) : M Supervisor (list MailboxMessage) :=
  st ← gets (λ st, st);
  a ← of_option ErrApplicationNotFound (Applications st !! id);
  reject_if (App.State a = tombstoned) ErrApplicationRetired;;
  let out := claimable (messages_of st id) in
  modify_state (update_messages id (fmap claim_message));;
  fold_taints id out;;
  (if decide (out = []) then mret ()
   else auditLocked env principal id "mailbox.claim" id "allow" "";; persistLocked env);;
  mret out.

Definition AckMailbox (principal id messageID : string) : M Supervisor unit :=
  st ← gets (λ st, st);
  m ← of_option (New "mailbox message not found") (find_first (has_id messageID) (messages_of st id));
  if decide (Msg.Status m = acked) then mret ()
  else
    reject_if (Msg.Status m ≠ claimed) (New "message is not claimed");;
    modify_state (update_messages id (update_first (has_id messageID) (set_status acked)));;
    auditLocked env principal id "mailbox.ack" messageID "allow" "";;
    persistLocked env.

(** [requeueClaim] of runner.go: an in-flight delivery goes back to the mailbox. *)
Definition requeueClaim (applicationID messageID : string) : M Supervisor unit :=
  st ← gets (λ st, st);
  m ← of_option (New "claimed message not found")
        (find_first (has_id messageID) (messages_of st applicationID));
  if decide (Msg.Status m ≠ claimed) then mret ()
  else
    modify_state (update_messages applicationID (update_first (has_id messageID) (set_status pending)));;
    auditLocked env "supervisor" applicationID "turn.requeue" messageID "allow" "runner stopped before commit";;
    persistLocked env.
End mailbox.

Definition ListMailbox (id : string) : M Supervisor (list MailboxMessage) :=
  st ← gets (λ st, st);
  of_option ErrApplicationNotFound (Applications st !! id);;
  mret (messages_of st id).
