(* ===== verification/Lifecycle.v ===== *)
(** * supervisor.go and runner.go: applications over their life

    Recovery at start-up, creation, forking, freezing, budgets, route policies,
    timers and retirement.  Where the source walks a Go map and the order shows
    (kernel identifiers, recovery records, listings), the order is an argument. *)

From Stdlib Require Import Ascii.
From stdpp Require Import base tactics option list gmap sets strings numbers pretty sorting.
From S2P Require Import Prelude Monad GoLib Json Crypto Policy ContextStore State Taint Mailbox.

Definition maxRouteRecords : nat := 512.

(** ** Recovery *)

(** Applications from before kernel identifiers existed get one. *)
Definition assign_kernel_id (st : supervisorState) (id : string) : supervisorState :=
  match Applications st !! id with
  | Some a =>
      if decide (App.KernelID a = 0)%Z then
        let n := u64 (NextKernelID st + 1) in
        update_app id (λ a, {| a with App.KernelID := n |}) {| st with NextKernelID := n |}
      else st
  | None => st
  end.

(** Claims belong to the previous incarnation: they are pending again, except
    those of a retired application, which expire. *)
Definition unclaim (m : MailboxMessage) : MailboxMessage :=
  if decide (Msg.Status m = claimed) then set_status pending m else m.

Definition replay_messages (a : option Application) (ms : list MailboxMessage) : list MailboxMessage :=
  if decide (App.State <$> a = Some tombstoned) then expire_message <$> ms else unclaim <$> ms.

Definition replay_mailboxes (st : supervisorState) : supervisorState :=
  {| st with Mailbox := map_imap (λ id ms, Some (replay_messages (Applications st !! id) ms)) (Mailbox st) |}.

Definition next_generation (a : Application) : Application :=
  {| a with App.Generation := if decide (App.Generation a = 0)%Z then 1%Z else (App.Generation a + 1)%Z |}.

Section lifecycle.
Context (env : Env).

Fixpoint recover_applications (ids : list string) : M Supervisor unit :=
  match ids with
  | [] => mret ()
  | id :: ids =>
      st ← gets (λ st, st);
      match Applications st !! id with
      | Some a =>
          if decide (App.State a = tombstoned) then recover_applications ids
          else
            reject_if (App.Generation a = MaxUint64) (New "application generation exhausted");;
            modify_state (update_app id next_generation);;
            auditLocked env "supervisor" id "application.recover" id "allow" "new worker incarnation";;
            recover_applications ids
      | None => recover_applications ids
      end
  end.

(** [load] on the state decoded from the database; [order1] and [order2] are the
    orders of its two walks over the applications. *)
Definition load (order1 order2 : list string) (stored : supervisorState) : M Supervisor unit :=
  let st := fold_left assign_kernel_id order1 stored in
  modify (λ s, {| s with state := st; sourced := rescanSourced st |});;
  of_result (VerifyAudit (Audit st));;
  modify (λ s, {| s with previousHash := last_hash (Audit st); committed := durable st |});;
  modify_state replay_mailboxes;;
  recover_applications order2;;
  persistLocked env.

(** ** Creation *)

(** A version 4 UUID from 16 random bytes. *)
Definition uuid (b : list Z) : string :=
  let b := alter (λ x, Z.lor (Z.land x 15) 64) 6 b in
  let b := alter (λ x, Z.lor (Z.land x 63) 128) 8 b in
  hex_encode (take 4 b) +:+ "-" +:+ hex_encode (take 2 (drop 4 b)) +:+ "-" +:+
  hex_encode (take 2 (drop 6 b)) +:+ "-" +:+ hex_encode (take 2 (drop 8 b)) +:+ "-" +:+
  hex_encode (take 6 (drop 10 b)).

Definition parse_wake (wake : string) : option wake_policy :=
  if decide (wake = "" ∨ wake = "on_event") then Some on_event
  else if decide (wake = "manual") then Some manual
  else if decide (wake = "on_quiescent") then Some on_quiescent
  else None.

Definition new_application (id owner parent : string) (contract : Z) (wake : wake_policy) (created taint : Z) :
    Application :=
  App.mk id owner parent contract serving wake "" 1 created 0 0 0 0 0 "" 0 "" "" (mkRoutePolicy 0 []) taint.

Definition next_kernel_id : M Supervisor Z :=
  modify_state (λ st, {| st with NextKernelID := u64 (NextKernelID st + 1) |});;
  gets NextKernelID.

Definition insert_application (a : Application) (st : supervisorState) : supervisorState :=
  {| st with
     Applications := <[App.ApplicationID a := a]> (Applications st);
     Mailbox := <[App.ApplicationID a := []]> (Mailbox st) |}.

Definition CreateApplication (principal owner wake : string) : M Supervisor Application :=
  reject_if (owner = "" ∨ len owner > 256)%Z (New "invalid owner");;
  w ← of_option (New "invalid wake policy") (parse_wake wake);
  b ← rand_read env 16;
  let id := uuid b in
  t ← now env;
  k ← next_kernel_id;
  contextID ← with_store_random env 16 (λ io rnd, Create io rnd owner "");
  let a := {| (new_application id owner "" 1 w t 0) with App.KernelID := k; App.ContextID := contextID |} in
  modify_state (insert_application a);;
  auditLocked env principal id "application.create" id "allow" "";;
  persistLocked env;;
  mret a.

Definition ForkApplication (principal parentID owner wake : string) : M Supervisor Application :=
  st ← gets (λ st, st);
  parent ← of_option ErrApplicationNotFound (Applications st !! parentID);
  reject_if (App.State parent = tombstoned) ErrApplicationRetired;;
  reject_if (owner = "" ∨ len owner > 256)%Z (New "invalid owner");;
  w ← of_option (New "invalid wake policy") (parse_wake wake);
  b ← rand_read env 16;
  let id := uuid b in
  t ← now env;
  k ← next_kernel_id;
  contextID ← with_store_random env 16 (λ io rnd,
    ForkTo io rnd (App.OwnerAgent parent) (App.ContextID parent) owner ("fork:" +:+ id));
  let a := {| (new_application id owner parentID 0 w t (App.TaintBits parent)) with
              App.KernelID := k; App.ContextID := contextID |} in
  modify_state (insert_application a);;
  auditLocked env principal id "application.fork" parentID "allow" "";;
  persistLocked env;;
  mret a.

Definition ContextPages (id : string) : M Supervisor (list string * string) :=
  st ← gets (λ st, st);
  a ← of_option ErrApplicationNotFound (Applications st !! id);
  with_store env (λ io, Pages io (App.OwnerAgent a) (App.ContextID a)).

Definition AuditContextPages (principal id : string) : M Supervisor unit :=
  st ← gets (λ st, st);
  of_option ErrApplicationNotFound (Applications st !! id);;
  auditLocked env principal id "context.pages" id "allow" "";;
  persistLocked env.

(** ** State, budget and routing *)

(** Retirement; the process-local handles and claim times of the application are
    dropped with it. *)
Definition disable_bindings (id : string) (b : WakeBinding) : WakeBinding :=
  if decide (Bind.ApplicationID b = id) then {| b with Bind.Enabled := false |} else b.

Definition drop_handles (id : string) : M Supervisor unit :=
  modify (λ s, {| s with
    kernelApps := delete id (kernelApps s);
    kernelSrcs := delete id (kernelSrcs s);
    lastClaim := delete id (lastClaim s) |}).

Definition RetireApplication (principal id : string) : M Supervisor unit :=
  st ← gets (λ st, st);
  a ← of_option ErrApplicationNotFound (Applications st !! id);
  if decide (App.State a = tombstoned) then mret ()
  else
    t ← now env;
    modify_state (update_app id (λ a, {| a with App.State := retiring; App.RetiredAt := t |}));;
    auditLocked env principal id "application.retire" id "allow" "";;
    modify_state (update_app id (λ a, {| a with App.State := tombstoned |}));;
    expireMailboxLocked id;;
    drop_handles id;;
    modify_state (λ st, {| st with
      KernelPending := delete id (KernelPending st);
      Bindings := disable_bindings id <$> Bindings st |});;
    persistLocked env.

Definition backend_ok (backend : string) : bool := bool_decide (backend ≠ "" ∧ len backend ≤ 128)%Z.

Definition SetRoutePolicy (principal id : string) (backends : list string) : M Supervisor RoutePolicy :=
  st ← gets (λ st, st);
  a ← of_option ErrApplicationNotFound (Applications st !! id);
  reject_if (retired_app a) ErrApplicationRetired;;
  reject_if (forallb backend_ok backends = false ∨ ¬ NoDup backends) (New "invalid route policy backends");;
  let p := mkRoutePolicy (u64 (Version (App.Policy a) + 1)) backends in
  modify_state (update_app id (λ a, {| a with App.Policy := p |}));;
  auditLocked env principal id "route.policy.set" (pretty (Version p)) "allow" (String.concat "," backends);;
  persistLocked env;;
  mret p.

Definition recordRouteLocked (record : RouteRecord) : M Supervisor unit :=
  n ← next_sequence;
  t ← now env;
  let record := {| record with Route.Sequence := n; Route.Time := t |} in
  modify_state (λ st, {| st with RouteRecords := keep_last maxRouteRecords (RouteRecords st ++ [record]) |}).

Definition exhausted (a : Application) : Prop := (0 < App.TokenLimit a ∧ App.TokenLimit a ≤ App.TokensUsed a)%Z.
Global Instance exhausted_dec a : Decision (exhausted a).
Proof. unfold exhausted. apply _. Defined.

Definition SetApplicationState (principal id newState : string) : M Supervisor unit :=
  st ← gets (λ st, st);
  a ← of_option ErrApplicationNotFound (Applications st !! id);
  reject_if (App.State a = tombstoned) ErrApplicationRetired;;
  reject_if (newState ≠ "frozen" ∧ newState ≠ "serving") (New "invalid application state");;
  reject_if (newState = "serving" ∧ exhausted a) (New "token budget exhausted");;
  let target := if decide (newState = "frozen") then frozen else serving in
  modify_state (update_app id (λ a, {| a with App.State := target |}));;
  auditLocked env principal id ("application." +:+ newState) id "allow" "";;
  persistLocked env.

Definition limit_application (limit : Z) (a : Application) : Application :=
  let a := {| a with App.TokenLimit := limit |} in
  if decide (exhausted a) then {| a with App.State := frozen |} else a.

Definition SetTokenLimit (principal id : string) (limit : Z) : M Supervisor unit :=
  st ← gets (λ st, st);
  a ← of_option ErrApplicationNotFound (Applications st !! id);
  reject_if (App.State a = tombstoned) ErrApplicationRetired;;
  reject_if (App.TokenLimit a ≠ 0 ∧ (limit = 0 ∨ limit > App.TokenLimit a))%Z (New "budget may only narrow");;
  modify_state (update_app id (limit_application limit));;
  auditLocked env principal id "budget.set" id "allow" "";;
  persistLocked env.

(** ** Timers *)

Definition AddTimer (principal id timerID : string) (delay interval : Z) (payload : string) : M Supervisor unit :=
  st ← gets (λ st, st);
  a ← of_option ErrApplicationNotFound (Applications st !! id);
  reject_if (App.State a = tombstoned) ErrApplicationRetired;;
  reject_if (timerID = "" ∨ len timerID > 128 ∨ delay ≤ 0 ∨ interval < 0
             ∨ json_valid payload = false ∨ len payload > maxTextBytes)%Z (New "invalid timer");;
  let key := id +:+ ":" +:+ timerID in
  reject_if (is_Some (Timers st !! key)) (New "timer already exists");;
  t ← now env;
  modify_state (λ st, {| st with
    Timers := <[key := Tmr.mk id timerID (i64 (t + delay)) interval payload]> (Timers st) |});;
  auditLocked env principal id "timer.create" timerID "allow" "";;
  persistLocked env.

(** Due times first, then keys. *)
Definition timer_before (a b : string * ApplicationTimer) : Prop :=
  (Tmr.Due (snd a) < Tmr.Due (snd b))%Z ∨ (Tmr.Due (snd a) = Tmr.Due (snd b) ∧ string_le (fst a) (fst b)).
Global Instance timer_before_dec : RelDecision timer_before.
Proof. intros a b. unfold timer_before. apply _. Defined.

Definition timer_key (timer : ApplicationTimer) : string :=
  "timer:" +:+ Tmr.TimerID timer +:+ ":" +:+ pretty (Tmr.Due timer).

Definition drop_timer (key : string) (st : supervisorState) : supervisorState :=
  {| st with Timers := delete key (Timers st) |}.

(** Deliver the due timers among [keys]; the result tells whether anything
    changed. *)
Fixpoint deliver_due (t : Z) (keys : list (string * ApplicationTimer)) : M Supervisor bool :=
  match keys with
  | [] => mret false
  | (key, timer) :: keys =>
      st ← gets (λ st, st);
      match Applications st !! Tmr.ApplicationID timer with
      | Some a =>
          if decide (App.State a = tombstoned) then
            modify_state (drop_timer key);; deliver_due t keys;; mret true
          else if decide (Tmr.Due timer > t)%Z then deliver_due t keys
          else
            r ← try (enqueueLocked env "supervisor" (Tmr.ApplicationID timer) (timer_key timer) (Tmr.Payload timer));
            match r with
            | Err ErrMailboxFull => deliver_due t keys
            | Err e => restoreLocked;; throw e
            | Ok _ =>
                modify_state (λ st,
                  if decide (Tmr.Interval timer = 0)%Z then drop_timer key st
                  else {| st with Timers := <[key := {| timer with Tmr.Due := i64 (t + Tmr.Interval timer) |}]> (Timers st) |});;
                auditLocked env "supervisor" (Tmr.ApplicationID timer) "timer.deliver" (timer_key timer) "allow" "";;
                deliver_due t keys;; mret true
            end
      | None => modify_state (drop_timer key);; deliver_due t keys;; mret true
      end
  end.

Definition deliverTimers : M Supervisor unit :=
  t ← now env;
  st ← gets (λ st, st);
  changed ← deliver_due t (merge_sort timer_before (map_to_list (Timers st)));
  if (changed : bool) then persistLocked env else mret ().
End lifecycle.

(** ** Inspection *)

Definition SetTurnConcurrency (n : Z) : M Supervisor unit :=
  reject_if (n < 1 ∨ n > 64)%Z (New "turn concurrency must be between 1 and 64");;
  modify (λ s, {| s with turnConcurrency := n |}).

Definition InspectApplication (id : string) : M Supervisor Application :=
  st ← gets (λ st, st);
  of_option ErrApplicationNotFound (Applications st !! id).

Definition created_before (a b : Application) : Prop :=
  (App.CreatedAt a < App.CreatedAt b)%Z ∨
  (App.CreatedAt a = App.CreatedAt b ∧ string_le (App.ApplicationID a) (App.ApplicationID b)).
Global Instance created_before_dec : RelDecision created_before.
Proof. intros a b. unfold created_before. apply _. Defined.

Definition ListApplications : M Supervisor (list Application) :=
  st ← gets (λ st, st);
  mret (merge_sort created_before (snd <$> map_to_list (Applications st))).

Definition timer_id_le (a b : ApplicationTimer) : Prop := string_le (Tmr.TimerID a) (Tmr.TimerID b).
Global Instance timer_id_le_dec : RelDecision timer_id_le.
Proof. intros a b. unfold timer_id_le. apply _. Defined.

Definition ListTimers (id : string) : M Supervisor (list ApplicationTimer) :=
  st ← gets (λ st, st);
  of_option ErrApplicationNotFound (Applications st !! id);;
  mret (merge_sort timer_id_le
    (filter (λ t, Tmr.ApplicationID t = id) (snd <$> map_to_list (Timers st)))).

(** Routing decisions of an application, newest first. *)
Definition ListRouteRecords (id : string) : M Supervisor (list RouteRecord) :=
  st ← gets (λ st, st);
  of_option ErrApplicationNotFound (Applications st !! id);;
  mret (rev (filter (λ r, Route.ApplicationID r = id) (RouteRecords st))).
