(* ===== verification/Revocation.v ===== *)
(** * revocation.go and capability checks

    The registry of revoked tokens and [checkToken], the decision that combines
    the manifest's policy, the token, the registry and the application's state. *)

From Stdlib Require Import Ascii.
From stdpp Require Import base tactics option list gmap sets strings numbers pretty.
From S2P Require Import Prelude Monad GoLib Json Crypto Policy ContextStore State.

Definition maxRevokedTokens : nat := 1024.

Definition tokenDigest (t : CapabilityToken) : string := sha256_hex (tokenBytes t +:+ Signature t).

(** The entry is the token itself, or its caveats are a strict prefix of the
    token's. *)
Definition revokedBy (r : RevokedToken) (t : CapabilityToken) : bool :=
  if decide (Rev.Subject r ≠ Subject t ∨ bytesEqual (Rev.PublicKey r) (PublicKey t) = false) then false
  else if decide (tokenDigest t = Rev.Digest r) then true
  else if decide (length (Caveats t) ≤ length (Rev.Caveats r)) then false
  else bool_decide (Rev.Caveats r `prefix_of` Caveats t).

Definition tokenRevoked (entries : list RevokedToken) (t : CapabilityToken) : bool :=
  existsb (λ r, revokedBy r t) entries.

Definition known_object (object : string) : Prop :=
  object = "net" ∨ object = "tool" ∨ object = "fs.read" ∨ object = "fs.write".
Global Instance known_object_dec object : Decision (known_object object).
Proof. unfold known_object. apply _. Defined.

Section revocation.
Context (env : Env) {E : Ed25519}.

Definition RevokeCapabilityToken (principal : string) (token : CapabilityToken) (reason : string) :
    M Supervisor unit :=
  t ← now env;
  reject_if (is_ok (Verify token t) = false) (New "revocation requires a verifiable token");;
  reject_if (len reason > 256)%Z (New "invalid revocation reason");;
  let digest := tokenDigest token in
  entries ← gets RevokedTokens;
  if decide (digest ∈ Rev.Digest <$> entries) then mret ()
  else if decide (maxRevokedTokens ≤ length entries) then
    auditLocked env principal "" "capability.revoke" digest "deny" "registry full";;
    persistLocked env;;
    throw ErrRevocationCapacity
  else
    t ← now env;
    modify_state (λ st, {| st with RevokedTokens := RevokedTokens st ++
      [Rev.mk digest (PublicKey token) (Subject token) (Caveats token) t reason] |});;
    auditLocked env principal "" "capability.revoke" digest "allow" (String.concat "|" (Caveats token));;
    persistLocked env.

Definition available (st : supervisorState) (applicationID : string) : bool :=
  match Applications st !! applicationID with
  | Some a => bool_decide (App.State a ≠ tombstoned)
  | None => false
  end.

(** The decision, and the reason audited for a denial. *)
Definition decide_check (s : Supervisor) (t : Z) (principal applicationID object action : string)
    (token : option CapabilityToken) : bool * string :=
  let allowed := is_ok (authorize (cedarPolicyFromCapabilitySet (policy s)) principal object action token t) in
  let revoked := match token with Some tok => tokenRevoked (RevokedTokens (state s)) tok | None => false end in
  let '(allowed, reason) := if revoked then (false, "capability revoked") else (allowed, "policy") in
  let reason := if decide (known_object object) then reason else "unknown object" in
  let '(allowed, reason) := if available (state s) applicationID then (allowed, reason)
                            else (false, "application unavailable") in
  (allowed, if allowed then "" else reason).

Definition checkToken (principal applicationID object action : string) (token : option CapabilityToken) :
    M Supervisor bool :=
  t ← now env;
  s ← get;
  let '(allowed, reason) := decide_check s t principal applicationID object action token in
  auditLocked env principal applicationID action object (if allowed : bool then "allow" else "deny") reason;;
  persistLocked env;;
  if (allowed : bool) then mret true else throw ErrCapabilityDenied.

Definition Check (principal applicationID object action : string) : M Supervisor bool :=
  checkToken principal applicationID object action None.

Definition CheckWithToken (principal applicationID object action : string) (token : CapabilityToken) :
    M Supervisor bool :=
  checkToken principal applicationID object action (Some token).
End revocation.
