(* ===== verification/Witness.v ===== *)
(** * witness.go: co-signed checkpoints of the audit log *)

From Stdlib Require Import Ascii.
From stdpp Require Import base tactics option list gmap sets strings numbers pretty.
From S2P Require Import Prelude Monad GoLib Json Crypto Policy ContextStore State.

Definition maxWitnessCheckpoints : nat := 256.

(** The bytes a witness signs. *)
Definition checkpointMessage (cp : WitnessCheckpoint) : string :=
  "aok-audit-checkpoint:v1|" +:+ Wit.HeadHash cp +:+ "|" +:+ pretty (Wit.Count cp) +:+ "|" +:+ pretty (Wit.Time cp).

Definition WitnessHead : M Supervisor (string * Z) :=
  records ← gets Audit;
  reject_if (records = []) (New "audit chain is empty");;
  mret (last_hash records, Z.of_nat (length records)).

(** The checkpoint's hash is the one at its position. *)
Definition anchored (records : list AuditRecord) (cp : WitnessCheckpoint) : Prop :=
  (1 ≤ Wit.Count cp)%Z ∧
  Aud.Hash <$> records !! Z.to_nat (Wit.Count cp - 1) = Some (Wit.HeadHash cp).
Global Instance anchored_dec records cp : Decision (anchored records cp).
Proof. unfold anchored. apply _. Defined.

(** A checkpoint must be newer than the last one recorded. *)
Definition advances (cps : list WitnessCheckpoint) (cp : WitnessCheckpoint) : bool :=
  match last cps with Some l => bool_decide (Wit.Count l < Wit.Count cp)%Z | None => true end.

Section witness.
Context (env : Env) {E : Ed25519}.

Definition RecordCosignature (principal : string) (cp : WitnessCheckpoint) : M Supervisor unit :=
  reject_if (String.length (Wit.PublicKey cp) ≠ PublicKeySize ∨ String.length (Wit.Signature cp) ≠ SignatureSize
             ∨ Wit.Count cp = 0%Z ∨ Wit.HeadHash cp = "" ∨ Wit.Time cp = 0%Z)
    (New "invalid witness checkpoint");;
  reject_if (Verify_sig (Wit.PublicKey cp) (checkpointMessage cp) (Wit.Signature cp) = false)
    (New "witness signature mismatch");;
  st ← gets (λ st, st);
  reject_if (¬ anchored (Audit st) cp) ErrWitnessMismatch;;
  reject_if (advances (WitnessCheckpoints st) cp = false) (New "checkpoint does not advance the witnessed history");;
  modify_state (λ st, {| st with
    WitnessCheckpoints := keep_last maxWitnessCheckpoints (WitnessCheckpoints st ++ [cp]) |});;
  auditLocked env principal "" "witness.cosign"
    (String.substring 0 12 (Wit.HeadHash cp) +:+ "@" +:+ pretty (Wit.Count cp)) "allow" (Wit.Signer cp);;
  persistLocked env.

Fixpoint check_witnesses (records : list AuditRecord) (cps : list WitnessCheckpoint) : result error unit :=
  match cps with
  | [] => Ok ()
  | cp :: cps =>
      if decide (¬ anchored records cp) then Err ErrWitnessMismatch
      else if Verify_sig (Wit.PublicKey cp) (checkpointMessage cp) (Wit.Signature cp) then check_witnesses records cps
      else Err (New "recorded witness signature invalid")
  end.

Definition VerifyWitness : M Supervisor unit :=
  st ← gets (λ st, st);
  of_result (VerifyAudit (Audit st));;
  of_result (check_witnesses (Audit st) (WitnessCheckpoints st)).
End witness.
