(* ===== verification/Runner.v ===== *)
(** * runner.go: claiming, executing and settling turns

    [claimTurn] picks the next message under token fairness with prefix affinity,
    [finishTurn] commits a turn's result exactly once, and [executeTurn] is the
    body of a worker between the two.  The provider is external code: a turn's
    outcome is an argument.  The order in which Go walks the application map
    before sorting is an argument too. *)

From Stdlib Require Import Ascii.
From stdpp Require Import base tactics option list gmap sets strings numbers pretty sorting.
From S2P Require Import Prelude Monad GoLib Json Crypto Ledger Policy ContextStore State Taint Mailbox.
From S2P Require Import Lifecycle.

Definition throttleClaimInterval : Z := 1000000000.

Definition maxThrottleBand (minTokens : Z) : Z := Z.max 64 (minTokens `div` 4).

(** The leading text a turn shares with fan-out siblings. *)
Definition promptPrefix (payload : string) : string :=
  let text := fst (string_field "text" payload) in
  if decide (len text ≤ 64)%Z then text else String.substring 0 64 text.

(** ** Claiming *)

(** [now.Sub (last)]: saturating, and at its maximum for a missing time. *)
Definition since (t : Z) (last : option Z) : Z :=
  Z.max (-9223372036854775808) (Z.min 9223372036854775807 (t - default zeroTime last)).

Definition throttled (s : Supervisor) (t : Z) (id : string) (a : Application) : bool :=
  bool_decide (0 < App.TokenLimit a ∧ App.TokensUsed a < App.TokenLimit a ∧
    App.TokenLimit a - App.TokenLimit a `div` 5 ≤ App.TokensUsed a ∧
    since t (lastClaim s !! id) < throttleClaimInterval)%Z.

Definition eligible (s : Supervisor) (t : Z) (id : string) (a : Application) : bool :=
  bool_decide (App.State a = serving ∧ App.WakePolicy a ≠ manual ∧ id ∉ inflight s)
  && negb (throttled s t id a).

(** Least charged first, then oldest. *)
Definition charged_before (a b : string * Application) : Prop :=
  (App.TokensUsed (snd a) < App.TokensUsed (snd b))%Z ∨
  (App.TokensUsed (snd a) = App.TokensUsed (snd b) ∧ App.CreatedAt (snd a) ≤ App.CreatedAt (snd b))%Z.
Global Instance charged_before_dec : RelDecision charged_before.
Proof. intros a b. unfold charged_before. apply _. Defined.

Definition by_charge (order : list string) (st : supervisorState) : list (string * Application) :=
  merge_sort charged_before (omap (λ id, (λ a, (id, a)) <$> Applications st !! id) order).

Definition minTokens (apps : list (string * Application)) : Z :=
  foldr (λ kv acc, Z.min (App.TokensUsed (snd kv)) acc) MaxUint64 apps.

Definition is_pending (m : MailboxMessage) : bool := bool_decide (Msg.Status m = pending).

Record candidate := mkCandidate { c_id : string; c_app : Application; c_message : MailboxMessage; c_affine : bool }.

Definition candidate_of (s : Supervisor) (kv : string * Application) : option candidate :=
  m ← find_first is_pending (messages_of (state s) (fst kv));
  Some (mkCandidate (fst kv) (snd kv) m
    (bool_decide (lastPrefix s ≠ "" ∧ promptPrefix (Msg.Payload m) = lastPrefix s))).

(** The first affine candidate within the fairness band, else the first one. *)
Definition choose (least : Z) (cs : list candidate) : option candidate :=
  match find_first (λ c, c_affine c &&
          bool_decide (App.TokensUsed (c_app c) ≤ saturatingAdd least (maxThrottleBand least))%Z) cs with
  | Some c => Some c
  | None => head cs
  end.

Definition claim_first (m : MailboxMessage) : MailboxMessage :=
  {| m with Msg.Status := claimed; Msg.Attempts := u32 (Msg.Attempts m + 1) |}.

Section runner.
Context (env : Env).

Definition pick (order : list string) (t : Z) (s : Supervisor) : option candidate :=
  let apps := filter (λ kv, eligible s t (fst kv) (snd kv) = true) (by_charge order (state s)) in
  choose (minTokens apps) (omap (candidate_of s) apps).

Definition claimTurn (order : list string) : M Supervisor (option (string * MailboxMessage)) :=
  t ← now env;
  s ← get;
  match pick order t s with
  | None => mret None
  | Some c =>
      let id := c_id c in
      let m := claim_first (c_message c) in
      accumulateTaint id (taintedPayload (Msg.Payload m));;
      modify_state (update_messages id (update_first is_pending claim_first));;
      auditLocked env "supervisor" id "turn.claim" (Msg.MessageID m) "allow" "";;
      persistLocked env;;
      modify (λ s, {| s with
        lastClaim := <[id := t]> (lastClaim s);
        inflight := {[id]} ∪ inflight s |});;
      mret (Some (id, m))
  end.

Definition clearInflight (id : string) : M Supervisor unit :=
  modify (λ s, {| s with inflight := inflight s ∖ {[id]} |}).

(** ** Settling *)

Definition cacheHitKind (usage : Usage) (lastCompat currentCompat : string) : string :=
  if decide (CachedTokens usage > 0)%Z then "kv_exact"
  else if decide (lastCompat ≠ "" ∧ lastCompat = currentCompat) then "prefix_replay"
  else "text_replay".

(** The result fixed before any context write: a failure carries its reason and
    no text. *)
Definition prepare (id messageID text : string) (usage : Usage) (route : RouteInfo) (cacheHit : string)
    (providerErr : option error) : TurnResult :=
  let '(status, reason, text) :=
    match providerErr with
    | Some e => (failed, if decide (e = ErrRouteDenied) then "route_denied" else "provider_failed", "")
    | None => if decide (len text > maxTextBytes)%Z then (failed, "text_overflow", "") else (completed, "", text)
    end in
  Turn.mk id messageID text usage status "" (Provider route) (Fallbacks route) cacheHit reason.

(** The application after a settled turn, the turn's status and its text. *)
Definition charge (usage : Usage) (a : Application) : Application :=
  {| a with
     App.TokensUsed := saturatingAdd (App.TokensUsed a) (saturatingAdd (InputTokens usage) (OutputTokens usage));
     App.TokensCached := saturatingAdd (App.TokensCached a) (CachedTokens usage) |}.

Definition settle (usage : Usage) (turn_failed : bool) (text : string) (a : Application) :
    Application * turn_status * string * bool :=
  let a := charge usage a in
  let '(a, status, text) :=
    if turn_failed then ({| a with App.Failures := u32 (App.Failures a + 1) |}, failed, "")
    else ({| a with App.Failures := 0%Z |}, completed, text) in
  let '(a, status) :=
    if decide (exhausted a) then ({| a with App.State := frozen |}, budget_exhausted) else (a, status) in
  let '(status, text) := if decide (App.State a = tombstoned) then (retired, "") else (status, text) in
  if decide (len text > maxTextBytes)%Z then (a, failed, "", true) else (a, status, text, false).

Definition result_json (request text : string) : string :=
  obj_literal [("request", json_compact request); ("text", json_quote text)].

Definition ack_all (messageID : string) (m : MailboxMessage) : MailboxMessage :=
  if has_id messageID m then set_status acked m else m.

(** The durable result of the model call, written before its effects. *)
Definition prepare_turn (id : string) (m : MailboxMessage) (text : string) (usage : Usage) (route : RouteInfo)
    (cacheHit : string) (providerErr : option error) : M Supervisor TurnResult :=
  prepared ← gets Prepared;
  match prepared !! Msg.MessageID m with
  | Some p => mret p
  | None =>
      let p := prepare id (Msg.MessageID m) text usage route cacheHit providerErr in
      modify_state (λ st, {| st with Prepared := <[Msg.MessageID m := p]> (Prepared st) |});;
      persistLocked env;;
      mret p
  end.

(** The effects of a prepared result: context writes, charge, result, ack, route
    record, audit and commit. *)
Definition commit_turn (id : string) (a : Application) (m : MailboxMessage) (p : TurnResult) (route : RouteInfo)
    (cacheHit : string) (routeDenied overflowed : bool) : M Supervisor unit :=
  let mid := Msg.MessageID m in
  let overflowed := overflowed || bool_decide (Turn.FailureReason p = "text_overflow") in
  let route := if decide (Turn.Provider p = "") then route
               else mkRouteInfo (Turn.Provider p) (CompatKey route) (Turn.Fallbacks p) in
  let turn_failed := bool_decide (Turn.Status p = failed) in
  let usage := Turn.TurnUsage p in
  with_store env (λ io, Append io (App.OwnerAgent a) (App.ContextID a) (mid +:+ ":result")
    (result_json (Msg.Payload m) (Turn.Text p)));;
  checkpoint ← with_store env (λ io, ContextStore.Checkpoint io (App.OwnerAgent a) (App.ContextID a) (mid +:+ ":checkpoint"));
  let '(a1, status, text, over) := settle usage turn_failed (Turn.Text p) a in
  let overflowed := overflowed || over in
  let reason := if overflowed then "text_overflow"
                else if routeDenied then "route_denied"
                else if turn_failed && bool_decide (Turn.FailureReason p = "") then "provider_failed"
                else Turn.FailureReason p in
  let keep := bool_decide (status ≠ failed) in
  let a2 := {| a1 with App.Checkpoint := checkpoint |} in
  modify_state (λ st, {| st with
    Results := <[mid := Turn.mk id mid text usage status checkpoint (Provider route) (Fallbacks route) cacheHit ""]> (Results st);
    Prepared := delete mid (Prepared st);
    Mailbox := alter (fmap (ack_all mid)) id (Mailbox st);
    Applications := <[id := a2]> (Applications st) |});;
  recordRouteLocked env (Route.mk 0 0 id mid (Version (App.Policy a)) (Provider route) (CompatKey route)
    (Fallbacks route) cacheHit (InputTokens usage) (CachedTokens usage) (OutputTokens usage) status reason);;
  (if keep then
     modify_state (update_app id (λ a, {| a with
       App.LastProvider := Provider route; App.LastCompat := CompatKey route |}));;
     modify (λ s, {| s with lastPrefix := promptPrefix (Msg.Payload m) |})
   else mret ());;
  auditLocked env "supervisor" id ("turn." +:+ turn_status_text status) mid "allow" "";;
  persistLocked env.

Definition finishTurn (id : string) (m : MailboxMessage) (text : string) (usage : Usage) (route : RouteInfo)
    (providerErr : option error) : M Supervisor unit :=
  clearInflight id;;
  st ← gets (λ st, st);
  a ← of_option ErrApplicationNotFound (Applications st !! id);
  if decide (is_Some (Results st !! Msg.MessageID m)) then mret ()
  else
    let cacheHit := cacheHitKind usage (App.LastCompat a) (CompatKey route) in
    p ← prepare_turn id m text usage route cacheHit providerErr;
    commit_turn id a m p route cacheHit (bool_decide (providerErr = Some ErrRouteDenied))
      (bool_decide (providerErr = None ∧ len text > maxTextBytes)%Z).

(** ** The turn body *)

(** What a provider call delivers; a tracked provider also reports its route. *)
Record Outcome := mkOutcome {
  o_text : string;
  o_usage : Usage;
  o_route : option RouteInfo;
  o_taint : Z;
  o_err : option error;
}.

Record ProviderInfo := mkProviderInfo {
  p_name : string;
  p_compat : string;
  p_self_enforcing : bool;
  p_complete : list string → string → Outcome;
}.

(** The provider's part of a turn that has no prepared result yet. *)
Definition attempt (p : ProviderInfo) (backends : list string) (payload : string) : Outcome :=
  let none := mkOutcome "" (mkUsage 0 0 0) None 0 in
  if decide (backends ≠ [] ∧ p_self_enforcing p = false ∧ p_name p ∉ backends) then none (Some ErrRouteDenied)
  else
    let '(prompt, ok) := string_field "text" payload in
    if ok then p_complete p backends prompt else none (Some (New "invalid turn payload")).

(** The end of a turn: back to the mailbox, or settled; a failed settlement goes
    back to the mailbox too. *)
Definition conclude (cancelled : bool) (id : string) (m : MailboxMessage) (route : RouteInfo) (o : Outcome) :
    M Supervisor unit :=
  r ← try (if decide (o_err o = Some ErrTurnBusy ∨ cancelled = true) then requeueClaim env id (Msg.MessageID m)
           else
             f ← try (finishTurn id m (o_text o) (o_usage o) route (o_err o));
             match f with
             | Ok _ => mret ()
             | Err e => try (requeueClaim env id (Msg.MessageID m));; throw e
             end);
  clearInflight id;;
  of_result r.

Definition executeTurn (p : ProviderInfo) (cancelled : bool) (id : string) (m : MailboxMessage) :
    M Supervisor unit :=
  st ← gets (λ st, st);
  let route := mkRouteInfo (p_name p) (p_compat p) 0 in
  let is_prepared := bool_decide (is_Some (Prepared st !! Msg.MessageID m)) in
  let backends := default [] ((λ a, Backends (App.Policy a)) <$> Applications st !! id) in
  let o := if is_prepared then mkOutcome "" (mkUsage 0 0 0) None 0 None
           else attempt p backends (Msg.Payload m) in
  (if decide (o_err o = None ∧ o_taint o ≠ 0%Z) then foldTaint env id (o_taint o) else mret ());;
  conclude cancelled id m (default route (o_route o)) o.
End runner.

Definition Result (id messageID : string) : M Supervisor TurnResult :=
  results ← gets Results;
  r ← of_option (New "result not found") (results !! messageID);
  reject_if (Turn.ApplicationID r ≠ id) (New "result not found");;
  mret r.
