(* ===== verification/Gateway.v ===== *)
(** * gateway.go: external conversations

    Inbound messages enter the mailbox of the application their conversation is
    bound to, at most once per conversation and sequence number; replies go to the
    conversation that sourced the message, through a durable outbox with an
    at-least-once claim and acknowledge protocol. *)

From Stdlib Require Import Ascii.
From stdpp Require Import base tactics option list gmap sets strings numbers pretty sorting.
From S2P Require Import Prelude Monad GoLib Json Crypto Policy ContextStore State Taint Mailbox.

Definition maxOutboxEntries : nat := 256.

(** The conversation stored under the key of a pair, if it is that pair's. *)
Definition conversationLocked (st : supervisorState) (channelID externalID : string) : option MessageConversation :=
  match Conversations st !! conversationKey channelID externalID with
  | Some c => if decide (Conv.ChannelID c = channelID ∧ Conv.ExternalID c = externalID) then Some c else None
  | None => None
  end.

Definition conversationKeyFor (c : MessageConversation) : string :=
  conversationKey (Conv.ChannelID c) (Conv.ExternalID c).

Definition gateway_key (channelID externalID : string) (sequence : Z) : string :=
  "gw:" +:+ channelID +:+ ":" +:+ externalID +:+ ":" +:+ pretty sequence.

(** The envelope put into the mailbox: flat text, external taint, provenance. *)
Definition envelope (channelID externalID : string) (sequence : Z) (payload : string) : string :=
  obj_literal [
    ("text", json_quote (fst (string_field "text" payload)));
    ("taint", json_int TaintExternal);
    ("source", json_quote "gateway");
    ("channel", json_quote channelID);
    ("external_id", json_quote externalID);
    ("sequence", json_int sequence);
    ("payload", json_compact payload)].

Definition set_conversation (c : MessageConversation) (st : supervisorState) : supervisorState :=
  {| st with Conversations := <[conversationKeyFor c := c]> (Conversations st) |}.

(** ** Encoding of a reply *)

Definition usage_json (u : Usage) : string :=
  obj_literal [("input_tokens", json_int (InputTokens u)); ("output_tokens", json_int (OutputTokens u));
               ("cached_tokens", json_int (CachedTokens u))].

Definition optional (name value : string) : list (string * string) :=
  if decide (value = "") then [] else [(name, json_quote value)].

Definition turn_result_json (r : TurnResult) : string :=
  obj_literal (
    [("application_id", json_quote (Turn.ApplicationID r)); ("message_id", json_quote (Turn.MessageID r));
     ("text", json_quote (Turn.Text r)); ("usage", usage_json (Turn.TurnUsage r));
     ("status", json_quote (turn_status_text (Turn.Status r))); ("checkpoint", json_quote (Turn.Checkpoint r))] ++
    optional "provider" (Turn.Provider r) ++
    (if decide (Turn.Fallbacks r = 0)%Z then [] else [("fallbacks", json_int (Turn.Fallbacks r))]) ++
    optional "cache_hit_kind" (Turn.CacheHitKind r) ++
    optional "failure_reason" (Turn.FailureReason r)).

Definition reply_json (r : TurnResult) : string :=
  obj_literal [("kind", json_quote "reply"); ("result", turn_result_json r)].

(** ** The outbox *)

(** Drop at most [n] entries that are no longer pending, oldest first. *)
Fixpoint drop_sent (n : nat) (entries : list OutboxEntry) : list OutboxEntry :=
  match n, entries with
  | S n', e :: entries =>
      if decide (Out.Status e = out_pending) then e :: drop_sent n entries else drop_sent n' entries
  | _, _ => entries
  end.

Definition bound_outbox (entries : list OutboxEntry) : list OutboxEntry :=
  drop_sent (length entries - maxOutboxEntries) entries.

Section gateway.
Context (env : Env).

Definition CreateChannel (principal channelID kind : string) : M Supervisor MessageChannel :=
  reject_if (channelID = "" ∨ len channelID > 128 ∨ kind = "" ∨ len kind > 64)%Z (New "invalid message channel");;
  st ← gets (λ st, st);
  reject_if (is_Some (Channels st !! channelID)) (New "channel already exists");;
  t ← now env;
  let channel := Chan.mk channelID kind active t in
  modify_state (λ st, {| st with Channels := <[channelID := channel]> (Channels st) |});;
  auditLocked env principal "" "channel.create" channelID "allow" kind;;
  persistLocked env;;
  mret channel.

Definition RevokeChannel (principal channelID : string) : M Supervisor unit :=
  st ← gets (λ st, st);
  channel ← of_option ErrChannelNotFound (Channels st !! channelID);
  modify_state (λ st, {| st with
    Channels := <[channelID := {| channel with Chan.State := revoked |}]> (Channels st) |});;
  auditLocked env principal "" "channel.revoke" channelID "allow" "";;
  persistLocked env.

Definition active_channel (st : supervisorState) (channelID : string) : bool :=
  bool_decide (Chan.State <$> Channels st !! channelID = Some active).

Definition BindConversation (principal channelID externalID applicationID : string) :
    M Supervisor MessageConversation :=
  st ← gets (λ st, st);
  reject_if (active_channel st channelID = false) ErrChannelNotFound;;
  reject_if (Applications st !! applicationID = None) ErrApplicationNotFound;;
  reject_if (externalID = "" ∨ len externalID > 256)%Z (New "invalid external identity");;
  match Conversations st !! conversationKey channelID externalID with
  | Some existing =>
      reject_if (Conv.ChannelID existing ≠ channelID ∨ Conv.ExternalID existing ≠ externalID
                 ∨ Conv.ApplicationID existing ≠ applicationID) ErrConversationBound;;
      persistLocked env;;
      mret existing
  | None =>
      t ← now env;
      let c := Conv.mk channelID externalID "" applicationID 0 t in
      modify_state (set_conversation c);;
      auditLocked env principal applicationID "conversation.bind" (conversationKey channelID externalID) "allow" "";;
      persistLocked env;;
      mret c
  end.

Definition sourceOf (messageID key : string) : M Supervisor unit :=
  modify (λ s, {| s with sourced := <[messageID := key]> (sourced s) |}).

Definition DeliverInbound (channelID externalID : string) (sequence : Z) (payload : string) :
    M Supervisor MailboxMessage :=
  st ← gets (λ st, st);
  reject_if (active_channel st channelID = false) ErrChannelNotFound;;
  c ← of_option ErrConversationNotFound (conversationLocked st channelID externalID);
  reject_if (sequence ≤ 0 ∨ len payload > maxTextBytes ∨ json_valid payload = false)%Z (New "invalid gateway message");;
  let idempotency := gateway_key channelID externalID sequence in
  if decide (sequence ≤ Conv.LastSequence c)%Z then
    of_option (New "sequence already routed but record missing")
      (find_first (has_key idempotency) (messages_of st (Conv.ApplicationID c)))
  else
    m ← enqueueLocked env "gateway" (Conv.ApplicationID c) idempotency (envelope channelID externalID sequence payload);
    sourceOf (Msg.MessageID m) (conversationKey channelID externalID);;
    modify_state (λ st, {| st with
      Conversations := <[conversationKey channelID externalID := {| c with Conv.LastSequence := sequence |}]> (Conversations st) |});;
    persistLocked env;;
    mret m.

Definition has_out_key (key : string) (e : OutboxEntry) : bool := bool_decide (Out.IdempotencyKey e = key).

Definition enqueueOutboxLocked (key idempotency payload : string) : M Supervisor OutboxEntry :=
  st ← gets (λ st, st);
  of_option ErrConversationNotFound (Conversations st !! key);;
  match find_first (has_out_key idempotency) (Outbox st) with
  | Some e => mret e
  | None =>
      n ← next_sequence;
      t ← now env;
      let e := Out.mk ("out-" +:+ pretty n) key idempotency payload out_pending 0 t 0 "" in
      modify_state (λ st, {| st with Outbox := bound_outbox (Outbox st ++ [e]) |});;
      mret e
  end.

(** A refused reply is audited before the error is returned. *)
Definition deny_reply (principal applicationID messageID : string) (e : error) (reason : string) :
    M Supervisor OutboxEntry :=
  auditLocked env principal applicationID "gateway.reply" messageID "deny" reason;;
  persistLocked env;;
  throw e.

Definition Reply (principal applicationID messageID : string) : M Supervisor OutboxEntry :=
  s ← get;
  let st := state s in
  let deny := deny_reply principal applicationID messageID in
  match Results st !! messageID with
  | None => throw (New "result not found")
  | Some result =>
      reject_if (Turn.ApplicationID result ≠ applicationID) (New "result not found");;
      match Applications st !! applicationID with
      | None => deny ErrApplicationNotFound "application not found"
      | Some application =>
          if decide (App.State application ≠ serving) then deny ErrApplicationRetired "application is not active"
          else match sourced s !! messageID with
          | None => deny ErrConversationNotFound "source conversation not found"
          | Some key =>
              match Conversations st !! key with
              | None => deny ErrConversationNotFound "source binding mismatch"
              | Some c =>
                  if decide (key ≠ conversationKeyFor c ∨ Conv.ApplicationID c ≠ applicationID)
                  then deny ErrConversationNotFound "source binding mismatch"
                  else if decide (active_channel st (Conv.ChannelID c) = false)
                  then deny ErrChannelNotFound "source channel is not active"
                  else if decide (blocked_taint application (policy s) ≠ 0)%Z
                  then deny ErrTaintBlocked "unmasked taint"
                  else
                    e ← enqueueOutboxLocked key ("reply:" +:+ messageID) (reply_json result);
                    auditLocked env principal applicationID "gateway.reply" (Out.EntryID e) "allow" key;;
                    persistLocked env;;
                    mret e
              end
          end
      end
  end.

Definition claims (key : string) (e : OutboxEntry) : Prop := Out.ConversationID e = key ∧ Out.Status e = out_pending.
Global Instance claims_dec key e : Decision (claims key e).
Proof. unfold claims. apply _. Defined.

Definition attempt_entry (key : string) (e : OutboxEntry) : OutboxEntry :=
  if decide (claims key e) then {| e with Out.Attempts := u32 (Out.Attempts e + 1) |} else e.

(** The commit of the attempt counters is not required to succeed. *)
Definition ClaimOutbox (channelID externalID : string) : M Supervisor (list OutboxEntry) :=
  st ← gets (λ st, st);
  reject_if (active_channel st channelID = false) ErrChannelNotFound;;
  of_option ErrConversationNotFound (conversationLocked st channelID externalID);;
  let key := conversationKey channelID externalID in
  let out := attempt_entry key <$> filter (claims key) (Outbox st) in
  modify_state (λ st, {| st with Outbox := attempt_entry key <$> Outbox st |});;
  (if decide (out = []) then mret () else try (persistLocked env);; mret ());;
  mret out.

Definition has_entry_id (entryID : string) (e : OutboxEntry) : bool := bool_decide (Out.EntryID e = entryID).

Definition AckOutbox (principal entryID receipt : string) : M Supervisor unit :=
  st ← gets (λ st, st);
  e ← of_option (New "outbox entry not found") (find_first (has_entry_id entryID) (Outbox st));
  if decide (Out.Status e = out_sent) then mret ()
  else
    t ← now env;
    modify_state (λ st, {| st with Outbox := update_first (has_entry_id entryID) (λ e, {| e with
      Out.Status := out_sent;
      Out.SentAt := t;
      Out.Receipt := if decide (len receipt ≤ 256)%Z then receipt else Out.Receipt e |}) (Outbox st) |});;
    auditLocked env principal "" "gateway.ack" entryID "allow" receipt;;
    persistLocked env.
End gateway.

Definition conversation_before (a b : MessageConversation) : Prop := (Conv.CreatedAt a ≤ Conv.CreatedAt b)%Z.
Global Instance conversation_before_dec : RelDecision conversation_before.
Proof. intros a b. unfold conversation_before. apply _. Defined.

Definition ListConversations (order : list string) (channelID : string) : M Supervisor (list MessageConversation) :=
  st ← gets (λ st, st);
  mret (merge_sort conversation_before
    (filter (λ c, channelID = "" ∨ Conv.ChannelID c = channelID)
      (omap (λ key, Conversations st !! key) order))).
