(* ===== verification/Hostfs.v ===== *)
(** * hostfs.go: host mounts and artifact transfers *)

From Stdlib Require Import Ascii.
From stdpp Require Import base tactics option list gmap sets strings numbers pretty sorting.
From S2P Require Import Prelude Monad GoLib Json Crypto Policy ContextStore State Taint Mailbox.

Definition hostfsModes : list string := ["ro"; "rw"; "append-only"; "dropbox-in"; "dropbox-out"].
Definition maxTransfers : nat := 256.

Definition set_mount (m : HostfsMount) (st : supervisorState) : supervisorState :=
  {| st with HostfsMounts := <[Mnt.MountID m := m]> (HostfsMounts st) |}.

(** Whether a mode admits a class of operations. *)
Definition mode_allows (mode operation : string) : bool :=
  if decide (operation = "read") then bool_decide (mode = "ro" ∨ mode = "rw")
  else if decide (operation = "write") then bool_decide (mode = "rw")
  else if decide (operation = "append") then bool_decide (mode = "append-only")
  else if decide (operation = "intake") then bool_decide (mode = "dropbox-in")
  else if decide (operation = "emit") then bool_decide (mode = "dropbox-out")
  else false.

Definition path_under_mount (guestPath mountPath : string) : bool :=
  bool_decide (guestPath = mountPath) || HasPrefix guestPath (TrimSuffix mountPath "/" +:+ "/").

Section hostfs.
Context (env : Env).

Definition MountHostfs (principal applicationID guestPath mode : string) (limits ttl : Z) : M Supervisor HostfsMount :=
  st ← gets (λ st, st);
  reject_if (Applications st !! applicationID = None) ErrApplicationNotFound;;
  reject_if ((mode ∉ hostfsModes) ∨ guestPath = "" ∨ (limits < 0)%Z) (New "invalid hostfs mount");;
  reject_if (Clean guestPath ≠ guestPath ∨ IsAbs guestPath = false) (New "invalid hostfs mount path");;
  n ← next_sequence;
  created ← now env;
  expires ← (if decide (ttl = 0)%Z then mret 0%Z else t ← now env; mret (i64 (t + ttl)));
  let mount := Mnt.mk ("mnt-" +:+ pretty n) applicationID ("supervisor://hostfs/" +:+ mode) guestPath mode limits 1
                 true created expires in
  modify_state (set_mount mount);;
  auditLocked env principal applicationID "hostfs.mount" (Mnt.MountID mount) "allow" mode;;
  persistLocked env;;
  mret mount.

Definition UnmountHostfs (principal mountID : string) : M Supervisor unit :=
  st ← gets (λ st, st);
  mount ← of_option ErrMountNotFound (HostfsMounts st !! mountID);
  modify_state (λ st, {| st with HostfsMounts :=
    <[mountID := {| mount with Mnt.Enabled := false; Mnt.Version := u64 (Mnt.Version mount + 1) |}]> (HostfsMounts st) |});;
  auditLocked env principal (Mnt.ApplicationID mount) "hostfs.unmount" mountID "allow" "";;
  persistLocked env.

(** The mounts in the order they are visited; the clock is read for each one that
    can expire. *)
Fixpoint check_mounts (applicationID guestPath operation : string) (mounts : list HostfsMount) :
    M Supervisor unit :=
  match mounts with
  | [] => throw ErrMountDenied
  | mount :: mounts =>
      let next := check_mounts applicationID guestPath operation mounts in
      if decide (Mnt.ApplicationID mount ≠ applicationID ∨ Mnt.Enabled mount = false) then next
      else
        lapsed ← (if decide (Mnt.ExpiresAt mount = 0)%Z then mret false
                  else t ← now env; mret (bool_decide (t > Mnt.ExpiresAt mount)%Z));
        if (lapsed : bool) then next
        else if negb (path_under_mount guestPath (Mnt.GuestPath mount)) then next
        else if mode_allows (Mnt.Mode mount) operation then mret ()
        else next
  end.

Definition nul : ascii := "000".

Definition CheckHostfs (order : list string) (applicationID guestPath operation : string) : M Supervisor unit :=
  reject_if (Clean guestPath ≠ guestPath ∨ IsAbs guestPath = false
             ∨ contains_byte (λ c, bool_decide (c = nul)) guestPath = true) ErrMountDenied;;
  st ← gets (λ st, st);
  check_mounts applicationID guestPath operation (omap (λ id, HostfsMounts st !! id) order).

(** ** Transfers *)

Definition dropOldestTransfersLocked (cap : nat) (transfers : list ArtifactTransfer) : list ArtifactTransfer :=
  keep_last cap transfers.

Definition is_transfer (key applicationID : string) (x : ArtifactTransfer) : bool :=
  bool_decide (Xfer.IdempotencyKey x = key ∧ Xfer.ApplicationID x = applicationID).

Definition add_transfer (x : ArtifactTransfer) (st : supervisorState) : supervisorState :=
  {| st with Transfers := dropOldestTransfersLocked maxTransfers (Transfers st ++ [x]) |}.

Definition transfer_ok (key payload : string) : Prop :=
  (key ≠ "" ∧ len key ≤ 256 ∧ json_valid payload = true ∧ len payload ≤ maxTextBytes)%Z.
Global Instance transfer_ok_dec key payload : Decision (transfer_ok key payload).
Proof. unfold transfer_ok. apply _. Defined.

(** The part both directions share: a repeated key returns the first transfer. *)
Definition stage_transfer (principal applicationID key payload direction action : string)
    (before : M Supervisor unit) : M Supervisor ArtifactTransfer :=
  st ← gets (λ st, st);
  reject_if (Applications st !! applicationID = None) ErrApplicationNotFound;;
  reject_if (¬ transfer_ok key payload) (New "invalid artifact transfer");;
  match find_first (is_transfer key applicationID) (Transfers st) with
  | Some x => mret x
  | None =>
      n ← next_sequence;
      t ← now env;
      let x := Xfer.mk ("xfer-" +:+ pretty n) applicationID "" direction "committed" key payload t in
      before;;
      modify_state (add_transfer x);;
      auditLocked env principal applicationID action (Xfer.TransferID x) "allow" key;;
      persistLocked env;;
      mret x
  end.

Definition ExportArtifact (order : list string) (principal applicationID key payload : string) :
    M Supervisor ArtifactTransfer :=
  exportApplication env order principal applicationID payload false false "";;
  stage_transfer principal applicationID key payload "export" "artifact.transfer.export" (mret ()).

Definition CommitImport (principal applicationID key payload : string) : M Supervisor ArtifactTransfer :=
  stage_transfer principal applicationID key payload "import" "artifact.transfer.import"
    (accumulateTaint applicationID TaintExternal).
End hostfs.

Definition mount_before (a b : HostfsMount) : Prop := (Mnt.CreatedAt a ≤ Mnt.CreatedAt b)%Z.
Global Instance mount_before_dec : RelDecision mount_before.
Proof. intros a b. unfold mount_before. apply _. Defined.

Definition ListHostfs (order : list string) (applicationID : string) : M Supervisor (list HostfsMount) :=
  st ← gets (λ st, st);
  mret (merge_sort mount_before
    (filter (λ m, applicationID = "" ∨ Mnt.ApplicationID m = applicationID)
      (omap (λ id, HostfsMounts st !! id) order))).
