(* ===== verification/Wake.v ===== *)
(** * wake.go and kernelwake.go: events that wake applications

    LSFS bindings scan the commit log of a context and deliver artifact commits;
    with a kernel bridge attached they are posted into the application's durable
    kernel queue instead, and [deliverKernel] moves that queue into the mailbox.
    The kernel is external: what its calls return is given by [KernelEnv], indexed
    by the supervisor's tick, and the calls that take effect are recorded in the
    supervisor's [calls]. *)

From Stdlib Require Import Ascii.
From stdpp Require Import base tactics option list gmap sets strings numbers pretty sorting.
From S2P Require Import Prelude Monad GoLib Json Crypto Policy ContextStore State Taint Mailbox.

Definition maxWakeBindings : nat := 64.
Definition wakeScanBatch : Z := 64.
Definition KernelSourceLSFS : Z := 3.

(** What the kernel bridge answers.  [k_reads] is the sequence of answers of
    successive [Read] calls up to the end of the queue. *)
Record KernelEnv := mkKernelEnv {
  k_boot : nat → result error string;
  k_open : nat → Z → result error Z;
  k_open_source : nat → Z → result error Z;
  k_attach : nat → Z → Z → Z → option error;
  k_post : nat → Z → Z → option error;
  k_reads : nat → Z → list (result error KernelEvent);
  k_ack : nat → Z → Z → option error;
  k_snapshot : nat → Z → result error (list KernelEvent);
  k_restore : nat → Z → list KernelEvent → option error;
}.

Definition check (e : option error) : M Supervisor unit :=
  match e with Some e => throw e | None => mret () end.

Definition record_call (c : kernel_call) : M Supervisor unit :=
  modify (λ s, {| s with calls := calls s ++ [c] |}).

Definition set_binding (key : string) (b : WakeBinding) (st : supervisorState) : supervisorState :=
  {| st with Bindings := <[key := b]> (Bindings st) |}.

Definition sorted_ids (st : supervisorState) : list string :=
  merge_sort string_le (fst <$> map_to_list (Applications st)).

(** ** Texts of events *)

Definition kernelKindName (kind : Z) : string :=
  if decide (kind = 1)%Z then "timer"
  else if decide (kind = 2)%Z then "port"
  else if decide (kind = 3)%Z then "lsfs"
  else "unknown".

Definition kernelWakePayload (id : string) (e : KernelEvent) : string :=
  obj_literal [
    ("source_kind", json_quote "kernel");
    ("application_id", json_quote id);
    ("event_id", json_int (KEv.EventID e));
    ("event_seq", json_int (KEv.EventSeq e));
    ("kernel_kind", json_quote (kernelKindName (KEv.Kind e)));
    ("coalesced", json_int (KEv.Coalesced e));
    ("data", json_int (KEv.Data e));
    ("text", json_quote ("kernel " +:+ kernelKindName (KEv.Kind e) +:+ " event: event_id=" +:+ pretty (KEv.EventID e)
       +:+ " seq=" +:+ pretty (KEv.EventSeq e) +:+ " data=" +:+ pretty (KEv.Data e)))].

Definition kernelMessageKey (id : string) (e : KernelEvent) : string :=
  if decide (KEv.BootID e = "") then "kernel:" +:+ id +:+ ":" +:+ pretty (KEv.EventID e)
  else "kernel:" +:+ id +:+ ":" +:+ KEv.BootID e +:+ ":" +:+ pretty (KEv.EventID e).

Definition commit_json (c : LSFSCommit) : string :=
  obj_literal [
    ("cursor", json_int (Commit.Cursor c));
    ("context_id", json_quote (Commit.ContextID c));
    ("kind", json_quote (Commit.Kind c));
    ("handle", json_quote (Commit.Handle c));
    ("idempotency_key", json_quote (Commit.IdempotencyKey c))].

Definition lsfs_payload (b : WakeBinding) (c : LSFSCommit) : string :=
  obj_literal [
    ("source_kind", json_quote "lsfs");
    ("binding_id", json_quote (Bind.BindingID b));
    ("commit", commit_json c);
    ("text", json_quote ("LSFS artifact committed: context=" +:+ Commit.ContextID c +:+ " cursor="
       +:+ pretty (Commit.Cursor c) +:+ " handle=" +:+ Commit.Handle c))].

Definition lsfs_key (b : WakeBinding) (c : LSFSCommit) : string :=
  "lsfs:" +:+ Bind.BindingID b +:+ ":" +:+ pretty (Commit.Cursor c).

Section wake.
Context (env : Env) (kenv : KernelEnv).

(** ** Bindings *)

Definition AddLSFSBinding (principal id bindingID ref : string) (after : Z) : M Supervisor unit :=
  st ← gets (λ st, st);
  a ← of_option ErrApplicationNotFound (Applications st !! id);
  reject_if (retired_app a) ErrApplicationRetired;;
  reject_if (bindingID = "" ∨ len bindingID > 128 ∨ after < 0)%Z (New "invalid LSFS binding");;
  let ref := if decide (ref = "") then App.ContextID a else ref in
  let key := id +:+ ":" +:+ bindingID in
  reject_if (is_Some (Bindings st !! key)) (New "binding already exists");;
  reject_if (maxWakeBindings ≤ stdpp.base.size (filter (λ kv, Bind.ApplicationID (snd kv) = id) (Bindings st)))
    (New "wake binding limit reached");;
  with_store env (λ io, Commits io (App.OwnerAgent a) ref after 1);;
  modify_state (set_binding key (Bind.mk bindingID id "lsfs" ref after true));;
  auditLocked env principal id "event_source.create" bindingID "allow" "lsfs artifact commits";;
  persistLocked env.

Definition SetLSFSBindingEnabled (principal id bindingID : string) (enabled : bool) : M Supervisor unit :=
  st ← gets (λ st, st);
  a ← of_option ErrApplicationNotFound (Applications st !! id);
  reject_if (retired_app a) ErrApplicationRetired;;
  let key := id +:+ ":" +:+ bindingID in
  b ← of_option (New "binding not found") (Bindings st !! key);
  if decide (Bind.Enabled b = enabled) then mret ()
  else
    modify_state (set_binding key {| b with Bind.Enabled := enabled |});;
    auditLocked env principal id (if enabled then "event_source.bind" else "event_source.disable") bindingID "allow" "";;
    persistLocked env.

Definition binding_id_le (a b : WakeBinding) : Prop := string_le (Bind.BindingID a) (Bind.BindingID b).
Global Instance binding_id_le_dec : RelDecision binding_id_le.
Proof. intros a b. unfold binding_id_le. apply _. Defined.

Definition ListLSFSBindings (id : string) : M Supervisor (list WakeBinding) :=
  st ← gets (λ st, st);
  of_option ErrApplicationNotFound (Applications st !! id);;
  mret (merge_sort binding_id_le
    (filter (λ b, Bind.ApplicationID b = id) (snd <$> map_to_list (Bindings st)))).

Definition ImportArtifact (principal id key payload : string) : M Supervisor string :=
  st ← gets (λ st, st);
  a ← of_option ErrApplicationNotFound (Applications st !! id);
  reject_if (retired_app a) ErrApplicationRetired;;
  reject_if (key = "" ∨ len key > 256 ∨ json_valid payload = false ∨ len payload > maxTextBytes)%Z
    (New "invalid artifact import");;
  handle ← with_store env (λ io, CommitArtifact io (App.OwnerAgent a) (App.ContextID a) ("artifact.import:" +:+ key) payload);
  auditLocked env principal id "artifact.import" handle "allow" "";;
  persistLocked env;;
  mret handle.

(** ** Kernel handles *)

Definition closeKernelHandlesLocked : M Supervisor unit :=
  modify (λ s, {| s with kernelApps := ∅; kernelSrcs := ∅ |}).

Definition SetKernelBridge (attached : bool) : M Supervisor unit :=
  closeKernelHandlesLocked;;
  modify (λ s, {| s with kernel := attached |}).

Definition kernel_id (st : supervisorState) (id : string) : Z :=
  default 0%Z (App.KernelID <$> Applications st !! id).

Definition ensureKernelHandleLocked (id : string) : M Supervisor Z :=
  s ← get;
  match kernelApps s !! id with
  | Some h => mret h
  | None =>
      reject_if (kernel s = false) (New "kernel event bridge is not attached");;
      r ← with_tick (λ t, k_open kenv t (kernel_id (state s) id));
      h ← of_result r;
      modify (λ s, {| s with kernelApps := <[id := h]> (kernelApps s) |});;
      mret h
  end.

Definition ensureKernelSourceLocked (id : string) : M Supervisor Z :=
  s ← get;
  match kernelSrcs s !! id with
  | Some src => mret src
  | None =>
      app ← ensureKernelHandleLocked id;
      r ← with_tick (λ t, k_open_source kenv t KernelSourceLSFS);
      src ← of_result r;
      st ← gets (λ st, st);
      e ← with_tick (λ t, k_attach kenv t src app (kernel_id st id));
      check e;;
      modify (λ s, {| s with kernelSrcs := <[id := src]> (kernelSrcs s) |});;
      mret src
  end.

Definition drop_handle (id : string) : M Supervisor unit :=
  modify (λ s, {| s with kernelApps := delete id (kernelApps s) |}).

(** An error after which the state is rolled back and the caller stops. *)
Definition or_restore {A} (m : M Supervisor A) : M Supervisor A :=
  r ← try m;
  match r with Ok a => mret a | Err e => restoreLocked;; throw e end.

(** ** Scanning LSFS commits *)

(** The commits of one binding's batch; the binding's record is only written back
    by the caller.  The result tells whether the scan itself asks for a commit. *)
Fixpoint scan_commits (b : WakeBinding) (commits : list LSFSCommit) : M Supervisor (WakeBinding * bool) :=
  match commits with
  | [] => mret (b, false)
  | c :: commits =>
      let advanced := {| b with Bind.Cursor := Commit.Cursor c |} in
      if decide (Commit.Kind c ≠ "artifact") then
        r ← scan_commits advanced commits; mret (fst r, true)
      else
        s ← get;
        if kernel s then
          src ← or_restore (ensureKernelSourceLocked (Bind.ApplicationID b));
          e ← with_tick (λ t, k_post kenv t src (u64 (Commit.Cursor c)));
          match e with
          | Some EAGAIN => mret (b, false)
          | Some e => restoreLocked;; throw e
          | None =>
              record_call (Posted (Bind.ApplicationID b) (Commit.Cursor c));;
              or_restore (persistLocked env);;
              scan_commits advanced commits
          end
        else
          r ← try (enqueueLocked env "supervisor" (Bind.ApplicationID b) (lsfs_key b c) (lsfs_payload b c));
          match r with
          | Err ErrMailboxFull => mret (b, false)
          | Err e => restoreLocked;; throw e
          | Ok _ => r ← scan_commits advanced commits; mret (fst r, true)
          end
  end.

Definition scan_binding (key : string) : M Supervisor bool :=
  st ← gets (λ st, st);
  match Bindings st !! key with
  | None => mret false
  | Some b =>
      if negb (Bind.Enabled b) then mret false
      else match Applications st !! Bind.ApplicationID b with
           | Some a =>
               if decide (retired_app a) then
                 modify_state (set_binding key {| b with Bind.Enabled := false |});; mret true
               else
                 commits ← or_restore (with_store env (λ io,
                   Commits io (App.OwnerAgent a) (Bind.Ref b) (Bind.Cursor b) wakeScanBatch));
                 r ← scan_commits b commits;
                 modify_state (set_binding key (fst r));;
                 mret (snd r)
           | None => modify_state (set_binding key {| b with Bind.Enabled := false |});; mret true
           end
  end.

Fixpoint scan_bindings (keys : list string) : M Supervisor bool :=
  match keys with
  | [] => mret false
  | key :: keys => c ← scan_binding key; rest ← scan_bindings keys; mret (c || rest)
  end.

Definition deliverLSFS : M Supervisor unit :=
  st ← gets (λ st, st);
  changed ← scan_bindings (merge_sort string_le (fst <$> map_to_list (Bindings st)));
  if (changed : bool) then persistLocked env else mret ().
End wake.
