(* ===== verification/KernelWake.v ===== *)
(** * kernelwake.go: the durable kernel queues

    [deliverKernel] moves kernel events into the mailbox: each is committed there
    before it is acknowledged, and a persisted copy survives until the
    acknowledgement is committed too.  [attachKernel] and [snapshotKernel] carry
    unacknowledged events across restarts. *)

From Stdlib Require Import Ascii.
From stdpp Require Import base tactics option list gmap sets strings numbers pretty sorting.
From S2P Require Import Prelude Monad GoLib Json Crypto Policy ContextStore State Taint Mailbox Wake.

Definition pending_events (st : supervisorState) (id : string) : list KernelEvent :=
  default [] (KernelPending st !! id).

Definition set_pending (id : string) (events : list KernelEvent) (st : supervisorState) : supervisorState :=
  {| st with KernelPending := <[id := events]> (KernelPending st) |}.

(** An empty list is removed from the map. *)
Definition set_or_drop_pending (id : string) (events : list KernelEvent) (st : supervisorState) : supervisorState :=
  if decide (events = []) then {| st with KernelPending := delete id (KernelPending st) |}
  else set_pending id events st.

Definition mark_recovery (e : KernelEvent) : KernelEvent := {| e with KEv.RecoveryPending := true |}.

Definition markKernelRecoveryPendingLocked (id : string) : M Supervisor unit :=
  modify_state (λ st, set_pending id (mark_recovery <$> pending_events st id) st).

Definition same_event (a b : KernelEvent) : Prop :=
  KEv.ApplicationID a = KEv.ApplicationID b ∧ KEv.EventID a = KEv.EventID b ∧ KEv.EventSeq a = KEv.EventSeq b
  ∧ KEv.Kind a = KEv.Kind b ∧ KEv.Coalesced a = KEv.Coalesced b ∧ KEv.Data a = KEv.Data b.
Global Instance same_event_dec a b : Decision (same_event a b).
Proof. unfold same_event. apply _. Defined.

Definition sameKernelEvent (a b : KernelEvent) : bool := bool_decide (same_event a b).

(** An event keeps the boot it was first recorded under. *)
Definition identifyKernelEvent (saved : list KernelEvent) (e : KernelEvent) (boot : string) : KernelEvent :=
  let e := {| e with KEv.BootID := boot; KEv.QueueBootID := boot |} in
  match find_first (λ x, bool_decide (KEv.QueueBootID x = boot) && sameKernelEvent x e) saved with
  | Some x => {| e with KEv.BootID := KEv.BootID x |}
  | None => e
  end.

Definition other_event (e x : KernelEvent) : Prop :=
  KEv.BootID x ≠ KEv.BootID e ∨ KEv.EventID x ≠ KEv.EventID e.
Global Instance other_event_dec e x : Decision (other_event e x).
Proof. unfold other_event. apply _. Defined.

Section kernelwake.
Context (env : Env) (kenv : KernelEnv).

(** Move persisted events into the mailbox, oldest first; [false] when the mailbox
    is full. *)
Fixpoint deliver_persisted (id : string) (events : list KernelEvent) : M Supervisor bool :=
  match events with
  | [] => mret true
  | e :: events =>
      r ← try (enqueueLocked env "supervisor" id (kernelMessageKey id e) (kernelWakePayload id e));
      match r with
      | Err ErrMailboxFull => mret false
      | Err err => restoreLocked;; throw err
      | Ok _ =>
          modify_state (set_or_drop_pending id events);;
          persistLocked env;;
          deliver_persisted id events
      end
  end.

Definition deliverPersistedKernelLocked (id : string) : M Supervisor bool :=
  st ← gets (λ st, st); deliver_persisted id (pending_events st id).

(** The loop as it is written: it looks at the head of the list in the state again
    in every round.  [None] means that [fuel] rounds were not enough. *)
Fixpoint persisted_loop (fuel : nat) (id : string) : M Supervisor (option bool) :=
  match fuel with
  | 0 => mret None
  | S fuel =>
      st ← gets (λ st, st);
      match pending_events st id with
      | [] => mret (Some true)
      | e :: _ =>
          r ← try (enqueueLocked env "supervisor" id (kernelMessageKey id e) (kernelWakePayload id e));
          match r with
          | Err ErrMailboxFull => mret (Some false)
          | Err err => restoreLocked;; throw err
          | Ok _ =>
              modify_state (λ st, set_or_drop_pending id (drop 1 (pending_events st id)) st);;
              persistLocked env;;
              persisted_loop fuel id
          end
      end
  end.

(** Recovery of one application's persisted events; a failure keeps the marks. *)
Definition recover_persisted (id : string) : M Supervisor bool :=
  markKernelRecoveryPendingLocked id;;
  r ← try (deliverPersistedKernelLocked id);
  match r with
  | Ok recovered => mret recovered
  | Err e => markKernelRecoveryPendingLocked id;; throw e
  end.

(** An error of the bridge and an empty identity are reported alike. *)
Definition boot_identity : M Supervisor string :=
  r ← with_tick (k_boot kenv);
  let boot := match r with Ok boot => boot | Err _ => "" end in
  reject_if (boot = "") (New "kernel boot identity unavailable");;
  mret boot.

Fixpoint attach_applications (boot : string) (ids : list string) : M Supervisor unit :=
  match ids with
  | [] => mret ()
  | id :: ids =>
      st ← gets (λ st, st);
      let events := pending_events st id in
      if decide (Applications st !! id = None ∨ App.State <$> Applications st !! id = Some tombstoned ∨ events = []) then attach_applications boot ids
      else
        let sameBoot := forallb (λ e, bool_decide (KEv.QueueBootID e ≠ "" ∧ KEv.QueueBootID e = boot)) events in
        recovered ← recover_persisted id;
        (if recovered && sameBoot then
           h ← ensureKernelHandleLocked kenv id;
           e ← with_tick (λ t, k_restore kenv t h events);
           match e with
           | None | Some EBUSY => mret ()
           | Some e => drop_handle id;; throw e
           end
         else mret ());;
        attach_applications boot ids
  end.

Definition attachKernel : M Supervisor unit :=
  s ← get;
  if negb (kernel s) then mret ()
  else boot ← boot_identity; attach_applications boot (sorted_ids (state s)).

(** One event read from the live queue: [false] stops the whole drain because the
    mailbox is full. *)
Definition deliver_event (id boot : string) (h : Z) (e : KernelEvent) : M Supervisor bool :=
  st ← gets (λ st, st);
  let identified := identifyKernelEvent (pending_events st id) e boot in
  r ← try (enqueueLocked env "supervisor" id (kernelMessageKey id identified) (kernelWakePayload id e));
  match r with
  | Err ErrMailboxFull => drop_handle id;; mret false
  | Err err => restoreLocked;; drop_handle id;; throw err
  | Ok _ =>
      st ← gets (λ st, st);
      let kept := filter (other_event identified) (pending_events st id) in
      modify_state (set_pending id (kept ++ [identified]));;
      p ← try (persistLocked env);
      match p with
      | Err err => restoreLocked;; drop_handle id;; throw err
      | Ok _ =>
          a ← with_tick (λ t, k_ack kenv t h (KEv.EventID e));
          match a with
          | Some err => drop_handle id;; throw err
          | None =>
              record_call (Acked id (KEv.EventID e));;
              modify_state (set_or_drop_pending id kept);;
              persistLocked env;;
              mret true
          end
      end
  end.

Fixpoint drain (id boot : string) (h : Z) (reads : list (result error KernelEvent)) : M Supervisor bool :=
  match reads with
  | [] => mret true
  | Err e :: _ => throw e
  | Ok e :: reads =>
      go ← deliver_event id boot h e;
      if (go : bool) then drain id boot h reads else mret false
  end.

Definition skipped (st : supervisorState) (id : string) : Prop :=
  match Applications st !! id with
  | Some a => retired_app a ∨ App.KernelID a = 0%Z
  | None => True
  end.
Global Instance skipped_dec st id : Decision (skipped st id).
Proof. unfold skipped. destruct (Applications st !! id); apply _. Defined.

Fixpoint deliver_applications (boot : string) (ids : list string) : M Supervisor unit :=
  match ids with
  | [] => mret ()
  | id :: ids =>
      st ← gets (λ st, st);
      if decide (skipped st id) then deliver_applications boot ids
      else
        recovered ← recover_persisted id;
        if negb recovered then deliver_applications boot ids
        else
          h ← ensureKernelHandleLocked kenv id;
          reads ← with_tick (λ t, k_reads kenv t h);
          go ← drain id boot h reads;
          if (go : bool) then deliver_applications boot ids else mret ()
  end.

Definition deliverKernel : M Supervisor unit :=
  s ← get;
  if negb (kernel s) then mret ()
  else boot ← boot_identity; deliver_applications boot (sorted_ids (state s)).

(** ** Shutdown *)

Definition protected_events (boot : string) (events : list KernelEvent) : bool :=
  existsb (λ e, KEv.RecoveryPending e || bool_decide (KEv.QueueBootID e ≠ "" ∧ KEv.QueueBootID e ≠ boot)) events.

Definition snapshot_application (boot id : string) : M Supervisor bool :=
  st ← gets (λ st, st);
  if decide (skipped st id ∨ protected_events boot (pending_events st id) = true) then mret false
  else
    h ← try (ensureKernelHandleLocked kenv id);
    match h with
    | Err _ => mret false
    | Ok h =>
        r ← with_tick (λ t, k_snapshot kenv t h);
        match r with
        | Err _ => mret false
        | Ok [] =>
            if decide (is_Some (KernelPending st !! id)) then
              modify_state (λ st, {| st with KernelPending := delete id (KernelPending st) |});; mret true
            else mret false
        | Ok events =>
            modify_state (set_pending id ((λ e, identifyKernelEvent (pending_events st id) e boot) <$> events));;
            mret true
        end
    end.

Fixpoint snapshot_applications (boot : string) (ids : list string) : M Supervisor bool :=
  match ids with
  | [] => mret false
  | id :: ids => c ← snapshot_application boot id; rest ← snapshot_applications boot ids; mret (c || rest)
  end.

Definition snapshotKernel : M Supervisor unit :=
  s ← get;
  if negb (kernel s) then mret ()
  else
    boot ← try boot_identity;
    match boot with
    | Err _ => mret ()
    | Ok boot =>
        changed ← snapshot_applications boot (sorted_ids (state s));
        closeKernelHandlesLocked;;
        if (changed : bool) then try (persistLocked env);; mret () else mret ()
    end.
End kernelwake.
