(* ===== verification/Url.v ===== *)
(** * net/url: parsing a URL

    [url.Parse] of Go 1.23 as far as the runtime looks at its result: the scheme, the
    host, the path, the query, the fragment and whether there is user information. *)

From Stdlib Require Import Ascii.
From stdpp Require Import base tactics option list strings numbers.
From S2P Require Import Prelude GoLib Json.

(** ** Cutting strings *)

(** [strings.Cut] at a byte: what is before its first occurrence, and what follows it. *)
Fixpoint Cut (sep : ascii) (s : string) : string * option string :=
  match s with
  | EmptyString => ("", None)
  | String c r =>
      if decide (c = sep) then ("", Some r)
      else let '(a, b) := Cut sep r in (String c a, b)
  end.

(** The same at the last occurrence ([strings.LastIndex]). *)
Fixpoint CutLast (sep : ascii) (s : string) : option (string * string) :=
  match s with
  | EmptyString => None
  | String c r =>
      match CutLast sep r with
      | Some (a, b) => Some (String c a, b)
      | None => if decide (c = sep) then Some ("", r) else None
      end
  end.

Definition has_byte (c : ascii) (s : string) : bool := contains_byte (λ d, bool_decide (d = c)) s.

(** The text before the first occurrence of [p] and the text from there on ([strings.Index]). *)
Fixpoint find_sub (p s : string) : option (string * string) :=
  if HasPrefix s p then Some ("", s)
  else match s with
       | EmptyString => None
       | String c r => '(a, b) ← find_sub p r; Some (String c a, b)
       end.

(** ** Escapes *)

Inductive encoding : Type := encodePath | encodeHost | encodeZone | encodeUserPassword | encodeFragment.

#[export] Instance encoding_eq_dec : EqDecision encoding.
Proof. solve_decision. Defined.

Definition is_alnum (c : ascii) : bool := between 97 122 c || between 65 90 c || is_digit c.

(** [shouldEscape] in a host. *)
Definition host_escape (c : ascii) : bool :=
  negb (is_alnum c || one_of (String quote "!$&'()*+,;=:[]<>-_.~") c).

Definition is_ctl (c : ascii) : bool := bool_decide (code c < 32 ∨ code c = 127)%Z.

(** One escape is allowed where it stands. *)
Definition escape_ok (mode : encoding) (a b : ascii) : bool :=
  match hex_value a, hex_value b with
  | Some x, Some y =>
      let percent := bool_decide (a = "2"%char ∧ b = "5"%char) in
      match mode with
      | encodeHost => percent || bool_decide (8 ≤ x)%Z
      | encodeZone => let v := of_code (16 * x + y) in percent || bool_decide (v = " "%char) || negb (host_escape v)
      | _ => true
      end
  | _, _ => false
  end.

Definition in_host (mode : encoding) : bool := bool_decide (mode = encodeHost ∨ mode = encodeZone).

Fixpoint unescape (mode : encoding) (s : string) : option string :=
  match s with
  | EmptyString => Some ""
  | String "%"%char r =>
      match r with
      | String a (String b r) =>
          if escape_ok mode a b then
            t ← unescape mode r;
            x ← hex_value a; y ← hex_value b; Some (String (of_code (16 * x + y)) t)
          else None
      | _ => None
      end
  | String c r =>
      if in_host mode && between 0 127 c && host_escape c then None
      else t ← unescape mode r; Some (String c t)
  end.

(** ** The parts *)

Record URL := mkURL {
  Scheme : string;
  User : bool; (* whether there is user information *)
  Host : string;
  Path : string;
  RawQuery : string;
  Fragment : string;
}.

(** The scheme, if any, and the rest. *)
Fixpoint scheme_from (s : string) : option (string * string) :=
  match s with
  | EmptyString => None
  | String c r =>
      if decide (c = ":"%char) then Some ("", r)
      else if is_alnum c || one_of "+-." c then '(a, b) ← scheme_from r; Some (String c a, b)
      else None
  end.

Definition getScheme (s : string) : option (string * string) :=
  match s with
  | EmptyString => Some ("", s)
  | String c _ =>
      if decide (c = ":"%char) then None
      else if is_digit c || one_of "+-." c then Some ("", s)
      else Some (default ("", s) (scheme_from s))
  end.

Definition validOptionalPort (port : string) : bool :=
  match port with
  | EmptyString => true
  | String c r => bool_decide (c = ":"%char) && negb (contains_byte (λ d, negb (is_digit d)) r)
  end.

Definition validUserinfo (s : string) : bool := negb (contains_byte (λ c, negb (is_alnum c || one_of "-._:~!$&'()*+,;=%@" c)) s).

Definition parseHost (host : string) : option string :=
  if HasPrefix host "[" then
    match CutLast "]" host with
    | None => None
    | Some (inside, port) =>
        if negb (validOptionalPort port) then None
        else
          match find_sub "%25" inside with
          | Some (address, zone) =>
              a ← unescape encodeHost address;
              z ← unescape encodeZone zone;
              p ← unescape encodeHost (String "]" port);
              Some (a +:+ z +:+ p)
          | None => unescape encodeHost host
          end
    end
  else
    match CutLast ":" host with
    | Some (_, port) => if validOptionalPort (String ":" port) then unescape encodeHost host else None
    | None => unescape encodeHost host
    end.

(** The host, and whether there is user information. *)
Definition parseAuthority (authority : string) : option (bool * string) :=
  match CutLast "@" authority with
  | None => h ← parseHost authority; Some (false, h)
  | Some (userinfo, host) =>
      h ← parseHost host;
      if negb (validUserinfo userinfo) then None
      else
        let '(name, password) := Cut ":" userinfo in
        _ ← unescape encodeUserPassword name;
        _ ← unescape encodeUserPassword (default "" password);
        Some (true, h)
  end.

(** The parts after the scheme. *)
Definition parse_rest (scheme rest : string) : option URL :=
  let '(rest, query) := Cut "?" rest in
  let query := default "" query in
  if decide (HasPrefix rest "/" = false ∧ scheme ≠ "") then Some (mkURL scheme false "" "" query "")
  else if decide (HasPrefix rest "/" = false ∧ has_byte ":" (fst (Cut "/" rest)) = true) then None
  else if decide ((scheme ≠ "" ∨ HasPrefix rest "///" = false) ∧ HasPrefix rest "//" = true) then
    let authority := default "" (strip_prefix "//" rest) in
    let '(authority, path) := Cut "/" authority in
    '(user, host) ← parseAuthority authority;
    path ← unescape encodePath (match path with Some p => String "/" p | None => "" end);
    Some (mkURL scheme user host path query "")
  else path ← unescape encodePath rest; Some (mkURL scheme false "" path query "").

Definition parse_url (s : string) : option URL :=
  if contains_byte is_ctl s then None
  else if decide (s = "*") then Some (mkURL "" false "" "*" "" "")
  else '(scheme, rest) ← getScheme s; parse_rest (ToLower scheme) rest.

Definition Parse (s : string) : option URL :=
  let '(s, fragment) := Cut "#" s in
  u ← parse_url s;
  let fragment := default "" fragment in
  f ← unescape encodeFragment fragment;
  Some {| u with Fragment := f |}.
