(* ===== verification/Net.v ===== *)
(** * net: host names and IP addresses

    [url.URL.Hostname], [net.ParseIP] (through [netip.ParseAddr] of Go 1.23) and
    [IP.IsLoopback], as far as [isLoopbackHost] uses them, and the functions of
    [strings], [url] and [filepath] only the providers call. *)

From Stdlib Require Import Ascii.
From stdpp Require Import base tactics option list strings numbers pretty.
From S2P Require Import Prelude GoLib Json Url.

(** ** Strings *)

(** [strings.TrimRight] with a cutset of one byte. *)
Fixpoint TrimRight (c : ascii) (s : string) : string :=
  match s with
  | EmptyString => ""
  | String d r => match TrimRight c r with
                  | EmptyString => if decide (d = c) then "" else String d ""
                  | t => String d t
                  end
  end.

(** [filepath.Base]. *)
Definition Base (path : string) : string :=
  if decide (path = "") then "."
  else
    let trimmed := TrimRight "/" path in
    let last := match CutLast "/" trimmed with Some (_, b) => b | None => trimmed end in
    if decide (last = "") then "/" else last.

Definition upper_hex (b : Z) : string :=
  let digit n := if decide (n < 10)%Z then of_code (48 + n) else of_code (55 + n) in
  String (digit (b `div` 16)%Z) (String (digit (b `mod` 16)%Z) "").

(** [url.QueryEscape]. *)
Fixpoint QueryEscape (s : string) : string :=
  match s with
  | EmptyString => ""
  | String c r =>
      (if is_alnum c || one_of "-_.~" c then String c ""
       else if decide (c = " "%char) then "+"
       else String "%" (upper_hex (code c))) +:+ QueryEscape r
  end.

(** ** Hosts *)

Definition Hostname (u : URL) : string :=
  let host := match CutLast ":" (Host u) with
              | Some (h, port) => if validOptionalPort (String ":" port) then h else Host u
              | None => Host u
              end in
  match strip_prefix "[" host with
  | Some r => default host (strip_suffix "]" r)
  | None => host
  end.

(** ** IP addresses *)

Fixpoint split_on (sep : ascii) (s : string) : list string :=
  match s with
  | EmptyString => [""]
  | String c r =>
      match split_on sep r with
      | f :: fs => if decide (c = sep) then "" :: f :: fs else String c f :: fs
      | [] => []
      end
  end.

(** One field of a dotted address: digits, without a leading zero, at most 255. *)
Definition octet (f : string) : option Z :=
  match f with
  | EmptyString => None
  | String c r =>
      if decide (c = "0"%char ∧ r ≠ "") then None
      else n ← decimal 0 f; if decide (n ≤ 255)%Z then Some n else None
  end.

Definition parseIPv4 (s : string) : option (list Z) :=
  let fs := split_on "." s in
  if decide (length fs = 4) then mapM octet fs else None.

(** The hexadecimal digits at the front: how many, their value, what follows. *)
Fixpoint hex_run (off : nat) (acc : Z) (s : string) : nat * Z * string :=
  match s with
  | String c r => match hex_value c with Some d => hex_run (S off) (acc * 16 + d)%Z r | None => (off, acc, s) end
  | EmptyString => (off, acc, "")
  end.

(** The groups of an IPv6 address.  [ip] is the bytes so far and [ellipsis] the
    position of the [::]; the result adds what is left of the text. *)
Fixpoint groups (fuel : nat) (ip : list Z) (ellipsis : option nat) (s : string) : option (list Z * option nat * string) :=
  match fuel with
  | 0 => Some (ip, ellipsis, s)
  | S fuel =>
      let '(off, acc, rest) := hex_run 0 0 s in
      if decide (4 < off ∨ off = 0) then None
      else if HasPrefix rest "." then
        if decide (ellipsis = None ∧ length ip ≠ 12) then None
        else if decide (16 < length ip + 4) then None
        else fs ← parseIPv4 s; Some (ip ++ fs, ellipsis, "")
      else
        let ip := ip ++ [acc `div` 256; acc `mod` 256]%Z in
        match rest with
        | EmptyString => Some (ip, ellipsis, "")
        | String c r =>
            if decide (c ≠ ":"%char ∨ r = "") then None
            else match strip_prefix ":" r with
                 | Some r' =>
                     if decide (ellipsis ≠ None) then None
                     else if decide (r' = "") then Some (ip, Some (length ip), "")
                     else groups fuel ip (Some (length ip)) r'
                 | None => groups fuel ip ellipsis r
                 end
        end
  end.

Definition parseIPv6 (s : string) : option (list Z) :=
  let '(ellipsis, s) := match strip_prefix "::" s with Some r => (Some 0, r) | None => (None, s) end in
  if decide (ellipsis = Some 0 ∧ s = "") then Some (replicate 16 0%Z)
  else
    '(ip, ellipsis, rest) ← groups 8 [] ellipsis s;
    if decide (rest ≠ "") then None
    else match ellipsis with
         | Some at_pos =>
             if decide (length ip < 16) then Some (take at_pos ip ++ replicate (16 - length ip) 0%Z ++ drop at_pos ip)
             else None
         | None => if decide (length ip < 16) then None else Some ip
         end.

(** The first [.], [:] or [%] says which kind of address it is.  An address with a zone
    is not an IP, so neither is a text with a [%]. *)
Fixpoint address_kind (s : string) : option ascii :=
  match s with
  | EmptyString => None
  | String c r => if one_of ".:%" c then Some c else address_kind r
  end.

(** The sixteen bytes of an address. *)
Definition ParseIP (s : string) : option (list Z) :=
  if has_byte "%" s then None
  else if decide (address_kind s = Some "."%char) then
    fs ← parseIPv4 s; Some (replicate 10 0%Z ++ [255; 255]%Z ++ fs)
  else if decide (address_kind s = Some ":"%char) then parseIPv6 s
  else None.

Definition IsLoopback (ip : list Z) : bool :=
  if decide (take 12 ip = replicate 10 0%Z ++ [255; 255]%Z) then bool_decide (ip !! 12 = Some 127%Z)
  else bool_decide (ip = replicate 15 0%Z ++ [1%Z]).

Example loopback_addresses :
  (λ s, IsLoopback <$> ParseIP s) <$>
    ["127.0.0.1"; "127.9.8.7"; "::1"; "::ffff:127.0.0.1"; "0:0:0:0:0:0:0:1"; "10.0.0.1"; "::2"; "127.0.0.1.evil.test";
     "127.0.0.01"; "127.0.0"; "::1%lo"; "1::2::3"; ":::1"; "evil.test"] =
    [Some true; Some true; Some true; Some true; Some true; Some false; Some false; None; None; None; None; None; None; None].
Proof. vm_compute. reflexivity. Qed.

Example host_names :
  (λ s, Hostname <$> Parse s) <$> ["http://localhost:8080/x"; "https://[::1]:443/"; "http://user@h"; "http://127.0.0.1.evil.test"] =
    [Some "localhost"; Some "::1"; Some "h"; Some "127.0.0.1.evil.test"].
Proof. vm_compute. reflexivity. Qed.
