(* ===== verification/UrlProofs.v ===== *)
(** * The origin of a URL

    What [Parse] takes for the scheme and the host is in the text up to the first [/],
    [?] or [#] after [://]; nothing that follows can change it. *)

From Stdlib Require Import Ascii.
From stdpp Require Import base tactics option list strings numbers.
From S2P Require Import Prelude GoLib Json Url Net.

(** ** Cutting *)

Lemma Cut_Some c s a b : Cut c s = (a, Some b) → s = a +:+ String c b ∧ has_byte c a = false.
Proof.
  revert a b. induction s as [|d s IH]; intros a b; simpl; [done|]. case_decide as Hd.
  - intros [= <- <-]. by subst.
  - destruct (Cut c s) as [a' [b'|]] eqn:E; [|done]. intros [= <- <-]. destruct (IH _ _ eq_refl) as [-> Ha].
    split; [done|]. unfold has_byte in *. simpl. by rewrite bool_decide_false, Ha.
Qed.

Lemma find_sub_Some p s a b : find_sub p s = Some (a, b) → s = a +:+ b ∧ ∃ r, b = p +:+ r.
Proof.
  revert a b. induction s as [|c s IH]; intros a b; simpl; destruct (HasPrefix _ p) eqn:Hp; try done.
  1, 2: intros [= <- <-]; split; [done|]; by apply HasPrefix_true.
  intros ([a' b'] & Hf & [= <- <-])%bind_Some. destruct (IH _ _ Hf) as [-> Hr]. done.
Qed.

Lemma Cut_None c s a : Cut c s = (a, None) → s = a ∧ has_byte c a = false.
Proof.
  revert a. induction s as [|d s IH]; intros a; simpl; [by intros [= <-]|]. case_decide as Hd; [done|].
  destruct (Cut c s) as [a' [b'|]] eqn:E; [done|]. intros [= <-]. destruct (IH _ eq_refl) as [-> Ha].
  split; [done|]. unfold has_byte in *. simpl. by rewrite bool_decide_false, Ha.
Qed.

Lemma string_app_nil_l s : "" +:+ s = s.
Proof. done. Qed.

Lemma Cut_app c x t : has_byte c x = false → Cut c (x +:+ t) = (x +:+ fst (Cut c t), snd (Cut c t)).
Proof.
  unfold has_byte. induction x as [|d x IH]; rewrite ?string_app_nil_l, ?string_app_cons; simpl; [intros _; by destruct (Cut c t)|].
  intros [Hd%bool_decide_eq_false Hx]%orb_false_iff. rewrite decide_False by done. rewrite IH by done. done.
Qed.

Lemma has_byte_app c s t : has_byte c (s +:+ t) = has_byte c s || has_byte c t.
Proof. unfold has_byte. induction s as [|d s IH]; rewrite ?string_app_cons; simpl; [done|]. by rewrite IH, orb_assoc. Qed.

(** What is cut off: the separator and what follows it, or nothing. *)
Definition cut_off (c : ascii) (rest : option string) : string := match rest with Some r => String c r | None => "" end.

Lemma Cut_split c s a rest : Cut c s = (a, rest) → s = a +:+ cut_off c rest ∧ has_byte c a = false.
Proof.
  destruct rest; [apply Cut_Some|]. intros [-> H]%Cut_None. split; [|done]. cbn. by rewrite string_app_nil_r.
Qed.

(** A text within a limit is read whole. *)
Lemma substring_all n s : String.length s ≤ n → String.substring 0 n s = s.
Proof.
  revert s. induction n as [|n IH]; intros [|c s] H; simpl in *; try done; [lia|]. f_equal. apply IH. lia.
Qed.

Lemma ParseUint_range s n : ParseUint s = Some n → in_u64 n.
Proof.
  unfold ParseUint. case_decide; [done|]. destruct (decimal 0 s) as [m|] eqn:E; cbn; [|done].
  case_decide; [|done]. intros [= <-]. split; [by eapply decimal_nonneg|done].
Qed.

(** ** Origins *)

Definition scheme_char (c : ascii) : bool := is_alnum c || one_of "+-." c.

Definition is_scheme (s : string) : Prop :=
  contains_byte (λ c, negb (scheme_char c)) s = false ∧
  ∃ c r, s = String c r ∧ is_alnum c = true ∧ is_digit c = false.

Definition is_authority (s : string) : Prop := has_byte "/" s = false ∧ has_byte "?" s = false ∧ has_byte "#" s = false.

(** What may follow an authority. *)
Definition ends_authority (s : string) : Prop := s = "" ∨ ∃ c r, s = String c r ∧ one_of "/?#" c = true.

(** The text is [scheme://authority], then a path, a query or a fragment. *)
Definition origin (s scheme authority : string) : Prop :=
  is_scheme scheme ∧ is_authority authority ∧ ∃ tail, s = scheme +:+ "://" +:+ authority +:+ tail ∧ ends_authority tail.

Lemma scheme_from_app sch r :
  contains_byte (λ c, negb (scheme_char c)) sch = false → has_byte ":" sch = false →
  scheme_from (sch +:+ String ":" r) = Some (sch, r).
Proof.
  unfold has_byte. induction sch as [|c sch IH]; rewrite ?string_app_cons; cbn [scheme_from contains_byte]; [done|].
  intros [Hc%negb_false_iff Hs]%orb_false_iff [Hd%bool_decide_eq_false Hb]%orb_false_iff.
  rewrite decide_False by done. unfold scheme_char in Hc. rewrite Hc, IH by done. done.
Qed.

Lemma scheme_from_Some s sch r :
  scheme_from s = Some (sch, r) → s = sch +:+ String ":" r ∧ contains_byte (λ c, negb (scheme_char c)) sch = false.
Proof.
  revert sch r. induction s as [|c s IH]; intros sch r; cbn [scheme_from contains_byte]; [done|]. case_decide as Hc; [by intros [= <- <-]; subst|].
  destruct (is_alnum c || one_of "+-." c) eqn:Ha; [|done].
  intros ([a b] & Hs & [= <- <-])%bind_Some. destruct (IH _ _ Hs) as [-> Hok]. split; [done|].
  cbn [contains_byte]. unfold scheme_char at 1. by rewrite Ha, Hok.
Qed.

(** A byte that is not allowed in a scheme is not in one. *)
Lemma scheme_no_byte c sch : scheme_char c = false → contains_byte (λ c, negb (scheme_char c)) sch = false → has_byte c sch = false.
Proof.
  intros Hc. unfold has_byte. induction sch as [|d sch IH]; cbn [scheme_from contains_byte]; [done|]. intros [Hd%negb_false_iff Hs]%orb_false_iff.
  rewrite IH by done. rewrite bool_decide_false; [done|]. congruence.
Qed.

Lemma getScheme_app sch r : is_scheme sch → getScheme (sch +:+ String ":" r) = Some (sch, r).
Proof.
  intros [Hok (c & s & -> & Ha & Hd)]. unfold getScheme. rewrite string_app_cons.
  rewrite decide_False by (intros ->; by vm_compute in Ha). rewrite Hd. rewrite <-string_app_cons.
  destruct (one_of "+-." c) eqn:Ho.
  { exfalso. cbn in Ho. repeat apply orb_true_iff in Ho as [Ho|Ho]; try done; apply bool_decide_eq_true in Ho; subst; done. }
  cbn [orb]. rewrite scheme_from_app; [done|done|]. by apply scheme_no_byte.
Qed.

Lemma getScheme_Some s sch r : getScheme s = Some (sch, r) → sch ≠ "" → is_scheme sch ∧ s = sch +:+ String ":" r.
Proof.
  unfold getScheme. destruct s as [|c s]; [by intros [= <- _]|]. case_decide as Hc; [done|].
  destruct (is_digit c || one_of "+-." c) eqn:Hd; [by intros [= <- _]|]. apply orb_false_iff in Hd as [Hd Ho].
  destruct (scheme_from (String c s)) as [[a b]|] eqn:E; cbn; [|by intros [= <- _]].
  intros [= -> ->] Hne. apply scheme_from_Some in E as [E Hok]. split; [|done]. split; [done|].
  destruct sch as [|d sch]; [done|]. rewrite string_app_cons in E. injection E as <- _. exists c, sch. split_and!; try done.
  cbn in Hok. apply orb_false_iff in Hok as [Hk%negb_false_iff _]. unfold scheme_char in Hk. by rewrite Ho, orb_false_r in Hk.
Qed.

(** A cut of what follows an authority leaves what may follow one. *)
Lemma ends_cut c t : ends_authority t → ends_authority (fst (Cut c t)).
Proof.
  intros [->|(d & r & -> & Hd)]; [by left|]. cbn. case_decide; [by left|]. destruct (Cut c r) as [a b]. right. by exists d, a.
Qed.

Lemma ToLower_nil s : ToLower s = "" → s = "".
Proof. by destruct s. Qed.

(** The rest after the scheme: the authority is what precedes the path. *)
Lemma parse_rest_authority sch auth t u :
  sch ≠ "" → is_authority auth → ends_authority t → has_byte "#" t = false →
  parse_rest sch ("//" +:+ auth +:+ t) = Some u → Scheme u = sch ∧ parseAuthority auth = Some (User u, Host u).
Proof.
  intros Hs (Hslash & Hq & _) Ht Hh. unfold parse_rest.
  rewrite string_app_assoc, Cut_app; [|by rewrite has_byte_app, Hq]. rewrite <-string_app_assoc.
  pose proof (ends_cut "?" t Ht) as He. destruct (Cut "?" t) as [a q] eqn:Ec. cbn [fst snd] in *.
  apply Cut_split in Ec as [-> Ha]. rewrite has_byte_app in Hh. apply orb_false_iff in Hh as [Hah _].
  assert (∀ x, HasPrefix ("//" +:+ x) "/" = true) as Hp by (intros x; apply HasPrefix_true; by exists ("/" +:+ x)).
  rewrite !Hp, decide_False, decide_False, decide_True; [| |by intros [? _]|by intros [? _]].
  2: { split; [by left|]. apply HasPrefix_true. eauto. }
  rewrite (proj2 (strip_prefix_Some "//" _ (auth +:+ a)) eq_refl). cbn [default id].
  rewrite Cut_app by done. assert (fst (Cut "/" a) = "") as ->.
  { destruct He as [->|(d & r & -> & Hd)]; [done|]. cbn. case_decide as Hdd; [done|]. exfalso.
    unfold has_byte in Ha, Hah. cbn in Ha, Hah, Hd.
    apply orb_false_iff in Ha as [Ha%bool_decide_eq_false _]. apply orb_false_iff in Hah as [Hah%bool_decide_eq_false _].
    repeat apply orb_true_iff in Hd as [Hd|Hd]; try done; apply bool_decide_eq_true in Hd; congruence. }
  rewrite string_app_nil_r. intros ([user host] & Hau & (path & _ & [= <-])%bind_Some)%bind_Some. done.
Qed.

(** What [Parse] takes for the origin is the text of the origin. *)
Lemma Parse_origin s sch auth u :
  origin s sch auth → Parse s = Some u → Scheme u = ToLower sch ∧ parseAuthority auth = Some (User u, Host u).
Proof.
  intros (Hs & Ha & t & -> & Ht). unfold Parse.
  assert (has_byte "#" (sch +:+ "://" +:+ auth) = false) as Hno.
  { rewrite !has_byte_app. destruct Hs as [Hok _], Ha as (_ & _ & ->). rewrite (scheme_no_byte "#" sch); done. }
  rewrite (string_app_assoc "://"), string_app_assoc, Cut_app by done.
  pose proof (ends_cut "#" t Ht) as He. destruct (Cut "#" t) as [a f] eqn:Ec. cbn [fst snd] in *.
  apply Cut_split in Ec as [-> Hah].
  intros (u0 & Hu & (f' & _ & [= <-])%bind_Some)%bind_Some. cbn. unfold parse_url in Hu.
  destruct (contains_byte is_ctl _); [done|]. case_decide as Hstar.
  { exfalso. destruct Hs as [_ (c & r & -> & _)]. by destruct r. }
  rewrite <-!string_app_assoc in Hu. change ("://" +:+ auth +:+ a) with (String ":" ("//" +:+ auth +:+ a)) in Hu.
  rewrite getScheme_app in Hu by done. cbn [mbind option_bind] in Hu.
  apply (parse_rest_authority (ToLower sch)) in Hu; try done.
  destruct Hs as [_ (c & r & -> & _)]. done.
Qed.

Lemma has_byte_cut c s a rest d : Cut c s = (a, rest) → has_byte d s = false → has_byte d a = false.
Proof. intros [-> _]%Cut_split. rewrite has_byte_app. by intros [? _]%orb_false_iff. Qed.

Lemma cut_off_ends c rest t : one_of "/?#" c = true → ends_authority t → ends_authority (cut_off c rest +:+ t).
Proof. intros Hc Ht. destruct rest as [r|]; [|done]. right. cbn. by exists c, (r +:+ t). Qed.

(** A URL with a scheme and a host has an origin. *)
Lemma Parse_has_origin s u :
  Parse s = Some u → Scheme u ≠ "" → Host u ≠ "" →
  ∃ sch auth, origin s sch auth ∧ Scheme u = ToLower sch ∧ parseAuthority auth = Some (User u, Host u).
Proof.
  intros Hp Hs Hh. cut (∃ sch auth, origin s sch auth).
  { intros (sch & auth & Ho). exists sch, auth. split; [done|]. by eapply Parse_origin. }
  unfold Parse in Hp. destruct (Cut "#" s) as [s1 f] eqn:E1. apply Cut_split in E1 as [-> Hh1].
  apply bind_Some in Hp as (u0 & Hu & (f' & _ & [= <-])%bind_Some). cbn in Hs, Hh. unfold parse_url in Hu.
  destruct (contains_byte is_ctl s1); [done|]. case_decide; [by injection Hu as <-|].
  apply bind_Some in Hu as ([sch rest] & Hg & Hr).
  unfold parse_rest in Hr. destruct (Cut "?" rest) as [r1 q] eqn:E2.
  case_decide; [by injection Hr as <-|]. case_decide; [done|]. case_decide as H3;
    [|by apply bind_Some in Hr as (p & _ & [= <-])].
  destruct H3 as [_ Hpre]. apply HasPrefix_true in Hpre as [r2 ->].
  rewrite (proj2 (strip_prefix_Some "//" _ r2) eq_refl) in Hr. cbn [default id] in Hr.
  destruct (Cut "/" r2) as [auth path] eqn:E3.
  apply bind_Some in Hr as ([user host] & _ & (p & _ & [= <-])%bind_Some). cbn in Hs.
  apply getScheme_Some in Hg as [Hsch ->]; [|by intros ->].
  pose proof (Cut_split _ _ _ _ E2) as [-> Hq]. pose proof (Cut_split _ _ _ _ E3) as [-> Hslash].
  exists sch, auth. split; [done|]. split.
  - rewrite !has_byte_app in Hq. rewrite has_byte_app in Hh1. apply orb_false_iff in Hh1 as [_ Hh1].
    unfold has_byte in Hh1. cbn [contains_byte] in Hh1. apply orb_false_iff in Hh1 as [_ Hh1].
    fold (has_byte "#" (("//" +:+ auth +:+ cut_off "/" path) +:+ cut_off "?" q)) in Hh1. rewrite !has_byte_app in Hh1.
    repeat match goal with H : _ || _ = false |- _ => apply orb_false_iff in H as [? ?] end. done.
  - exists (cut_off "/" path +:+ cut_off "?" q +:+ cut_off "#" f). split.
    + rewrite <-!string_app_assoc, string_app_cons, <-!string_app_assoc. done.
    + apply cut_off_ends; [done|]. apply cut_off_ends; [done|].
      rewrite <-(string_app_nil_r (cut_off "#" f)). apply cut_off_ends; [done|]. by left.
Qed.

(** ** Base URLs *)

Lemma TrimRight_nil c s : TrimRight c s = "" → ∀ x, has_byte c x = false → x ≠ "" → TrimRight c (x +:+ s) = x.
Proof.
  intros Hs x. induction x as [|d x IH]; [done|]. unfold has_byte. cbn [contains_byte].
  intros [Hd%bool_decide_eq_false Hx]%orb_false_iff _. rewrite string_app_cons. cbn [TrimRight].
  destruct x as [|e x]; [by rewrite string_app_nil_l, Hs, decide_False|]. by rewrite IH.
Qed.

Lemma TrimRight_app c s x : TrimRight c s ≠ "" → TrimRight c (x +:+ s) = x +:+ TrimRight c s.
Proof.
  intros Hs. induction x as [|d x IH]; [done|]. rewrite !string_app_cons. cbn [TrimRight]. rewrite IH.
  destruct (x +:+ TrimRight c s) eqn:E; [|done]. exfalso. apply Hs. by destruct x.
Qed.

Lemma TrimRight_cons c d s : TrimRight c (String d s) = "" ∨ ∃ r, TrimRight c (String d s) = String d r.
Proof. cbn. destruct (TrimRight c s); [case_decide; eauto|eauto]. Qed.

(** A path added to a base URL is at the origin of the base URL. *)
Lemma origin_extend s sch auth path :
  origin s sch auth → auth ≠ "" → origin (TrimRight "/" s +:+ "/" +:+ path) sch auth.
Proof.
  intros (Hs & Ha & t & -> & Ht) Hne. split; [done|]. split; [done|].
  destruct (decide (TrimRight "/" t = "")) as [E|E].
  - exists ("/" +:+ path). split; [|right; by exists "/"%char, path].
    assert (TrimRight "/" (auth +:+ t) = auth) as Hau by (apply TrimRight_nil; [done|apply Ha|done]).
    rewrite (string_app_assoc sch "://" (auth +:+ t)), TrimRight_app by (by rewrite Hau).
    rewrite Hau. by rewrite <-!string_app_assoc.
  - exists (TrimRight "/" t +:+ "/" +:+ path). split.
    + rewrite !string_app_assoc, TrimRight_app by done. by rewrite <-!string_app_assoc.
    + destruct Ht as [->|(d & r & -> & Hd)]; [done|]. right.
      destruct (TrimRight_cons "/" d r) as [?|[r' ->]]; [done|]. by eexists _, _.
Qed.

(** It goes to the same host, over the same scheme. *)
Lemma same_origin s u path u' :
  Parse s = Some u → Scheme u ≠ "" → Host u ≠ "" → Parse (TrimRight "/" s +:+ "/" +:+ path) = Some u' →
  Scheme u' = Scheme u ∧ Host u' = Host u ∧ User u' = User u.
Proof.
  intros Hp Hs Hh Hp'. destruct (Parse_has_origin s u Hp Hs Hh) as (sch & auth & Ho & Es & Ea).
  assert (auth ≠ "") as Hne by (intros ->; cbn in Ea; injection Ea as _ Ea; congruence).
  destruct (Parse_origin _ _ _ _ (origin_extend _ _ _ path Ho Hne) Hp') as [Es' Ea']. split_and!; congruence.
Qed.

Lemma TrimRight_idem c s : TrimRight c (TrimRight c s) = TrimRight c s.
Proof.
  induction s as [|d s IH]; [done|]. cbn [TrimRight]. destruct (TrimRight c s) as [|e r] eqn:E.
  - case_decide; [done|]. cbn. by rewrite decide_False.
  - change (TrimRight c (String d (String e r))) with
      (match TrimRight c (String e r) with "" => if decide (d = c) then "" else String d "" | t => String d t end).
    by rewrite IH.
Qed.

(** ** File names *)

Lemma CutLast_Some c s a b : CutLast c s = Some (a, b) → has_byte c b = false.
Proof.
  unfold has_byte. revert a. induction s as [|d s IH]; intros a; cbn [CutLast]; [done|].
  destruct (CutLast c s) as [[a' b']|] eqn:E; [intros [= <- <-]; by eapply IH|].
  case_decide; [|done]. intros [= <- <-]. clear -E. induction s as [|e s IH]; [done|]. cbn in E |- *.
  destruct (CutLast c s) as [[]|]; [done|]. case_decide as He; [done|]. by rewrite bool_decide_false, IH.
Qed.

Lemma CutLast_None c s : CutLast c s = None ↔ has_byte c s = false.
Proof.
  unfold has_byte. induction s as [|d s IH]; cbn; [done|]. destruct (CutLast c s) as [[]|].
  - split; [done|]. intros [_ H]%orb_false_iff. apply IH in H. done.
  - rewrite (proj1 IH eq_refl), orb_false_r, bool_decide_eq_false. by case_decide.
Qed.

Lemma TrimRight_none c s : has_byte c s = false → TrimRight c s = s.
Proof.
  intros Hs. destruct (decide (s = "")) as [->|Hne]; [done|].
  rewrite <-(string_app_nil_r s) at 1. by apply TrimRight_nil.
Qed.

(** A relative name is its own base exactly when it has no slash. *)
Lemma Base_exact s : s ≠ "" → IsAbs s = false → Base s = s ↔ has_byte "/" s = false.
Proof.
  intros Hne Habs. unfold Base. rewrite decide_False by done. split.
  - destruct (CutLast "/" (TrimRight "/" s)) as [[a b]|] eqn:E.
    + case_decide; [intros <-; by vm_compute in Habs|]. intros <-. by eapply CutLast_Some.
    + case_decide; [intros <-; by vm_compute in Habs|]. intros <-. by apply CutLast_None.
  - intros Hs. rewrite TrimRight_none, (proj2 (CutLast_None _ _) Hs) by done. by rewrite decide_False.
Qed.
