(* ===== verification/Web.v ===== *)
(** * web.go: the web capability ladder

    A fetch is checked against the capability, carried out by the supervisor's own
    client, and its content marked as external before anybody sees it.  The network is
    between two critical sections: what it answers is an argument, and other operations
    may run in between. *)

From Stdlib Require Import Ascii.
From stdpp Require Import base tactics option list gmap sets strings numbers pretty sorting.
From S2P Require Import Prelude Monad GoLib Json Crypto Policy ContextStore State Taint Mailbox Url.

Record WebCapability := mkWebCapability {
  wc_Kind : string;
  URLPrefixes : list string;
  Methods : list string;
  MaxResponseBytes : Z;
  wc_ExpiresAt : Z;
}.

Record WebRequest := mkWebRequest {
  wr_Kind : string;
  wr_Method : string;
  wr_URL : string;
  wr_Body : string;
}.

Record WebResult := mkWebResult {
  res_Kind : string;
  res_URL : string;
  res_Status : Z;
  ContentSHA256 : string;
  res_Bytes : Z;
  ContentType : string;
  res_Taint : Z;
  FetchedAt : Z;
}.

Definition kindRank (kind : string) : Z :=
  if decide (kind = "web.fetch") then 1
  else if decide (kind = "web.document") then 2
  else if decide (kind = "web.session") then 3
  else if decide (kind = "web.browser") then 4
  else 0.

(** ** The prefix check *)

(** One granted prefix admits the parsed target. *)
Definition prefix_admits (target : URL) (prefix : string) : bool :=
  match Parse prefix with
  | None => false
  | Some pp =>
      if decide (Host pp = "" ∨ Host pp ≠ Host target ∨ Scheme pp ≠ Scheme target) then false
      else if decide (Path pp = "" ∨ Path pp = "/") then true
      else match strip_prefix (Path pp) (Path target) with
           | Some rest => bool_decide (rest = "") || HasPrefix rest "/"
           | None => false
           end
  end.

Definition webPrefixAllowed (prefixes : list string) (target : string) : bool :=
  match Parse target with
  | None => false
  | Some parsed => existsb (prefix_admits parsed) prefixes
  end.

(** ** Documents *)

(** [strings.ToUpper]; the two letters outside ASCII whose upper case is in ASCII are
    U+017F and U+0131, the others are left alone. *)
Definition upper_ascii (c : ascii) : ascii := if between 97 122 c then of_code (code c - 32) else c.

Fixpoint ToUpper (s : string) : string :=
  match s with
  | EmptyString => ""
  | String "197"%char (String "191"%char r) => String "S" (ToUpper r)
  | String "196"%char (String "177"%char r) => String "I" (ToUpper r)
  | String c r => String (upper_ascii c) (ToUpper r)
  end.

Definition href : string := "href=" +:+ String quote "".

(** The values of the [href] attributes, in their order; [fuel] bounds the rounds. *)
Fixpoint hrefs (fuel : nat) (rest : string) : list string :=
  match fuel with
  | 0 => []
  | S fuel =>
      match find_sub href rest with
      | None => []
      | Some (_, at_href) =>
          let rest := default "" (strip_prefix href at_href) in
          match Cut quote rest with
          | (_, None) => []
          | (link, Some after) => link :: hrefs fuel (String quote after)
          end
      end
  end.

Definition web_link (link : string) : bool := HasPrefix link "http://" || HasPrefix link "https://".

(** The links are collected once each and sorted. *)
Fixpoint collect (seen links : list string) : list string :=
  match links with
  | [] => seen
  | l :: links => collect (if decide (web_link l = true ∧ l ∉ seen) then seen ++ [l] else seen) links
  end.

Definition extractLinks (body : string) : list string := merge_sort string_le (collect [] (hrefs (S (String.length body)) body)).

(** The text outside tags. *)
Fixpoint outside_tags (inTag : bool) (s : string) : string :=
  match s with
  | EmptyString => ""
  | String c r =>
      if decide (c = "<"%char) then outside_tags true r
      else if decide (c = ">"%char) then outside_tags false r
      else if inTag then outside_tags inTag r
      else String c (outside_tags inTag r)
  end.

(** The bytes of the white space at the front, 0 when there is none ([unicode.IsSpace]). *)
Definition space_len (s : string) : nat :=
  match s with
  | String "194"%char (String c _) => if one_of (String "133" (String "160" "")) c then 2 else 0
  | String "225"%char (String "154"%char (String "128"%char _)) => 3
  | String "226"%char (String "128"%char (String c _)) =>
      if bool_decide (128 ≤ nat_of_ascii c ∧ nat_of_ascii c ≤ 138 ∨ nat_of_ascii c ∈ [168; 169; 175]) then 3 else 0
  | String "226"%char (String "129"%char (String "159"%char _)) => 3
  | String "227"%char (String "128"%char (String "128"%char _)) => 3
  | String c _ => if is_space c then 1 else 0
  | EmptyString => 0
  end.

(** [strings.Fields]; [word] is the word so far and [skip] what is left of a space. *)
Fixpoint fields_from (skip : nat) (word s : string) : list string :=
  match s with
  | EmptyString => if decide (word = "") then [] else [word]
  | String c r =>
      match skip with
      | S skip => fields_from skip word r
      | 0 =>
          match space_len s with
          | 0 => fields_from 0 (word +:+ String c "") r
          | S skip => if decide (word = "") then fields_from skip "" r else word :: fields_from skip "" r
          end
      end
  end.

Definition stripTags (body : string) : string := String.concat " " (fields_from 0 "" (outside_tags false (sanitized body))).

Definition webDocument (body contentType : string) : list string * string :=
  if decide (is_Some (find_sub "html" contentType)) then (extractLinks body, stripTags body) else ([], body).

(** ** The fetch *)

Record Response := mkResponse { StatusCode : Z; Body : string; ContentTypeHeader : string; FinalURL : string }.

(** What the network does: whether the request can be made, where it redirects, what
    answers and whether the body can be read. *)
Record Network := mkNetwork {
  made : option error;
  hops : list string;
  answered : result error Response;
  body_read : option error;
}.

(** [CheckRedirect] before each hop; [via] counts the requests made. *)
Fixpoint follow (prefixes : list string) (via : nat) (targets : list string) : option error :=
  match targets with
  | [] => None
  | t :: targets =>
      if decide (5 ≤ via) then Some (New "web redirect limit")
      else if negb (webPrefixAllowed prefixes t) then Some ErrWebDenied
      else follow prefixes (S via) targets
  end.

(** [io.ReadAll] of an [io.LimitReader]. *)
Definition limited (n : Z) (body : string) : string := String.substring 0 (Z.to_nat n) body.

Section web.
Context (env : Env).

Definition webFetch (prefixes : list string) (maxBytes : Z) (net : Network) : M Supervisor (WebResult * string) :=
  match made net with
  | Some e => throw e
  | None =>
      match follow prefixes 1 (hops net) with
      | Some e => throw e
      | None =>
          match answered net with
          | Err e => throw e
          | Ok resp =>
              match body_read net with
              | Some e => throw e
              | None =>
                  let body := limited (i64 (maxBytes + 1)) (Body resp) in
                  reject_if (len body > maxBytes)%Z (New "web response exceeds the fetch limit");;
                  t ← now env;
                  mret (mkWebResult "web.fetch" (FinalURL resp) (StatusCode resp) (sha256_hex body) (len body)
                          (ContentTypeHeader resp) TaintExternal t, body)
              end
          end
      end
  end.

Definition web_scheme (u : option URL) : bool := match u with Some u => bool_decide (Scheme u = "https" ∨ Scheme u = "http") | None => false end.
Definition live (a : option Application) : bool := match a with Some a => bool_decide (¬ retired_app a) | None => false end.

Definition method_of (m : string) : string := let m := ToUpper m in if decide (m = "") then "GET" else m.

(** The first critical section and the checks before it; the limit on the body. *)
Definition web_begin (id : string) (cap : WebCapability) (req : WebRequest) : M Supervisor Z :=
  reject_if (kindRank (wr_Kind req) = 0%Z) (New "unknown web layer");;
  reject_if (kindRank (wr_Kind req) > kindRank (wc_Kind cap))%Z ErrWebLayerMismatch;;
  reject_if (web_scheme (Parse (wr_URL req)) = false) (New "invalid web url");;
  reject_if (webPrefixAllowed (URLPrefixes cap) (wr_URL req) = false) ErrWebDenied;;
  reject_if (Methods cap ≠ [] ∧ method_of (wr_Method req) ∉ Methods cap) ErrWebDenied;;
  t ← (if decide (wc_ExpiresAt cap = 0)%Z then mret 0%Z else now env);
  reject_if (wc_ExpiresAt cap ≠ 0 ∧ t `div` 1000000000 > wc_ExpiresAt cap)%Z ErrWebDenied;;
  st ← gets (λ st, st);
  reject_if (live (Applications st !! id) = false) ErrApplicationNotFound;;
  mret (if decide (MaxResponseBytes cap ≤ 0)%Z then 1048576%Z else MaxResponseBytes cap).

(** The second critical section. *)
Definition web_finish (principal id : string) (req : WebRequest) (status : Z) : M Supervisor unit :=
  st ← gets (λ st, st);
  reject_if (live (Applications st !! id) = false) ErrApplicationNotFound;;
  accumulateTaint id TaintExternal;;
  auditLocked env principal id ("web." +:+ wr_Kind req) (wr_URL req +:+ " -> " +:+ pretty status) "allow" "";;
  persistLocked env.

(** [meanwhile] is what the rest of the process does while the request is in flight. *)
Definition WebExecute (principal id : string) (cap : WebCapability) (req : WebRequest) (net : Network)
    (meanwhile : Supervisor → Supervisor) : M Supervisor (WebResult * option (list string * string)) :=
  limit ← web_begin id cap req;
  modify meanwhile;;
  '(result, body) ← webFetch (URLPrefixes cap) limit net;
  let extraction := if decide (wr_Kind req = "web.fetch") then None else Some (webDocument body (ContentType result)) in
  web_finish principal id req (res_Status result);;
  mret (if decide (wr_Kind req = "web.fetch") then result else {| result with res_Kind := wr_Kind req |}, extraction).
End web.

Definition prefixAllowed (prefixes : list string) (target : string) : bool := existsb (HasPrefix target) prefixes.
