(* ===== verification/Invariant.v ===== *)
(** * What holds of every state of the supervisor, and how states evolve

    [SInv] is the invariant of the durable state; [evolves] is the preorder in
    which a later committed state stands to an earlier one.  Both are built from
    predicates on single fields, so that an update leaves the others untouched. *)

From Stdlib Require Import Ascii.
From stdpp Require Import base tactics option list gmap sets strings numbers pretty sorting.
From S2P Require Import Prelude Monad GoLib Json Crypto Ledger Policy ContextStore State Taint Mailbox.
From S2P Require Import Lifecycle Revocation Witness Runner Gateway Hostfs Wake.

(** ** Maps whose entries only grow *)

Definition grows {A} (R : relation A) (m m' : gmap string A) : Prop :=
  ∀ k a, m !! k = Some a → ∃ a', m' !! k = Some a' ∧ R a a'.

Global Instance grows_preorder {A} (R : relation A) `{!PreOrder R} : PreOrder (grows R).
Proof.
  split.
  - intros m k a Ha. by exists a.
  - intros m1 m2 m3 H12 H23 k a Ha. destruct (H12 k a Ha) as (b & Hb & Hab).
    destruct (H23 k b Hb) as (c & Hc & Hbc). exists c. split; [done|]. by etrans.
Qed.

Section grows.
Context {A : Type} (R : relation A) `{!PreOrder R}.
Implicit Types m : gmap string A.

Lemma grows_alter f k m : (∀ a, m !! k = Some a → R a (f a)) → grows R m (alter f k m).
Proof.
  intros Hf k' a Ha. rewrite lookup_alter.
  case_decide; subst; simpl; [|by exists a].
  rewrite Ha. simpl. eexists. split; [done|]. by apply Hf.
Qed.

Lemma grows_insert k a m : (∀ b, m !! k = Some b → R b a) → grows R m (<[k := a]> m).
Proof.
  intros Hf k' b Hb. rewrite lookup_insert.
  case_decide; subst; [|by exists b].
  exists a. split; [done|]. by apply Hf.
Qed.

Lemma grows_fmap f m : (∀ a, R a (f a)) → grows R m (f <$> m).
Proof. intros Hf k a Ha. rewrite lookup_fmap, Ha. simpl. eauto. Qed.
End grows.

(** ** Applications *)

(** Once an application is retired, or out of budget and not serving, no operation
    makes it serve again. *)
Definition dead (a : Application) : Prop :=
  App.State a = tombstoned ∨ (exhausted a ∧ App.State a ≠ serving).

(** A budget, once set, stays set and only narrows. *)
Definition narrows (l l' : Z) : Prop := l = 0%Z ∨ (0 < l' ≤ l)%Z.

Record app_le (a a' : Application) : Prop := {
  al_owner : App.OwnerAgent a' = App.OwnerAgent a;
  al_parent : App.ForkParent a' = App.ForkParent a;
  al_created : App.CreatedAt a' = App.CreatedAt a;
  al_context : App.ContextID a' = App.ContextID a;
  al_kernel : App.KernelID a ≠ 0%Z → App.KernelID a' = App.KernelID a;
  al_generation : (App.Generation a ≤ App.Generation a')%Z;
  al_used : (App.TokensUsed a ≤ App.TokensUsed a')%Z;
  al_cached : (App.TokensCached a ≤ App.TokensCached a')%Z;
  al_limit : narrows (App.TokenLimit a) (App.TokenLimit a');
  al_taint : submask (App.TaintBits a) (App.TaintBits a');
  al_dead : dead a → dead a';
}.

Record app_ok (id : string) (a : Application) : Prop := {
  ao_id : App.ApplicationID a = id;
  ao_used : in_u64 (App.TokensUsed a);
  ao_cached : in_u64 (App.TokensCached a);
  ao_limit : in_u64 (App.TokenLimit a);
  ao_taint : in_u64 (App.TaintBits a);
}.

(** [app_le] is a preorder on applications whose counters are in range. *)
Definition app_grows (a a' : Application) : Prop :=
  (0 ≤ App.TokenLimit a → 0 ≤ App.TokenLimit a' ∧ app_le a a')%Z.

Global Instance narrows_trans : Transitive narrows.
Proof. unfold narrows. intros x y z. lia. Qed.

Lemma narrows_refl l : (0 ≤ l)%Z → narrows l l.
Proof. unfold narrows. lia. Qed.

Lemma app_le_refl a : (0 ≤ App.TokenLimit a)%Z → app_le a a.
Proof. intros. split; try done. by apply narrows_refl. Qed.

Global Instance app_grows_preorder : PreOrder app_grows.
Proof.
  split.
  - intros a H. split; [done|]. by apply app_le_refl.
  - intros a b c Hab Hbc H. destruct (Hab H) as [Hb []]. destruct (Hbc Hb) as [Hc []].
    split; [done|]. split; try congruence; try (by etrans; eauto); auto.
    intros Hk. pose proof (al_kernel0 Hk). rewrite al_kernel1; congruence.
Qed.

(** ** Messages *)

Definition status_le (x y : message_status) : Prop :=
  match x with
  | pending | claimed => True
  | expired => y = expired ∨ y = acked
  | acked => y = acked
  end.

Global Instance status_le_preorder : PreOrder status_le.
Proof.
  split; [intros []; simpl; auto|].
  intros [] [] []; simpl; naive_solver.
Qed.

Record message_le (m m' : MailboxMessage) : Prop := {
  ml_id : Msg.MessageID m' = Msg.MessageID m;
  ml_key : Msg.IdempotencyKey m' = Msg.IdempotencyKey m;
  ml_payload : Msg.Payload m' = Msg.Payload m;
  ml_sequence : Msg.Sequence m' = Msg.Sequence m;
  ml_created : Msg.CreatedAt m' = Msg.CreatedAt m;
  ml_status : status_le (Msg.Status m) (Msg.Status m');
}.

Global Instance message_le_preorder : PreOrder message_le.
Proof.
  split; [by split|]. intros a b c [] []. split; try congruence. by etrans.
Qed.

(** A mailbox keeps its messages in order and appends. *)
Definition messages_le (ms ms' : list MailboxMessage) : Prop :=
  ∃ ms1 ms2, ms' = ms1 ++ ms2 ∧ Forall2 message_le ms ms1.

Global Instance messages_le_preorder : PreOrder messages_le.
Proof.
  split.
  - intros ms. exists ms, []. rewrite app_nil_r. done.
  - intros ms ms' ms'' (a & b & -> & H1) (c & d & -> & H2).
    apply Forall2_app_inv_l in H2 as (c1 & c2 & H3 & H4 & ->).
    exists c1, (c2 ++ d). rewrite app_assoc. split; [done|]. by etrans.
Qed.

Lemma messages_le_snoc ms m : messages_le ms (ms ++ [m]).
Proof. by exists ms, [m]. Qed.

(** ** Channels, conversations, bindings, mounts, outbox *)

Definition chan_le (c c' : MessageChannel) : Prop :=
  Chan.Kind c' = Chan.Kind c ∧ (Chan.State c = revoked → Chan.State c' = revoked).
Global Instance chan_le_preorder : PreOrder chan_le.
Proof. split; [by split|]. intros a b c [] []. split; [congruence|auto]. Qed.

Record conv_le (c c' : MessageConversation) : Prop := {
  cl_channel : Conv.ChannelID c' = Conv.ChannelID c;
  cl_external : Conv.ExternalID c' = Conv.ExternalID c;
  cl_app : Conv.ApplicationID c' = Conv.ApplicationID c;
  cl_sequence : (Conv.LastSequence c ≤ Conv.LastSequence c')%Z;
}.
Global Instance conv_le_preorder : PreOrder conv_le.
Proof. split; [by split|]. intros a b c [] []. split; try congruence. lia. Qed.

Record bind_le (b b' : WakeBinding) : Prop := {
  bl_app : Bind.ApplicationID b' = Bind.ApplicationID b;
  bl_id : Bind.BindingID b' = Bind.BindingID b;
  bl_ref : Bind.Ref b' = Bind.Ref b;
  bl_cursor : (Bind.Cursor b ≤ Bind.Cursor b')%Z;
}.
Global Instance bind_le_preorder : PreOrder bind_le.
Proof. split; [by split|]. intros a b c [] []. split; try congruence. lia. Qed.

Record mount_le (m m' : HostfsMount) : Prop := {
  mtl_app : Mnt.ApplicationID m' = Mnt.ApplicationID m;
  mtl_guest : Mnt.GuestPath m' = Mnt.GuestPath m;
  mtl_mode : Mnt.Mode m' = Mnt.Mode m;
  mtl_expires : Mnt.ExpiresAt m' = Mnt.ExpiresAt m;
  mtl_enabled : Mnt.Enabled m' = true → Mnt.Enabled m = true;
}.
Global Instance mount_le_preorder : PreOrder mount_le.
Proof. split; [by split|]. intros a b c [] []. split; try congruence. auto. Qed.

Record same_entry (e e' : OutboxEntry) : Prop := {
  se_id : Out.EntryID e' = Out.EntryID e;
  se_conversation : Out.ConversationID e' = Out.ConversationID e;
  se_key : Out.IdempotencyKey e' = Out.IdempotencyKey e;
  se_payload : json_compact (Out.Payload e') = json_compact (Out.Payload e);
}.
Global Instance same_entry_preorder : PreOrder same_entry.
Proof. split; [by split|]. intros a b c [] []. split; congruence. Qed.

(** The log has an acknowledgement of the entry. *)
Definition acknowledged (records : list AuditRecord) (entryID : string) : Prop :=
  ∃ r, r ∈ records ∧ Aud.Action r = "gateway.ack" ∧ Aud.Object r = entryID.

(** A pending entry stays until it is acknowledged. *)
Definition outbox_le (out out' : list OutboxEntry) (records' : list AuditRecord) : Prop :=
  ∀ e, e ∈ out → Out.Status e = out_pending →
  (∃ e', e' ∈ out' ∧ Out.Status e' = out_pending ∧ same_entry e e') ∨ acknowledged records' (Out.EntryID e).

Lemma acknowledged_prefix l l' id : l `prefix_of` l' → acknowledged l id → acknowledged l' id.
Proof. intros [k ->] (r & Hr & ?). exists r. split; [apply elem_of_app; by left|done]. Qed.

(** ** The preorder on states *)

Record evolves (st st' : supervisorState) : Prop := {
  ev_apps : grows app_grows (Applications st) (Applications st');
  ev_mail : grows messages_le (Mailbox st) (Mailbox st');
  ev_audit : Audit st `prefix_of` Audit st';
  ev_seq : (NextSequence st ≤ NextSequence st')%Z;
  ev_results : Results st ⊆ Results st';
  ev_revoked : RevokedTokens st `prefix_of` RevokedTokens st';
  ev_channels : grows chan_le (Channels st) (Channels st');
  ev_convs : grows conv_le (Conversations st) (Conversations st');
  ev_binds : grows bind_le (Bindings st) (Bindings st');
  ev_outbox : outbox_le (Outbox st) (Outbox st') (Audit st');
  ev_mounts : (NextSequence st' ≤ MaxUint64)%Z → grows mount_le (HostfsMounts st) (HostfsMounts st');
}.

Lemma outbox_le_refl out records : outbox_le out out records.
Proof. intros e He Hp. left. by exists e. Qed.

Global Instance evolves_preorder : PreOrder evolves.
Proof.
  split.
  - intros st. split; try done. apply outbox_le_refl.
  - intros a b c [] []. split; try (by etrans; eauto).
    + intros e He Hp. destruct (ev_outbox0 e He Hp) as [(e' & He' & Hp' & Hs)|Hk].
      * destruct (ev_outbox1 e' He' Hp') as [(f & Hf & Hpf & Hsf)|Hk].
        -- left. exists f. split_and!; [done..|]. by etrans.
        -- right. by rewrite <-(se_id _ _ Hs).
      * right. by eapply acknowledged_prefix.
    + intros Hn. etrans; [apply ev_mounts0; lia|auto].
Qed.

(** ** The audit chain *)

Definition audit_ok (n : Z) (records : list AuditRecord) : Prop :=
  (0 ≤ n)%Z ∧
  ((n ≤ MaxUint64)%Z → verify_from "" 0 records = true ∧ Forall (λ r, Aud.Sequence r ≤ n)%Z records).

Lemma verify_from_snoc records r : ∀ previous seq,
  verify_from previous seq (records ++ [r]) =
  verify_from previous seq records &&
  verify_from (default previous (Aud.Hash <$> last records)) (default seq (Aud.Sequence <$> last records)) [r].
Proof.
  induction records as [|x l IH]; intros previous seq; [done|].
  assert (∀ p n l, verify_from p n (x :: l) =
    (if decide (Aud.Sequence x ≤ n)%Z then false else if decide (Aud.PreviousHash x ≠ p) then false
     else if decide (Aud.Hash x ≠ auditHash x) then false else verify_from (Aud.Hash x) (Aud.Sequence x) l)) as E by done.
  rewrite <-app_comm_cons, !E, IH, last_cons. repeat case_decide; try done. by destruct (last l).
Qed.

Lemma audit_ok_next n records : audit_ok n records → audit_ok (n + 1) records.
Proof.
  intros [H0 H]. split; [lia|]. intros Hn. destruct (H ltac:(lia)) as [Hv Hs]. split; [done|].
  eapply Forall_impl; [exact Hs|]. simpl. lia.
Qed.

Lemma audit_ok_snoc n records r :
  audit_ok n records →
  Aud.Sequence r = u64 (n + 1) → Aud.PreviousHash r = last_hash records → Aud.Hash r = auditHash r →
  audit_ok (n + 1) (records ++ [r]).
Proof.
  intros [H0 H] Hseq Hprev Hhash. split; [lia|]. intros Hn.
  destruct (H ltac:(lia)) as [Hv Hs]. rewrite u64_small in Hseq by lia. split.
  - assert (default 0%Z (Aud.Sequence <$> last records) ≤ n)%Z as Hl.
    { destruct (last records) as [l|] eqn:El; simpl; [|lia].
      apply last_Some in El as [l' ->]. apply Forall_app in Hs as [_ Hs].
      rewrite Forall_singleton in Hs. done. }
    assert (default "" (Aud.Hash <$> last records) = last_hash records) as Eh.
    { unfold last_hash. by destruct (last records). }
    rewrite verify_from_snoc, Hv, Eh. cbn [andb verify_from].
    rewrite decide_False by lia. rewrite decide_False by naive_solver. by rewrite decide_False by naive_solver.
  - apply Forall_app. split; [|apply Forall_singleton; lia].
    eapply Forall_impl; [exact Hs|]. simpl. lia.
Qed.

(** ** Charges *)

Definition usage_ok (u : Usage) : Prop :=
  in_u64 (InputTokens u) ∧ in_u64 (OutputTokens u) ∧ in_u64 (CachedTokens u).

Definition turn_tokens (r : TurnResult) : Z :=
  Z.min MaxUint64 (InputTokens (Turn.TurnUsage r) + OutputTokens (Turn.TurnUsage r)).
Definition turn_cached (r : TurnResult) : Z := CachedTokens (Turn.TurnUsage r).

(** The sum of [f] over the results of one application. *)
Definition charged (f : TurnResult → Z) (results : gmap string TurnResult) (id : string) : Z :=
  sumZ (λ kv, if decide (Turn.ApplicationID (snd kv) = id) then f (snd kv) else 0%Z) (map_to_list results).

Record charge_ok (apps : gmap string Application) (results : gmap string TurnResult) : Prop := {
  co_used : ∀ id a, apps !! id = Some a → App.TokensUsed a = Z.min MaxUint64 (charged turn_tokens results id);
  co_cached : ∀ id a, apps !! id = Some a → App.TokensCached a = Z.min MaxUint64 (charged turn_cached results id);
  co_results : ∀ mid r, results !! mid = Some r →
    Turn.MessageID r = mid ∧ is_Some (apps !! Turn.ApplicationID r) ∧ usage_ok (Turn.TurnUsage r);
}.

Lemma charged_insert f results k r id :
  results !! k = None →
  charged f (<[k := r]> results) id =
    ((if decide (Turn.ApplicationID r = id) then f r else 0) + charged f results id)%Z.
Proof.
  intros Hk. unfold charged. rewrite (sumZ_perm _ _ _ (map_to_list_insert results k r Hk)).
  by rewrite sumZ_cons.
Qed.

Lemma charged_none f results id :
  (∀ mid r, results !! mid = Some r → Turn.ApplicationID r ≠ id) → charged f results id = 0%Z.
Proof.
  intros H. unfold charged. rewrite (sumZ_ext _ (λ _, 0%Z)).
  - induction (map_to_list results); [done|]. rewrite sumZ_cons. lia.
  - intros [k r] Hk%elem_of_map_to_list. simpl. rewrite decide_False; eauto.
Qed.

Lemma charged_nonneg f results id : (∀ mid r, results !! mid = Some r → 0 ≤ f r)%Z → (0 ≤ charged f results id)%Z.
Proof.
  intros H. unfold charged. apply sumZ_nonneg_Forall, Forall_forall.
  intros [k r] Hk%elem_of_map_to_list. simpl. case_decide; [eauto|lia].
Qed.

(** An application whose counters are left alone. *)
Definition same_counters (a a' : Application) : Prop :=
  App.TokensUsed a' = App.TokensUsed a ∧ App.TokensCached a' = App.TokensCached a.

Lemma charge_ok_alter apps results f id :
  charge_ok apps results → (∀ a, apps !! id = Some a → same_counters a (f a)) →
  charge_ok (alter f id apps) results.
Proof.
  intros [H1 H2 H3] Hf. split.
  - intros k a. rewrite lookup_alter. case_decide; subst; [|by apply H1].
    intros (b & Hb & ->)%fmap_Some. destruct (Hf b Hb) as [-> _]. by apply H1.
  - intros k a. rewrite lookup_alter. case_decide; subst; [|by apply H2].
    intros (b & Hb & ->)%fmap_Some. destruct (Hf b Hb) as [_ ->]. by apply H2.
  - intros mid r Hr. destruct (H3 mid r Hr) as (? & Hin & ?). split_and!; try done.
    rewrite lookup_alter. case_decide; subst; [|done]. by apply fmap_is_Some.
Qed.

Lemma charge_ok_new apps results id a :
  charge_ok apps results → apps !! id = None → App.TokensUsed a = 0%Z → App.TokensCached a = 0%Z →
  charge_ok (<[id := a]> apps) results.
Proof.
  intros [H1 H2 H3] Hid Hu Hc.
  assert (∀ f, charged f results id = 0%Z) as Hz.
  { intros f. apply charged_none. intros mid r Hr E. destruct (H3 mid r Hr) as (_ & Hin & _).
    rewrite E, Hid in Hin. by destruct Hin. }
  split.
  - intros k b. rewrite lookup_insert. case_decide; [|by apply H1]. intros [= <-]. subst k. by rewrite Hz.
  - intros k b. rewrite lookup_insert. case_decide; [|by apply H2]. intros [= <-]. subst k. by rewrite Hz.
  - intros mid r Hr. destruct (H3 mid r Hr) as (? & Hin & ?). split_and!; try done.
    rewrite lookup_insert. case_decide; [by eexists|done].
Qed.

(** A settled turn: one new result, charged once. *)
Lemma charge_ok_settle apps results id a a' mid r :
  charge_ok apps results → apps !! id = Some a → results !! mid = None →
  in_u64 (App.TokensUsed a) → in_u64 (App.TokensCached a) → usage_ok (Turn.TurnUsage r) →
  Turn.ApplicationID r = id → Turn.MessageID r = mid →
  same_counters (charge (Turn.TurnUsage r) a) a' →
  charge_ok (<[id := a']> apps) (<[mid := r]> results).
Proof.
  intros [H1 H2 H3] Ha Hmid Hu Hc Hus Hid Hm [Eu Ec]. pose proof Hus as (Hin & Hout & Hca). simpl in Eu, Ec.
  rewrite saturatingAdd_min in Eu; [|done|].
  2: { rewrite saturatingAdd_min by done. unfold in_u64, MaxUint64 in *. lia. }
  rewrite saturatingAdd_min in Eu by done. rewrite saturatingAdd_min in Ec by done.
  pose proof (H1 _ _ Ha) as E1. pose proof (H2 _ _ Ha) as E2.
  assert (0 ≤ charged turn_tokens results id)%Z.
  { apply charged_nonneg. intros k x Hx. destruct (H3 k x Hx) as (_ & _ & Hx').
    unfold usage_ok, in_u64, turn_tokens, MaxUint64 in *. lia. }
  assert (0 ≤ charged turn_cached results id)%Z.
  { apply charged_nonneg. intros k x Hx. destruct (H3 k x Hx) as (_ & _ & Hx').
    unfold usage_ok, in_u64, turn_cached in *. lia. }
  split.
  - intros k b Hb. rewrite charged_insert by done. rewrite lookup_insert in Hb. rewrite Hid.
    case_decide; simplify_eq; [|by rewrite (H1 _ _ Hb)]. rewrite Eu, E1.
    unfold turn_tokens, in_u64, MaxUint64 in *. lia.
  - intros k b Hb. rewrite charged_insert by done. rewrite lookup_insert in Hb. rewrite Hid.
    case_decide; simplify_eq; [|by rewrite (H2 _ _ Hb)]. rewrite Ec, E2.
    unfold turn_cached, in_u64, MaxUint64 in *. lia.
  - intros k x. rewrite lookup_insert. case_decide; intros; simplify_eq.
    + split_and!; [done| |done]. rewrite lookup_insert_eq. eauto.
    + destruct (H3 k x) as (? & Hk & ?); [done|]. split_and!; try done.
      rewrite lookup_insert. case_decide; [by eexists|done].
Qed.

(** ** Mailboxes *)

Abbreviation mailboxes := (gmap string (list MailboxMessage)).

Definition box (mb : mailboxes) (id : string) : list MailboxMessage := default [] (mb !! id).

Definition message_ok (m : MailboxMessage) : Prop := json_compact (Msg.Payload m) = Msg.Payload m.

Record box_ok (ms : list MailboxMessage) : Prop := {
  bo_keys : NoDup (Msg.IdempotencyKey <$> ms);
  bo_payloads : Forall message_ok ms;
  bo_count : (live_count ms ≤ maxApplicationMailboxMessages)%Z;
  bo_bytes : (live_bytes ms ≤ maxApplicationMailboxBytes)%Z;
}.

Record mail_ok (mb : mailboxes) : Prop := {
  mo_boxes : map_Forall (λ _, box_ok) mb;
  mo_count : (total live_count mb ≤ maxSupervisorMailboxMessages)%Z;
  mo_bytes : (total live_bytes mb ≤ maxSupervisorMailboxBytes)%Z;
}.

(** The sequence numbers of all messages. *)
Definition sequences (mb : mailboxes) : list Z :=
  map_to_list mb ≫= λ kv, Msg.Sequence <$> snd kv.

Definition message_named (n : Z) (m : MailboxMessage) : Prop :=
  Msg.MessageID m = "msg-" +:+ pretty (Msg.Sequence m) ∧ (1 ≤ Msg.Sequence m ≤ n)%Z.

(** As long as the counter has not wrapped, messages have distinct identifiers. *)
Definition ids_ok (n : Z) (mb : mailboxes) : Prop :=
  (n ≤ MaxUint64)%Z → NoDup (sequences mb) ∧ map_Forall (λ _, Forall (message_named n)) mb.

(** A retired application has no live message. *)
Definition silent (ms : list MailboxMessage) : Prop := Forall (λ m, is_live (Msg.Status m) = false) ms.

Definition retired_ok (apps : gmap string Application) (mb : mailboxes) : Prop :=
  ∀ id a, apps !! id = Some a → App.State a = tombstoned → silent (box mb id).

(** Mailboxes belong to applications. *)
Definition boxes_ok (apps : gmap string Application) (mb : mailboxes) : Prop :=
  ∀ id ms, mb !! id = Some ms → is_Some (apps !! id).

Section boxes.
Implicit Types mb : mailboxes.

Lemma map_to_list_box mb id :
  map_to_list mb ≡ₚ match mb !! id with Some ms => [(id, ms)] | None => [] end ++ map_to_list (delete id mb).
Proof.
  destruct (mb !! id) as [ms|] eqn:E; simpl.
  - by rewrite (map_to_list_delete mb id ms E).
  - by rewrite delete_id.
Qed.

Lemma map_to_list_set mb id ms :
  map_to_list (<[id := ms]> mb) ≡ₚ (id, ms) :: map_to_list (delete id mb).
Proof. rewrite <-insert_delete_eq. apply map_to_list_insert, lookup_delete_eq. Qed.

Lemma total_split f mb id : f [] = 0%Z → total f mb = (f (box mb id) + total f (delete id mb))%Z.
Proof.
  intros Hf. unfold total. rewrite (sumZ_perm _ _ _ (map_to_list_box mb id)), sumZ_app. unfold box.
  destruct (mb !! id) as [ms|]; unfold sumZ at 1; simpl; lia.
Qed.

Lemma total_set f mb id ms :
  f [] = 0%Z → total f (<[id := ms]> mb) = (total f mb - f (box mb id) + f ms)%Z.
Proof.
  intros Hf. rewrite (total_split f mb id Hf). unfold total.
  rewrite (sumZ_perm _ _ _ (map_to_list_set mb id ms)), sumZ_cons. simpl. lia.
Qed.

Lemma sequences_split mb id :
  sequences mb ≡ₚ (Msg.Sequence <$> box mb id) ++ sequences (delete id mb).
Proof.
  unfold sequences, box. rewrite (map_to_list_box mb id), bind_app.
  by destruct (mb !! id); simpl; rewrite ?app_nil_r.
Qed.

Lemma sequences_set mb id ms :
  sequences (<[id := ms]> mb) ≡ₚ (Msg.Sequence <$> ms) ++ sequences (delete id mb).
Proof. unfold sequences. by rewrite (map_to_list_set mb id ms). Qed.

Lemma box_set mb id ms k : box (<[id := ms]> mb) k = if decide (id = k) then ms else box mb k.
Proof. unfold box. rewrite lookup_insert. by case_decide. Qed.

Lemma alter_box f mb id :
  f [] = [] → alter f id mb = mb ∨ alter f id mb = <[id := f (box mb id)]> mb.
Proof.
  intros Hf. unfold box. destruct (mb !! id) as [ms|] eqn:E; simpl.
  - right. apply map_eq. intros k. rewrite lookup_alter, lookup_insert. case_decide; subst; by rewrite ?E.
  - left. apply map_eq. intros k. rewrite lookup_alter. case_decide; subst; by rewrite ?E.
Qed.
End boxes.

(** *** Progress of messages *)

Lemma live_le m m' : message_le m m' → is_live (Msg.Status m') = true → is_live (Msg.Status m) = true.
Proof. intros []. destruct (Msg.Status m), (Msg.Status m'); naive_solver. Qed.

Section settle.
Implicit Types ms : list MailboxMessage.

Lemma settle_keys ms ms' : Forall2 message_le ms ms' → Msg.IdempotencyKey <$> ms' = Msg.IdempotencyKey <$> ms.
Proof. induction 1 as [|m m' l l' []]; csimpl; congruence. Qed.

Lemma settle_sequences ms ms' : Forall2 message_le ms ms' → Msg.Sequence <$> ms' = Msg.Sequence <$> ms.
Proof. induction 1 as [|m m' l l' []]; csimpl; congruence. Qed.

Lemma settle_count ms ms' : Forall2 message_le ms ms' → (live_count ms' ≤ live_count ms)%Z.
Proof.
  unfold live_count. induction 1 as [|m m' l l' Hm]; [done|]. rewrite !sumZ_cons.
  pose proof (live_le m m' Hm) as Hlive. destruct (is_live (Msg.Status m')); [rewrite Hlive by done; lia|].
  case_match; lia.
Qed.

Lemma settle_bytes ms ms' : Forall2 message_le ms ms' → (live_bytes ms' ≤ live_bytes ms)%Z.
Proof.
  unfold live_bytes. induction 1 as [|m m' l l' Hm]; [done|]. rewrite !sumZ_cons.
  pose proof (live_le m m' Hm) as Hlive. pose proof (len_nonneg (Msg.Payload m)). destruct Hm.
  destruct (is_live (Msg.Status m')); [rewrite Hlive by done; rewrite ml_payload0; lia|].
  case_match; lia.
Qed.

Lemma settle_box ms ms' : Forall2 message_le ms ms' → box_ok ms → box_ok ms'.
Proof.
  intros Hle []. split.
  - by rewrite (settle_keys _ _ Hle).
  - clear -Hle bo_payloads0. induction Hle as [|m m' l l' []]; [done|].
    apply Forall_cons_1 in bo_payloads0 as [? ?]. constructor; [|auto]. unfold message_ok in *. congruence.
  - pose proof (settle_count _ _ Hle). lia.
  - pose proof (settle_bytes _ _ Hle). lia.
Qed.

Lemma settle_silent ms ms' : Forall2 message_le ms ms' → silent ms → silent ms'.
Proof.
  unfold silent. intros Hle Hs. induction Hle as [|m m' l l' Hm]; [done|].
  apply Forall_cons_1 in Hs as [? ?]. constructor; [|auto].
  destruct (is_live (Msg.Status m')) eqn:E; [|done]. by rewrite (live_le m m') in *.
Qed.

Lemma settle_named ms ms' n : Forall2 message_le ms ms' → Forall (message_named n) ms → Forall (message_named n) ms'.
Proof.
  intros Hle Hs. induction Hle as [|m m' l l' []]; [done|].
  apply Forall_cons_1 in Hs as [? ?]. constructor; [|auto].
  unfold message_named in *. by rewrite ml_id0, ml_sequence0.
Qed.

Lemma settle_messages ms ms' : Forall2 message_le ms ms' → messages_le ms ms'.
Proof. intros. exists ms', []. by rewrite app_nil_r. Qed.
End settle.

Lemma settle_refl ms : Forall2 message_le ms ms.
Proof. done. Qed.

Lemma settle_fmap f ms : (∀ m, m ∈ ms → message_le m (f m)) → Forall2 message_le ms (f <$> ms).
Proof.
  intros Hf. induction ms as [|m ms IH]; csimpl; constructor; [apply Hf; by left|].
  apply IH. intros. apply Hf. by right.
Qed.

Lemma settle_update (P : MailboxMessage → bool) f ms :
  (∀ m, find_first P ms = Some m → message_le m (f m)) → Forall2 message_le ms (update_first P f ms).
Proof.
  intros Hf. destruct (find_first P ms) as [m|] eqn:E; [|by rewrite update_first_none].
  destruct (update_first_split P f ms m E) as (l1 & l2 & Hms & ->). rewrite Hms.
  apply Forall2_app; [done|]. constructor; [by apply Hf|done].
Qed.

Section set_box.
Context (mb : mailboxes) (id : string) (ms' : list MailboxMessage) (Hle : Forall2 message_le (box mb id) ms').

Lemma mail_ok_settle : mail_ok mb → mail_ok (<[id := ms']> mb).
Proof using Hle.
  intros []. split.
  - apply map_Forall_insert_2; [|done]. apply (settle_box _ _ Hle). unfold box.
    destruct (mb !! id) eqn:E; simpl; [by apply (mo_boxes0 id)|]. split; by constructor || done.
  - rewrite total_set by done. pose proof (settle_count _ _ Hle). lia.
  - rewrite total_set by done. pose proof (settle_bytes _ _ Hle). lia.
Qed.

Lemma ids_ok_settle n : ids_ok n mb → ids_ok n (<[id := ms']> mb).
Proof using Hle.
  intros H Hn. destruct (H Hn) as [Hd Hm]. split.
  - rewrite sequences_set, (settle_sequences _ _ Hle), <-sequences_split. done.
  - apply map_Forall_insert_2; [|done]. apply (settle_named _ _ n Hle). unfold box.
    destruct (mb !! id) eqn:E; simpl; [by apply (Hm id)|done].
Qed.

Lemma retired_ok_settle apps : retired_ok apps mb → retired_ok apps (<[id := ms']> mb).
Proof using Hle.
  intros H k a Ha Ht. rewrite box_set. case_decide; subst; [|by eapply H].
  apply (settle_silent _ _ Hle). by eapply H.
Qed.

Lemma mail_grows_settle : grows messages_le mb (<[id := ms']> mb).
Proof using Hle.
  apply grows_insert; [apply _|]. intros b Hb. unfold box in Hle. rewrite Hb in Hle.
  by apply settle_messages.
Qed.
End set_box.

(** *** A new message *)

Section enqueue.
Context (mb : mailboxes) (id : string) (m : MailboxMessage).

Lemma mail_ok_snoc :
  mail_ok mb → Msg.Status m = pending → message_ok m →
  find_first (has_key (Msg.IdempotencyKey m)) (box mb id) = None →
  (live_count (box mb id) < maxApplicationMailboxMessages)%Z →
  (live_bytes (box mb id) + len (Msg.Payload m) ≤ maxApplicationMailboxBytes)%Z →
  (total live_count mb < maxSupervisorMailboxMessages)%Z →
  (total live_bytes mb + len (Msg.Payload m) ≤ maxSupervisorMailboxBytes)%Z →
  mail_ok (<[id := box mb id ++ [m]]> mb).
Proof.
  intros [Hb Hc Hy] Hs Hm Hk Hc1 Hy1 Hc2 Hy2.
  assert (live_count (box mb id ++ [m]) = live_count (box mb id) + 1)%Z as Ec.
  { unfold live_count. rewrite sumZ_app. unfold sumZ at 2. simpl. rewrite Hs. simpl. lia. }
  assert (live_bytes (box mb id ++ [m]) = live_bytes (box mb id) + len (Msg.Payload m))%Z as Ey.
  { unfold live_bytes. rewrite sumZ_app. unfold sumZ at 2. simpl. rewrite Hs. simpl. lia. }
  assert (box_ok (box mb id)) as [].
  { unfold box. destruct (mb !! id) eqn:E; simpl; [by apply (Hb id)|]. split; by constructor || done. }
  split.
  - apply map_Forall_insert_2; [|done]. split; [| |lia..].
    + rewrite fmap_app. apply NoDup_app. split_and!; [done| |apply NoDup_singleton].
      intros x Hx Hx'. apply list_elem_of_singleton in Hx' as ->.
      apply list_elem_of_fmap in Hx as (m' & Hkey & Hin).
      pose proof (proj1 (find_first_None _ _) Hk m' Hin) as Hf. unfold has_key in Hf.
      rewrite bool_decide_eq_false in Hf. by rewrite Hkey in Hf.
    + apply Forall_app. split; [done|]. by apply Forall_singleton.
  - rewrite total_set by done. lia.
  - rewrite total_set by done. lia.
Qed.

Lemma ids_ok_snoc n :
  ids_ok n mb → (0 ≤ n)%Z → Msg.Sequence m = u64 (n + 1) →
  Msg.MessageID m = "msg-" +:+ pretty (Msg.Sequence m) → ids_ok (n + 1) (<[id := box mb id ++ [m]]> mb).
Proof.
  intros H H0 Hs Hid Hn. destruct (H ltac:(lia)) as [Hd Hm]. rewrite u64_small in Hs by lia.
  assert (map_Forall (λ _, Forall (message_named (n + 1))) mb) as Hm'.
  { intros k ms Hk. eapply Forall_impl; [exact (Hm k ms Hk)|]. unfold message_named. naive_solver lia. }
  assert (∀ x, x ∈ sequences mb → x ≤ n)%Z as Hle.
  { intros x. unfold sequences. rewrite list_elem_of_bind. intros ([k ms] & Hx & Hk%elem_of_map_to_list).
    apply list_elem_of_fmap in Hx as (m' & -> & Hin). simpl in Hin.
    pose proof (proj1 (Forall_forall _ _) (Hm k ms Hk) m' Hin) as [_ ?]. lia. }
  split.
  - rewrite sequences_set, fmap_app, <-app_assoc.
    assert ((Msg.Sequence <$> box mb id) ++ (Msg.Sequence <$> [m]) ++ sequences (delete id mb)
      ≡ₚ Msg.Sequence m :: sequences mb) as ->.
    { rewrite (sequences_split mb id). csimpl. by rewrite Permutation_middle. }
    constructor; [|done]. intros Hin%Hle. lia.
  - apply map_Forall_insert_2; [|done]. apply Forall_app. split.
    + unfold box. destruct (mb !! id) eqn:E; simpl; [by apply (Hm' id)|done].
    + apply Forall_singleton. split; [done|lia].
Qed.

Lemma retired_ok_snoc apps a :
  retired_ok apps mb → apps !! id = Some a → App.State a ≠ tombstoned →
  retired_ok apps (<[id := box mb id ++ [m]]> mb).
Proof.
  intros H Ha Hn k b Hb Ht. rewrite box_set. case_decide; subst; [|by eapply H].
  by simplify_eq.
Qed.

Lemma mail_grows_snoc : grows messages_le mb (<[id := box mb id ++ [m]]> mb).
Proof.
  apply grows_insert; [apply _|]. intros b Hb. unfold box. rewrite Hb. apply messages_le_snoc.
Qed.
End enqueue.

Lemma ids_ok_next n mb : ids_ok n mb → ids_ok (n + 1) mb.
Proof.
  intros H Hn. destruct (H ltac:(lia)) as [Hd Hm]. split; [done|].
  intros k ms Hk. eapply Forall_impl; [exact (Hm k ms Hk)|]. unfold message_named. naive_solver lia.
Qed.

(** A new application starts with an empty mailbox. *)
Lemma mail_ok_new mb id : mail_ok mb → mb !! id = None → mail_ok (<[id := []]> mb).
Proof. intros H Hid. apply mail_ok_settle; [|done]. unfold box. by rewrite Hid. Qed.

(** ** Bindings and mounts *)

Definition bindings_of (id : string) (bs : gmap string WakeBinding) : gmap string WakeBinding :=
  filter (λ kv, Bind.ApplicationID (snd kv) = id) bs.

Record binds_ok (bs : gmap string WakeBinding) : Prop := {
  bn_keys : map_Forall (λ k b, k = Bind.ApplicationID b +:+ ":" +:+ Bind.BindingID b ∧ (0 ≤ Bind.Cursor b)%Z) bs;
  bn_count : ∀ id, size (bindings_of id bs) ≤ maxWakeBindings;
}.

Lemma binds_ok_new bs k b :
  binds_ok bs → k = Bind.ApplicationID b +:+ ":" +:+ Bind.BindingID b → (0 ≤ Bind.Cursor b)%Z →
  size (bindings_of (Bind.ApplicationID b) bs) < maxWakeBindings → binds_ok (<[k := b]> bs).
Proof.
  intros [Hk Hc] Ek H0 Hs. split; [by apply map_Forall_insert_2|]. intros id. unfold bindings_of in *.
  destruct (decide (Bind.ApplicationID b = id)) as [<-|].
  - rewrite map_filter_insert_True by done. rewrite map_size_insert. case_match; simpl; unfold Datatypes.id; lia.
  - rewrite map_filter_insert_False by done.
    etrans; [|apply (Hc id)]. unfold bindings_of. apply map_subseteq_size.
    apply map_filter_subseteq_mono, delete_subseteq.
Qed.

Lemma binds_ok_update bs k b b' :
  binds_ok bs → bs !! k = Some b → bind_le b b' → binds_ok (<[k := b']> bs).
Proof.
  intros [Hk Hc] Hb []. pose proof (Hk k b Hb) as [Ek H0]. split.
  - apply map_Forall_insert_2; [|done]. split; [congruence|lia].
  - intros id. unfold bindings_of in *. etrans; [|apply (Hc id)].
    destruct (decide (Bind.ApplicationID b' = id)).
    + rewrite map_filter_insert_True by done. rewrite map_size_insert_Some; [done|].
      exists b. apply map_lookup_filter_Some. split; [done|]. simpl. congruence.
    + rewrite map_filter_insert_False by done. apply map_subseteq_size.
      apply map_filter_subseteq_mono, delete_subseteq.
Qed.

Lemma binds_ok_fmap bs f :
  binds_ok bs → (∀ b, bind_le b (f b)) → binds_ok (f <$> bs).
Proof.
  intros [Hk Hc] Hf. split.
  - intros k b Hb. rewrite lookup_fmap in Hb. apply fmap_Some in Hb as (b0 & Hb & ->).
    destruct (Hk k b0 Hb) as [-> H0], (Hf b0). split; [congruence|lia].
  - intros id. etrans; [|apply (Hc id)]. unfold bindings_of. rewrite map_filter_fmap, map_size_fmap.
    apply map_subseteq_size, map_filter_subseteq_ext. intros k b _. simpl.
    destruct (Hf b). congruence.
Qed.

Record mount_ok (n : Z) (k : string) (m : HostfsMount) : Prop := {
  mt_id : Mnt.MountID m = k;
  mt_path : Clean (Mnt.GuestPath m) = Mnt.GuestPath m ∧ IsAbs (Mnt.GuestPath m) = true;
  mt_mode : Mnt.Mode m ∈ hostfsModes;
  mt_seq : (n ≤ MaxUint64)%Z → ∃ j, k = "mnt-" +:+ pretty j ∧ (1 ≤ j ≤ n)%Z;
}.

Lemma mounts_ok_next n (ms : gmap string HostfsMount) : map_Forall (mount_ok n) ms → map_Forall (mount_ok (n + 1)) ms.
Proof.
  intros H k m Hm. destruct (H k m Hm). split; try done. intros Hn.
  destruct (mt_seq0 ltac:(lia)) as (j & ? & ?). exists j. split; [done|lia].
Qed.

(** ** The invariant *)

(** An entry of the outbox is the reply of a recorded result, to a conversation bound to
    the application whose result it is. *)
Definition reply_ok (results : gmap string TurnResult) (convs : gmap string MessageConversation) (e : OutboxEntry) : Prop :=
  ∃ mid r c, Out.IdempotencyKey e = "reply:" +:+ mid ∧ results !! mid = Some r ∧
    json_compact (Out.Payload e) = json_compact (reply_json r) ∧
    convs !! Out.ConversationID e = Some c ∧ Conv.ApplicationID c = Turn.ApplicationID r.

Definition outbox_ok (results : gmap string TurnResult) (convs : gmap string MessageConversation) (out : list OutboxEntry) : Prop :=
  Forall (reply_ok results convs) out ∧ NoDup (Out.IdempotencyKey <$> out).

Lemma outbox_ok_mono results results' convs convs' out :
  results ⊆ results' → grows conv_le convs convs' → outbox_ok results convs out → outbox_ok results' convs' out.
Proof.
  intros Hr Hc [H1 H2]. split; [|done]. eapply Forall_impl; [exact H1|]. intros e (mid & r & c & Hk & Hres & Hp & Hconv & Happ).
  destruct (Hc _ _ Hconv) as (c' & Hc' & []). exists mid, r, c'. split_and!; try done; [by eapply lookup_weaken|congruence].
Qed.

(** What of an entry matters here. *)
Definition out_view (e : OutboxEntry) : string * string * string :=
  (Out.IdempotencyKey e, Out.ConversationID e, json_compact (Out.Payload e)).

Lemma outbox_ok_view results convs out out' :
  out_view <$> out' = out_view <$> out → outbox_ok results convs out → outbox_ok results convs out'.
Proof.
  intros Hv [H1 H2]. split.
  - apply Forall_forall. intros e' He'. assert (out_view e' ∈ out_view <$> out) as (e & Heq & He)%list_elem_of_fmap
      by (rewrite <-Hv; by apply list_elem_of_fmap_2).
    rewrite Forall_forall in H1. destruct (H1 e He) as (mid & r & c & Hrest). injection Heq as Ek Ec Ep.
    exists mid, r, c. by rewrite Ek, Ec, Ep.
  - assert (∀ l, Out.IdempotencyKey <$> l = (λ v, v.1.1) <$> (out_view <$> l)) as E by (intros l; by rewrite <-list_fmap_compose).
    rewrite E, Hv, <-E. done.
Qed.

Lemma outbox_ok_fmap results convs f out :
  (∀ e, out_view (f e) = out_view e) → outbox_ok results convs out → outbox_ok results convs (f <$> out).
Proof.
  intros Hf. apply outbox_ok_view. rewrite <-list_fmap_compose. apply list_fmap_ext. intros i e _. apply Hf.
Qed.

Record SInv (st : supervisorState) : Prop := {
  inv_audit : audit_ok (NextSequence st) (Audit st);
  inv_apps : map_Forall app_ok (Applications st);
  inv_charge : charge_ok (Applications st) (Results st);
  inv_prepared : map_Forall (λ _ p, usage_ok (Turn.TurnUsage p)) (Prepared st);
  inv_mail : mail_ok (Mailbox st);
  inv_ids : ids_ok (NextSequence st) (Mailbox st);
  inv_retired : retired_ok (Applications st) (Mailbox st);
  inv_boxes : boxes_ok (Applications st) (Mailbox st);
  inv_confirm : pending_confirmations (Confirmations st) ≤ maxPendingConfirmations;
  inv_routes : length (RouteRecords st) ≤ maxRouteRecords;
  inv_tokens : length (RevokedTokens st) ≤ maxRevokedTokens;
  inv_witness : length (WitnessCheckpoints st) ≤ maxWitnessCheckpoints
                ∧ Forall (anchored (Audit st)) (WitnessCheckpoints st);
  inv_convs : map_Forall (λ k c, k = conversationKeyFor c) (Conversations st);
  inv_transfers : length (Transfers st) ≤ maxTransfers;
  inv_binds : binds_ok (Bindings st);
  inv_mounts : map_Forall (mount_ok (NextSequence st)) (HostfsMounts st);
  inv_outbox : outbox_ok (Results st) (Conversations st) (Outbox st);
}.

Lemma anchored_prefix l l' cp : l `prefix_of` l' → anchored l cp → anchored l' cp.
Proof.
  intros [k ->] [H1 H2]. split; [done|]. apply fmap_Some in H2 as (r & Hr & ->).
  by rewrite (lookup_app_l_Some _ _ _ _ Hr).
Qed.

(** A change to the state that keeps the invariant and moves it forward in the
    preorder. *)
Record ok_step (st st' : supervisorState) : Prop := {
  os_inv : SInv st → SInv st';
  os_evolves : SInv st → evolves st st';
}.

Global Instance ok_step_preorder : PreOrder ok_step.
Proof.
  split; [by split|]. intros a b c [Ha1 Ha2] [Hb1 Hb2]. split; [auto|].
  intros H. etrans; [by apply Ha2|auto].
Qed.

(** Discharge the fields of [SInv] and [evolves] an update does not touch. *)
Ltac step_fields :=
  split; [intros []; split|intros []; split]; cbn; try done; try (by apply outbox_le_refl).

(** *** Steps of single fields *)

Lemma step_next st : ok_step st {| st with NextSequence := (NextSequence st + 1)%Z |}.
Proof.
  step_fields; eauto using audit_ok_next, ids_ok_next, mounts_ok_next. lia.
Qed.

(** One application changes; its counters stay. *)
Record app_update (a a' : Application) : Prop := {
  au_id : App.ApplicationID a' = App.ApplicationID a;
  au_counters : same_counters a a';
  au_limit : in_u64 (App.TokenLimit a');
  au_taint : in_u64 (App.TaintBits a');
  au_le : app_le a a';
}.

Lemma apps_ok_alter (apps : gmap string Application) f id :
  map_Forall app_ok apps → (∀ a, apps !! id = Some a → app_ok id a → app_ok id (f a)) →
  map_Forall app_ok (alter f id apps).
Proof.
  intros H Hf k a. rewrite lookup_alter. case_decide; subst; [|by apply H].
  intros (b & Hb & ->)%fmap_Some. apply Hf; [done|]. by apply H.
Qed.

Lemma retired_ok_alter (apps : gmap string Application) mb f id :
  retired_ok apps mb →
  (∀ a, apps !! id = Some a → App.State (f a) = tombstoned → App.State a = tombstoned ∨ silent (box mb id)) →
  retired_ok (alter f id apps) mb.
Proof.
  intros H Hf k a. rewrite lookup_alter. case_decide; subst; [|by apply H].
  intros (b & Hb & ->)%fmap_Some Ht. destruct (Hf b Hb Ht); [by eapply H|done].
Qed.

Lemma boxes_ok_alter (apps : gmap string Application) mb f id :
  boxes_ok apps mb → boxes_ok (alter f id apps) mb.
Proof.
  intros H k ms Hk. rewrite lookup_alter. pose proof (H k ms Hk). case_decide; subst; [|done].
  by apply fmap_is_Some.
Qed.

(** An application becomes retired only when its mailbox is silent. *)
Lemma step_app_state st id f :
  (∀ a, Applications st !! id = Some a → app_ok id a → app_update a (f a) ∧
     (App.State (f a) = tombstoned → App.State a = tombstoned ∨ silent (messages_of st id))) →
  ok_step st (update_app id f st).
Proof.
  intros Hf. unfold update_app. step_fields.
  - apply apps_ok_alter; [done|]. intros a Ha Hok. destruct (Hf a Ha Hok) as [[? [? ?] ? ? ?] _], Hok.
    split; congruence || done.
  - apply charge_ok_alter; [done|]. intros a Ha. by apply Hf, inv_apps0.
  - apply retired_ok_alter; [done|]. intros a Ha. by apply Hf, inv_apps0.
  - by apply boxes_ok_alter.
  - apply grows_alter; [apply _|]. intros a Ha _.
    destruct (Hf a Ha (inv_apps0 _ _ Ha)) as [[] _]. split; [by apply au_limit0|done].
Qed.

Lemma step_app st id f :
  (∀ a, Applications st !! id = Some a → app_ok id a → app_update a (f a) ∧
     (App.State (f a) = tombstoned → App.State a = tombstoned)) →
  ok_step st (update_app id f st).
Proof. intros Hf. apply step_app_state. intros a Ha Hok. destruct (Hf a Ha Hok). split; auto. Qed.

(** A new application. *)
Lemma step_new_app st a :
  Applications st !! App.ApplicationID a = None → app_ok (App.ApplicationID a) a →
  App.TokensUsed a = 0%Z → App.TokensCached a = 0%Z → App.State a ≠ tombstoned →
  ok_step st (insert_application a st).
Proof.
  intros Hn Hok Hu Hc Ht. unfold insert_application. set (id := App.ApplicationID a) in *.
  split; intros H; destruct H; assert (Mailbox st !! id = None) as Hb by
    (destruct (Mailbox st !! id) eqn:E; [apply inv_boxes0 in E as [? ?]; congruence|done]);
    split; cbn; try done; try (by apply outbox_le_refl).
  - by apply map_Forall_insert_2.
  - by apply charge_ok_new.
  - by apply mail_ok_new.
  - apply ids_ok_settle; [|done]. unfold box. by rewrite Hb.
  - intros k b Hk Hkt. rewrite lookup_insert in Hk. rewrite box_set. case_decide; simplify_eq. by eapply inv_retired0.
  - intros k ms. rewrite !lookup_insert. case_decide; [eauto|]. by apply inv_boxes0.
  - apply grows_insert; [apply _|]. intros b Hb'. congruence.
  - apply grows_insert; [apply _|]. intros b Hb'. congruence.
Qed.

(** One mailbox progresses. *)
Lemma step_messages st id f :
  f [] = [] → (SInv st → Forall2 message_le (messages_of st id) (f (messages_of st id))) →
  ok_step st (update_messages id f st).
Proof.
  intros Hnil Hf. unfold update_messages. change (messages_of st id) with (box (Mailbox st) id) in Hf.
  assert (∀ k ms, alter f id (Mailbox st) !! k = Some ms → is_Some (Mailbox st !! k)) as Hdom.
  { intros k ms. rewrite lookup_alter. case_decide; [|eauto]. subst. intros (? & ? & _)%fmap_Some. eauto. }
  destruct (alter_box f (Mailbox st) id Hnil) as [E|E]; rewrite E in *.
  { by destruct st. }
  split; [intros H; pose proof (Hf H) as Hle; destruct H; split
         |intros H; pose proof (Hf H) as Hle; split]; cbn; try done; try (by apply outbox_le_refl).
  - by apply mail_ok_settle.
  - by apply ids_ok_settle.
  - by apply retired_ok_settle.
  - intros k ms Hk. destruct (Hdom k ms Hk) as [ms0 Hms0]. by eapply inv_boxes0.
  - by apply mail_grows_settle.
Qed.

(** Fields outside the invariant and the preorder. *)
Lemma step_timers st x : ok_step st {| st with Timers := x |}.
Proof. step_fields. Qed.
Lemma step_kernel_id st x : ok_step st {| st with NextKernelID := x |}.
Proof. step_fields. Qed.
Lemma step_kernel_pending st x : ok_step st {| st with KernelPending := x |}.
Proof. step_fields. Qed.

#[export] Hint Resolve step_next step_timers step_kernel_id step_kernel_pending : aok.

(** *** Commits *)

Lemma durable_mailbox st : mail_ok (Mailbox st) → Mailbox (durable st) = Mailbox st.
Proof.
  intros [Hb _ _]. unfold durable. cbn. apply map_eq. intros k. rewrite lookup_fmap.
  destruct (Mailbox st !! k) as [ms|] eqn:E; simpl; [|done]. f_equal.
  destruct (Hb k ms E) as [_ Hp _ _]. clear -Hp. induction Hp as [|m ms Hm Hms IH]; csimpl; [done|].
  f_equal; [|done]. destruct m. unfold message_ok in Hm. cbn in *. by rewrite Hm.
Qed.

Lemma durable_step st : ok_step st (durable st).
Proof.
  split; [intros H; pose proof (durable_mailbox st (inv_mail st H)) as E; destruct H; split
         |intros H; pose proof (durable_mailbox st (inv_mail st H)) as E; split]; rewrite ?E; cbn; try done.
  - by rewrite length_fmap.
  - apply outbox_ok_fmap; [|done]. intros e. unfold out_view. cbn. by rewrite json_compact_idem.
  - intros e He Hp. left. eexists. split; [by apply list_elem_of_fmap_2|]. split; [done|].
    split; try done. cbn. apply json_compact_idem.
Qed.

Lemma durable_back st : SInv st → evolves (durable st) st.
Proof.
  intros H. pose proof (durable_mailbox st (inv_mail st H)) as E. split; rewrite ?E; cbn; try done.
  intros e He Hp. apply list_elem_of_fmap in He as (e0 & -> & He). left. exists e0. split_and!; [done..|].
  split; try done. cbn. by rewrite json_compact_idem.
Qed.

(** *** All mailboxes progress *)

Section settle_all.
Context (g : string → list MailboxMessage → list MailboxMessage)
  (Hg : ∀ id ms, Forall2 message_le ms (g id ms)).

Definition settle_all (mb : mailboxes) : mailboxes := map_imap (λ id ms, Some (g id ms)) mb.

Lemma settle_all_lookup mb id : settle_all mb !! id = g id <$> mb !! id.
Proof. unfold settle_all. rewrite map_lookup_imap. by destruct (mb !! id). Qed.

Lemma settle_all_insert mb id ms : settle_all (<[id := ms]> mb) = <[id := g id ms]> (settle_all mb).
Proof. unfold settle_all. by rewrite (map_imap_insert_Some _ _ _ _ (g id ms)). Qed.

Lemma settle_all_box mb id : Forall2 message_le (box mb id) (box (settle_all mb) id).
Proof using Hg. unfold box. rewrite settle_all_lookup. destruct (mb !! id); simpl; [apply Hg|done]. Qed.

Lemma settle_all_empty mb id : mb !! id = None → box mb id = [] ∧ box (settle_all mb) id = [].
Proof. intros H. unfold box. by rewrite settle_all_lookup, H. Qed.

Lemma settle_all_total f mb :
  f [] = 0%Z → (∀ ms ms', Forall2 message_le ms ms' → f ms' ≤ f ms)%Z → (total f (settle_all mb) ≤ total f mb)%Z.
Proof using Hg.
  intros Hf Hle. induction mb as [|id ms mb Hn IH] using map_ind; [done|].
  destruct (settle_all_empty mb id Hn) as [E1 E2].
  rewrite settle_all_insert, !total_set by done. rewrite E1, E2. specialize (Hle _ _ (Hg id ms)). lia.
Qed.

Lemma settle_all_sequences mb : sequences (settle_all mb) ≡ₚ sequences mb.
Proof using Hg.
  induction mb as [|id ms mb Hn IH] using map_ind; [done|].
  destruct (settle_all_empty mb id Hn) as [E1 E2].
  rewrite settle_all_insert, !sequences_set, (settle_sequences _ _ (Hg id ms)).
  rewrite (delete_id mb) by done. rewrite delete_id by (by rewrite settle_all_lookup, Hn). by rewrite IH.
Qed.

Lemma step_settle_all st : ok_step st {| st with Mailbox := settle_all (Mailbox st) |}.
Proof using Hg.
  step_fields.
  - destruct inv_mail0 as [Hb Hc Hy]. split.
    + intros id ms'. rewrite settle_all_lookup. intros (ms & Hms & ->)%fmap_Some.
      eapply settle_box; [apply Hg|]. by eapply Hb.
    + etrans; [apply settle_all_total; [done|apply settle_count]|done].
    + etrans; [apply settle_all_total; [done|apply settle_bytes]|done].
  - intros Hn. destruct (inv_ids0 Hn) as [Hd Hm]. split; [by rewrite settle_all_sequences|].
    intros id ms'. rewrite settle_all_lookup. intros (ms & Hms & ->)%fmap_Some.
    eapply settle_named; [apply Hg|]. by eapply Hm.
  - intros id a Ha Ht. eapply settle_silent; [apply settle_all_box|]. by eapply inv_retired0.
  - intros id ms'. rewrite settle_all_lookup. intros (ms & Hms & ->)%fmap_Some. by eapply inv_boxes0.
  - intros id ms Hms. exists (g id ms). split; [by rewrite settle_all_lookup, Hms|]. apply settle_messages, Hg.
Qed.
End settle_all.
