(* ===== verification/Safety.v ===== *)
(** * Safety of a running supervisor

    [Good] relates a running supervisor to the durable state and the context store
    it started from: the invariant holds of the committed and of the live state,
    the commits only move forward from the start, and the live state only from the
    commits.  A handler is [safe] when it keeps [Good] on every path, errors and
    failed commits included. *)

From Stdlib Require Import Ascii.
From stdpp Require Import base tactics option list gmap sets strings numbers pretty sorting.
From S2P Require Import Prelude Monad GoLib Json Crypto Policy ContextStore State Taint Mailbox Lifecycle.
From S2P Require Import Invariant.

(** ** Named effects on the supervisor *)

Definition with_state (f : supervisorState → supervisorState) (s : Supervisor) : Supervisor :=
  {| s with state := f (state s) |}.

Definition ticked (s : Supervisor) : Supervisor := {| s with tick := S (tick s) |}.

Definition restored (s : Supervisor) : Supervisor :=
  {| s with
     state := committed s;
     sourced := rescanSourced (committed s);
     previousHash := last_hash (Audit (committed s)) |}.

Definition saved (s : Supervisor) : Supervisor := {| (ticked s) with committed := durable (state s) |}.

Definition stored (cs : ContextStore) (s : Supervisor) : Supervisor := {| (ticked s) with store := cs |}.

(** A change outside the durable state and the store. *)
Definition local (s s' : Supervisor) : Prop :=
  state s' = state s ∧ committed s' = committed s ∧ previousHash s' = previousHash s ∧ store s' = store s.

Section audited.
Context (env : Env) (principal applicationID action object decision reason : string).

Definition audit_record (s : Supervisor) : AuditRecord :=
  let r := Aud.mk (u64 (NextSequence (state s) + 1)) (clock env (tick s)) principal applicationID action object
             decision reason (previousHash s) "" in
  {| r with Aud.Hash := auditHash r |}.

Definition audited (s : Supervisor) : Supervisor :=
  {| s with
     tick := S (tick s);
     previousHash := Aud.Hash (audit_record s);
     state := {| (state s) with
       NextSequence := (NextSequence (state s) + 1)%Z;
       Audit := Audit (state s) ++ [audit_record s] |} |}.

Lemma wp_audit (Q : result error unit → Supervisor → Prop) s :
  Q (Ok ()) (audited s) → wp (auditLocked env principal applicationID action object decision reason) Q s.
Proof. done. Qed.
End audited.

(** Consecutive changes as one. *)
Lemma ticked_with_state f s : ticked (with_state f s) = with_state f (ticked s).
Proof. done. Qed.
Lemma with_state_compose g f s : with_state g (with_state f s) = with_state (λ st, g (f st)) s.
Proof. done. Qed.

Section wp.
Context (env : Env).
Implicit Types s : Supervisor.

Lemma wp_modify_state f (Q : result error unit → Supervisor → Prop) s :
  Q (Ok ()) (with_state f s) → wp (modify_state f) Q s.
Proof. done. Qed.

Lemma wp_gets {A} (f : supervisorState → A) (Q : result error A → Supervisor → Prop) s :
  Q (Ok (f (state s))) s → wp (gets f) Q s.
Proof. done. Qed.

Lemma wp_with_tick {A} (f : nat → A) (Q : result error A → Supervisor → Prop) s :
  Q (Ok (f (tick s))) (ticked s) → wp (with_tick f) Q s.
Proof. done. Qed.

Lemma wp_now (Q : result error Z → Supervisor → Prop) s :
  Q (Ok (clock env (tick s))) (ticked s) → wp (now env) Q s.
Proof. done. Qed.

Lemma wp_rand n (Q : result error (list Z) → Supervisor → Prop) s :
  (∀ b, entropy env (tick s) n = Some b → Q (Ok b) (ticked s)) →
  (entropy env (tick s) n = None → Q (Err ErrIO) (ticked s)) →
  wp (rand_read env n) Q s.
Proof.
  intros H1 H2. unfold rand_read. apply wp_bind, wp_with_tick.
  destruct (entropy env (tick s) n); [by apply H1|by apply H2].
Qed.

Lemma wp_restore (Q : result error unit → Supervisor → Prop) s :
  Q (Ok ()) (restored s) → wp restoreLocked Q s.
Proof. done. Qed.

Lemma wp_persist (Q : result error unit → Supervisor → Prop) s :
  Q (Ok ()) (saved s) → Q (Err ErrIO) (restored (ticked s)) → wp (persistLocked env) Q s.
Proof.
  intros H1 H2. unfold persistLocked. apply wp_bind, wp_with_tick. by destruct (disk env (tick s)).
Qed.

Lemma wp_next_sequence (Q : result error Z → Supervisor → Prop) s :
  Q (Ok (u64 (NextSequence (state s) + 1)))
    (with_state (λ st, {| st with NextSequence := (NextSequence st + 1)%Z |}) s) →
  wp next_sequence Q s.
Proof. done. Qed.

Lemma wp_with_store {A} (f : bool → M ContextStore A) (Q : result error A → Supervisor → Prop) s :
  wp (f (disk env (tick s))) (λ r cs, Q r (stored cs s)) (store s) → wp (with_store env f) Q s.
Proof. unfold wp, with_store. by destruct (f _ _). Qed.
End wp.

(** One statement of a supervisor handler. *)
Ltac sup_step :=
  lazymatch goal with
  | |- wp (modify_state _) _ _ => apply wp_modify_state
  | |- wp (gets _) _ _ => apply wp_gets
  | |- wp (now _) _ _ => apply wp_now
  | |- wp (with_tick _) _ _ => apply wp_with_tick
  | |- wp (rand_read _ _) _ _ => apply wp_rand; [intros ? ?|intros ?]
  | |- wp restoreLocked _ _ => apply wp_restore
  | |- wp (persistLocked _) _ _ => apply wp_persist
  | |- wp next_sequence _ _ => apply wp_next_sequence
  | |- wp (auditLocked _ _ _ _ _ _ _) _ _ => apply wp_audit
  | _ => wp_step
  end; cbn beta iota.
Ltac sup_steps := repeat sup_step.

(** The handlers known to be safe. *)
Create HintDb safety.

(** ** Good supervisors *)

Record Good (c0 : supervisorState) (cs0 : ContextStore) (s : Supervisor) : Prop := {
  g_committed : SInv (committed s);
  g_from : evolves c0 (committed s);
  g_state : SInv (state s);
  g_ahead : evolves (committed s) (state s);
  g_hash : previousHash s = last_hash (Audit (state s));
  g_store : store_wf (store s);
  g_extends : extends cs0 (store s);
}.

Definition safe {A} (m : M Supervisor A) : Prop :=
  ∀ c0 cs0 s, Good c0 cs0 s → wp m (λ _ s', Good c0 cs0 s') s.

Section good.
Context (c0 : supervisorState) (cs0 : ContextStore).
Implicit Types s : Supervisor.
Local Abbreviation good := (Good c0 cs0).

Lemma good_local s s' : good s → local s s' → good s'.
Proof. intros [] (E1 & E2 & E3 & E4). split; by rewrite ?E1, ?E2, ?E3, ?E4. Qed.

Lemma good_ticked s : good s → good (ticked s).
Proof. intros. by eapply good_local. Qed.

Lemma good_with_state f s :
  good s → Audit (f (state s)) = Audit (state s) → ok_step (state s) (f (state s)) → good (with_state f s).
Proof.
  intros [] Ha []. split; cbn; auto.
  - etrans; [done|auto].
  - by rewrite Ha.
Qed.

Lemma good_restored s : good s → good (restored s).
Proof. intros []. by split; cbn. Qed.

Lemma good_saved s : good s → good (saved s).
Proof.
  intros []. destruct (durable_step (state s)) as [Hi He]. split; cbn; auto.
  - etrans; [done|]. etrans; [done|auto].
  - by apply durable_back.
Qed.

Lemma good_stored cs s : good s → store_step (store s) cs → good (stored cs s).
Proof. intros [] []. split; cbn; try done. by etrans. Qed.

Lemma last_hash_snoc l r : last_hash (l ++ [r]) = Aud.Hash r.
Proof. unfold last_hash. by rewrite last_snoc. Qed.

(** An audit record may come with a change whose progress it documents. *)
Lemma good_audit_with f env p i a o d r s :
  good s → Audit (f (state s)) = Audit (state s) → NextSequence (f (state s)) = NextSequence (state s) →
  (SInv (state s) → SInv (f (state s))) →
  evolves (state s) (state (audited env p i a o d r (with_state f s))) →
  good (audited env p i a o d r (with_state f s)).
Proof.
  intros [] Ha Hn Hi He. pose proof (Hi g_state0) as Hs.
  split; try done; cbn; [|by etrans|by rewrite last_hash_snoc].
  destruct Hs. split; cbn; try done.
  - apply audit_ok_snoc; try done. cbn. rewrite Ha. done.
  - by apply ids_ok_next.
  - destruct inv_witness as [? Hw]. split; [done|].
    eapply Forall_impl; [exact Hw|]. intros cp. apply anchored_prefix. by apply prefix_app_r.
  - by apply mounts_ok_next.
Qed.

Lemma good_audited env p i a o d r s : good s → good (audited env p i a o d r s).
Proof.
  intros Hg. replace (audited env p i a o d r s) with (audited env p i a o d r (with_state (λ st, st) s)) by by destruct s.
  apply good_audit_with; try done. split; cbn; try done.
  - by apply prefix_app_r.
  - lia.
  - apply outbox_le_refl.
Qed.
End good.

#[export] Hint Resolve good_ticked good_restored good_saved good_audited : aok.

(** Peel the effects off the supervisor the goal is about; changes of the durable
    state remain as steps to prove. *)
Ltac good :=
  repeat first
    [ eassumption
    | match goal with H : local ?s ?s' |- Good _ _ ?s' => apply (good_local _ _ s s'); [|exact H] end
    | apply good_ticked | apply good_restored | apply good_saved | apply good_audited
    | apply good_with_state; [| reflexivity | cbn [state with_state ticked restored saved stored audited committed] ] ].

(** ** Composition *)

Section safe.
Context (env : Env).

Lemma safe_wp {A} (m : M Supervisor A) c0 cs0 s Q :
  safe m → Good c0 cs0 s → (∀ r s', Good c0 cs0 s' → Q r s') → wp m Q s.
Proof. intros Hm Hg HQ. eapply wp_mono; [by apply Hm|]. auto. Qed.

Lemma safe_local (f : Supervisor → Supervisor) : (∀ s, local s (f s)) → safe (modify f).
Proof. intros Hf c0 cs0 s Hg. apply wp_modify. by eapply good_local. Qed.

Lemma wp_modify_local (f : Supervisor → Supervisor) s (Q : result error unit → Supervisor → Prop) :
  local s (f s) → (∀ s', local s s' → Q (Ok ()) s') → wp (modify f) Q s.
Proof. intros H1 H2. apply wp_modify. by apply H2. Qed.

(** A store operation of the history in [ContextStore]. *)
Lemma wp_store_op (f : bool → store_op) c0 cs0 s (Q : result error string → Supervisor → Prop) :
  Good c0 cs0 s → (∀ io, op_ok (f io)) →
  (∀ r cs, Good c0 cs0 (stored cs s) → Q r (stored cs s)) →
  wp (with_store env (λ io, store_exec (f io))) Q s.
Proof.
  intros Hg Hop HQ. apply wp_with_store. eapply wp_mono; [apply store_exec_step; [done|apply Hg]|].
  intros r cs Hcs. by apply HQ, good_stored.
Qed.

(** The same with fresh random bytes. *)
Lemma wp_store_random (f : bool → option (list Z) → store_op) n c0 cs0 s (Q : result error string → Supervisor → Prop) :
  env_ok env → Good c0 cs0 s → (∀ io rnd, random_ok rnd → op_ok (f io rnd)) →
  (∀ r cs, Good c0 cs0 (stored cs (ticked s)) → Q r (stored cs (ticked s))) →
  wp (with_store_random env n (λ io rnd, store_exec (f io rnd))) Q s.
Proof.
  intros Henv Hg Hop HQ. unfold with_store_random. apply wp_bind, wp_with_tick.
  eapply (wp_store_op (λ io, f io _)); [by apply good_ticked| |done].
  intros io. apply Hop. intros b Hb. by eapply Henv.
Qed.

(** A store operation that only reads. *)
Lemma wp_store_read {A} (f : bool → M ContextStore A) s (P : result error A → Prop)
    (Q : result error A → Supervisor → Prop) :
  (∀ io, wp (f io) (λ r cs, cs = store s ∧ P r) (store s)) →
  (∀ r, P r → Q r (ticked s)) →
  wp (with_store env f) Q s.
Proof.
  intros Hf HQ. apply wp_with_store. eapply wp_mono; [apply Hf|].
  intros r cs [-> Hr]. specialize (HQ r Hr). by destruct s.
Qed.
End safe.

(** Call a handler known to be safe. *)
Ltac safe_call lem :=
  eapply safe_wp; [apply lem|good|]; intros [?|?] ? ?; try done.

(** Statements of a handler, forgetting what happens outside the durable state. *)
Ltac safe_steps :=
  repeat first
    [ lazymatch goal with |- wp (modify _) _ _ => apply wp_modify_local; [by split_and!|intros ? ?; cbn beta iota] end
    | sup_step ].
