(* ===== verification/MailboxProofs.v ===== *)
(** * The mailbox: delivery, capacity and idempotence *)

From Stdlib Require Import Ascii.
From stdpp Require Import base tactics option list gmap sets strings numbers pretty sorting.
From S2P Require Import Prelude Monad GoLib Json Crypto Policy ContextStore State Taint Mailbox Lifecycle.
From S2P Require Import Invariant Safety.

(** ** Enqueueing *)

Definition push (id : string) (m : MailboxMessage) (st : supervisorState) : supervisorState :=
  {| st with Mailbox := <[id := messages_of st id ++ [m]]> (Mailbox st) |}.

Definition count_up (st : supervisorState) : supervisorState :=
  {| st with NextSequence := (NextSequence st + 1)%Z |}.

(** The message a successful delivery adds. *)
Definition new_message (env : Env) (s : Supervisor) (key payload : string) : MailboxMessage :=
  let n := u64 (NextSequence (state s) + 1) in
  Msg.mk ("msg-" +:+ pretty n) key (json_compact payload) pending n (clock env (tick s)) 0.

Definition has_room (st : supervisorState) (id payload : string) : Prop :=
  accepts (ApplicationUsage (mailboxCapacityLocked st id)) (len payload) = true ∧
  accepts (SupervisorUsage (mailboxCapacityLocked st id)) (len payload) = true.

(** What [enqueueLocked] can do: refuse and change nothing, find the message
    already there, or add it and audit. *)
Inductive delivery (env : Env) (principal id key payload : string) (s : Supervisor) :
    result error MailboxMessage → Supervisor → Prop :=
  | delivery_refused e : delivery env principal id key payload s (Err e) s
  | delivery_present a m :
      Applications (state s) !! id = Some a → ¬ retired_app a → key ≠ "" → (len key ≤ 256)%Z →
      find_first (has_key key) (messages_of (state s) id) = Some m → Msg.Payload m = json_compact payload →
      delivery env principal id key payload s (Ok m) s
  | delivery_added a :
      Applications (state s) !! id = Some a → ¬ retired_app a → json_valid payload = true →
      key ≠ "" → (len key ≤ 256)%Z → (len payload ≤ 6 * maxTextBytes)%Z →
      find_first (has_key key) (messages_of (state s) id) = None →
      has_room (state s) id (json_compact payload) →
      delivery env principal id key payload s (Ok (new_message env s key payload))
        (audited env principal id "mailbox.enqueue" key "allow" ""
          (with_state (push id (new_message env s key payload)) (ticked (with_state count_up s)))).

Lemma enqueue_delivery env principal id key payload s :
  wp (enqueueLocked env principal id key payload) (delivery env principal id key payload s) s.
Proof.
  unfold enqueueLocked. sup_steps; try apply delivery_refused.
  all: repeat match goal with H : ¬ (_ ∨ _) |- _ => apply Decidable.not_or in H as [? ?] end.
  - eapply (delivery_present env principal id key payload s a); try done. by apply dec_stable.
  - repeat match goal with H : _ ≠ false |- _ => apply not_false_iff_true in H end.
    apply (delivery_added env principal id key payload s a); try done; lia.
Qed.

Lemma good_delivery env principal id key payload c0 cs0 s r s' :
  Good c0 cs0 s → delivery env principal id key payload s r s' → Good c0 cs0 s'.
Proof.
  intros Hg. destruct 1 as [e|a m|a Ha Hret Hv _ _ _ Hk [H1 H2]]; try done.
  apply good_audited. rewrite ticked_with_state, with_state_compose.
  apply good_with_state; [by apply good_ticked|done|]. cbn.
  unfold accepts in *. rewrite bool_decide_eq_true in H1, H2. cbn in H1, H2.
  change (messages_of (state s) id) with (box (Mailbox (state s)) id) in *.
  split; [intros []; split|intros []; split]; cbn; try done; try (by apply outbox_le_refl).
  - by apply audit_ok_next.
  - apply mail_ok_snoc; try done; cbn; try lia. apply json_compact_idem.
  - apply ids_ok_snoc; try done. apply inv_audit.
  - eapply retired_ok_snoc; [done..|]. unfold retired_app in Hret. naive_solver.
  - intros k ms. rewrite lookup_insert. case_decide; subst; [by rewrite Ha; eauto|]. by apply inv_boxes.
  - by apply mounts_ok_next.
  - apply mail_grows_snoc.
  - lia.
Qed.

Lemma safe_enqueueLocked env principal id key payload : safe (enqueueLocked env principal id key payload).
Proof.
  intros c0 cs0 s Hg. eapply wp_mono; [apply enqueue_delivery|]. intros r s' Hd. by eapply good_delivery.
Qed.

Lemma safe_Enqueue env principal id key payload : safe (Enqueue env principal id key payload).
Proof.
  intros c0 cs0 s Hg. unfold Enqueue. sup_steps; try done.
  eapply safe_wp; [apply safe_enqueueLocked|done|]. intros [m|e] s' Hg'; [|done].
  sup_steps; good.
Qed.

(** ** Claims and acknowledgements *)

Lemma message_le_status status m :
  status_le (Msg.Status m) status → message_le m (set_status status m).
Proof. by split. Qed.

Lemma claim_message_le m : message_le m (claim_message m).
Proof. unfold claim_message. case_decide as E; [|done]. apply message_le_status. by rewrite E. Qed.

Lemma expire_message_le m : message_le m (expire_message m).
Proof.
  unfold expire_message. destruct (is_live (Msg.Status m)) eqn:E; [|done]. apply message_le_status.
  by destruct (Msg.Status m).
Qed.

(** Taint is only added. *)
Lemma add_taint_update taint id a : in_u64 taint → app_ok id a → app_update a (add_taint taint a).
Proof.
  intros Ht []. split; try done.
  - by apply lor_u64.
  - split; try done; cbn; [by apply narrows_refl; destruct ao_limit|apply submask_lor].
Qed.


Lemma step_add_taint taint id st : in_u64 taint → ok_step st (update_app id (add_taint taint) st).
Proof. intros Ht. apply step_app. intros a _ Hok. split; [by eapply add_taint_update|done]. Qed.

Lemma good_accumulate taint id c0 cs0 s :
  in_u64 taint → Good c0 cs0 s → Good c0 cs0 (with_state (update_app id (add_taint taint)) s).
Proof. intros. apply good_with_state; [done..|]. by apply step_add_taint. Qed.

Lemma safe_accumulateTaint taint id : in_u64 taint → safe (accumulateTaint id taint).
Proof. intros Ht c0 cs0 s Hg. unfold accumulateTaint. sup_steps; [done|]. by apply good_accumulate. Qed.

Lemma safe_fold_taints id ms : safe (fold_taints id ms).
Proof.
  induction ms as [|m ms IH]; intros c0 cs0 s Hg; simpl; sup_steps; [done|].
  eapply safe_wp; [apply safe_accumulateTaint, uint64_field_range|done|].
  intros [u|e] s' Hg'; [by apply IH|done].
Qed.

Lemma safe_foldTaint env id taint : in_u64 taint → safe (foldTaint env id taint).
Proof.
  intros Ht c0 cs0 s Hg. unfold foldTaint. sup_steps; [done|].
  eapply safe_wp; [by apply safe_accumulateTaint|done|]. intros [u|e] s' Hg'; [|done]. sup_steps; good.
Qed.

Lemma safe_ClaimMailbox env principal id : safe (ClaimMailbox env principal id).
Proof.
  intros c0 cs0 s Hg. unfold ClaimMailbox. sup_steps; try done.
  assert (Good c0 cs0 (with_state (update_messages id (fmap claim_message)) s)) as Hg1.
  { apply good_with_state; [done..|]. apply step_messages; [done|]. intros _.
    apply settle_fmap. intros m _. apply claim_message_le. }
  eapply safe_wp; [apply safe_fold_taints|done|]. intros [u|e] s' Hg'; [|done]. sup_steps; good.
Qed.

(** Acknowledging one message. *)
Lemma step_set_status st id messageID status m :
  find_first (has_id messageID) (messages_of st id) = Some m → status_le (Msg.Status m) status →
  ok_step st (update_messages id (update_first (has_id messageID) (set_status status)) st).
Proof.
  intros Hm Hs. apply step_messages; [done|]. intros _. apply settle_update. intros m' Hm'.
  rewrite Hm in Hm'. simplify_eq. by apply message_le_status.
Qed.

Lemma safe_AckMailbox env principal id messageID : safe (AckMailbox env principal id messageID).
Proof.
  intros c0 cs0 s Hg. unfold AckMailbox. sup_steps; good.
  all: eapply step_set_status; [done|].
  all: assert (Msg.Status a = claimed) as -> by (by apply dec_stable); done.
Qed.

Lemma safe_requeueClaim env id messageID : safe (requeueClaim env id messageID).
Proof.
  intros c0 cs0 s Hg. unfold requeueClaim. sup_steps; good.
  all: eapply step_set_status; [done|].
  all: assert (Msg.Status a = claimed) as -> by (by apply dec_stable); done.
Qed.

#[export] Hint Resolve safe_Enqueue safe_ClaimMailbox safe_AckMailbox safe_requeueClaim safe_foldTaint : safety.
