(* ===== verification/TaintProofs.v ===== *)
(** * The export gate and its confirmations *)

From Stdlib Require Import Ascii.
From stdpp Require Import base tactics option list gmap sets strings numbers pretty sorting.
From S2P Require Import Prelude Monad GoLib Json Crypto Policy ContextStore State Taint Mailbox Lifecycle.
From S2P Require Import Invariant Safety MailboxProofs.

Abbreviation confirmations := (gmap string ConfirmationRequest).

Definition is_pending_request (kv : string * ConfirmationRequest) : Prop := Cfm.Status (snd kv) = cfm_pending.

Section pending.
Implicit Types c : confirmations.

Lemma pending_mono c c' :
  (∀ k r, c' !! k = Some r → Cfm.Status r = cfm_pending → ∃ r0, c !! k = Some r0 ∧ Cfm.Status r0 = cfm_pending) →
  pending_confirmations c' ≤ pending_confirmations c.
Proof.
  intros H. unfold pending_confirmations. rewrite <-!size_dom. apply subseteq_size.
  intros k. rewrite !elem_of_dom. intros [r [Hr Hp]%map_lookup_filter_Some].
  destruct (H k r Hr Hp) as (r0 & Hr0 & Hp0). exists r0. by apply map_lookup_filter_Some.
Qed.

Lemma pending_insert c k r : pending_confirmations (<[k := r]> c) ≤ S (pending_confirmations c).
Proof.
  unfold pending_confirmations. destruct (decide (Cfm.Status r = cfm_pending)).
  - rewrite map_filter_insert_True by done. rewrite map_size_insert. case_match; simpl; unfold Datatypes.id; lia.
  - rewrite map_filter_insert_False by done. etrans; [apply map_subseteq_size|apply Nat.le_succ_diag_r].
    apply map_filter_subseteq_mono, delete_subseteq.
Qed.

Lemma pending_settled c k r : Cfm.Status r ≠ cfm_pending → pending_confirmations (<[k := r]> c) ≤ pending_confirmations c.
Proof.
  intros Hr. apply pending_mono. intros k' r' Hk Hp. rewrite lookup_insert in Hk. case_decide; simplify_eq; eauto.
Qed.

Lemma expire_stale_pending t r : Cfm.Status (expire_stale t r) = cfm_pending → Cfm.Status r = cfm_pending.
Proof. unfold expire_stale. by case_decide. Qed.

Lemma foldr_delete_lookup {A} (l : list (string * A)) (m : gmap string A) k r :
  foldr (λ kv m, delete (fst kv) m) m l !! k = Some r → m !! k = Some r.
Proof.
  induction l as [|[k' x] l IH]; simpl; [done|]. rewrite lookup_delete. case_decide; [done|]. auto.
Qed.

(** Sweeping expires and drops requests; it invents none. *)
Lemma sweep_lookup order t c k r :
  sweep order t c !! k = Some r → ∃ r0, c !! k = Some r0 ∧ r = expire_stale t r0.
Proof.
  unfold sweep. intros H. assert ((expire_stale t <$> c) !! k = Some r) as Hk.
  { case_decide; [done|]. by eapply foldr_delete_lookup. }
  rewrite lookup_fmap in Hk. apply fmap_Some in Hk as (r0 & ? & ?). eauto.
Qed.

Lemma sweep_pending order t c : pending_confirmations (sweep order t c) ≤ pending_confirmations c.
Proof.
  apply pending_mono. intros k r (r0 & ? & ->)%sweep_lookup Hp. exists r0. split; [done|].
  by eapply expire_stale_pending.
Qed.
End pending.

Lemma step_confirmations st c :
  (pending_confirmations (Confirmations st) ≤ maxPendingConfirmations →
   pending_confirmations c ≤ maxPendingConfirmations) →
  ok_step st {| st with Confirmations := c |}.
Proof. intros H. step_fields. auto. Qed.

Lemma step_settle st k r :
  Cfm.Status r ≠ cfm_pending → ok_step st {| st with Confirmations := <[k := r]> (Confirmations st) |}.
Proof. intros Hr. apply step_confirmations. intros. etrans; [by apply pending_settled|done]. Qed.

Section handlers.
Context (env : Env).

Lemma safe_escalate order principal a text : safe (escalateExportLocked env order principal a text).
Proof.
  intros c0 cs0 s Hg. unfold escalateExportLocked, sweepConfirmationsLocked. sup_steps; good.
  all: apply step_confirmations; intros; first
    [ etrans; [apply sweep_pending|done] | etrans; [apply pending_insert|]; cbn in *; lia ].
Qed.

Lemma safe_exportViaRequest principal a text requestID : safe (exportViaRequestLocked env principal a text requestID).
Proof.
  intros c0 cs0 s Hg. unfold exportViaRequestLocked. sup_steps; good.
  all: by apply step_settle.
Qed.

Lemma safe_exportApplication order principal id text confirm escalate requestID :
  safe (exportApplication env order principal id text confirm escalate requestID).
Proof.
  intros c0 cs0 s Hg. unfold exportApplication. sup_steps; good.
  - by apply safe_exportViaRequest.
  - by apply safe_escalate.
Qed.

Lemma safe_SettleConfirmation principal requestID approve : safe (SettleConfirmation env principal requestID approve).
Proof.
  intros c0 cs0 s Hg. unfold SettleConfirmation. sup_steps; good.
  all: apply step_settle; by destruct approve.
Qed.
End handlers.

#[export] Hint Resolve safe_exportApplication safe_SettleConfirmation : safety.
