(* ===== verification/LifecycleProofs.v ===== *)
(** * Applications over their life *)

From Stdlib Require Import Ascii.
From stdpp Require Import base tactics option list gmap sets strings numbers pretty sorting.
From S2P Require Import Prelude Monad GoLib Json Crypto Policy ContextStore State Taint Mailbox Lifecycle.
From S2P Require Import Invariant Safety MailboxProofs.

(** An update that touches neither identity, counters, limit nor taint. *)
Lemma keep_update id a a' :
  app_ok id a →
  App.ApplicationID a' = App.ApplicationID a → App.OwnerAgent a' = App.OwnerAgent a →
  App.ForkParent a' = App.ForkParent a → App.CreatedAt a' = App.CreatedAt a →
  App.ContextID a' = App.ContextID a → (App.KernelID a ≠ 0%Z → App.KernelID a' = App.KernelID a) →
  (App.Generation a ≤ App.Generation a')%Z →
  App.TokensUsed a' = App.TokensUsed a → App.TokensCached a' = App.TokensCached a →
  App.TokenLimit a' = App.TokenLimit a → App.TaintBits a' = App.TaintBits a →
  (dead a → dead a') → app_update a a'.
Proof.
  intros [] ??????? Hu Hc Hl Ht ?. split; rewrite ?Hl, ?Ht; try done.
  split; try done; rewrite ?Hl, ?Ht, ?Hu, ?Hc; try done. apply narrows_refl. by destruct ao_limit.
Qed.

(** A new state for an application that is not retired. *)
Lemma state_update id a st' :
  app_ok id a → App.State a ≠ tombstoned → (exhausted a → st' ≠ serving) →
  app_update a {| a with App.State := st' |}.
Proof.
  intros Hok Ht Hs. eapply keep_update; try done. intros [?|[Hx _]]; [done|]. right. split; [done|].
  by apply Hs.
Qed.

Section handlers.
Context (env : Env).

Lemma safe_SetRoutePolicy principal id backends : safe (SetRoutePolicy env principal id backends).
Proof.
  intros c0 cs0 s Hg. unfold SetRoutePolicy. sup_steps; good.
  all: apply step_app; intros b Hb Hok; (split; [by eapply keep_update|done]).
Qed.

Lemma safe_recordRoute record : safe (recordRouteLocked env record).
Proof.
  intros c0 cs0 s Hg. unfold recordRouteLocked. sup_steps; good; [apply step_next|].
  step_fields. apply keep_last_length.
Qed.

Lemma safe_SetApplicationState principal id newState : safe (SetApplicationState env principal id newState).
Proof.
  intros c0 cs0 s Hg. unfold SetApplicationState. sup_steps; good.
  all: apply step_app; intros b Hb Hok; simplify_eq.
  all: split; [eapply state_update; [done|done|]|by case_decide].
  all: intros Hx; case_decide; [done|]; naive_solver.
Qed.

Lemma limit_application_update id a limit :
  app_ok id a → in_u64 limit → App.State a ≠ tombstoned →
  ¬ (App.TokenLimit a ≠ 0 ∧ (limit = 0 ∨ limit > App.TokenLimit a))%Z →
  app_update a (limit_application limit a) ∧ App.State (limit_application limit a) ≠ tombstoned.
Proof.
  intros [? [? ?] [? ?] [? ?] ?] [? ?] Ht Hg. unfold limit_application.
  assert (narrows (App.TokenLimit a) limit) by (unfold narrows; lia).
  assert (dead a → exhausted {| a with App.TokenLimit := limit |}) as Hd.
  { intros [?|[Hx _]]; [done|]. unfold exhausted, narrows in *. cbn. lia. }
  case_decide as E; (split; [|done]); split; try done; split; try done.
  - intros _. by right.
  - intros Hdead. by destruct E; auto.
Qed.

Lemma safe_SetTokenLimit principal id limit : in_u64 limit → safe (SetTokenLimit env principal id limit).
Proof.
  intros Hl c0 cs0 s Hg. unfold SetTokenLimit. sup_steps; good.
  all: apply step_app; intros b Hb Hok; simplify_eq;
    edestruct limit_application_update as [? ?]; [done..|]; done.
Qed.

Lemma safe_AddTimer principal id timerID delay interval payload :
  safe (AddTimer env principal id timerID delay interval payload).
Proof. intros c0 cs0 s Hg. unfold AddTimer. sup_steps; good; apply step_timers. Qed.

Lemma safe_AuditContextPages principal id : safe (AuditContextPages env principal id).
Proof. intros c0 cs0 s Hg. unfold AuditContextPages. sup_steps; good. Qed.

Lemma Pages_spec io owner id cs : wp (Pages io owner id) (λ _ cs', cs' = cs) cs.
Proof.
  unfold Pages. apply wp_transact; [done|]. unfold authorizeContext, reject_if, wp, mbind, M_bind, get. by case_decide.
Qed.

Lemma safe_ContextPages id : safe (ContextPages env id).
Proof.
  intros c0 cs0 s Hg. unfold ContextPages. sup_steps; try exact Hg.
  eapply (wp_store_read env _ _ (λ _, True)); [intros io; eapply wp_mono; [apply Pages_spec|done]|]. intros r _. good.
Qed.

Lemma safe_deliver_due t keys : safe (deliver_due env t keys).
Proof.
  induction keys as [|[key timer] keys IH]; intros c0 cs0 s Hg; cbn [deliver_due]; [by sup_steps|].
  assert (∀ s', Good c0 cs0 s' → wp (deliver_due env t keys ;; mret true) (λ _ s', Good c0 cs0 s') s') as Hrest.
  { intros s' Hg'. apply wp_bind. eapply wp_mono; [by apply IH|]. by intros [?|?] ? ?. }
  apply wp_bind, wp_gets. cbn beta iota.
  destruct (Applications (state s) !! Tmr.ApplicationID timer) as [a|].
  2: { apply wp_bind, wp_modify_state, Hrest. good. apply step_timers. }
  case_decide; [apply wp_bind, wp_modify_state, Hrest; good; apply step_timers|].
  case_decide; [by apply IH|]. apply wp_bind, wp_try. safe_call safe_enqueueLocked.
  2: { destruct e; try (by apply IH); sup_steps; good. }
  apply wp_bind, wp_modify_state, wp_bind, wp_audit, Hrest, good_audited.
  apply good_with_state; [done|by case_decide|case_decide; apply step_timers].
Qed.

Lemma safe_deliverTimers : safe (deliverTimers env).
Proof.
  intros c0 cs0 s Hg. unfold deliverTimers. sup_steps. safe_call safe_deliver_due. sup_steps; good.
Qed.

(** ** Retirement *)

Lemma expire_silent ms : silent (expire_message <$> ms).
Proof.
  unfold silent. rewrite Forall_fmap. apply Forall_forall. intros m _. cbn. unfold expire_message.
  by destruct (is_live (Msg.Status m)) eqn:E.
Qed.

Definition bury (id : string) (st : supervisorState) : supervisorState :=
  update_messages id (fmap expire_message) (update_app id (λ a, {| a with App.State := tombstoned |}) st).

Lemma step_bury id st : ok_step st (bury id st).
Proof.
  unfold bury. change (update_messages id (fmap expire_message) (update_app id (λ a, {| a with App.State := tombstoned |}) st))
    with (update_app id (λ a, {| a with App.State := tombstoned |}) (update_messages id (fmap expire_message) st)).
  etrans; [apply (step_messages st id (fmap expire_message)); [done|]|].
  - intros _. apply settle_fmap. intros m _. apply expire_message_le.
  - apply step_app_state. intros a Ha Hok. split.
    + eapply keep_update; try done. intros _. by left.
    + intros _. right. unfold messages_of, update_messages. cbn. rewrite lookup_alter_eq.
      destruct (Mailbox st !! id) as [ms|]; simpl; [apply expire_silent|by constructor].
Qed.

Lemma step_unbind id st :
  ok_step st {| st with KernelPending := delete id (KernelPending st); Bindings := disable_bindings id <$> Bindings st |}.
Proof.
  assert (∀ b, bind_le b (disable_bindings id b)) as Hb.
  { intros b. unfold disable_bindings. by case_decide. }
  step_fields.
  - by apply binds_ok_fmap.
  - by apply grows_fmap.
Qed.

Lemma retiring_update id a t :
  app_ok id a → App.State a ≠ tombstoned → app_update a {| a with App.State := retiring; App.RetiredAt := t |}.
Proof. intros Hok Ht. eapply keep_update; try done. intros [?|[? _]]; [done|]. by right. Qed.

Lemma safe_drop_handles id : safe (drop_handles id).
Proof. by apply safe_local. Qed.

(** The tail of a retirement, once it is on record. *)
Lemma safe_bury id :
  safe (modify_state (update_app id (λ a, {| a with App.State := tombstoned |}));;
        expireMailboxLocked id;;
        drop_handles id;;
        modify_state (λ st, {| st with
          KernelPending := delete id (KernelPending st);
          Bindings := disable_bindings id <$> Bindings st |});;
        persistLocked env).
Proof.
  intros c0 cs0 s Hg. unfold expireMailboxLocked.
  apply wp_bind, wp_modify_state, wp_bind, wp_modify_state, wp_bind.
  assert (Good c0 cs0 (with_state (bury id) s)) as Hg1 by (apply good_with_state; [done..|]; apply step_bury).
  eapply safe_wp; [apply safe_drop_handles|exact Hg1|]. intros [u|e] s1 Hs1; [|done].
  sup_steps; good; apply step_unbind.
Qed.

Lemma safe_Retire principal id : safe (RetireApplication env principal id).
Proof.
  intros c0 cs0 s Hg. unfold RetireApplication. do 4 sup_step; try done.
  case_decide; [by sup_steps|]. do 6 sup_step.
  apply safe_bury. good. apply step_app. intros b Hb Hok. simplify_eq. split; [by eapply retiring_update|done].
Qed.

(** ** Creation *)

(** The identifier drawn next is not in use. *)
Definition fresh_id (s : Supervisor) : Prop :=
  ∀ b, entropy env (tick s) 16 = Some b → Applications (state s) !! uuid b = None.

Lemma step_serving a st :
  Applications st !! App.ApplicationID a = None →
  App.TokensUsed a = 0%Z → App.TokensCached a = 0%Z → App.TokenLimit a = 0%Z → in_u64 (App.TaintBits a) →
  App.State a = serving → ok_step st (insert_application a st).
Proof.
  intros Hn Hu Hc Hl Ht Hs. apply step_new_app; try done; [|by rewrite Hs].
  split; rewrite ?Hu, ?Hc, ?Hl; done.
Qed.

Lemma wp_Create principal owner wake c0 cs0 s :
  env_ok env → Good c0 cs0 s → fresh_id s →
  wp (CreateApplication env principal owner wake) (λ _ s', Good c0 cs0 s') s.
Proof.
  intros Henv Hg Hf. unfold CreateApplication, next_kernel_id. do 16 (try sup_step); try done; good.
  eapply (wp_store_random env (λ io rnd, OpCreate io rnd owner "")); [done|good; apply step_kernel_id|done|].
  intros [cid|e] cs Hcs; [|done]. match type of Hcs with Good _ _ ?t => set (s2 := t) in * end.
  assert (Applications (state s2) !! uuid b = None) by (by apply Hf). clearbody s2.
  sup_steps; good; by apply step_serving.
Qed.

Lemma wp_Fork principal parentID owner wake c0 cs0 s :
  env_ok env → Good c0 cs0 s → fresh_id s →
  wp (ForkApplication env principal parentID owner wake) (λ _ s', Good c0 cs0 s') s.
Proof.
  intros Henv Hg Hf. unfold ForkApplication, next_kernel_id. do 22 (try sup_step); try done; good.
  eapply (wp_store_random env (λ io rnd, OpFork io rnd (App.OwnerAgent a) (App.ContextID a) owner _));
    [done|good; apply step_kernel_id|done|].
  intros [cid|e] cs Hcs; [|done]. match type of Hcs with Good _ _ ?t => set (s2 := t) in * end.
  assert (Applications (state s2) !! uuid b = None) by (by apply Hf). clearbody s2.
  assert (in_u64 (App.TaintBits a)) by (by eapply (inv_apps _ (g_state _ _ _ Hg))).
  sup_steps; good; by apply step_serving.
Qed.
End handlers.

#[export] Hint Resolve safe_Retire safe_SetApplicationState safe_SetTokenLimit safe_SetRoutePolicy safe_AddTimer
  safe_ContextPages safe_AuditContextPages safe_deliverTimers : safety.
