(* ===== verification/RecoveryProofs.v ===== *)
(** * Recovery: loading the durable state after a stop or a crash *)

From Stdlib Require Import Ascii.
From stdpp Require Import base tactics option list gmap sets strings numbers pretty sorting.
From S2P Require Import Prelude Monad GoLib Json Crypto Policy ContextStore State Taint Mailbox Lifecycle.
From S2P Require Import Invariant Safety MailboxProofs LifecycleProofs.

Lemma step_assign st id : ok_step st (assign_kernel_id st id).
Proof.
  unfold assign_kernel_id. destruct (Applications st !! id) as [a|] eqn:Ea; [|done].
  case_decide as Hk; [|done]. etrans; [apply step_kernel_id|]. apply step_app. cbn.
  intros b Hb Hok. simplify_eq. split; [|done]. by eapply keep_update.
Qed.

Lemma step_assign_all ids st : ok_step st (fold_left assign_kernel_id ids st).
Proof.
  revert st. induction ids as [|id ids IH]; intros st; simpl; [done|].
  etrans; [apply step_assign|apply IH].
Qed.

Lemma unclaim_le m : message_le m (unclaim m).
Proof. unfold unclaim. case_decide as E; [|done]. apply message_le_status. by rewrite E. Qed.

Lemma step_replay st : ok_step st (replay_mailboxes st).
Proof.
  apply (step_settle_all (λ id, replay_messages (Applications st !! id))). intros id ms.
  unfold replay_messages. case_decide; apply settle_fmap; intros m _; [apply expire_message_le|apply unclaim_le].
Qed.

Section load.
Context (env : Env).

Lemma safe_recover ids : safe (recover_applications env ids).
Proof.
  induction ids as [|id ids IH]; intros c0 cs0 s Hg; cbn [recover_applications]; [by sup_steps|].
  apply wp_bind, wp_gets. cbn beta iota. destruct (Applications (state s) !! id) as [a|]; [|by apply IH].
  case_decide; [by apply IH|]. sup_steps; [done|]. apply IH. good.
  apply step_app. intros b Hb Hok. split; [|done]. eapply keep_update; try done.
  cbn. case_decide; lia.
Qed.

(** A load that succeeds leaves the supervisor ahead of what was stored. *)
Lemma wp_load order1 order2 stored c0 cs0 s :
  SInv stored → evolves c0 stored → store_wf (store s) → extends cs0 (store s) →
  wp (load env order1 order2 stored) (λ r s', r = Ok () → Good c0 cs0 s') s.
Proof.
  intros Hi He Hw Hx. unfold load. set (st := fold_left assign_kernel_id order1 stored).
  destruct (step_assign_all order1 stored) as [Hst Hev]. specialize (Hst Hi). specialize (Hev Hi). fold st in Hst, Hev.
  destruct (durable_step st) as [Hd1 Hd2].
  apply wp_bind, wp_modify, wp_bind, wp_of_result. destruct (VerifyAudit (Audit st)); [|done].
  apply wp_bind, wp_modify, wp_bind, wp_modify_state, wp_bind.
  match goal with |- wp _ _ (with_state _ ?t) => set (s1 := t) end.
  assert (Good c0 cs0 s1) as Hg1.
  { split; cbn; auto using durable_back. etrans; [done|]. etrans; [done|auto]. }
  clearbody s1. eapply wp_mono; [apply safe_recover; apply good_with_state; [exact Hg1|done|apply step_replay]|].
  intros [u|e] s2 Hg2; [|done]. apply wp_persist; [|done]. intros _. by apply good_saved.
Qed.
End load.
