(* ===== verification/RunnerProofs.v ===== *)
(** * Turns: claiming, settling and charging *)

From Stdlib Require Import Ascii.
From stdpp Require Import base tactics option list gmap sets strings numbers pretty sorting.
From S2P Require Import Prelude Monad GoLib Json Crypto Ledger Policy ContextStore State Taint Mailbox.
From S2P Require Import Lifecycle Runner Invariant Safety MailboxProofs LifecycleProofs.

(** ** What settling does to an application *)

Record settled (usage : Usage) (a a' : Application) : Prop := {
  st_id : App.ApplicationID a' = App.ApplicationID a;
  st_owner : App.OwnerAgent a' = App.OwnerAgent a;
  st_parent : App.ForkParent a' = App.ForkParent a;
  st_created : App.CreatedAt a' = App.CreatedAt a;
  st_context : App.ContextID a' = App.ContextID a;
  st_kernel : App.KernelID a' = App.KernelID a;
  st_generation : App.Generation a' = App.Generation a;
  st_counters : same_counters (charge usage a) a';
  st_limit : App.TokenLimit a' = App.TokenLimit a;
  st_taint : App.TaintBits a' = App.TaintBits a;
  st_state : (exhausted a' ∧ App.State a' = frozen) ∨ (¬ exhausted a' ∧ App.State a' = App.State a);
}.

Lemma settle_settled usage turn_failed text a a' status text' over :
  settle usage turn_failed text a = (a', status, text', over) → settled usage a a'.
Proof.
  unfold settle. destruct turn_failed; cbn; intros H; repeat case_decide; simplify_eq; split; cbn; auto; by split.
Qed.

(** A turn that went over budget reports it unless the text was too long; one that
    was retired meanwhile reports that and carries no text. *)
Lemma charge_monotone usage a :
  in_u64 (App.TokensUsed a) → in_u64 (App.TokensCached a) → usage_ok usage →
  in_u64 (App.TokensUsed (charge usage a)) ∧ in_u64 (App.TokensCached (charge usage a)) ∧
  (App.TokensUsed a ≤ App.TokensUsed (charge usage a))%Z ∧ (App.TokensCached a ≤ App.TokensCached (charge usage a))%Z.
Proof.
  intros Hu Hc (Hi & Ho & Hk). cbn.
  assert (in_u64 (saturatingAdd (InputTokens usage) (OutputTokens usage))) as Hs.
  { rewrite saturatingAdd_min by done. unfold in_u64, MaxUint64 in *. lia. }
  rewrite (saturatingAdd_min (App.TokensUsed a)), (saturatingAdd_min (App.TokensCached a)) by done.
  unfold in_u64, MaxUint64 in *. lia.
Qed.

Section settled.
Context (id : string) (usage : Usage) (a a' : Application).
Context (Hok : app_ok id a) (Husage : usage_ok usage) (Hset : settled usage a a').

Lemma settled_dead : dead a → dead a'.
Proof using All.
  destruct Hok as [? Hu Hc Hl ?], Hset. destruct (charge_monotone usage a Hu Hc Husage) as (_ & _ & Hm & _).
  destruct st_counters0 as [Eu _]. intros Hd. destruct st_state0 as [[Hx Hs]|[Hx Hs]].
  - right. split; [done|]. by rewrite Hs.
  - left. rewrite Hs. destruct Hd as [?|[Hxa _]]; [done|]. destruct Hx.
    unfold exhausted in *. rewrite Eu, st_limit0. lia.
Qed.

Lemma settled_le : app_le a a'.
Proof using All.
  pose proof settled_dead. destruct Hok as [? Hu Hc Hl ?], Hset.
  destruct (charge_monotone usage a Hu Hc Husage) as (_ & _ & Hm & Hm').
  destruct st_counters0 as [Eu Ec]. split; try done; rewrite ?Eu, ?Ec, ?st_limit0, ?st_taint0, ?st_generation0; try done.
  apply narrows_refl. by destruct Hl.
Qed.

Lemma settled_ok : app_ok id a'.
Proof using All.
  destruct Hok as [? Hu Hc Hl ?], Hset. destruct (charge_monotone usage a Hu Hc Husage) as (? & ? & _).
  destruct st_counters0 as [Eu Ec]. split; rewrite ?Eu, ?Ec, ?st_limit0, ?st_taint0; try done. by rewrite st_id0.
Qed.

Lemma settled_retired : App.State a' = tombstoned → App.State a = tombstoned.
Proof using Hset. destruct Hset. destruct st_state0 as [[_ ->]|[_ ->]]; done. Qed.
End settled.

(** The result of a turn enters the books together with its charge. *)
Lemma step_charge st id a a' mid r :
  Applications st !! id = Some a → Results st !! mid = None → usage_ok (Turn.TurnUsage r) →
  Turn.ApplicationID r = id → Turn.MessageID r = mid → settled (Turn.TurnUsage r) a a' →
  ok_step st {| st with
    Results := <[mid := r]> (Results st);
    Prepared := delete mid (Prepared st);
    Applications := <[id := a']> (Applications st) |}.
Proof.
  intros Ha Hm Hu Hid Hmid Hs. split; intros H; destruct H;
    pose proof (inv_apps _ _ Ha) as Hok; split; cbn; try done; try (by apply outbox_le_refl).
  - apply map_Forall_insert_2; [|done]. by eapply settled_ok.
  - destruct Hok, Hs. by eapply charge_ok_settle.
  - by apply map_Forall_delete.
  - intros k b Hb Ht. rewrite lookup_insert in Hb. case_decide; simplify_eq; [|by eapply inv_retired].
    eapply inv_retired; [done|]. by eapply settled_retired.
  - intros k ms Hk. rewrite lookup_insert. case_decide; [by eexists|by eapply inv_boxes].
  - eapply outbox_ok_mono; [by apply insert_subseteq|reflexivity|done].
  - apply grows_insert; [apply _|]. intros b Hb _. simplify_eq. split; [|by eapply settled_le].
    by destruct (settled_ok _ _ _ _ Hok Hu Hs) as [_ _ _ [? _] _].
  - by apply insert_subseteq.
Qed.

Lemma ack_all_le mid m : message_le m (ack_all mid m).
Proof.
  unfold ack_all. destruct (has_id mid m); [|done]. apply message_le_status. by destruct (Msg.Status m); simpl; auto.
Qed.

(** The message is acknowledged in the same step. *)
Lemma step_settle_turn st id a a' mid r :
  Applications st !! id = Some a → Results st !! mid = None → usage_ok (Turn.TurnUsage r) →
  Turn.ApplicationID r = id → Turn.MessageID r = mid → settled (Turn.TurnUsage r) a a' →
  ok_step st {| st with
    Results := <[mid := r]> (Results st);
    Prepared := delete mid (Prepared st);
    Mailbox := alter (fmap (ack_all mid)) id (Mailbox st);
    Applications := <[id := a']> (Applications st) |}.
Proof.
  intros. transitivity (update_messages id (fmap (ack_all mid)) st).
  - apply step_messages; [done|]. intros _. apply settle_fmap. intros m' _. apply ack_all_le.
  - by apply (step_charge (update_messages id (fmap (ack_all mid)) st) id a).
Qed.

Section handlers.
Context (env : Env).

Lemma safe_clearInflight id : safe (clearInflight id).
Proof. by apply safe_local. Qed.

(** ** Claiming *)

Lemma claim_first_le m : Msg.Status m = pending → message_le m (claim_first m).
Proof. intros E. split; try done. cbn. by rewrite E. Qed.

Lemma safe_claimTurn order : safe (claimTurn env order).
Proof.
  intros c0 cs0 s Hg. unfold claimTurn. apply wp_bind, wp_now, wp_bind, wp_get.
  destruct (pick order _ (ticked s)) as [c|]; [|sup_steps; good].
  apply wp_bind. eapply safe_wp; [apply safe_accumulateTaint, uint64_field_range|good|].
  intros [u|e] s1 Hg1; [|done].
  safe_steps; good.
  all: apply step_messages; [done|]; intros _; apply settle_update; intros m [_ Hm]%find_first_Some.
  all: apply claim_first_le; by apply bool_decide_eq_true in Hm.
Qed.

(** ** Settling *)

Lemma prepare_usage id mid text usage route hit perr :
  Turn.TurnUsage (prepare id mid text usage route hit perr) = usage.
Proof. unfold prepare. destruct perr; [done|]. by case_decide. Qed.

Lemma wp_prepare_turn id m text usage route hit perr c0 cs0 s :
  Good c0 cs0 s → usage_ok usage →
  wp (prepare_turn env id m text usage route hit perr)
    (λ r s', Good c0 cs0 s' ∧ ∀ p, r = Ok p → usage_ok (Turn.TurnUsage p) ∧
       Applications (state s') = Applications (state s) ∧ Results (state s') = Results (state s)) s.
Proof.
  intros Hg Hu. unfold prepare_turn. apply wp_bind, wp_gets. cbn beta iota.
  destruct (Prepared (state s) !! Msg.MessageID m) as [p|] eqn:Ep; sup_steps.
  - split; [done|]. intros p' [= <-]. split_and!; try done. by eapply (inv_prepared _ (g_state _ _ _ Hg)).
  - split; [good|].
    + step_fields. apply map_Forall_insert_2; [by rewrite prepare_usage|done].
    + intros p' [= <-]. by rewrite prepare_usage.
  - split; [|done]. good. step_fields. apply map_Forall_insert_2; [by rewrite prepare_usage|done].
Qed.

Lemma route_update id a p k :
  app_ok id a → app_update a {| a with App.LastProvider := p; App.LastCompat := k |}.
Proof. intros Hok. by eapply keep_update. Qed.

Lemma settled_checkpoint usage a a' cp :
  settled usage a a' → settled usage a {| a' with App.Checkpoint := cp |}.
Proof. intros []. by split. Qed.

Lemma wp_commit_turn id a m p route hit denied over c0 cs0 s :
  Good c0 cs0 s → Applications (state s) !! id = Some a → Results (state s) !! Msg.MessageID m = None →
  usage_ok (Turn.TurnUsage p) →
  wp (commit_turn env id a m p route hit denied over) (λ _ s', Good c0 cs0 s') s.
Proof.
  intros Hg Ha Hr Hu. unfold commit_turn. apply wp_bind.
  eapply (wp_store_op env (λ io, OpAppend io _ _ _ _)); [done|done|]. intros [h|e] cs1 Hg1; [|done].
  apply wp_bind. eapply (wp_store_op env (λ io, OpCheckpoint io _ _ _)); [done|done|]. intros [cp|e] cs2 Hg2; [|done].
  match type of Hg2 with Good _ _ ?t => set (s2 := t) in * end.
  assert (Applications (state s2) !! id = Some a) as Ha2 by done.
  assert (Results (state s2) !! Msg.MessageID m = None) as Hr2 by done. clearbody s2.
  destruct (settle (Turn.TurnUsage p) _ (Turn.Text p) a) as [[[a1 status] text] ov] eqn:Es.
  pose proof (settled_checkpoint _ _ _ cp (settle_settled _ _ _ _ _ _ _ _ Es)) as Hs.
  apply wp_bind, wp_modify_state, wp_bind.
  eapply safe_wp; [apply safe_recordRoute|apply good_with_state; [exact Hg2|done|]|].
  { by apply (step_settle_turn _ id a). }
  intros [u|e] s3 Hg3; [|done]. safe_steps; good.
  all: apply step_app; intros b Hb Hok; (split; [by eapply route_update|done]).
Qed.

Lemma safe_finishTurn id m text usage route perr :
  usage_ok usage → safe (finishTurn env id m text usage route perr).
Proof.
  intros Hu c0 cs0 s Hg. unfold finishTurn. apply wp_bind. safe_call safe_clearInflight.
  apply wp_bind, wp_gets, wp_bind. apply wp_of_option; [intros b Hb|done]. case_decide as Hd; [by sup_steps|].
  apply wp_bind. eapply wp_mono; [by apply wp_prepare_turn|].
  intros [p|e] s1 [Hg1 Hp]; [|done]. destruct (Hp p eq_refl) as (Hup & Ea & Er).
  apply wp_commit_turn; [done|by rewrite Ea| |done]. rewrite Er. by apply eq_None_not_Some.
Qed.

Lemma safe_conclude cancelled id m route o : usage_ok (o_usage o) → safe (conclude env cancelled id m route o).
Proof.
  intros Hu c0 cs0 s Hg. unfold conclude. apply wp_bind, wp_try.
  assert (∀ (r : result error unit) s2, Good c0 cs0 s2 →
    wp (clearInflight id ;; of_result r) (λ _ s', Good c0 cs0 s') s2) as Hclear.
  { intros r s2 Hg2. apply wp_bind. safe_call safe_clearInflight. by apply wp_of_result. }
  case_decide.
  - eapply safe_wp; [apply safe_requeueClaim|done|]. intros r s2 Hg2. by apply Hclear.
  - apply wp_bind, wp_try. eapply safe_wp; [by apply safe_finishTurn|done|]. intros [u|e] s2 Hg2.
    + apply wp_ret. by apply Hclear.
    + apply wp_bind, wp_try. eapply safe_wp; [apply safe_requeueClaim|done|]. intros r s3 Hg3.
      apply wp_throw. by apply Hclear.
Qed.

(** What the language guarantees of a provider's numbers: they are [uint64]s. *)
Definition provider_ok (p : ProviderInfo) : Prop :=
  ∀ backends prompt, usage_ok (o_usage (p_complete p backends prompt)) ∧ in_u64 (o_taint (p_complete p backends prompt)).

Lemma attempt_ok p backends payload :
  provider_ok p → usage_ok (o_usage (attempt p backends payload)) ∧ in_u64 (o_taint (attempt p backends payload)).
Proof.
  intros Hp. unfold attempt. case_decide; [by repeat split|].
  destruct (string_field "text" payload) as [prompt ok]. destruct ok; [apply Hp|by repeat split].
Qed.

Lemma safe_executeTurn p cancelled id m : provider_ok p → safe (executeTurn env p cancelled id m).
Proof.
  intros Hp c0 cs0 s Hg. unfold executeTurn. apply wp_bind, wp_gets. cbn beta iota.
  match goal with |- context [o_err ?o] => set (out := o) end.
  assert (usage_ok (o_usage out) ∧ in_u64 (o_taint out)) as [Hu Ht].
  { unfold out. case_match; [by repeat split|by apply attempt_ok]. }
  clearbody out. apply wp_bind. destruct (decide (o_err out = None ∧ o_taint out ≠ 0%Z)).
  - eapply safe_wp; [by apply safe_foldTaint|done|]. intros [u|e] s1 Hg1; [by apply safe_conclude|done].
  - apply wp_ret. by apply safe_conclude.
Qed.
End handlers.

#[export] Hint Resolve safe_claimTurn safe_finishTurn safe_clearInflight safe_executeTurn : safety.
