(* ===== verification/GatewayProofs.v ===== *)
(** * The gateway: conversations, replies and the outbox *)

From Stdlib Require Import Ascii.
From stdpp Require Import base tactics option list gmap sets strings numbers pretty sorting.
From S2P Require Import Prelude Monad GoLib Json Crypto Policy ContextStore State Taint Mailbox Lifecycle.
From S2P Require Import Gateway Invariant Safety MailboxProofs.

(** ** Steps of the gateway's fields *)

Lemma step_channel st k c :
  (∀ b, Channels st !! k = Some b → chan_le b c) → ok_step st {| st with Channels := <[k := c]> (Channels st) |}.
Proof. intros H. step_fields. apply grows_insert; [apply _|done]. Qed.

Lemma step_conversation st k c :
  k = conversationKeyFor c → (∀ b, Conversations st !! k = Some b → conv_le b c) →
  ok_step st {| st with Conversations := <[k := c]> (Conversations st) |}.
Proof.
  intros Hk H. assert (grows conv_le (Conversations st) (<[k := c]> (Conversations st))) as Hg by (apply grows_insert; [apply _|done]).
  step_fields; [by apply map_Forall_insert_2|]. by eapply outbox_ok_mono.
Qed.

Lemma conversationLocked_Some st ch ext c :
  conversationLocked st ch ext = Some c →
  Conversations st !! conversationKey ch ext = Some c ∧ Conv.ChannelID c = ch ∧ Conv.ExternalID c = ext.
Proof.
  unfold conversationLocked. destruct (Conversations st !! _) as [b|]; [|done].
  case_decide; [|done]. intros. simplify_eq. naive_solver.
Qed.

(** ** The outbox *)

Lemma drop_sent_pending n es e : e ∈ es → Out.Status e = out_pending → e ∈ drop_sent n es.
Proof.
  revert n. induction es as [|x es IH]; intros n He Hp; [by apply elem_of_nil in He|].
  destruct n as [|n]; [done|]. simpl. apply elem_of_cons in He as [->|He].
  - rewrite decide_True by done. by left.
  - case_decide; [right|]; by apply IH.
Qed.

Lemma drop_sent_sublist n es : drop_sent n es `sublist_of` es.
Proof.
  revert n. induction es as [|x es IH]; intros [|n]; cbn; [done..|]. case_decide; [by apply sublist_skip, IH|apply sublist_cons, IH].
Qed.

Lemma outbox_ok_sublist results convs out out' : out' `sublist_of` out → outbox_ok results convs out → outbox_ok results convs out'.
Proof.
  intros Hs [H1 H2]. split.
  - apply Forall_forall. intros x Hx. rewrite Forall_forall in H1. apply H1. eapply elem_of_submseteq; [exact Hx|by apply sublist_submseteq].
  - eapply sublist_NoDup; [exact H2|by apply fmap_sublist].
Qed.

Lemma step_outbox st out :
  (SInv st → outbox_ok (Results st) (Conversations st) out) →
  (∀ e, e ∈ Outbox st → Out.Status e = out_pending →
     ∃ e', e' ∈ out ∧ Out.Status e' = out_pending ∧ same_entry e e') →
  ok_step st {| st with Outbox := out |}.
Proof.
  intros Hok H. split; [intros Hi; specialize (Hok Hi); destruct Hi; by split|]. intros []. split; try done.
  intros e He Hp. left. by apply H.
Qed.

Lemma step_outbox_push st e :
  reply_ok (Results st) (Conversations st) e → find_first (has_out_key (Out.IdempotencyKey e)) (Outbox st) = None →
  ok_step st {| st with Outbox := bound_outbox (Outbox st ++ [e]) |}.
Proof.
  intros Hr Hnew. apply step_outbox.
  - intros Hi. destruct (inv_outbox _ Hi) as [H1 H2]. eapply outbox_ok_sublist; [apply drop_sent_sublist|]. split.
    + apply Forall_app. split; [done|by constructor].
    + rewrite fmap_app. apply NoDup_app. split_and!; [done| |apply NoDup_singleton].
      intros k (x & -> & Hx)%list_elem_of_fmap Heq%list_elem_of_singleton.
      rewrite find_first_None in Hnew. specialize (Hnew x Hx). rename Hnew into Hx'. unfold has_out_key in Hx'. apply bool_decide_eq_false in Hx'. by apply Hx'.
  - intros x Hx Hp. exists x. split_and!; try done. apply drop_sent_pending; [|done]. apply elem_of_app. by left.
Qed.

Lemma step_outbox_attempt st key : ok_step st {| st with Outbox := attempt_entry key <$> Outbox st |}.
Proof.
  apply step_outbox.
  - intros Hi. apply outbox_ok_fmap; [|apply Hi]. intros e. unfold attempt_entry. by case_decide.
  - intros e He Hp. exists (attempt_entry key e). split; [by apply list_elem_of_fmap_2|]. unfold attempt_entry. by case_decide.
Qed.

(** An acknowledged entry may leave; the record says so. *)
Definition mark_sent (entryID : string) (t : Z) (receipt : string) (st : supervisorState) : supervisorState :=
  {| st with Outbox := update_first (has_entry_id entryID) (λ e, {| e with
      Out.Status := out_sent;
      Out.SentAt := t;
      Out.Receipt := if decide (len receipt ≤ 256)%Z then receipt else Out.Receipt e |}) (Outbox st) |}.

Lemma update_first_others {A} (P : A → bool) f l x :
  x ∈ l → P x = false → x ∈ update_first P f l.
Proof.
  induction l as [|y l IH]; intros Hx HP; [by apply elem_of_nil in Hx|]. simpl.
  apply elem_of_cons in Hx as [->|Hx].
  - rewrite HP. by left.
  - destruct (P y); right; auto.
Qed.

Lemma good_mark_sent env principal entryID t receipt c0 cs0 s :
  Good c0 cs0 s →
  Good c0 cs0 (audited env principal "" "gateway.ack" entryID "allow" receipt
    (with_state (mark_sent entryID t receipt) s)).
Proof.
  intros Hg. apply good_audit_with; try done.
  - intros []. split; try done. eapply outbox_ok_view; [|done]. apply update_first_fmap. intros x _. by case_decide.
  - split; cbn; try done; [by apply prefix_app_r|lia|].
    intros e He Hp. destruct (has_entry_id entryID e) eqn:E.
    + right. apply bool_decide_eq_true in E as ->. eexists. split; [apply elem_of_app; right; by left|done].
    + left. exists e. split_and!; try done. by apply update_first_others.
Qed.

Section handlers.
Context (env : Env).

Lemma safe_CreateChannel principal channelID kind : safe (CreateChannel env principal channelID kind).
Proof.
  intros c0 cs0 s Hg. unfold CreateChannel. sup_steps; good.
  all: apply step_channel; intros b Hb; exfalso; eauto.
Qed.

Lemma safe_RevokeChannel principal channelID : safe (RevokeChannel env principal channelID).
Proof.
  intros c0 cs0 s Hg. unfold RevokeChannel. sup_steps; good.
  all: apply step_channel; intros b Hb; simplify_eq; by split.
Qed.

Lemma safe_Bind principal channelID externalID applicationID :
  safe (BindConversation env principal channelID externalID applicationID).
Proof.
  intros c0 cs0 s Hg. unfold BindConversation. sup_steps; good.
  all: apply step_conversation; [done|]; intros b Hb; unfold conversationKeyFor in Hb; cbn in *; congruence.
Qed.

Lemma delivery_conversations principal id key payload s r s' :
  delivery env principal id key payload s r s' → Conversations (state s') = Conversations (state s).
Proof. by destruct 1. Qed.

Lemma safe_DeliverInbound channelID externalID sequence payload :
  safe (DeliverInbound env channelID externalID sequence payload).
Proof.
  intros c0 cs0 s Hg. unfold DeliverInbound, sourceOf. sup_steps; try done.
  destruct (conversationLocked_Some _ _ _ _ H0) as (Hc & Hch & Hext).
  eapply wp_mono; [apply enqueue_delivery|]. intros r s1 Hd.
  pose proof (good_delivery _ _ _ _ _ _ _ _ _ _ Hg Hd). pose proof (delivery_conversations _ _ _ _ _ _ _ Hd) as Ec.
  destruct r as [m|e]; [|done]. safe_steps; good.
  all: destruct H3 as (E & _); rewrite E; apply step_conversation.
  all: try (unfold conversationKeyFor; cbn; by rewrite Hch, Hext).
  all: intros b Hb; rewrite Ec, Hc in Hb; simplify_eq; split; cbn; try done; lia.
Qed.

Lemma good_enqueueOutbox key mid r c c0 cs0 s :
  Good c0 cs0 s → Results (state s) !! mid = Some r → Conversations (state s) !! key = Some c →
  Conv.ApplicationID c = Turn.ApplicationID r →
  wp (enqueueOutboxLocked env key ("reply:" +:+ mid) (reply_json r)) (λ _ s', Good c0 cs0 s') s.
Proof.
  intros Hg Hr Hc Ha. unfold enqueueOutboxLocked. sup_steps; good; [apply step_next|]. apply step_outbox_push; [|done].
  exists mid, r, c. by split_and!.
Qed.

Lemma safe_deny principal applicationID messageID e reason :
  safe (deny_reply env principal applicationID messageID e reason).
Proof. intros c0 cs0 s Hg. unfold deny_reply. sup_steps; good. Qed.

Lemma safe_Reply principal applicationID messageID : safe (Reply env principal applicationID messageID).
Proof.
  intros c0 cs0 s Hg. unfold Reply. sup_steps; try exact Hg;
    try lazymatch goal with |- wp (deny_reply _ _ _ _ _ _) _ _ => by apply safe_deny end.
  repeat match goal with
         | H : ¬ (_ ∨ _) |- _ => apply Decidable.not_or in H as [? ?]
         | H : ¬ (_ ≠ _) |- _ => apply dec_stable in H
         end.
  eapply wp_mono; [eapply good_enqueueOutbox; [exact Hg|done|done|congruence]|]. intros [e|e] s1 Hg1; sup_steps; good.
Qed.

Lemma safe_ClaimOutbox channelID externalID : safe (ClaimOutbox env channelID externalID).
Proof.
  intros c0 cs0 s Hg. unfold ClaimOutbox. sup_steps; good; apply step_outbox_attempt.
Qed.

Lemma safe_AckOutbox principal entryID receipt : safe (AckOutbox env principal entryID receipt).
Proof.
  intros c0 cs0 s Hg. unfold AckOutbox. sup_steps; try done.
  - apply good_saved. apply good_mark_sent. good.
  - apply good_restored, good_ticked. apply good_mark_sent. good.
Qed.
End handlers.

#[export] Hint Resolve safe_CreateChannel safe_RevokeChannel safe_Bind safe_DeliverInbound safe_Reply safe_ClaimOutbox
  safe_AckOutbox : safety.
