(* ===== verification/HostfsProofs.v ===== *)
(** * Capabilities, witnesses, mounts and transfers *)

From Stdlib Require Import Ascii.
From stdpp Require Import base tactics option list gmap sets strings numbers pretty sorting.
From S2P Require Import Prelude Monad GoLib Json Crypto Policy ContextStore State Taint Mailbox Lifecycle Web.
From S2P Require Import Revocation Witness Hostfs Invariant Safety MailboxProofs TaintProofs.

Lemma step_revoke st r :
  length (RevokedTokens st) < maxRevokedTokens → ok_step st {| st with RevokedTokens := RevokedTokens st ++ [r] |}.
Proof. intros H. step_fields; [rewrite length_app; simpl; lia|by apply prefix_app_r]. Qed.

Lemma step_witness st cp :
  anchored (Audit st) cp →
  ok_step st {| st with WitnessCheckpoints := keep_last maxWitnessCheckpoints (WitnessCheckpoints st ++ [cp]) |}.
Proof.
  intros Ha. step_fields. destruct inv_witness as [_ Hw]. split; [apply keep_last_length|].
  unfold keep_last. apply Forall_drop, Forall_app. split; [done|]. by apply Forall_singleton.
Qed.

Lemma step_transfer st x : ok_step st (add_transfer x st).
Proof. unfold add_transfer. step_fields. apply keep_last_length. Qed.

(** A mount takes a number of its own. *)
Lemma step_mount st m :
  Mnt.MountID m = "mnt-" +:+ pretty (u64 (NextSequence st + 1)) →
  Clean (Mnt.GuestPath m) = Mnt.GuestPath m → IsAbs (Mnt.GuestPath m) = true → Mnt.Mode m ∈ hostfsModes →
  ok_step st (set_mount m (count_up st)).
Proof.
  intros Hid Hc Ha Hm. step_fields; try lia.
  - by apply audit_ok_next.
  - by apply ids_ok_next.
  - apply map_Forall_insert_2; [|by apply mounts_ok_next]. split; try done. intros Hn.
    destruct inv_audit as [H0 _]. eexists. split; [done|]. rewrite u64_small by lia. lia.
  - intros Hn. apply grows_insert; [apply _|]. intros b Hb. exfalso.
    destruct (inv_mounts _ _ Hb) as [_ _ _ Hs]. destruct (Hs ltac:(lia)) as (j & Hj & ?).
    destruct inv_audit as [H0 _]. rewrite Hid, u64_small in Hj by lia.
    apply string_app_inv_head, (inj pretty) in Hj. lia.
Qed.

Lemma step_unmount st m :
  HostfsMounts st !! Mnt.MountID m = Some m →
  ok_step st {| st with HostfsMounts :=
    <[Mnt.MountID m := {| m with Mnt.Enabled := false; Mnt.Version := u64 (Mnt.Version m + 1) |}]> (HostfsMounts st) |}.
Proof.
  intros Hm. step_fields.
  - apply map_Forall_insert_2; [|done]. destruct (inv_mounts _ _ Hm). by split.
  - intros _. apply grows_insert; [apply _|]. intros b Hb. simplify_eq. by split.
Qed.

Section handlers.
Context (env : Env).

Section signatures.
Context {E : Ed25519}.

Lemma safe_Revoke principal token reason : safe (RevokeCapabilityToken env principal token reason).
Proof.
  intros c0 cs0 s Hg. unfold RevokeCapabilityToken. sup_steps; good; apply step_revoke; cbn [state ticked] in *; lia.
Qed.

Lemma safe_checkToken principal id object action token : safe (checkToken env principal id object action token).
Proof.
  intros c0 cs0 s Hg. unfold checkToken. sup_steps; good.
Qed.

Lemma safe_RecordCosignature principal cp : safe (RecordCosignature env principal cp).
Proof.
  intros c0 cs0 s Hg. unfold RecordCosignature. sup_steps; good; apply step_witness; by apply dec_stable.
Qed.
End signatures.

Lemma safe_Mount principal id guestPath mode limits ttl : safe (MountHostfs env principal id guestPath mode limits ttl).
Proof.
  intros c0 cs0 s Hg. unfold MountHostfs. sup_steps; try exact Hg.
  all: repeat match goal with H : ¬ (_ ∨ _) |- _ => apply Decidable.not_or in H as [? ?] end.
  all: repeat match goal with H : _ ≠ false |- _ => apply not_false_iff_true in H end.
  all: rewrite !ticked_with_state, with_state_compose; good; apply (step_mount (state s)); try done;
    by apply dec_stable.
Qed.

Lemma safe_Unmount principal mountID : safe (UnmountHostfs env principal mountID).
Proof.
  intros c0 cs0 s Hg. unfold UnmountHostfs. sup_steps; try exact Hg.
  all: assert (Mnt.MountID a = mountID) as <- by (by eapply (inv_mounts _ (g_state _ _ _ Hg))).
  all: good; by apply step_unmount.
Qed.

Lemma safe_stage principal id key payload direction action before :
  safe before → safe (stage_transfer env principal id key payload direction action before).
Proof.
  intros Hb c0 cs0 s Hg. unfold stage_transfer. sup_steps; try done.
  eapply safe_wp; [exact Hb|good; apply step_next|]. intros [u|e] s1 Hg1; [|done].
  sup_steps; good; apply step_transfer.
Qed.

Lemma safe_ExportArtifact order principal id key payload : safe (ExportArtifact env order principal id key payload).
Proof.
  intros c0 cs0 s Hg. unfold ExportArtifact. sup_steps. safe_call safe_exportApplication.
  apply safe_stage; [|done]. intros c1 cs1 s1 Hg1. by sup_steps.
Qed.

Lemma safe_CommitImport principal id key payload : safe (CommitImport env principal id key payload).
Proof. apply safe_stage. by apply safe_accumulateTaint. Qed.

(** The second half of a web request, [web_finish]. *)
Lemma safe_web_finish principal id req status : safe (web_finish env principal id req status).
Proof.
  intros c0 cs0 s Hg. unfold web_finish. sup_steps; try exact Hg. eapply safe_wp; [by apply safe_accumulateTaint|done|].
  intros [u|e] s1 Hg1; [|done]. sup_steps; good.
Qed.
End handlers.

#[export] Hint Resolve safe_Revoke safe_checkToken safe_RecordCosignature safe_Mount safe_Unmount safe_ExportArtifact
  safe_CommitImport safe_web_finish : safety.
