(* ===== verification/WakeProofs.v ===== *)
(** * Wake-ups: LSFS bindings and the kernel queues *)

From Stdlib Require Import Ascii.
From stdpp Require Import base tactics option list gmap sets strings numbers pretty sorting.
From S2P Require Import Prelude Monad GoLib Json Crypto Policy ContextStore State Taint Mailbox Lifecycle.
From S2P Require Import Wake KernelWake Invariant Safety MailboxProofs.

(** ** Reading the commit log *)

(** Commits in the order of their cursors, all after [after]. *)
Fixpoint ascending (after : Z) (commits : list LSFSCommit) : Prop :=
  match commits with
  | [] => True
  | c :: commits => (after < Commit.Cursor c)%Z ∧ ascending (Commit.Cursor c) commits
  end.

Lemma ascending_weaken a b l : (a ≤ b)%Z → ascending b l → ascending a l.
Proof. destruct l; simpl; [done|]. intros ? [? ?]. split; [lia|done]. Qed.

Lemma ascending_take n a l : ascending a l → ascending a (take n l).
Proof. revert n a. induction l as [|c l IH]; intros [|n] a; simpl; try done. intros [? ?]. split; auto. Qed.

Lemma ascending_filter (P : LSFSCommit → Prop) `{∀ c, Decision (P c)} b l :
  ascending b l → ascending b (filter P l).
Proof.
  revert b. induction l as [|c l IH]; intros b; [done|]. intros [H1 H2].
  rewrite filter_cons. case_decide; [split; auto|]. apply IH. by eapply ascending_weaken; [|done]; lia.
Qed.

Lemma ascending_above a b l : ascending b l → (∀ c, c ∈ l → a < Commit.Cursor c)%Z → ascending a l.
Proof. destruct l as [|c l]; [done|]. intros [_ ?] Ha. split; [apply Ha; by left|done]. Qed.

Lemma commit_rows_ascending cs : ascending 0 (commit_rows cs).
Proof.
  unfold commit_rows. generalize (commits cs). intros l.
  assert (∀ k, ascending (Z.of_nat k) (imap (λ i row, let '(id, kind, handle, key) := row in
    Commit.mk (Z.of_nat (k + i) + 1) id kind handle key) l)) as H; [|by apply (H 0)].
  induction l as [|[[[id kind] handle] key] l IH]; intros k; [done|].
  rewrite imap_cons. split; simpl; [lia|].
  replace (Z.of_nat (k + 0) + 1)%Z with (Z.of_nat (S k)) by lia.
  eapply (eq_rect _ (ascending _) (IH (S k))). apply imap_ext. intros i [[[? ?] ?] ?] _. simpl. f_equal. lia.
Qed.

Lemma Commits_spec io owner id after limit cs :
  wp (Commits io owner id after limit) (λ r cs', cs' = cs ∧ ∀ l, r = Ok l → ascending after l) cs.
Proof.
  unfold Commits. case_decide; [by wp_steps|].
  apply wp_transact; [done|]. apply wp_bind, wp_authorize; [|done]. intros _ _. wp_steps.
  split; [done|]. intros l [= <-]. apply ascending_take. eapply ascending_above.
  - apply ascending_filter, commit_rows_ascending.
  - intros c [[_ ?] _]%list_elem_of_filter. done.
Qed.

(** ** Bindings *)

Lemma step_new_binding st key b :
  Bindings st !! key = None → key = Bind.ApplicationID b +:+ ":" +:+ Bind.BindingID b → (0 ≤ Bind.Cursor b)%Z →
  size (bindings_of (Bind.ApplicationID b) (Bindings st)) < maxWakeBindings → ok_step st (set_binding key b st).
Proof.
  intros Hn Hk H0 Hs. unfold set_binding. step_fields; [by apply binds_ok_new|].
  apply grows_insert; [apply _|]. congruence.
Qed.

Lemma step_binding st key b b' :
  Bindings st !! key = Some b → bind_le b b' → ok_step st (set_binding key b' st).
Proof.
  intros Hb Hle. unfold set_binding. step_fields; [by eapply binds_ok_update|].
  apply grows_insert; [apply _|]. intros x Hx. by simplify_eq.
Qed.

Global Instance local_preorder : PreOrder local.
Proof. split; [by intros s|]. intros a b c (?&?&?&?) (?&?&?&?). unfold local. split_and!; congruence. Qed.

Section handlers.
Context (env : Env) (kenv : KernelEnv).

Lemma safe_AddLSFSBinding principal id bindingID ref after : safe (AddLSFSBinding env principal id bindingID ref after).
Proof.
  intros c0 cs0 s Hg. unfold AddLSFSBinding. sup_steps; try exact Hg.
  eapply (wp_store_read env); [intros io; apply Commits_spec|]. intros [l|e] Hl; [|good].
  sup_steps; good.
  all: apply step_new_binding; cbn; try done; try lia; try (apply eq_None_not_Some; done);
    unfold bindings_of; lia.
Qed.

Lemma safe_SetEnabled principal id bindingID enabled : safe (SetLSFSBindingEnabled env principal id bindingID enabled).
Proof.
  intros c0 cs0 s Hg. unfold SetLSFSBindingEnabled. sup_steps; good; eapply step_binding; done.
Qed.

Lemma safe_ImportArtifact principal id key payload : safe (ImportArtifact env principal id key payload).
Proof.
  intros c0 cs0 s Hg. unfold ImportArtifact. sup_steps; try exact Hg.
  eapply (wp_store_op env (λ io, OpArtifact io _ _ _ _)); [done|done|]. intros [h|e] cs Hcs; [|done].
  sup_steps; good.
Qed.

(** ** Handles stay outside the durable state *)

Lemma local_handle id s : wp (ensureKernelHandleLocked kenv id) (λ _ s', local s s') s.
Proof. unfold ensureKernelHandleLocked. sup_steps; try done. destruct (k_open _ _ _); sup_steps; done. Qed.

Lemma local_source id s : wp (ensureKernelSourceLocked kenv id) (λ _ s', local s s') s.
Proof.
  unfold ensureKernelSourceLocked. apply wp_bind, wp_get. cbn. destruct (kernelSrcs s !! id); [by sup_steps|].
  apply wp_bind. eapply wp_mono; [apply local_handle|]. intros [h|e] s1 Hl; [|done].
  apply wp_bind, wp_with_tick, wp_bind, wp_of_result. destruct (k_open_source _ _ _); [|done].
  unfold check. sup_steps; done.
Qed.

Lemma safe_or_restore {A} (m : M Supervisor A) : safe m → safe (or_restore m).
Proof.
  intros Hm c0 cs0 s Hg. unfold or_restore. apply wp_bind, wp_try. eapply safe_wp; [done..|].
  intros [a|e] s' Hg'; sup_steps; good.
Qed.

(** ** Scanning *)

Lemma delivery_bindings principal id key payload s r s' :
  delivery env principal id key payload s r s' → Bindings (state s') = Bindings (state s).
Proof. by destruct 1. Qed.

Lemma advance_le b c : (Bind.Cursor b < Commit.Cursor c)%Z → bind_le b {| b with Bind.Cursor := Commit.Cursor c |}.
Proof. intros. split; cbn; try done; lia. Qed.

(** What a scan leaves behind: the bindings of the state as they were, and its own
    copy advanced. *)
Definition scanned (c0 : supervisorState) (cs0 : ContextStore) (s : Supervisor) (b : WakeBinding)
    (r : result error (WakeBinding * bool)) (s' : Supervisor) : Prop :=
  Good c0 cs0 s' ∧ ∀ x, r = Ok x → bind_le b (fst x) ∧ Bindings (state s') = Bindings (state s).

Lemma scanned_weaken c0 cs0 s s1 b b1 (m : M Supervisor (WakeBinding * bool)) :
  bind_le b b1 → Bindings (state s1) = Bindings (state s) →
  wp m (scanned c0 cs0 s1 b1) s1 → wp m (scanned c0 cs0 s b) s1.
Proof.
  intros Hb Hs Hm. eapply wp_mono; [exact Hm|]. intros r s' [Hg Hr]. split; [done|]. intros x Hx.
  destruct (Hr x Hx) as [? Hbs]. split; [by etrans|congruence].
Qed.

Lemma scanned_mark c0 cs0 s b s1 (m : M Supervisor (WakeBinding * bool)) :
  wp m (scanned c0 cs0 s b) s1 → wp (r ← m; mret (fst r, true)) (scanned c0 cs0 s b) s1.
Proof.
  intros Hm. apply wp_bind. eapply wp_mono; [exact Hm|]. intros [x|e] s' [Hg Hr]; [|by split].
  apply wp_ret. split; [done|]. intros y [= <-]. by apply (Hr x).
Qed.

Lemma wp_scan commits : ∀ c0 cs0 b s,
  Good c0 cs0 s → ascending (Bind.Cursor b) commits →
  wp (scan_commits env kenv b commits) (scanned c0 cs0 s b) s.
Proof.
  induction commits as [|c commits IH]; intros c0 cs0 b s Hg Hasc; cbn [scan_commits].
  { apply wp_ret. split; [done|]. by intros x [= <-]. }
  destruct Hasc as [Hc Hasc]. pose proof (advance_le b c Hc) as Hadv.
  assert (∀ s1, Good c0 cs0 s1 → Bindings (state s1) = Bindings (state s) →
    wp (scan_commits env kenv {| b with Bind.Cursor := Commit.Cursor c |} commits) (scanned c0 cs0 s b) s1) as Hnext.
  { intros s1 Hg1 Hs1. eapply scanned_weaken; [exact Hadv|exact Hs1|]. by apply IH. }
  case_decide; [by apply scanned_mark, Hnext|].
  apply wp_bind, wp_get. destruct (kernel s).
  - apply wp_bind. unfold or_restore at 1. apply wp_bind, wp_try. eapply wp_mono; [apply local_source|].
    intros [src|e] s1 Hl; [|sup_steps; split; [good|done]]. assert (Good c0 cs0 s1) by good.
    apply wp_ret, wp_bind, wp_with_tick.
    assert (Bindings (state s1) = Bindings (state s)) as Hb1 by (by destruct Hl as [-> _]).
    destruct (k_post kenv _ _ _) as [e|].
    + destruct e; sup_steps; (split; [good|]); try done. intros x [= <-]. done.
    + unfold or_restore, record_call. safe_steps; [|split; [good|done]]. apply Hnext; [good|].
      match goal with H : local (ticked s1) _ |- _ => destruct H as [E _] end. cbn. by rewrite E.
  - apply wp_bind, wp_try. eapply wp_mono; [apply enqueue_delivery|]. intros r s1 Hd.
    pose proof (good_delivery _ _ _ _ _ _ _ _ _ _ Hg Hd). pose proof (delivery_bindings _ _ _ _ _ _ _ Hd) as Eb.
    destruct r as [m|e]; [by apply scanned_mark, Hnext|].
    destruct e; sup_steps; (split; [good|]); try done. intros x [= <-]. done.
Qed.

Lemma safe_scan_binding key : safe (scan_binding env kenv key).
Proof.
  intros c0 cs0 s Hg. unfold scan_binding. apply wp_bind, wp_gets. cbn beta iota.
  destruct (Bindings (state s) !! key) as [b|] eqn:Hb; [|by sup_steps].
  destruct (negb (Bind.Enabled b)); [by sup_steps|].
  assert (Good c0 cs0 (with_state (set_binding key {| b with Bind.Enabled := false |}) s)) as Hoff.
  { good. by eapply step_binding. }
  destruct (Applications (state s) !! Bind.ApplicationID b) as [a|]; [|sup_steps; exact Hoff].
  case_decide; [sup_steps; exact Hoff|]. apply wp_bind. unfold or_restore. apply wp_bind, wp_try.
  eapply (wp_store_read env); [intros io; apply Commits_spec|]. intros [l|e] Hl; [|sup_steps; good].
  apply wp_ret, wp_bind. eapply wp_mono; [apply (wp_scan l c0 cs0 b); [good|by apply Hl]|].
  intros [[b' ch]|e] s1 [Hg1 Hr]; [|done]. destruct (Hr _ eq_refl) as [Hle Hbs].
  sup_steps. good. eapply step_binding; [by rewrite Hbs|done].
Qed.

Lemma safe_scan_bindings keys : safe (scan_bindings env kenv keys).
Proof.
  induction keys as [|key keys IH]; intros c0 cs0 s Hg; cbn [scan_bindings]; [by sup_steps|].
  apply wp_bind. safe_call safe_scan_binding. apply wp_bind. safe_call IH.
Qed.

Lemma safe_deliverLSFS : safe (deliverLSFS env kenv).
Proof.
  intros c0 cs0 s Hg. unfold deliverLSFS. sup_steps. safe_call safe_scan_bindings. sup_steps; good.
Qed.
End handlers.

#[export] Hint Resolve safe_AddLSFSBinding safe_SetEnabled safe_ImportArtifact safe_deliverLSFS : safety.
