(* ===== verification/KernelWakeProofs.v ===== *)
(** * The kernel queues: every delivery is durable before it is acknowledged *)

From Stdlib Require Import Ascii.
From stdpp Require Import base tactics option list gmap sets strings numbers pretty sorting.
From S2P Require Import Prelude Monad GoLib Json Crypto Policy ContextStore State Taint Mailbox Lifecycle.
From S2P Require Import Wake KernelWake Invariant Safety MailboxProofs WakeProofs.

Lemma step_set_or_drop id events st : ok_step st (set_or_drop_pending id events st).
Proof. unfold set_or_drop_pending, set_pending. case_decide; apply step_kernel_pending. Qed.

Lemma set_or_drop_audit id events st : Audit (set_or_drop_pending id events st) = Audit st.
Proof. unfold set_or_drop_pending. by case_decide. Qed.

Section handlers.
Context (env : Env) (kenv : KernelEnv).

Lemma safe_handle id : safe (ensureKernelHandleLocked kenv id).
Proof. intros c0 cs0 s Hg. eapply wp_mono; [apply local_handle|]. intros r s' Hl. by eapply good_local. Qed.

Lemma safe_set_or_drop id events : safe (modify_state (set_or_drop_pending id events)).
Proof.
  intros c0 cs0 s Hg. apply wp_modify_state, good_with_state; [done|apply set_or_drop_audit|apply step_set_or_drop].
Qed.

Lemma safe_mark id : safe (markKernelRecoveryPendingLocked id).
Proof.
  intros c0 cs0 s Hg. unfold markKernelRecoveryPendingLocked. sup_steps. good. apply step_kernel_pending.
Qed.

Lemma safe_persist : safe (persistLocked env).
Proof. intros c0 cs0 s Hg. sup_steps; good. Qed.

Lemma safe_deliver_persisted id events : safe (deliver_persisted env id events).
Proof.
  induction events as [|e events IH]; intros c0 cs0 s Hg; cbn [deliver_persisted]; [by sup_steps|].
  apply wp_bind, wp_try. eapply safe_wp; [apply safe_enqueueLocked|done|]. intros [m|err] s1 Hg1.
  - apply wp_bind. safe_call safe_set_or_drop. apply wp_bind. safe_call safe_persist. by apply IH.
  - destruct err; sup_steps; good.
Qed.

Lemma safe_recover_persisted id : safe (recover_persisted env id).
Proof.
  intros c0 cs0 s Hg. unfold recover_persisted, deliverPersistedKernelLocked.
  apply wp_bind. safe_call safe_mark. apply wp_bind, wp_try, wp_bind, wp_gets.
  eapply safe_wp; [apply safe_deliver_persisted|done|]. intros [b|e] s1 Hg1; [by sup_steps|].
  apply wp_bind. safe_call safe_mark.
Qed.

Lemma safe_boot : safe (boot_identity kenv).
Proof. intros c0 cs0 s Hg. unfold boot_identity. sup_steps; good. Qed.

Lemma safe_drop_handle id : safe (drop_handle id).
Proof. by apply safe_local. Qed.

Lemma safe_attach boot ids : safe (attach_applications env kenv boot ids).
Proof.
  induction ids as [|id ids IH]; intros c0 cs0 s Hg; cbn [attach_applications]; [by sup_steps|].
  apply wp_bind, wp_gets. cbn beta iota. case_decide; [by apply IH|].
  apply wp_bind. safe_call safe_recover_persisted. apply wp_bind.
  match goal with |- wp (if ?b then _ else _) _ _ => destruct b end; [|apply wp_ret; by apply IH].
  apply wp_bind. safe_call safe_handle. apply wp_bind, wp_with_tick.
  match goal with |- context [k_restore ?k ?t ?h ?ev] => destruct (k_restore k t h ev) as [[]|] end;
    try (apply wp_ret, IH; good); apply wp_bind; safe_call safe_drop_handle.
Qed.

Lemma safe_attachKernel : safe (attachKernel env kenv).
Proof.
  intros c0 cs0 s Hg. unfold attachKernel. apply wp_bind, wp_get. destruct (negb (kernel s)); [by sup_steps|].
  apply wp_bind. safe_call safe_boot. by apply safe_attach.
Qed.

Lemma safe_deliver_event id boot h e : safe (deliver_event env kenv id boot h e).
Proof.
  intros c0 cs0 s Hg. unfold deliver_event, record_call. apply wp_bind, wp_gets. cbn beta iota.
  apply wp_bind, wp_try. eapply safe_wp; [apply safe_enqueueLocked|done|]. intros [m|err] s1 Hg1.
  2: { unfold drop_handle. destruct err; safe_steps; good. }
  apply wp_bind, wp_gets, wp_bind, wp_modify_state, wp_bind, wp_try.
  eapply safe_wp; [apply safe_persist|good; apply step_kernel_pending|]. intros [u|err] s2 Hg2.
  2: { unfold drop_handle. safe_steps; good. }
  apply wp_bind, wp_with_tick. destruct (k_ack kenv _ _ _) as [err|]; [unfold drop_handle; safe_steps; good|].
  apply wp_bind, wp_modify_local; [done|]. intros s3 Hl3.
  apply wp_bind. safe_call safe_set_or_drop. apply wp_bind. safe_call safe_persist.
Qed.

Lemma safe_drain id boot h reads : safe (drain env kenv id boot h reads).
Proof.
  induction reads as [|[e|err] reads IH]; intros c0 cs0 s Hg; cbn [drain]; [by sup_steps| |by sup_steps].
  apply wp_bind. safe_call safe_deliver_event. destruct a; [by apply IH|by sup_steps].
Qed.

Lemma safe_deliver_applications boot ids : safe (deliver_applications env kenv boot ids).
Proof.
  induction ids as [|id ids IH]; intros c0 cs0 s Hg; cbn [deliver_applications]; [by sup_steps|].
  apply wp_bind, wp_gets. cbn beta iota. case_decide; [by apply IH|].
  apply wp_bind. safe_call safe_recover_persisted. destruct (negb a); [by apply IH|].
  apply wp_bind. safe_call safe_handle. apply wp_bind, wp_with_tick, wp_bind.
  safe_call safe_drain. destruct a1; [by apply IH|by sup_steps].
Qed.

Lemma safe_deliverKernel : safe (deliverKernel env kenv).
Proof.
  intros c0 cs0 s Hg. unfold deliverKernel. apply wp_bind, wp_get. destruct (negb (kernel s)); [by sup_steps|].
  apply wp_bind. safe_call safe_boot. by apply safe_deliver_applications.
Qed.

(** ** Shutdown *)

Lemma safe_snapshot_application boot id : safe (snapshot_application kenv boot id).
Proof.
  intros c0 cs0 s Hg. unfold snapshot_application. apply wp_bind, wp_gets. cbn beta iota.
  case_decide; [by sup_steps|]. apply wp_bind, wp_try. eapply safe_wp; [apply safe_handle|done|].
  intros [h|e] s1 Hg1; [|by sup_steps]. apply wp_bind, wp_with_tick.
  destruct (k_snapshot kenv _ _) as [[|ev evs]|e]; sup_steps; good; apply step_kernel_pending.
Qed.

Lemma safe_snapshot_applications boot ids : safe (snapshot_applications kenv boot ids).
Proof.
  induction ids as [|id ids IH]; intros c0 cs0 s Hg; cbn [snapshot_applications]; [by sup_steps|].
  apply wp_bind. safe_call safe_snapshot_application. apply wp_bind. safe_call IH.
Qed.

Lemma safe_closeHandles : safe closeKernelHandlesLocked.
Proof. by apply safe_local. Qed.

Lemma safe_snapshotKernel : safe (snapshotKernel env kenv).
Proof.
  intros c0 cs0 s Hg. unfold snapshotKernel. apply wp_bind, wp_get. destruct (negb (kernel s)); [by sup_steps|].
  apply wp_bind, wp_try. eapply safe_wp; [apply safe_boot|done|]. intros [boot|e] s1 Hg1; [|by sup_steps].
  apply wp_bind. safe_call safe_snapshot_applications. apply wp_bind. safe_call safe_closeHandles.
  sup_steps; good.
Qed.

Lemma safe_SetKernelBridge attached : safe (SetKernelBridge attached).
Proof.
  intros c0 cs0 s Hg. unfold SetKernelBridge. apply wp_bind. safe_call safe_closeHandles. by apply safe_local.
Qed.
End handlers.

#[export] Hint Resolve safe_SetKernelBridge safe_attachKernel safe_deliverKernel safe_snapshotKernel : safety.
