(* ===== verification/System.v ===== *)
(** * The running system

    Every operation that changes the supervisor, in any order and interleaving,
    with crashes and restarts in between.  An operation is one critical section of
    the supervisor's mutex, so the interleavings of concurrent clients and workers
    are the sequences of operations; a turn's claim, taint and settlement, and the
    staging of an export after its gate, are separate operations for that reason. *)

From Stdlib Require Import Ascii.
From stdpp Require Import base tactics option list gmap sets strings numbers pretty sorting relations.
From S2P Require Import Prelude Monad GoLib Json Crypto Ledger Policy ContextStore State Taint Mailbox.
From S2P Require Import Lifecycle Revocation Witness Runner Gateway Hostfs Wake KernelWake Web Invariant Safety.
From S2P Require Import MailboxProofs TaintProofs LifecycleProofs RecoveryProofs RunnerProofs GatewayProofs.
From S2P Require Import HostfsProofs WakeProofs KernelWakeProofs.

Inductive op : Type :=
  | OCreate (principal owner wake : string)
  | OFork (principal parentID owner wake : string)
  | ORetire (principal id : string)
  | OSetState (principal id newState : string)
  | OSetLimit (principal id : string) (limit : Z)
  | OSetRoute (principal id : string) (backends : list string)
  | OSetConcurrency (n : Z)
  | OAddTimer (principal id timerID : string) (delay interval : Z) (payload : string)
  | OPages (id : string)
  | OAuditPages (principal id : string)
  | OEnqueue (principal id key payload : string)
  | OClaim (principal id : string)
  | OAck (principal id messageID : string)
  | OExport (order : list string) (principal id text : string) (confirm escalate : bool) (requestID : string)
  | OSettle (principal requestID : string) (approve : bool)
  | ORevoke (principal : string) (token : CapabilityToken) (reason : string)
  | OCheck (principal id object action : string) (token : option CapabilityToken)
  | OCosign (principal : string) (cp : WitnessCheckpoint)
  | OCreateChannel (principal channelID kind : string)
  | ORevokeChannel (principal channelID : string)
  | OBind (principal channelID externalID id : string)
  | ODeliver (channelID externalID : string) (sequence : Z) (payload : string)
  | OReply (principal id messageID : string)
  | OClaimOutbox (channelID externalID : string)
  | OAckOutbox (principal entryID receipt : string)
  | OMount (principal id guestPath mode : string) (limits ttl : Z)
  | OUnmount (principal mountID : string)
  | OExportArtifact (order : list string) (principal id key payload : string)
  | OStageExport (principal id key payload : string)
  | OCommitImport (principal id key payload : string)
  | OWeb (principal id : string) (req : WebRequest) (status : Z)
  | OAddBinding (principal id bindingID ref : string) (after : Z)
  | OSetBinding (principal id bindingID : string) (enabled : bool)
  | OImportArtifact (principal id key payload : string)
  | OBridge (attached : bool)
  | OAttach
  | OTimers
  | OLSFS
  | OKernel
  | OSnapshot
  | OClaimTurn (order : list string)
  | OFoldTaint (id : string) (taint : Z)
  | OFinish (id : string) (m : MailboxMessage) (text : string) (usage : Usage) (route : RouteInfo) (perr : option error)
  | ORequeue (id messageID : string)
  | OClearInflight (id : string)
  | OExecute (p : ProviderInfo) (cancelled : bool) (id : string) (m : MailboxMessage).

Definition ignore {A} (m : M Supervisor A) : M Supervisor unit := m;; mret ().

Section system.
Context (env : Env) (kenv : KernelEnv) {E : Ed25519}.

Definition exec (o : op) : M Supervisor unit :=
  match o with
  | OCreate p owner wake => ignore (CreateApplication env p owner wake)
  | OFork p parent owner wake => ignore (ForkApplication env p parent owner wake)
  | ORetire p id => RetireApplication env p id
  | OSetState p id st => SetApplicationState env p id st
  | OSetLimit p id limit => SetTokenLimit env p id limit
  | OSetRoute p id backends => ignore (SetRoutePolicy env p id backends)
  | OSetConcurrency n => SetTurnConcurrency n
  | OAddTimer p id t d i payload => AddTimer env p id t d i payload
  | OPages id => ignore (ContextPages env id)
  | OAuditPages p id => AuditContextPages env p id
  | OEnqueue p id key payload => ignore (Enqueue env p id key payload)
  | OClaim p id => ignore (ClaimMailbox env p id)
  | OAck p id mid => AckMailbox env p id mid
  | OExport order p id text c e r => ignore (exportApplication env order p id text c e r)
  | OSettle p r a => ignore (SettleConfirmation env p r a)
  | ORevoke p t reason => RevokeCapabilityToken env p t reason
  | OCheck p id o a t => ignore (checkToken env p id o a t)
  | OCosign p cp => RecordCosignature env p cp
  | OCreateChannel p ch k => ignore (CreateChannel env p ch k)
  | ORevokeChannel p ch => RevokeChannel env p ch
  | OBind p ch ext id => ignore (BindConversation env p ch ext id)
  | ODeliver ch ext seq payload => ignore (DeliverInbound env ch ext seq payload)
  | OReply p id mid => ignore (Reply env p id mid)
  | OClaimOutbox ch ext => ignore (ClaimOutbox env ch ext)
  | OAckOutbox p e r => AckOutbox env p e r
  | OMount p id g m l t => ignore (MountHostfs env p id g m l t)
  | OUnmount p mid => UnmountHostfs env p mid
  | OExportArtifact order p id key payload => ignore (ExportArtifact env order p id key payload)
  | OStageExport p id key payload =>
      ignore (stage_transfer env p id key payload "export" "artifact.transfer.export" (mret ()))
  | OCommitImport p id key payload => ignore (CommitImport env p id key payload)
  | OWeb p id req status => web_finish env p id req status
  | OAddBinding p id b r after => AddLSFSBinding env p id b r after
  | OSetBinding p id b e => SetLSFSBindingEnabled env p id b e
  | OImportArtifact p id key payload => ignore (ImportArtifact env p id key payload)
  | OBridge attached => SetKernelBridge attached
  | OAttach => attachKernel env kenv
  | OTimers => deliverTimers env
  | OLSFS => deliverLSFS env kenv
  | OKernel => deliverKernel env kenv
  | OSnapshot => snapshotKernel env kenv
  | OClaimTurn order => ignore (claimTurn env order)
  | OFoldTaint id t => foldTaint env id t
  | OFinish id m text u r e => finishTurn env id m text u r e
  | ORequeue id mid => requeueClaim env id mid
  | OClearInflight id => clearInflight id
  | OExecute p c id m => executeTurn env p c id m
  end.

(** What the types of the source give, and that a fresh identifier is fresh. *)
Definition admissible (s : Supervisor) (o : op) : Prop :=
  match o with
  | OCreate _ _ _ | OFork _ _ _ _ => fresh_id env s
  | OSetLimit _ _ limit => in_u64 limit
  | OFoldTaint _ taint => in_u64 taint
  | OFinish _ _ _ usage _ _ => usage_ok usage
  | OExecute p _ _ _ => provider_ok p
  | _ => True
  end.

(** A new process on the same directory: only the databases survive. *)
Definition reopened (p : CapabilitySet) (s : Supervisor) : Supervisor :=
  mkSupervisor empty_state p "" empty_state (store s) false ∅ ∅ ∅ "" ∅ ∅ 0 (calls s) (tick s).

Inductive step (s : Supervisor) : Supervisor → Prop :=
  | step_op o : admissible s o → step s (snd (exec o s))
  | step_restart p order1 order2 s' :
      load env order1 order2 (committed s) (reopened p s) = (Ok (), s') → step s s'.

Definition first_start (p : CapabilitySet) (t : nat) : Supervisor :=
  mkSupervisor empty_state p "" empty_state empty_store false ∅ ∅ ∅ "" ∅ ∅ 0 [] t.

Definition reachable (s : Supervisor) : Prop :=
  ∃ p t order1 order2 s0,
    load env order1 order2 empty_state (first_start p t) = (Ok (), s0) ∧ rtc step s0 s.

Lemma reachable_steps s s' : reachable s → rtc step s s' → reachable s'.
Proof. intros (p & t & o1 & o2 & s0 & Hl & Hs) Hs'. exists p, t, o1, o2, s0. split; [done|]. by etrans. Qed.

(** ** Every operation is safe *)

Lemma safe_ignore {A} (m : M Supervisor A) : safe m → safe (ignore m).
Proof. intros Hm c0 cs0 s Hg. unfold ignore. apply wp_bind. eapply wp_mono; [by apply Hm|]. by intros [?|?]. Qed.

Lemma safe_SetConcurrency n : safe (SetTurnConcurrency n).
Proof. intros c0 cs0 s Hg. unfold SetTurnConcurrency. safe_steps; good. Qed.

Lemma safe_stage_export p id key payload :
  safe (stage_transfer env p id key payload "export" "artifact.transfer.export" (mret ())).
Proof. apply safe_stage. intros c0 cs0 s Hg. by sup_steps. Qed.

Hint Resolve safe_ignore safe_SetConcurrency safe_stage_export : safety.

Lemma exec_good c0 cs0 o s :
  env_ok env → admissible s o → Good c0 cs0 s → wp (exec o) (λ _ s', Good c0 cs0 s') s.
Proof.
  intros Henv Ho Hg. destruct o; simpl in *.
  1,2: unfold ignore; apply wp_bind; eapply wp_mono; [by apply wp_Create || by apply wp_Fork|by intros [?|?]].
  all: match goal with |- wp ?m _ _ => cut (safe m); [intros Hs; exact (Hs c0 cs0 s Hg)|auto with safety] end.
Qed.

Lemma restart_good c0 cs0 p order1 order2 s s' :
  Good c0 cs0 s → load env order1 order2 (committed s) (reopened p s) = (Ok (), s') → Good c0 cs0 s'.
Proof.
  intros [] Hl. eapply (wp_run _ _ _ _ _ (wp_load env order1 order2 (committed s) c0 cs0 (reopened p s) _ _ _ _)); done.
Unshelve. all: done.
Qed.

Lemma step_good c0 cs0 s s' : env_ok env → step s s' → Good c0 cs0 s → Good c0 cs0 s'.
Proof.
  intros Henv [o Ho|p o1 o2 s'' Hl] Hg; [|by eapply restart_good].
  exact (wp_snd _ (Good c0 cs0) _ (exec_good c0 cs0 o s Henv Ho Hg)).
Qed.

Lemma steps_good c0 cs0 s s' : env_ok env → rtc step s s' → Good c0 cs0 s → Good c0 cs0 s'.
Proof. intros Henv. induction 1; eauto using step_good. Qed.

Lemma SInv_empty : SInv empty_state.
Proof.
  split; cbn; try done; try lia.
  - intros _. split; [apply NoDup_nil_2|done].
  - vm_compute. lia.
  - split; [lia|done].
  - split; [done|]. intros id. vm_compute. lia.
  - split; [constructor|apply NoDup_nil_2].
Qed.

Lemma reachable_good s : env_ok env → reachable s → Good empty_state empty_store s.
Proof.
  intros Henv (p & t & o1 & o2 & s0 & Hl & Hsteps). eapply steps_good; [done..|].
  eapply (wp_run _ _ _ _ _ (wp_load env o1 o2 empty_state empty_state empty_store (first_start p t) _ _ _ _)); done.
Unshelve.
  - apply SInv_empty.
  - done.
  - apply empty_store_wf.
  - done.
Qed.

(** Any reachable supervisor is a starting point for what comes later. *)
Lemma later_good s s' :
  env_ok env → reachable s → rtc step s s' → Good (committed s) (store s) s'.
Proof.
  intros Henv Hr Hs. eapply steps_good; [done..|]. destruct (reachable_good s Henv Hr). by split.
Qed.
End system.
