(* ===== verification/Durability.v ===== *)
(** * What an operation reports is durable

    [persistLocked] commits the whole state or rolls it back, but every handler has
    to call it after its last change.  [Synced] says that nothing of the books
    (applications, mailboxes, results, timers, revocations, channels,
    conversations, outbox, mounts, transfers, routes, checkpoints) is only in
    memory; a handler [commits] when it ends so on every path. *)

From Stdlib Require Import Ascii.
From stdpp Require Import base tactics option list gmap sets strings numbers pretty sorting relations.
From S2P Require Import Prelude Monad GoLib Json Crypto Ledger Policy ContextStore State Taint Mailbox.
From S2P Require Import Lifecycle Revocation Witness Runner Gateway Hostfs Wake KernelWake Web Invariant Safety.
From S2P Require Import MailboxProofs WakeProofs System.

(** The part of the state the property is about.  Left out are the audit log and the
    counters, which run ahead of the commits, the confirmations, which are swept in
    memory, and the kernel queues and LSFS bindings. *)
Definition books (st : supervisorState) :=
  (Applications st, Mailbox st, Results st, Prepared st, Timers st, RouteRecords st, RevokedTokens st,
   WitnessCheckpoints st, Channels st, Conversations st, Outbox st, HostfsMounts st, Transfers st).

Definition Based (s : Supervisor) : Prop := durable (committed s) = committed s.

Definition Synced (s : Supervisor) : Prop := books (durable (state s)) = books (committed s) ∧ Based s.

Lemma fmap_idem {A} (f : A → A) (l : list A) : (∀ x, f (f x) = f x) → f <$> (f <$> l) = f <$> l.
Proof. intros Hf. rewrite <-list_fmap_compose. apply list_fmap_ext. intros _ x _. apply Hf. Qed.

Lemma map_fmap_idem {A} (f : A → A) (m : gmap string A) : (∀ x, f (f x) = f x) → f <$> (f <$> m) = f <$> m.
Proof. intros Hf. rewrite <-map_fmap_compose. apply map_fmap_ext. intros _ x _. apply Hf. Qed.

Lemma durable_idem st : durable (durable st) = durable st.
Proof.
  unfold durable. cbn. f_equal.
  - apply map_fmap_idem. intros ms. apply fmap_idem. intros []. cbn. by rewrite json_compact_idem.
  - apply map_fmap_idem. intros []. cbn. by rewrite json_compact_idem.
  - apply map_fmap_idem. intros es. apply fmap_idem. done.
  - apply fmap_idem. intros []. cbn. by rewrite json_compact_idem.
  - apply fmap_idem. intros []. cbn. by rewrite json_compact_idem.
Qed.

(** ** The effects *)

Section effects.
Implicit Types s : Supervisor.

Lemma synced_based s : Synced s → Based s.
Proof. by intros []. Qed.

Lemma synced_saved s : Synced (saved s).
Proof. split; [done|]. apply durable_idem. Qed.

Lemma synced_restored s : Based s → Synced (restored s).
Proof. intros H. split; [|done]. unfold Based in H. cbn. by rewrite H. Qed.

Lemma synced_with_state f s :
  Synced s → books (durable (f (state s))) = books (durable (state s)) → Synced (with_state f s).
Proof. intros [H1 H2] E. split; [|done]. cbn. by rewrite E. Qed.

Lemma synced_local s s' :
  Synced s → state s' = state s → committed s' = committed s → Synced s'.
Proof. intros [H1 H2] E1 E2. split; unfold Based; by rewrite ?E1, ?E2. Qed.

Lemma synced_of_local s s' : local s s' → Synced s → Synced s'.
Proof. intros (E1 & E2 & _ & _) Hs. by apply (synced_local s). Qed.

Lemma based_of_local s s' : local s s' → Based s → Based s'.
Proof. intros (_ & E & _ & _). unfold Based. by rewrite E. Qed.

Lemma synced_audited env p i a o d r s : Synced s → Synced (audited env p i a o d r s).
Proof. by intros [H1 H2]. Qed.

Lemma based_saved s : Based (saved s).
Proof. apply durable_idem. Qed.
End effects.

(** Peel the effects off the supervisor the goal is about. *)
Ltac based :=
  lazymatch goal with
  | |- Based (saved _) => apply based_saved
  | |- Based (ticked ?s) => change (Based s); based
  | |- Based (restored ?s) => change (Based s); based
  | |- Based (with_state _ ?s) => change (Based s); based
  | |- Based (stored _ ?s) => change (Based s); based
  | |- Based (audited _ _ _ _ _ _ _ ?s) => change (Based s); based
  | H : Based ?s |- Based ?s => exact H
  | H : Synced ?s |- Based ?s => exact (synced_based s H)
  | H : local _ ?s |- Based ?s => apply (based_of_local _ _ H); based
  | _ => idtac
  end.

Ltac synced :=
  lazymatch goal with
  | |- Synced (saved _) => apply synced_saved
  | |- Synced (restored _) => apply synced_restored; based
  | |- Synced (ticked ?s) => change (Synced s); synced
  | |- Synced (stored _ ?s) => apply (synced_local s); [synced|reflexivity..]
  | |- Synced (audited _ _ _ _ _ _ _ _) => apply synced_audited; synced
  | |- Synced (with_state _ _) => apply synced_with_state; [synced|try reflexivity]
  | H : Synced ?s |- Synced ?s => exact H
  | H : local _ ?s |- Synced ?s => apply (synced_of_local _ _ H); synced
  | _ => idtac
  end.

Definition commits {A} (m : M Supervisor A) : Prop := ∀ s, Synced s → wp m (λ _ s', Synced s') s.

Create HintDb durability.

Lemma commits_wp {A} (m : M Supervisor A) s (Q : result error A → Supervisor → Prop) :
  commits m → Synced s → (∀ r s', Synced s' → Q r s') → wp m Q s.
Proof. intros Hm Hs HQ. eapply wp_mono; [by apply Hm|]. auto. Qed.

(** A handler whose every path ends in a commit, a rollback, or no change. *)
Ltac committed_steps := intros s Hs; safe_steps; synced.

Lemma wp_store_synced {A} env (f : bool → M ContextStore A) s (Q : result error A → Supervisor → Prop) :
  Synced s → (∀ r s', Synced s' → Q r s') → wp (with_store env f) Q s.
Proof. intros Hs H. apply wp_with_store. apply wp_intro. intros r cs _. apply H. by apply (synced_local s). Qed.

Section handlers.
Context (env : Env).

Lemma commits_delivery principal id key payload s r s' :
  delivery env principal id key payload s r s' → (∃ e, r = Err e ∧ s' = s) ∨ (∃ m, r = Ok m ∧ (Based s → Based s')).
Proof. destruct 1; eauto. Qed.

(** *** Mailboxes *)

Lemma commits_Enqueue principal id key payload : commits (Enqueue env principal id key payload).
Proof.
  intros s Hs. unfold Enqueue. sup_steps; try exact Hs.
  eapply wp_mono; [apply enqueue_delivery|]. intros r s' Hd. destruct Hd; sup_steps; synced; try exact Hs.
  exfalso. cbn in e. lia.
Qed.

Lemma claim_nothing ms : claimable ms = [] → claim_message <$> ms = ms.
Proof.
  unfold claimable. intros H%fmap_nil_inv. induction ms as [|m ms IH]; csimpl; [done|].
  rewrite filter_cons in H. unfold claim_message at 1. case_decide; [done|]. f_equal. auto.
Qed.

Lemma books_messages id f st :
  f (messages_of st id) = messages_of st id → books (durable (update_messages id f st)) = books (durable st).
Proof.
  intros Hf. unfold books, durable, update_messages. cbn. f_equal. repeat (f_equal; []).
  rewrite alter_id; [done|]. intros ms Hms. unfold messages_of in Hf. by rewrite Hms in Hf.
Qed.

Lemma commits_accumulate id taint s (Q : result error unit → Supervisor → Prop) :
  (taint = 0%Z → Q (Ok ()) s) → (taint ≠ 0%Z → Q (Ok ()) (with_state (update_app id (add_taint taint)) s)) →
  wp (accumulateTaint id taint) Q s.
Proof. unfold accumulateTaint. intros. case_decide; sup_steps; auto. Qed.

Lemma based_accumulate id taint s : Based s → wp (accumulateTaint id taint) (λ r s', r = Ok () ∧ Based s') s.
Proof. intros Hs. by apply commits_accumulate. Qed.

Lemma based_fold_taints id ms : ∀ s, Based s → wp (fold_taints id ms) (λ r s', r = Ok () ∧ Based s') s.
Proof.
  induction ms as [|m ms IH]; intros s Hs; simpl; [by sup_steps|].
  apply wp_bind, commits_accumulate; intros _; by apply IH.
Qed.

Lemma commits_ClaimMailbox principal id : commits (ClaimMailbox env principal id).
Proof.
  intros s Hs. unfold ClaimMailbox. sup_steps; try exact Hs.
  destruct (decide (claimable (messages_of (state s) id) = [])) as [E|E].
  - rewrite E. cbn [fold_taints]. sup_steps. apply synced_with_state; [done|]. apply books_messages. by apply claim_nothing.
  - eapply wp_mono; [apply based_fold_taints; based|]. intros r s' [-> Hb]. sup_steps; synced.
Qed.

Lemma commits_Ack principal id mid : commits (AckMailbox env principal id mid).
Proof. unfold AckMailbox. committed_steps. Qed.

Lemma commits_requeue id mid : commits (requeueClaim env id mid).
Proof. unfold requeueClaim. committed_steps. Qed.

Lemma commits_foldTaint id taint : commits (foldTaint env id taint).
Proof. unfold foldTaint, accumulateTaint. committed_steps. Qed.

Lemma commits_web_finish principal id req status : commits (web_finish env principal id req status).
Proof. unfold web_finish, accumulateTaint. committed_steps. Qed.

(** *** Lifecycle *)

Lemma commits_Create principal owner wake : commits (CreateApplication env principal owner wake).
Proof.
  intros s Hs. unfold CreateApplication, next_kernel_id, with_store_random. sup_steps; synced.
  apply wp_store_synced; [synced|]. intros [c|e] s1 Hs1; sup_steps; synced.
Qed.

Lemma commits_Fork principal parent owner wake : commits (ForkApplication env principal parent owner wake).
Proof.
  intros s Hs. unfold ForkApplication, next_kernel_id, with_store_random. sup_steps; synced.
  apply wp_store_synced; [synced|]. intros [c|e] s1 Hs1; sup_steps; synced.
Qed.

Lemma commits_Retire principal id : commits (RetireApplication env principal id).
Proof.
  intros s Hs. unfold RetireApplication, expireMailboxLocked, drop_handles. safe_steps; synced.
Qed.

Lemma commits_SetState principal id st : commits (SetApplicationState env principal id st).
Proof. unfold SetApplicationState. committed_steps. Qed.

Lemma commits_SetLimit principal id limit : commits (SetTokenLimit env principal id limit).
Proof. unfold SetTokenLimit. committed_steps. Qed.

Lemma commits_SetRoute principal id backends : commits (SetRoutePolicy env principal id backends).
Proof. unfold SetRoutePolicy. committed_steps. Qed.

Lemma commits_SetConcurrency n : commits (SetTurnConcurrency n).
Proof. unfold SetTurnConcurrency. committed_steps. Qed.

Lemma commits_AddTimer principal id t d i payload : commits (AddTimer env principal id t d i payload).
Proof. unfold AddTimer. committed_steps. Qed.

Lemma commits_Pages id : commits (ContextPages env id).
Proof. intros s Hs. unfold ContextPages. sup_steps; synced. apply wp_store_synced; [synced|]. done. Qed.

Lemma commits_AuditPages principal id : commits (AuditContextPages env principal id).
Proof. unfold AuditContextPages. committed_steps. Qed.

(** *** Gates *)

Lemma commits_escalate order principal a text : commits (escalateExportLocked env order principal a text).
Proof. unfold escalateExportLocked, sweepConfirmationsLocked. committed_steps. Qed.

Lemma commits_viaRequest principal a text req : commits (exportViaRequestLocked env principal a text req).
Proof. unfold exportViaRequestLocked. committed_steps. Qed.

Lemma commits_export order principal id text c e req : commits (exportApplication env order principal id text c e req).
Proof.
  intros s Hs. unfold exportApplication. sup_steps; synced.
  - by apply commits_viaRequest.
  - by apply commits_escalate.
Qed.

Lemma commits_Settle principal req approve : commits (SettleConfirmation env principal req approve).
Proof. unfold SettleConfirmation. committed_steps. Qed.

Lemma commits_Revoke {E : Ed25519} principal token reason : commits (RevokeCapabilityToken env principal token reason).
Proof. unfold RevokeCapabilityToken. committed_steps. Qed.

Lemma commits_check {E : Ed25519} principal id o a token : commits (checkToken env principal id o a token).
Proof. unfold checkToken. committed_steps. Qed.

Lemma commits_Cosign {E : Ed25519} principal cp : commits (RecordCosignature env principal cp).
Proof. unfold RecordCosignature. committed_steps. Qed.

(** *** Mounts and transfers *)

Lemma commits_Mount principal id g m l ttl : commits (MountHostfs env principal id g m l ttl).
Proof. unfold MountHostfs. committed_steps. Qed.

Lemma commits_Unmount principal id : commits (UnmountHostfs env principal id).
Proof. unfold UnmountHostfs. committed_steps. Qed.

Lemma commits_stage principal id key payload direction action (before : M Supervisor unit) :
  (∀ s, Based s → wp before (λ r s', r = Ok () ∧ Based s') s) →
  commits (stage_transfer env principal id key payload direction action before).
Proof.
  intros Hb s Hs. unfold stage_transfer. sup_steps; synced.
  eapply wp_mono; [apply Hb; based|]. intros r s' [-> Hs']. sup_steps; synced.
Qed.

Lemma commits_stage_export principal id key payload :
  commits (stage_transfer env principal id key payload "export" "artifact.transfer.export" (mret ())).
Proof. apply commits_stage. intros s Hs. by sup_steps. Qed.

Lemma commits_ExportArtifact order principal id key payload : commits (ExportArtifact env order principal id key payload).
Proof.
  intros s Hs. unfold ExportArtifact. apply wp_bind.
  eapply commits_wp; [apply commits_export|done|]. intros [t|e] s' Hs'; [by apply commits_stage_export|done].
Qed.

Lemma commits_CommitImport principal id key payload : commits (CommitImport env principal id key payload).
Proof. apply commits_stage. intros s Hs. by apply commits_accumulate. Qed.
End handlers.

#[export] Hint Resolve commits_Enqueue commits_ClaimMailbox commits_Ack commits_requeue commits_foldTaint commits_web_finish commits_Create
  commits_Fork commits_Retire commits_SetState commits_SetLimit commits_SetRoute commits_SetConcurrency commits_AddTimer
  commits_Pages commits_AuditPages commits_export commits_Settle commits_Revoke commits_check commits_Cosign commits_Mount
  commits_Unmount commits_stage_export commits_ExportArtifact commits_CommitImport : durability.

(** ** Loops that collect changes for one commit *)

(** The result of such a loop tells whether a commit is due; an error means the
    state was rolled back. *)
Definition owes (s : Supervisor) (r : result error bool) (s' : Supervisor) : Prop :=
  Based s' ∧ match r with Ok true => True | Ok false => Synced s → Synced s' | Err _ => Synced s' end.

Lemma owes_true s s' : Based s' → owes s (Ok true) s'.
Proof. by split. Qed.

Lemma owes_trans s s1 r s' : (Synced s → Synced s1) → owes s1 r s' → owes s r s'.
Proof. intros H [Hb Hr]. split; [done|]. destruct r as [[]|]; auto. Qed.

Lemma owes_err s e s' : Synced s' → owes s (Err e) s'.
Proof. intros Hs. split; [by apply synced_based|done]. Qed.

(** A loop followed by its commit. *)
Lemma commits_owes env (m : M Supervisor bool) :
  (∀ s, Based s → wp m (owes s) s) →
  commits (changed ← m; if (changed : bool) then persistLocked env else mret ()).
Proof.
  intros Hm s Hs. apply wp_bind. eapply wp_mono; [apply Hm; based|]. intros [[]|e] s' [Hb H]; sup_steps; synced; auto.
Qed.

Section loops.
Context (env : Env) (kenv : KernelEnv).

Lemma owes_deliver_due t keys : ∀ s, Based s → wp (deliver_due env t keys) (owes s) s.
Proof.
  induction keys as [|[key timer] keys IH]; intros s Hs; simpl; [by sup_steps; split|].
  assert (∀ s1, Based s1 → wp (deliver_due env t keys ;; mret true) (owes s) s1) as Hrest.
  { intros s1 Hs1. apply wp_bind. eapply wp_mono; [by apply IH|]. intros [b|e] s2 [Hb H]; [by split|by apply owes_err]. }
  apply wp_bind, wp_gets. cbn beta iota. destruct (Applications (state s) !! Tmr.ApplicationID timer) as [a|].
  2:{ apply wp_bind, wp_modify_state. apply Hrest. based. }
  case_decide; [apply wp_bind, wp_modify_state; apply Hrest; based|]. case_decide; [by apply IH|].
  apply wp_bind, wp_try. eapply wp_mono; [apply enqueue_delivery|]. intros r s1 Hd.
  destruct (commits_delivery _ _ _ _ _ _ _ _ Hd) as [(e & -> & ->)|(m & -> & Hb)].
  - destruct e; try (by apply IH); sup_steps; apply owes_err; synced.
  - apply wp_bind, wp_modify_state, wp_bind, wp_audit. apply Hrest. specialize (Hb Hs). based.
Qed.

Lemma commits_deliverTimers : commits (deliverTimers env).
Proof.
  intros s Hs. unfold deliverTimers. apply wp_bind, wp_now, wp_bind, wp_gets.
  apply (commits_owes env _ (λ s, owes_deliver_due _ _ s)). synced.
Qed.

(** *** LSFS *)

Definition owes_scan (s : Supervisor) (r : result error (WakeBinding * bool)) (s' : Supervisor) : Prop :=
  owes s (match r with Ok x => Ok (snd x) | Err e => Err e end) s'.

Lemma owes_scan_none s b s' : Based s' → (Synced s → Synced s') → owes_scan s (Ok (b, false)) s'.
Proof. intros Hb H. split; [done|exact H]. Qed.

Lemma wp_restore_stop {A} e s (Q : result error A → Supervisor → Prop) :
  Based s → (∀ s', Synced s' → Q (Err e) s') → wp (restoreLocked ;; throw e) Q s.
Proof. intros Hb HQ. sup_steps. apply HQ. synced. Qed.

Lemma owes_scan_commits cs : ∀ b s, Based s → wp (scan_commits env kenv b cs) (owes_scan s) s.
Proof.
  induction cs as [|c cs IH]; intros b s Hs; simpl; [apply wp_ret; by apply owes_scan_none|].
  assert (∀ b1 s1, Based s1 → wp (r ← scan_commits env kenv b1 cs; mret (fst r, true)) (owes_scan s) s1) as Hrest.
  { intros b1 s1 Hs1. apply wp_bind. eapply wp_mono; [by apply IH|]. intros [x|e] s2 [Hb H]; [by split|by apply owes_err]. }
  case_decide; [by apply Hrest|]. apply wp_bind, wp_get. cbn beta iota. destruct (kernel s).
  - apply wp_bind. unfold or_restore at 1. apply wp_bind, wp_try. eapply wp_mono; [apply local_source|].
    intros [src|e] s1 Hl; [|apply wp_restore_stop; [based|intros; by apply owes_err]].
    apply wp_ret, wp_bind, wp_with_tick.
    destruct (k_post kenv _ _ _) as [e|].
    + destruct e; try (apply wp_restore_stop; [based|intros; by apply owes_err]).
      sup_steps. apply owes_scan_none; [based|]. intros. synced.
    + apply wp_bind. unfold record_call. apply wp_modify_local; [by split_and!|]. intros s2 Hl2.
      apply wp_bind. unfold or_restore. apply wp_bind, wp_try, wp_persist.
      * apply wp_ret. eapply wp_mono; [apply IH; based|]. intros r s3. apply owes_trans. intros. synced.
      * apply wp_restore_stop; [based|intros; by apply owes_err].
  - apply wp_bind, wp_try. eapply wp_mono; [apply enqueue_delivery|]. intros r s1 Hd.
    destruct (commits_delivery _ _ _ _ _ _ _ _ Hd) as [(e & -> & ->)|(m & -> & Hb)]; [|by apply Hrest, Hb].
    destruct e; try (apply wp_restore_stop; [based|intros; by apply owes_err]). sup_steps. by apply owes_scan_none.
Qed.

Lemma owes_scan_binding key : ∀ s, Based s → wp (scan_binding env kenv key) (owes s) s.
Proof.
  intros s Hs. unfold scan_binding. apply wp_bind, wp_gets. cbn beta iota.
  destruct (Bindings (state s) !! key) as [b|]; [|by sup_steps; split].
  destruct (Bind.Enabled b); cbn [negb]; [|by sup_steps; split].
  destruct (Applications (state s) !! Bind.ApplicationID b) as [a|]; [|sup_steps; apply owes_true; based].
  case_decide; [sup_steps; apply owes_true; based|]. apply wp_bind. unfold or_restore. apply wp_bind, wp_try.
  apply wp_with_store, wp_intro. intros [cs|e] st _; [|apply wp_restore_stop; [based|intros; by apply owes_err]].
  apply wp_ret, wp_bind. eapply wp_mono; [apply owes_scan_commits; based|].
  intros [[b' c]|e] s1 [Hb Hc]; [|by apply owes_err]. sup_steps. cbn [snd] in *.
  split; [based|]. destruct c; [done|]. intros Hs0. apply synced_with_state; [|done]. apply Hc. synced.
Qed.

Lemma owes_scan_bindings keys : ∀ s, Based s → wp (scan_bindings env kenv keys) (owes s) s.
Proof.
  induction keys as [|key keys IH]; intros s Hs; simpl; [by sup_steps; split|].
  apply wp_bind. eapply wp_mono; [by apply owes_scan_binding|]. intros [c|e] s1 [Hb H]; [|by apply owes_err].
  apply wp_bind. eapply wp_mono; [by apply IH|]. intros [c'|e] s2 [Hb' H']; [|by apply owes_err].
  apply wp_ret. destruct c, c'; try (by apply owes_true). split; [done|]. intros Hs0. by apply H', H.
Qed.

Lemma commits_deliverLSFS : commits (deliverLSFS env kenv).
Proof.
  intros s Hs. unfold deliverLSFS. apply wp_bind, wp_gets.
  apply (commits_owes env _ (λ s, owes_scan_bindings _ s)). done.
Qed.

Lemma commits_AddBinding principal id b r after : commits (AddLSFSBinding env principal id b r after).
Proof.
  intros s Hs. unfold AddLSFSBinding. sup_steps; synced.
  all: apply wp_store_synced; [synced|]; intros [x|e] s1 Hs1; sup_steps; synced.
Qed.

Lemma commits_SetBinding principal id b e : commits (SetLSFSBindingEnabled env principal id b e).
Proof. unfold SetLSFSBindingEnabled. committed_steps. Qed.

Lemma commits_ImportArtifact principal id key payload : commits (ImportArtifact env principal id key payload).
Proof.
  intros s Hs. unfold ImportArtifact. sup_steps; synced.
  apply wp_store_synced; [synced|]. intros [x|e] s1 Hs1; sup_steps; synced.
Qed.

(** *** Kernel queues *)

Lemma commits_local {A} (m : M Supervisor A) : (∀ s, wp m (λ _ s', local s s') s) → commits m.
Proof. intros Hm s Hs. eapply wp_mono; [apply Hm|]. intros r s' Hl. by apply (synced_of_local s). Qed.

Lemma commits_handle id : commits (ensureKernelHandleLocked kenv id).
Proof. apply commits_local, local_handle. Qed.

Lemma commits_bridge attached : commits (SetKernelBridge attached).
Proof. unfold SetKernelBridge, closeKernelHandlesLocked. committed_steps. Qed.

Lemma books_pending id es st : books (durable (set_or_drop_pending id es st)) = books (durable st).
Proof. unfold set_or_drop_pending. by case_decide. Qed.

Lemma commits_deliver_persisted id es : commits (deliver_persisted env id es).
Proof.
  induction es as [|e es IH]; intros s Hs; simpl; [by sup_steps|].
  apply wp_bind, wp_try. eapply wp_mono; [apply enqueue_delivery|]. intros r s1 Hd.
  destruct (commits_delivery _ _ _ _ _ _ _ _ Hd) as [(err & -> & ->)|(m & -> & Hb)].
  - destruct err; sup_steps; synced.
  - specialize (Hb (synced_based _ Hs)). sup_steps; synced. apply IH. synced.
Qed.

Lemma commits_mark id : commits (markKernelRecoveryPendingLocked id).
Proof. unfold markKernelRecoveryPendingLocked. committed_steps. Qed.

Lemma commits_recover id : commits (recover_persisted env id).
Proof.
  intros s Hs. unfold recover_persisted, deliverPersistedKernelLocked. apply wp_bind.
  eapply commits_wp; [apply commits_mark|done|]. intros [u|e] s1 Hs1; [|done]. apply wp_bind, wp_try, wp_bind, wp_gets.
  eapply commits_wp; [apply commits_deliver_persisted|done|]. intros [b|e] s2 Hs2; [by sup_steps|].
  apply wp_bind. eapply commits_wp; [apply commits_mark|done|]. intros [u'|e'] s3 Hs3; [by sup_steps|done].
Qed.

Lemma commits_boot : commits (boot_identity kenv).
Proof. unfold boot_identity. committed_steps. Qed.

Lemma commits_drop_handle id : commits (drop_handle id).
Proof. unfold drop_handle. committed_steps. Qed.

Lemma commits_attach boot ids : commits (attach_applications env kenv boot ids).
Proof.
  induction ids as [|id ids IH]; intros s Hs; simpl; [by sup_steps|]. apply wp_bind, wp_gets. cbn beta iota.
  case_decide; [by apply IH|]. apply wp_bind. eapply commits_wp; [apply commits_recover|done|].
  intros [recovered|e] s1 Hs1; [|done]. apply wp_bind. destruct (recovered && _); [|by apply wp_ret, IH].
  apply wp_bind. eapply commits_wp; [apply commits_handle|done|]. intros [h|e] s2 Hs2; [|done].
  apply wp_bind, wp_with_tick. destruct (k_restore _ _ _ _) as [e|]; [|apply wp_ret, IH; synced].
  destruct e; try (apply wp_ret, IH; synced); safe_steps; unfold drop_handle; safe_steps; synced.
Qed.

Lemma commits_attachKernel : commits (attachKernel env kenv).
Proof.
  intros s Hs. unfold attachKernel. apply wp_bind, wp_get. cbn beta iota. destruct (negb (kernel s)); [by sup_steps|].
  apply wp_bind. eapply commits_wp; [apply commits_boot|done|]. intros [b|e] s1 Hs1; [|done]. by apply commits_attach.
Qed.

Lemma commits_deliver_event id boot h e : commits (deliver_event env kenv id boot h e).
Proof.
  intros s Hs. unfold deliver_event. apply wp_bind, wp_gets. cbn beta iota zeta.
  apply wp_bind, wp_try. eapply wp_mono; [apply enqueue_delivery|]. intros r s1 Hd.
  destruct (commits_delivery _ _ _ _ _ _ _ _ Hd) as [(err & -> & ->)|(m & -> & Hb)].
  - unfold drop_handle. destruct err; safe_steps; synced.
  - specialize (Hb (synced_based _ Hs)). unfold drop_handle, record_call. safe_steps; synced.
Qed.

Lemma commits_drain id boot h reads : commits (drain env kenv id boot h reads).
Proof.
  induction reads as [|[e|e] reads IH]; intros s Hs; simpl; [by sup_steps| |by sup_steps].
  apply wp_bind. eapply commits_wp; [apply commits_deliver_event|done|]. intros [go|err] s1 Hs1; [|done].
  destruct go; [by apply IH|by sup_steps].
Qed.

Lemma commits_deliver_applications boot ids : commits (deliver_applications env kenv boot ids).
Proof.
  induction ids as [|id ids IH]; intros s Hs; simpl; [by sup_steps|]. apply wp_bind, wp_gets. cbn beta iota.
  case_decide; [by apply IH|]. apply wp_bind. eapply commits_wp; [apply commits_recover|done|].
  intros [recovered|e] s1 Hs1; [|done]. destruct recovered; cbn [negb]; [|by apply IH].
  apply wp_bind. eapply commits_wp; [apply commits_handle|done|]. intros [h|e] s2 Hs2; [|done].
  apply wp_bind, wp_with_tick, wp_bind. eapply commits_wp; [apply commits_drain|synced|].
  intros [go|e] s3 Hs3; [|done]. destruct go; [by apply IH|by sup_steps].
Qed.

Lemma commits_deliverKernel : commits (deliverKernel env kenv).
Proof.
  intros s Hs. unfold deliverKernel. apply wp_bind, wp_get. cbn beta iota. destruct (negb (kernel s)); [by sup_steps|].
  apply wp_bind. eapply commits_wp; [apply commits_boot|done|]. intros [b|e] s1 Hs1; [|done].
  by apply commits_deliver_applications.
Qed.

Lemma commits_snapshot_application boot id : commits (snapshot_application kenv boot id).
Proof.
  intros s Hs. unfold snapshot_application. apply wp_bind, wp_gets. cbn beta iota.
  case_decide; [by sup_steps|]. apply wp_bind, wp_try. eapply commits_wp; [apply commits_handle|done|].
  intros [h|e] s1 Hs1; [|by sup_steps]. sup_steps; synced.
Qed.

Lemma commits_snapshots boot ids : commits (snapshot_applications kenv boot ids).
Proof.
  induction ids as [|id ids IH]; intros s Hs; simpl; [by sup_steps|].
  apply wp_bind. eapply commits_wp; [apply commits_snapshot_application|done|]. intros [c|e] s1 Hs1; [|done].
  apply wp_bind. eapply commits_wp; [apply IH|done|]. intros [c'|e] s2 Hs2; [by sup_steps|done].
Qed.

Lemma commits_snapshotKernel : commits (snapshotKernel env kenv).
Proof.
  intros s Hs. unfold snapshotKernel. apply wp_bind, wp_get. cbn beta iota. destruct (negb (kernel s)); [by sup_steps|].
  apply wp_bind, wp_try. eapply commits_wp; [apply commits_boot|done|]. intros [b|e] s1 Hs1; [|by sup_steps].
  apply wp_bind. eapply commits_wp; [apply commits_snapshots|done|]. intros [c|e] s2 Hs2; [|done].
  unfold closeKernelHandlesLocked. safe_steps; synced.
Qed.
End loops.

#[export] Hint Resolve commits_deliverTimers commits_deliverLSFS commits_AddBinding commits_SetBinding
  commits_ImportArtifact commits_bridge commits_attachKernel commits_deliverKernel commits_snapshotKernel : durability.

(** ** Gateway and turns *)

Section gateway.
Context (env : Env).

Lemma commits_CreateChannel principal ch kind : commits (CreateChannel env principal ch kind).
Proof. unfold CreateChannel. committed_steps. Qed.

Lemma commits_RevokeChannel principal ch : commits (RevokeChannel env principal ch).
Proof. unfold RevokeChannel. committed_steps. Qed.

Lemma commits_Bind principal ch ext id : commits (BindConversation env principal ch ext id).
Proof. unfold BindConversation. committed_steps. Qed.

Lemma commits_Deliver ch ext seq payload : commits (DeliverInbound env ch ext seq payload).
Proof.
  intros s Hs. unfold DeliverInbound. sup_steps; synced.
  eapply wp_mono; [apply enqueue_delivery|]. intros r s1 Hd.
  destruct (commits_delivery _ _ _ _ _ _ _ _ Hd) as [(err & -> & ->)|(m & -> & Hb)]; [done|].
  specialize (Hb (synced_based _ Hs)). unfold sourceOf. safe_steps; synced.
Qed.

Lemma commits_deny principal id mid e reason : commits (deny_reply env principal id mid e reason).
Proof. unfold deny_reply. committed_steps. Qed.

Lemma based_enqueueOutbox key idem payload s :
  Synced s → wp (enqueueOutboxLocked env key idem payload)
    (λ r s', match r with Ok _ => Based s' | Err _ => Synced s' end) s.
Proof. intros Hs. unfold enqueueOutboxLocked. sup_steps; based; synced. Qed.

Lemma commits_Reply principal id mid : commits (Reply env principal id mid).
Proof.
  intros s Hs. unfold Reply. sup_steps;
    lazymatch goal with |- wp (deny_reply _ _ _ _ _ _) _ _ => by apply commits_deny | _ => synced end.
  eapply wp_mono; [by apply based_enqueueOutbox|]. intros [e|err] s1 Hs1; [|done]. sup_steps; synced.
Qed.

Lemma claim_no_entries key out : filter (claims key) out = [] → attempt_entry key <$> out = out.
Proof.
  induction out as [|e out IH]; csimpl; [done|]. rewrite filter_cons. unfold attempt_entry at 1.
  case_decide; [done|]. intros. f_equal. auto.
Qed.

Lemma commits_ClaimOutbox ch ext : commits (ClaimOutbox env ch ext).
Proof.
  intros s Hs. unfold ClaimOutbox. sup_steps; synced.
  match goal with H : _ <$> _ = [] |- _ => apply fmap_nil_inv, claim_no_entries in H; rename H into E end.
  unfold books, durable. cbn. by rewrite E.
Qed.

Lemma commits_AckOutbox principal e receipt : commits (AckOutbox env principal e receipt).
Proof. unfold AckOutbox. committed_steps. Qed.

(** *** Turns *)

Lemma commits_claimTurn order : commits (claimTurn env order).
Proof.
  intros s Hs. unfold claimTurn. apply wp_bind, wp_now, wp_bind, wp_get.
  destruct (pick order _ (ticked s)) as [c|]; [|sup_steps; synced].
  apply wp_bind. eapply wp_mono; [apply based_accumulate; based|]. intros r s1 [-> Hb]. safe_steps; synced.
Qed.

Lemma commits_clearInflight id : commits (clearInflight id).
Proof. unfold clearInflight. committed_steps. Qed.

Lemma commits_prepare id m text usage route hit perr : commits (prepare_turn env id m text usage route hit perr).
Proof. unfold prepare_turn. committed_steps. Qed.

Lemma based_recordRoute r s : Based s → wp (recordRouteLocked env r) (λ r s', r = Ok () ∧ Based s') s.
Proof. intros Hs. unfold recordRouteLocked. sup_steps. split; [done|based]. Qed.

Lemma commits_commit_turn id a m p route hit denied over : commits (commit_turn env id a m p route hit denied over).
Proof.
  intros s Hs. unfold commit_turn. apply wp_bind, wp_store_synced; [done|]. intros [h|e] s1 Hs1; [|done].
  apply wp_bind, wp_store_synced; [done|]. intros [cp|e] s2 Hs2; [|done].
  destruct (settle (Turn.TurnUsage p) _ (Turn.Text p) a) as [[[a1 status] text] ov].
  apply wp_bind, wp_modify_state, wp_bind. eapply wp_mono; [apply based_recordRoute; based|].
  intros r s3 [-> Hb]. safe_steps; synced.
Qed.

Lemma commits_finishTurn id m text usage route perr : commits (finishTurn env id m text usage route perr).
Proof.
  intros s Hs. unfold finishTurn. apply wp_bind. eapply commits_wp; [apply commits_clearInflight|done|].
  intros [u|e] s1 Hs1; [|done]. sup_steps; try exact Hs1.
  eapply commits_wp; [apply commits_prepare|done|]. intros [p|e] s2 Hs2; [|done]. by apply commits_commit_turn.
Qed.

Lemma commits_conclude cancelled id m route o : commits (conclude env cancelled id m route o).
Proof.
  intros s Hs. unfold conclude. apply wp_bind, wp_try.
  assert (∀ (r : result error unit) s2, Synced s2 →
    wp (clearInflight id ;; of_result r) (λ _ s', Synced s') s2) as Hclear.
  { intros r s2 Hs2. apply wp_bind. eapply commits_wp; [apply commits_clearInflight|done|].
    intros [u|e] s3 Hs3; [by apply wp_of_result|done]. }
  case_decide.
  - eapply commits_wp; [apply commits_requeue|done|]. intros r s2 Hs2. by apply Hclear.
  - apply wp_bind, wp_try. eapply commits_wp; [apply commits_finishTurn|done|]. intros [u|e] s2 Hs2.
    + apply wp_ret. by apply Hclear.
    + apply wp_bind, wp_try. eapply commits_wp; [apply commits_requeue|done|]. intros r s3 Hs3.
      apply wp_throw. by apply Hclear.
Qed.

Lemma commits_executeTurn p cancelled id m : commits (executeTurn env p cancelled id m).
Proof.
  intros s Hs. unfold executeTurn. apply wp_bind, wp_gets. cbn beta iota.
  match goal with |- context [o_err ?o] => generalize o; intros out end. apply wp_bind. case_decide.
  - eapply commits_wp; [apply commits_foldTaint|done|]. intros [u|e] s1 Hs1; [by apply commits_conclude|done].
  - apply wp_ret. by apply commits_conclude.
Qed.
End gateway.

#[export] Hint Resolve commits_CreateChannel commits_RevokeChannel commits_Bind commits_Deliver commits_Reply
  commits_ClaimOutbox commits_AckOutbox commits_claimTurn commits_clearInflight commits_finishTurn commits_executeTurn
  : durability.

(** ** The system *)

Section system.
Context (env : Env) (kenv : KernelEnv) {E : Ed25519}.

Lemma commits_ignore {A} (m : M Supervisor A) : commits m → commits (ignore m).
Proof. intros Hm s Hs. unfold ignore. apply wp_bind. eapply wp_mono; [by apply Hm|]. by intros [?|?]. Qed.
Hint Resolve commits_ignore : durability.

Lemma exec_commits o : commits (exec env kenv o).
Proof. destruct o; simpl; auto with durability. Qed.

Lemma based_recover ids : ∀ s, Based s → wp (recover_applications env ids) (λ _ s', Based s') s.
Proof.
  induction ids as [|id ids IH]; intros s Hs; simpl; [by sup_steps|]. sup_steps; try exact Hs; apply IH; based.
Qed.

Lemma load_commits order1 order2 st s :
  wp (load env order1 order2 st) (λ r s', r = Ok () → Synced s') s.
Proof.
  unfold load. apply wp_bind, wp_modify, wp_bind, wp_of_result.
  destruct (VerifyAudit _) as [u|e]; [|done]. apply wp_bind, wp_modify, wp_bind, wp_modify_state, wp_bind.
  eapply wp_mono; [apply based_recover; unfold Based; cbn; apply durable_idem|].
  intros [u'|e] s1 Hb; [|done]. sup_steps; [intros _; synced|done].
Qed.

Lemma step_synced s s' : step env kenv s s' → Synced s → Synced s'.
Proof.
  intros [o Ho|p o1 o2 s'' Hl] Hs; [exact (wp_snd _ Synced _ (exec_commits o s Hs))|].
  by apply (wp_run _ _ _ _ _ (load_commits o1 o2 _ _) Hl).
Qed.

Lemma reachable_synced s : reachable env kenv s → Synced s.
Proof.
  intros (p & t & o1 & o2 & s0 & Hl & Hsteps).
  assert (Synced s0) as Hs0 by (by apply (wp_run _ _ _ _ _ (load_commits o1 o2 _ _) Hl)).
  clear Hl. induction Hsteps as [|s1 s2 s3 Hstep _ IH]; [done|]. by apply IH, (step_synced s1).
Qed.

(** Field by field; payloads that are kept as they came are compared in their
    normal form. *)
Lemma reachable_books s :
  env_ok env → reachable env kenv s →
  Applications (state s) = Applications (committed s) ∧ Mailbox (state s) = Mailbox (committed s) ∧
  Results (state s) = Results (committed s) ∧ Prepared (state s) = Prepared (committed s) ∧
  RouteRecords (state s) = RouteRecords (committed s) ∧ RevokedTokens (state s) = RevokedTokens (committed s) ∧
  WitnessCheckpoints (state s) = WitnessCheckpoints (committed s) ∧
  Channels (state s) = Channels (committed s) ∧ Conversations (state s) = Conversations (committed s) ∧
  HostfsMounts (state s) = HostfsMounts (committed s) ∧
  Timers (durable (state s)) = Timers (committed s) ∧ Outbox (durable (state s)) = Outbox (committed s) ∧
  Transfers (durable (state s)) = Transfers (committed s).
Proof.
  intros Henv Hr. destruct (reachable_synced s Hr) as [Hb _].
  pose proof (durable_mailbox _ (inv_mail _ (g_state _ _ _ (reachable_good env kenv s Henv Hr)))) as Hm.
  unfold books in Hb. injection Hb as <- H2 <- <- H5 <- <- <- <- <- H11 <- H13.
  split_and!; try done. etrans; [symmetry; exact Hm|exact H2].
Qed.
End system.
