(* ===== verification/SystemProperties.v ===== *)
(** * What holds of every run

    Theorems about all reachable supervisors and about everything that can happen
    after one, each a reading of the invariant and of the preorder of [Invariant]
    for the operations of [System]. *)

From Stdlib Require Import Ascii.
From stdpp Require Import base tactics option list gmap sets strings numbers pretty sorting relations.
From S2P Require Import Prelude Monad GoLib Json Crypto Ledger Policy ContextStore State Taint Mailbox.
From S2P Require Import Lifecycle Revocation Witness Runner Gateway Hostfs Wake KernelWake Invariant Safety.
From S2P Require Import LifecycleProofs System Durability.

(** ** A sample run *)

Module Sample.
Definition env : Env := mkEnv Z.of_nat (λ t n, Some (replicate n (Z.of_nat t `mod` 256)%Z)) (λ _, true).

Definition kenv : KernelEnv :=
  mkKernelEnv (λ _, Err ErrIO) (λ _ _, Err ErrIO) (λ _ _, Err ErrIO) (λ _ _ _ _, Some ErrIO) (λ _ _ _, Some ErrIO)
    (λ _ _, []) (λ _ _ _, Some ErrIO) (λ _ _, Err ErrIO) (λ _ _ _, Some ErrIO).

Lemma env_ok : env_ok env.
Proof.
  intros t n b [= <-]. split; [apply length_replicate|]. apply Forall_replicate.
  pose proof (Z.mod_pos_bound (Z.of_nat t) 256). lia.
Qed.

Definition caps : CapabilitySet := mkCapabilitySet "echo" 64 1 ["/data"] [] false ["search"] 0.

Definition start : Supervisor := snd (load env [] [] empty_state (first_start caps 0)).

(** The supervisor after some operations. *)
Definition run {E : Ed25519} (ops : list op) : Supervisor := fold_left (λ s o, snd (exec env kenv o s)) ops start.

Definition app : string := uuid (replicate 16 1%Z).
End Sample.

Section sample_runs.

Lemma start_reachable : reachable Sample.env Sample.kenv Sample.start.
Proof. exists Sample.caps, 0, [], [], Sample.start. split; [reflexivity|done]. Qed.

(** Runs whose every operation is admissible where it happens. *)
Fixpoint admissible_run (ops : list op) (s : Supervisor) : Prop :=
  match ops with
  | [] => True
  | o :: ops => admissible Sample.env s o ∧ admissible_run ops (snd (exec Sample.env Sample.kenv o s))
  end.

Lemma run_steps ops : ∀ s, admissible_run ops s →
  rtc (step Sample.env Sample.kenv) s (fold_left (λ s o, snd (exec Sample.env Sample.kenv o s)) ops s).
Proof.
  induction ops as [|o ops IH]; intros s; [done|]. intros [Ho Hops]. simpl.
  eapply rtc_l; [by apply step_op|]. by apply IH.
Qed.

(** An application is created, gets a budget and a message, is claimed, retired. *)
Definition open_ops : list op :=
  [OCreate "root" "alice" "on_event"; OSetLimit "root" Sample.app 10; OEnqueue "root" Sample.app "k1" "{}"].
Definition retire_ops : list op := open_ops ++ [OClaimTurn [Sample.app]; ORetire "root" Sample.app].

Lemma open_admissible : admissible_run open_ops Sample.start.
Proof. by repeat split. Qed.

Lemma retire_admissible : admissible_run retire_ops Sample.start.
Proof. by repeat split. Qed.

Lemma open_reachable : reachable Sample.env Sample.kenv (Sample.run open_ops).
Proof. eapply reachable_steps; [apply start_reachable|]. apply run_steps, open_admissible. Qed.

Lemma retire_reachable : reachable Sample.env Sample.kenv (Sample.run retire_ops).
Proof. eapply reachable_steps; [apply start_reachable|]. apply run_steps, retire_admissible. Qed.

(** A conversation, a message through it, a turn, and the reply. *)
Definition chat_ops : list op :=
  [OCreate "root" "alice" "on_event"; OCreateChannel "root" "tg" "telegram"; OBind "root" "tg" "42" Sample.app].
Definition inbound : MailboxMessage := Msg.mk "msg-4" "gw:tg:42:1" "{}" claimed 4 0 1.
Definition reply_ops : list op :=
  chat_ops ++ [ODeliver "tg" "42" 1 "{}";
    OFinish Sample.app inbound "hi" (mkUsage 7 5 0) (mkRouteInfo "echo" "" 0) None; OReply "root" Sample.app "msg-4"].

Lemma chat_reachable : reachable Sample.env Sample.kenv (Sample.run chat_ops).
Proof. eapply reachable_steps; [apply start_reachable|]. apply run_steps. by repeat split. Qed.

Lemma reply_reachable : reachable Sample.env Sample.kenv (Sample.run reply_ops).
Proof. eapply reachable_steps; [apply start_reachable|]. apply run_steps. by repeat split. Qed.

(** One more operation: the operator asks for the application to serve. *)
Definition after (s : Supervisor) : Supervisor :=
  snd (exec Sample.env Sample.kenv (OSetState "root" Sample.app "serving") s).

Lemma after_steps s : rtc (step Sample.env Sample.kenv) s (after s).
Proof. apply rtc_once. by apply step_op. Qed.
End sample_runs.

(** ** Theorems *)

Section theorems.
Context (env : Env) (kenv : KernelEnv) {E : Ed25519} (Henv : env_ok env).
Implicit Types s : Supervisor.

(** C2: In every reachable supervisor, whatever the order of operations, failed
    commits, crashes and restarts, the audit log verifies, live and committed, as
    long as fewer than 2^64 sequence numbers have been used. *)
Theorem audit_log_verifies s :
  reachable env kenv s → (NextSequence (state s) ≤ MaxUint64)%Z →
  VerifyAudit (Audit (state s)) = Ok () ∧ VerifyAudit (Audit (committed s)) = Ok () ∧
  previousHash s = last_hash (Audit (state s)).
Proof using Henv.
  intros Hr Hn. destruct (reachable_good env kenv s Henv Hr) as [[Hc] _ [Hs] Hev Hh _ _].
  pose proof (ev_seq _ _ Hev). unfold VerifyAudit.
  destruct Hs as [_ Hs]. destruct Hc as [_ Hc]. rewrite (proj1 (Hs ltac:(lia))), (proj1 (Hc ltac:(lia))). done.
Qed.

(** C1: Tokens are charged exactly once.  In every reachable supervisor an
    application's counters are the saturated sums of the usage of its recorded
    turn results, however often turns were retried, replayed or recovered. *)
Theorem tokens_charged_once s id a :
  reachable env kenv s → Applications (state s) !! id = Some a →
  App.TokensUsed a = Z.min MaxUint64 (charged turn_tokens (Results (state s)) id) ∧
  App.TokensCached a = Z.min MaxUint64 (charged turn_cached (Results (state s)) id).
Proof using Henv.
  intros Hr Ha. destruct (reachable_good env kenv s Henv Hr) as [_ _ Hs _ _ _ _].
  destruct (inv_charge _ Hs) as [H1 H2 _]. eauto.
Qed.

(** C19: Backpressure holds everywhere.  In every reachable supervisor each mailbox
    has at most 256 live messages of at most 2 MiB, all mailboxes together at most
    1024 of at most 16 MiB, no mailbox has two messages under one idempotency key,
    and a retired application has no live message. *)
Theorem mailboxes_bounded s id :
  reachable env kenv s →
  (live_count (messages_of (state s) id) ≤ 256 ∧ live_bytes (messages_of (state s) id) ≤ 2097152)%Z ∧
  (total live_count (Mailbox (state s)) ≤ 1024 ∧ total live_bytes (Mailbox (state s)) ≤ 16777216)%Z ∧
  NoDup (Msg.IdempotencyKey <$> messages_of (state s) id) ∧
  (App.State <$> Applications (state s) !! id = Some tombstoned → live_count (messages_of (state s) id) = 0%Z).
Proof using Henv.
  intros Hr. destruct (reachable_good env kenv s Henv Hr) as [_ _ Hs _ _ _ _].
  destruct (inv_mail _ Hs) as [Hb Hc Hy].
  assert (box_ok (messages_of (state s) id)) as [? _ ? ?].
  { unfold messages_of. destruct (Mailbox (state s) !! id) eqn:Em; simpl; [by apply (Hb id)|]. split; by constructor || done. }
  split_and!; try done. intros (a & Ha & Ht)%fmap_Some.
  pose proof (inv_retired _ Hs id a Ha (eq_sym Ht)) as Hsil. unfold silent, box in Hsil. unfold messages_of.
  induction Hsil as [|m l Hm Hl IH]; [done|]. unfold live_count in *. rewrite sumZ_cons, Hm. by rewrite IH.
Qed.

(** C21: What is recorded stays recorded.  After any further operations, rollbacks
    and restarts the committed audit log and the revocation list only have new
    entries at their ends and no turn result has changed or disappeared. *)
Theorem history_only_grows s s' :
  reachable env kenv s → rtc (step env kenv) s s' →
  Audit (committed s) `prefix_of` Audit (committed s') ∧
  RevokedTokens (committed s) `prefix_of` RevokedTokens (committed s') ∧
  Results (committed s) ⊆ Results (committed s').
Proof using Henv. intros Hr Hs. destruct (g_from _ _ _ (later_good env kenv s s' Henv Hr Hs)). done. Qed.

(** C20: No committed message is lost, reordered or altered.  After any further
    operations and restarts a committed mailbox starts with the same messages, in
    the same order, with the same identifiers, keys and payloads, and a message
    that was acknowledged is still acknowledged. *)
Theorem messages_persist s s' id ms :
  reachable env kenv s → rtc (step env kenv) s s' → Mailbox (committed s) !! id = Some ms →
  ∃ ms1 ms2, Mailbox (committed s') !! id = Some (ms1 ++ ms2) ∧
    Forall2 (λ m m', Msg.MessageID m' = Msg.MessageID m ∧ Msg.IdempotencyKey m' = Msg.IdempotencyKey m ∧
      Msg.Payload m' = Msg.Payload m ∧ (Msg.Status m = acked → Msg.Status m' = acked)) ms ms1.
Proof using Henv.
  intros Hr Hs Hms. destruct (ev_mail _ _ (g_from _ _ _ (later_good env kenv s s' Henv Hr Hs)) id ms Hms)
    as (ms' & Hms' & ms1 & ms2 & -> & Hle). exists ms1, ms2. split; [done|].
  eapply Forall2_impl; [exact Hle|]. intros m m' []. split_and!; try done. intros Ha. by rewrite Ha in ml_status.
Qed.

(** Retirement is final and an exhausted budget cannot be unfrozen.  An
    application that is retired, or over its budget and not serving, in a committed
    state is never serving in a later committed state. *)
Theorem retired_never_serves s s' id a :
  reachable env kenv s → rtc (step env kenv) s s' →
  Applications (committed s) !! id = Some a →
  App.State a = tombstoned ∨ (exhausted a ∧ App.State a ≠ serving) →
  ∃ a', Applications (committed s') !! id = Some a' ∧ App.State a' ≠ serving.
Proof using Henv.
  intros Hr Hs Ha Hd. pose proof (later_good env kenv s s' Henv Hr Hs) as Hg.
  destruct (ev_apps _ _ (g_from _ _ _ Hg) id a Ha) as (a' & Ha' & Hle).
  destruct (reachable_good env kenv s Henv Hr) as [Hc _ _ _ _ _ _].
  destruct (inv_apps _ Hc id a Ha) as [_ _ _ [Hl _] _]. destruct (Hle Hl) as [_ Hale].
  exists a'. split; [done|]. destruct (al_dead _ _ Hale Hd) as [->|[_ ?]]; done.
Qed.

(** Budgets only narrow, charges and taint only accumulate.  Between two
    committed states an application keeps its owner, context and parent; a limit
    once set is never lifted or raised; the tokens used never decrease; and no
    taint bit is ever cleared. *)
Theorem applications_monotone s s' id a :
  reachable env kenv s → rtc (step env kenv) s s' → Applications (committed s) !! id = Some a →
  ∃ a', Applications (committed s') !! id = Some a' ∧
    App.OwnerAgent a' = App.OwnerAgent a ∧ App.ContextID a' = App.ContextID a ∧ App.ForkParent a' = App.ForkParent a ∧
    (App.TokensUsed a ≤ App.TokensUsed a')%Z ∧
    (App.TokenLimit a ≠ 0 → App.TokenLimit a' ≠ 0 ∧ App.TokenLimit a' ≤ App.TokenLimit a)%Z ∧
    Z.lor (App.TaintBits a') (App.TaintBits a) = App.TaintBits a'.
Proof using Henv.
  intros Hr Hs Ha. pose proof (later_good env kenv s s' Henv Hr Hs) as Hg.
  destruct (ev_apps _ _ (g_from _ _ _ Hg) id a Ha) as (a' & Ha' & Hle).
  destruct (reachable_good env kenv s Henv Hr) as [Hc _ _ _ _ _ _].
  destruct (inv_apps _ Hc id a Ha) as [_ _ _ [Hl _] _]. destruct (Hle Hl) as [_ []].
  exists a'. split_and!; try done. unfold narrows in *. lia.
Qed.

(** Conversations keep their binding and their cursor never moves back, and a
    revoked channel stays revoked, over any operations and restarts. *)
Theorem conversations_monotone s s' key c :
  reachable env kenv s → rtc (step env kenv) s s' → Conversations (committed s) !! key = Some c →
  ∃ c', Conversations (committed s') !! key = Some c' ∧ Conv.ApplicationID c' = Conv.ApplicationID c ∧
    (Conv.LastSequence c ≤ Conv.LastSequence c')%Z ∧
    (Chan.State <$> Channels (committed s) !! Conv.ChannelID c = Some revoked →
     Chan.State <$> Channels (committed s') !! Conv.ChannelID c' = Some revoked).
Proof using Henv.
  intros Hr Hs Hc. pose proof (g_from _ _ _ (later_good env kenv s s' Henv Hr Hs)) as [].
  destruct (ev_convs _ _ Hc) as (c' & Hc' & []). exists c'. split_and!; try done.
  intros (ch & Hch & Hst)%fmap_Some. destruct (ev_channels _ _ Hch) as (ch' & Hch' & _ & Hrev).
  rewrite cl_channel, Hch'. simpl. f_equal. by apply Hrev.
Qed.

(** A reply waits in the outbox until it is acknowledged: a committed pending
    entry is still pending in every later committed state, with the same
    conversation, key and payload, unless the audit log records its
    acknowledgement. *)
Theorem outbox_pending_until_acknowledged s s' e :
  reachable env kenv s → rtc (step env kenv) s s' → e ∈ Outbox (committed s) → Out.Status e = out_pending →
  (∃ e', e' ∈ Outbox (committed s') ∧ Out.Status e' = out_pending ∧ Out.EntryID e' = Out.EntryID e ∧
     Out.ConversationID e' = Out.ConversationID e ∧ Out.IdempotencyKey e' = Out.IdempotencyKey e ∧
     json_compact (Out.Payload e') = json_compact (Out.Payload e)) ∨
  (∃ r, r ∈ Audit (committed s') ∧ Aud.Action r = "gateway.ack" ∧ Aud.Object r = Out.EntryID e).
Proof using Henv.
  intros Hr Hs He Hp. pose proof (g_from _ _ _ (later_good env kenv s s' Henv Hr Hs)) as [].
  destruct (ev_outbox e He Hp) as [(e' & ? & ? & [])|?]; [left|by right]. by exists e'.
Qed.

(** The histories the supervisor keeps are bounded: at most 64 pending
    confirmations, 512 route records, 1024 revoked tokens, 256 transfers, 64 wake
    bindings per application, and 256 witness checkpoints, each of which still
    matches the audit log. *)
Theorem histories_bounded s id :
  reachable env kenv s →
  pending_confirmations (Confirmations (state s)) ≤ 64 ∧ length (RouteRecords (state s)) ≤ 512 ∧
  length (RevokedTokens (state s)) ≤ 1024 ∧ length (Transfers (state s)) ≤ 256 ∧
  size (bindings_of id (Bindings (state s))) ≤ 64 ∧ length (WitnessCheckpoints (state s)) ≤ 256 ∧
  Forall (anchored (Audit (state s))) (WitnessCheckpoints (state s)).
Proof using Henv.
  intros Hr. destruct (reachable_good env kenv s Henv Hr) as [_ _ [] _ _ _ _].
  by destruct inv_witness, inv_binds.
Qed.

(** Context history is immutable across the whole system: after any operations,
    rollbacks and restarts of the supervisor every blob, grant, logged operation and
    commit of the context store is still there, and contexts keep their owners. *)
Theorem context_history_extends s s' :
  reachable env kenv s → rtc (step env kenv) s s' → store_wf (store s') ∧ extends (store s) (store s').
Proof using Henv. intros Hr Hs. destruct (later_good env kenv s s' Henv Hr Hs). done. Qed.

(** C3: What an operation reports is durable.  In every reachable supervisor, after
    every operation on every path, nothing of the applications, mailboxes, results,
    revocations, checkpoints, channels, conversations, mounts, routes, timers, replies
    and transfers is only in memory: a crash at that point loses none of it. *)
Theorem reported_is_durable s :
  reachable env kenv s →
  Applications (state s) = Applications (committed s) ∧ Mailbox (state s) = Mailbox (committed s) ∧
  Results (state s) = Results (committed s) ∧ Prepared (state s) = Prepared (committed s) ∧
  RouteRecords (state s) = RouteRecords (committed s) ∧ RevokedTokens (state s) = RevokedTokens (committed s) ∧
  WitnessCheckpoints (state s) = WitnessCheckpoints (committed s) ∧
  Channels (state s) = Channels (committed s) ∧ Conversations (state s) = Conversations (committed s) ∧
  HostfsMounts (state s) = HostfsMounts (committed s) ∧
  Timers (durable (state s)) = Timers (committed s) ∧ Outbox (durable (state s)) = Outbox (committed s) ∧
  Transfers (durable (state s)) = Transfers (committed s).
Proof using Henv. intros Hr. exact (reachable_books env kenv s Henv Hr). Qed.
End theorems.

(** ** The theorems at the sample runs *)

Lemma some_of {A} (o : option A) : bool_decide (is_Some o) = true → ∃ a, o = Some a.
Proof. by intros H%bool_decide_eq_true. Qed.

Lemma ok_run {A} (m : M Supervisor A) s : is_ok (fst (m s)) = true → ∃ a s', m s = (Ok a, s').
Proof. destruct (m s) as [[a|e] s']; simpl; [eauto|done]. Qed.

Lemma audit_log_verifies_witness :
  (NextSequence (state (Sample.run retire_ops)) ≤ MaxUint64)%Z ∧
  VerifyAudit (Audit (committed (Sample.run retire_ops))) = Ok ().
Proof.
  assert (NextSequence (state (Sample.run retire_ops)) ≤ MaxUint64)%Z as Hn by (by vm_compute). split; [exact Hn|].
  exact (proj1 (proj2 (audit_log_verifies Sample.env Sample.kenv Sample.env_ok _ retire_reachable Hn))).
Defined.

Lemma tokens_charged_once_witness : ∃ a,
  Applications (state (Sample.run reply_ops)) !! Sample.app = Some a ∧
  App.TokensUsed a = Z.min MaxUint64 (charged turn_tokens (Results (state (Sample.run reply_ops))) Sample.app).
Proof.
  destruct (some_of (Applications (state (Sample.run reply_ops)) !! Sample.app)) as [a Ha]; [by vm_compute|].
  exists a. split; [exact Ha|].
  exact (proj1 (tokens_charged_once Sample.env Sample.kenv Sample.env_ok _ _ _ reply_reachable Ha)).
Defined.

Lemma mailboxes_bounded_witness : live_count (messages_of (state (Sample.run retire_ops)) Sample.app) = 0%Z.
Proof.
  apply (mailboxes_bounded Sample.env Sample.kenv Sample.env_ok (Sample.run retire_ops) Sample.app retire_reachable).
  by vm_compute.
Defined.

Lemma history_only_grows_witness :
  Results (committed (Sample.run open_ops)) ⊆ Results (committed (after (Sample.run open_ops))).
Proof.
  exact (proj2 (proj2 (history_only_grows Sample.env Sample.kenv Sample.env_ok _ _ open_reachable (after_steps _)))).
Defined.

Lemma messages_persist_witness : ∃ ms ms',
  Mailbox (committed (Sample.run open_ops)) !! Sample.app = Some ms ∧
  Mailbox (committed (after (Sample.run open_ops))) !! Sample.app = Some ms'.
Proof.
  destruct (some_of (Mailbox (committed (Sample.run open_ops)) !! Sample.app)) as [ms Hms]; [by vm_compute|].
  destruct (messages_persist Sample.env Sample.kenv Sample.env_ok _ _ _ _ open_reachable (after_steps _) Hms)
    as (ms1 & ms2 & H & _).
  exact (ex_intro _ ms (ex_intro _ (ms1 ++ ms2) (conj Hms H))).
Defined.

Lemma retired_never_serves_witness : ∃ a',
  Applications (committed (after (Sample.run retire_ops))) !! Sample.app = Some a' ∧ App.State a' ≠ serving.
Proof.
  assert (App.State <$> Applications (committed (Sample.run retire_ops)) !! Sample.app = Some tombstoned) as H
    by (by vm_compute).
  apply fmap_Some in H as (a & Ha & Ht).
  exact (retired_never_serves Sample.env Sample.kenv Sample.env_ok _ _ _ _ retire_reachable (after_steps _) Ha
    (or_introl (eq_sym Ht))).
Defined.

Lemma applications_monotone_witness : ∃ a a',
  Applications (committed (Sample.run open_ops)) !! Sample.app = Some a ∧
  Applications (committed (after (Sample.run open_ops))) !! Sample.app = Some a' ∧
  App.OwnerAgent a' = App.OwnerAgent a.
Proof.
  destruct (some_of (Applications (committed (Sample.run open_ops)) !! Sample.app)) as [a Ha]; [by vm_compute|].
  destruct (applications_monotone Sample.env Sample.kenv Sample.env_ok _ _ _ _ open_reachable (after_steps _) Ha)
    as (a' & Ha' & Ho & _).
  exact (ex_intro _ a (ex_intro _ a' (conj Ha (conj Ha' Ho)))).
Defined.

Lemma conversations_monotone_witness : ∃ c c',
  Conversations (committed (Sample.run chat_ops)) !! "tg:42" = Some c ∧
  Conversations (committed (after (Sample.run chat_ops))) !! "tg:42" = Some c' ∧
  (Conv.LastSequence c ≤ Conv.LastSequence c')%Z.
Proof.
  destruct (some_of (Conversations (committed (Sample.run chat_ops)) !! "tg:42")) as [c Hc]; [by vm_compute|].
  destruct (conversations_monotone Sample.env Sample.kenv Sample.env_ok _ _ _ _ chat_reachable (after_steps _) Hc)
    as (c' & Hc' & _ & Hle & _).
  exact (ex_intro _ c (ex_intro _ c' (conj Hc (conj Hc' Hle)))).
Defined.

Lemma histories_bounded_witness : length (RouteRecords (state (Sample.run retire_ops))) ≤ 512.
Proof.
  exact (proj1 (proj2 (histories_bounded Sample.env Sample.kenv Sample.env_ok _ Sample.app retire_reachable))).
Defined.

Lemma context_history_extends_witness :
  extends (store (Sample.run open_ops)) (store (after (Sample.run open_ops))).
Proof.
  exact (proj2 (context_history_extends Sample.env Sample.kenv Sample.env_ok _ _ open_reachable (after_steps _))).
Defined.

Lemma outbox_pending_witness : ∃ e, e ∈ Outbox (committed (Sample.run reply_ops)) ∧
  ((∃ e', e' ∈ Outbox (committed (after (Sample.run reply_ops))) ∧ Out.Status e' = out_pending ∧
      Out.EntryID e' = Out.EntryID e ∧ Out.ConversationID e' = Out.ConversationID e ∧
      Out.IdempotencyKey e' = Out.IdempotencyKey e ∧ json_compact (Out.Payload e') = json_compact (Out.Payload e)) ∨
   (∃ r, r ∈ Audit (committed (after (Sample.run reply_ops))) ∧ Aud.Action r = "gateway.ack" ∧
      Aud.Object r = Out.EntryID e)).
Proof.
  assert (Out.Status <$> head (Outbox (committed (Sample.run reply_ops))) = Some out_pending) as H by (by vm_compute).
  apply fmap_Some in H as (e & He & Hp).
  assert (e ∈ Outbox (committed (Sample.run reply_ops))) as Hin.
  { by apply head_Some_elem_of. }
  exists e. split; [exact Hin|].
  exact (outbox_pending_until_acknowledged Sample.env Sample.kenv Sample.env_ok _ _ _ reply_reachable (after_steps _)
    Hin (eq_sym Hp)).
Defined.

Lemma reported_is_durable_witness : Mailbox (state (Sample.run retire_ops)) = Mailbox (committed (Sample.run retire_ops)).
Proof. exact (proj1 (proj2 (reported_is_durable Sample.env Sample.kenv Sample.env_ok _ retire_reachable))). Defined.
