(* ===== verification/TurnProperties.v ===== *)
(** * Turns: fairness, progress and settlement

    What a worker can rely on when it claims a turn and when it settles one. *)

From Stdlib Require Import Ascii.
From stdpp Require Import base tactics option list gmap sets strings numbers pretty sorting relations.
From S2P Require Import Prelude Monad GoLib Json Crypto Ledger Policy ContextStore State Taint Mailbox.
From S2P Require Import Lifecycle Runner Wake Invariant Safety MailboxProofs RunnerProofs System SystemProperties.

(** ** The fairness band *)

Lemma saturatingAdd_mono a a' b b' :
  in_u64 a → in_u64 a' → in_u64 b → in_u64 b' → (a ≤ a' → b ≤ b' → saturatingAdd a b ≤ saturatingAdd a' b')%Z.
Proof. intros. rewrite !saturatingAdd_min by done. lia. Qed.

Lemma saturatingAdd_le a b : in_u64 a → in_u64 b → (a ≤ saturatingAdd a b)%Z.
Proof. intros Ha Hb. rewrite saturatingAdd_min by done. unfold in_u64, MaxUint64 in *. lia. Qed.

Lemma band_range least : in_u64 least → in_u64 (maxThrottleBand least).
Proof.
  unfold in_u64, maxThrottleBand, MaxUint64. intros. pose proof (Z.div_le_upper_bound least 4 18446744073709551615).
  lia.
Qed.

(** The charge an application may have and still be preferred to one that has used
    [used] tokens. *)
Definition within_band (used : Z) : Z := saturatingAdd used (maxThrottleBand used).

Lemma within_band_mono a b : in_u64 a → in_u64 b → (a ≤ b → within_band a ≤ within_band b)%Z.
Proof.
  intros Ha Hb Hle. apply saturatingAdd_mono; auto using band_range.
  unfold maxThrottleBand. pose proof (Z.div_le_mono a b 4). lia.
Qed.

Lemma minTokens_le apps kv : kv ∈ apps → (minTokens apps ≤ App.TokensUsed (snd kv))%Z.
Proof. unfold minTokens. induction 1; simpl; lia. Qed.

Lemma minTokens_range apps : Forall (λ kv, in_u64 (App.TokensUsed (snd kv))) apps → in_u64 (minTokens apps).
Proof.
  unfold minTokens. induction 1 as [|kv apps Hkv _ IH]; simpl; unfold in_u64 in *; [by vm_compute|lia].
Qed.

Global Instance charged_before_trans : Transitive charged_before.
Proof. unfold charged_before. intros a b c. lia. Qed.
Global Instance charged_before_total : Total charged_before.
Proof. unfold charged_before. intros a b. lia. Qed.

Lemma StronglySorted_filter {A} (R : A → A → Prop) (P : A → Prop) `{∀ x, Decision (P x)} l :
  StronglySorted R l → StronglySorted R (filter P l).
Proof.
  induction 1 as [|x l Hl IH Hall]; [constructor|]. rewrite filter_cons. case_decide; [|done].
  constructor; [done|]. rewrite Forall_forall in *. intros y [_ Hy]%list_elem_of_filter. auto.
Qed.

Lemma elem_of_by_charge order st id a :
  (id, a) ∈ by_charge order st ↔ id ∈ order ∧ Applications st !! id = Some a.
Proof.
  unfold by_charge. rewrite merge_sort_Permutation, list_elem_of_omap. split.
  - intros (i & Hi & Hia). destruct (Applications st !! i) eqn:E; simplify_eq/=. done.
  - intros [Hi Ha]. exists id. by rewrite Ha.
Qed.

(** ** Candidates *)

Section pick.
Context (order : list string) (t : Z) (s : Supervisor).

(** An application whose turn could be claimed now, and its oldest pending message. *)
Definition claimable_turn (id : string) (a : Application) (m : MailboxMessage) : Prop :=
  Applications (state s) !! id = Some a ∧ eligible s t id a = true ∧
  find_first is_pending (messages_of (state s) id) = Some m.

Local Abbreviation apps := (filter (λ kv, eligible s t (fst kv) (snd kv) = true) (by_charge order (state s))).

Lemma candidate_of_app kv c : candidate_of s kv = Some c → c_app c = snd kv.
Proof. unfold candidate_of. destruct (find_first is_pending _); intros; by simplify_eq/=. Qed.

Lemma elem_of_candidates c :
  c ∈ omap (candidate_of s) apps ↔
  c_id c ∈ order ∧ claimable_turn (c_id c) (c_app c) (c_message c) ∧
  c_affine c = bool_decide (lastPrefix s ≠ "" ∧ promptPrefix (Msg.Payload (c_message c)) = lastPrefix s).
Proof.
  rewrite list_elem_of_omap. unfold claimable_turn. split.
  - intros ([id a] & [He Hin%elem_of_by_charge]%list_elem_of_filter & Hc). unfold candidate_of in Hc. simpl in *.
    destruct (find_first is_pending (messages_of (state s) id)) eqn:Em; simplify_eq/=. naive_solver.
  - intros (Ho & (Ha & He & Hm) & Haff). exists (c_id c, c_app c). split.
    + apply list_elem_of_filter. split; [done|]. by apply elem_of_by_charge.
    + unfold candidate_of. simpl. rewrite Hm. simpl. rewrite <-Haff. by destruct c.
Qed.

Lemma choose_elem least cs c : choose least cs = Some c → c ∈ cs.
Proof.
  unfold choose. destruct (find_first _ cs) eqn:E; intros; simplify_eq; [by eapply find_first_Some|].
  by apply head_Some_elem_of.
Qed.

Lemma choose_None least cs : choose least cs = None → cs = [].
Proof. unfold choose. destruct (find_first _ cs) eqn:E; [done|]. by destruct cs. Qed.

(** The candidates come in the order of their charge. *)
Lemma candidates_head c c' :
  head (omap (candidate_of s) apps) = Some c → c' ∈ omap (candidate_of s) apps →
  (App.TokensUsed (c_app c) ≤ App.TokensUsed (c_app c'))%Z.
Proof.
  assert (StronglySorted charged_before apps) as Hsorted.
  { apply StronglySorted_filter, Sorted_StronglySorted; [apply _|]. apply Sorted_merge_sort, _. }
  revert Hsorted. generalize apps as l. intros l Hl. induction Hl as [|[i a] l Hl IH Hall]; [done|].
  csimpl. destruct (candidate_of s (i, a)) as [c0|] eqn:E0; csimpl; [|exact IH].
  intros [= <-] [->|Hc']%elem_of_cons; [done|].
  apply list_elem_of_omap in Hc' as (kv & Hin & Hc'%candidate_of_app).
  rewrite Hc', (candidate_of_app _ _ E0). rewrite Forall_forall in Hall. specialize (Hall _ Hin).
  unfold charged_before in Hall. simpl in Hall |- *. lia.
Qed.

Lemma pick_fair c id a m :
  map_Forall app_ok (Applications (state s)) → pick order t s = Some c →
  id ∈ order → claimable_turn id a m →
  (App.TokensUsed (c_app c) ≤ within_band (App.TokensUsed a))%Z.
Proof.
  intros Hok Hp Ho (Ha & He & Hm). unfold pick, choose in Hp.
  destruct (Hok _ _ Ha) as [_ Hu _ _ _].
  assert (in_u64 (minTokens apps)) as Hmin.
  { apply minTokens_range, Forall_forall. intros [i b] [_ [_ Hb]%elem_of_by_charge]%list_elem_of_filter.
    by destruct (Hok _ _ Hb). }
  assert (minTokens apps ≤ App.TokensUsed a)%Z as Hle.
  { apply (minTokens_le _ (id, a)), list_elem_of_filter. split; [done|]. by apply elem_of_by_charge. }
  destruct (find_first _ (omap (candidate_of s) apps)) eqn:Ef; simplify_eq.
  - apply find_first_Some in Ef as [_ [_ Hb%bool_decide_eq_true]%andb_true_iff].
    etrans; [exact Hb|]. by apply within_band_mono.
  - etrans; [|apply saturatingAdd_le; auto using band_range].
    apply (candidates_head c (mkCandidate id a m
      (bool_decide (lastPrefix s ≠ "" ∧ promptPrefix (Msg.Payload m) = lastPrefix s)))); [done|].
    by apply elem_of_candidates.
Qed.

Lemma pick_claimable c : pick order t s = Some c → claimable_turn (c_id c) (c_app c) (c_message c).
Proof. intros Hp%choose_elem%elem_of_candidates. naive_solver. Qed.

Lemma pick_None id a m : pick order t s = None → id ∈ order → ¬ claimable_turn id a m.
Proof.
  intros Hp%choose_None Ho Hc.
  assert (mkCandidate id a m (bool_decide (lastPrefix s ≠ "" ∧ promptPrefix (Msg.Payload m) = lastPrefix s))
    ∈ omap (candidate_of s) apps) as H by (by apply elem_of_candidates).
  rewrite Hp in H. by apply elem_of_nil in H.
Qed.
End pick.

(** ** Claiming *)

Section claim.
Context (env : Env).

Lemma messages_update id f st :
  is_Some (Mailbox st !! id) → messages_of (update_messages id f st) id = f (messages_of st id).
Proof. intros [ms Hms]. unfold messages_of, update_messages. cbn. by rewrite lookup_alter_eq, Hms. Qed.

Lemma find_pending_box st id m : find_first is_pending (messages_of st id) = Some m → is_Some (Mailbox st !! id).
Proof. unfold messages_of. destruct (Mailbox st !! id); [eauto|done]. Qed.

(** What a claim leaves behind: one message claimed, its taint on the application,
    and all of it committed. *)
Lemma claimTurn_run order s id m s' :
  claimTurn env order s = (Ok (Some (id, m)), s') →
  ∃ c, pick order (clock env (tick s)) s = Some c ∧ id = c_id c ∧ m = claim_first (c_message c) ∧
    committed s' = durable (state s') ∧
    messages_of (state s') id = update_first is_pending claim_first (messages_of (state s) id) ∧
    Applications (state s') = (if decide (taintedPayload (Msg.Payload (c_message c)) = 0%Z) then Applications (state s)
      else alter (add_taint (taintedPayload (Msg.Payload (c_message c)))) id (Applications (state s))) ∧
    id ∈ inflight s'.
Proof.
  intros H. assert (wp (claimTurn env order) (λ r s', ∀ id m, r = Ok (Some (id, m)) →
    ∃ c, pick order (clock env (tick s)) s = Some c ∧ id = c_id c ∧ m = claim_first (c_message c) ∧
      committed s' = durable (state s') ∧
      messages_of (state s') id = update_first is_pending claim_first (messages_of (state s) id) ∧
      Applications (state s') = (if decide (taintedPayload (Msg.Payload (c_message c)) = 0%Z) then Applications (state s)
        else alter (add_taint (taintedPayload (Msg.Payload (c_message c)))) id (Applications (state s))) ∧
      id ∈ inflight s') s) as Hwp; [|by eapply (wp_run _ _ _ _ _ Hwp H)].
  clear H. unfold claimTurn. apply wp_bind, wp_now, wp_bind, wp_get.
  change (pick order (clock env (tick s)) (ticked s)) with (pick order (clock env (tick s)) s).
  destruct (pick order (clock env (tick s)) s) as [c|] eqn:Ep; [|by sup_steps].
  assert (is_Some (Mailbox (state s) !! c_id c)) as Hbox.
  { eapply find_pending_box. by apply (pick_claimable _ _ _ _ Ep). }
  unfold accumulateTaint. change (Msg.Payload (claim_first (c_message c))) with (Msg.Payload (c_message c)).
  sup_steps; try done; intros ? ? [= <- <-]; exists c; split_and!; try done; try (cbn; set_solver).
  all: lazymatch goal with
       | |- messages_of _ ?i = _ => exact (messages_update i _ _ Hbox)
       | |- _ => by case_decide
       end.
Qed.

Lemma claimTurn_none order s s' :
  claimTurn env order s = (Ok None, s') → pick order (clock env (tick s)) s = None ∧ s' = ticked s.
Proof.
  intros H. assert (wp (claimTurn env order) (λ r s', r = Ok None →
    pick order (clock env (tick s)) s = None ∧ s' = ticked s) s) as Hwp; [|by eapply (wp_run _ _ _ _ _ Hwp H)].
  clear H. unfold claimTurn. apply wp_bind, wp_now, wp_bind, wp_get.
  change (pick order (clock env (tick s)) (ticked s)) with (pick order (clock env (tick s)) s).
  destruct (pick order (clock env (tick s)) s) as [c|] eqn:Ep; unfold accumulateTaint; sup_steps; by intros.
Qed.

Lemma claimTurn_total order s :
  (∀ n, disk env n = true) → ∃ r s', claimTurn env order s = (Ok r, s').
Proof.
  intros Hd. assert (wp (claimTurn env order) (λ r _, ∃ x, r = Ok x) s) as Hwp.
  - unfold claimTurn. apply wp_bind, wp_now, wp_bind, wp_get.
    destruct (pick order _ (ticked s)) as [c|]; [|sup_steps; eauto].
    unfold accumulateTaint, persistLocked. case_decide; sup_steps; eauto; congruence.
  - unfold wp in Hwp. destruct (claimTurn env order s) as [r s']. destruct Hwp as [x ->]. eauto.
Qed.
End claim.

(** ** Settling *)

(** Status and text of a settled turn: budget first, then retirement, then the
    provider's outcome. *)
Definition turn_outcome (p : TurnResult) (a : Application) : turn_status * string :=
  let text := if decide (Turn.Status p = failed) then "" else Turn.Text p in
  if decide (exhausted (charge (Turn.TurnUsage p) a)) then (budget_exhausted, text)
  else if decide (App.State a = tombstoned) then (retired, "")
  else if decide (Turn.Status p = failed) then (failed, "")
  else (completed, text).

Lemma settle_outcome p a a' status text over :
  (len (Turn.Text p) ≤ maxTextBytes)%Z →
  settle (Turn.TurnUsage p) (bool_decide (Turn.Status p = failed)) (Turn.Text p) a = (a', status, text, over) →
  (status, text) = turn_outcome p a ∧ over = false.
Proof.
  intros Hlen. unfold settle, turn_outcome. unfold exhausted. destruct (decide (Turn.Status p = failed)) as [E|E].
  - rewrite bool_decide_true by done. cbn. intros H. repeat case_decide; by simplify_eq.
  - rewrite bool_decide_false by done. cbn. intros H. repeat case_decide; cbn in *; by simplify_eq.
Qed.

(** The books after a settlement of [p] for application [a]. *)
Record settlement (id : string) (a : Application) (m : MailboxMessage) (p : TurnResult) (s s' : Supervisor) : Prop := {
  se_result : ∃ r, Results (state s') = <[Msg.MessageID m := r]> (Results (state s)) ∧
    Turn.ApplicationID r = id ∧ Turn.MessageID r = Msg.MessageID m ∧ Turn.TurnUsage r = Turn.TurnUsage p ∧
    ((len (Turn.Text p) ≤ maxTextBytes)%Z → (Turn.Status r, Turn.Text r) = turn_outcome p a);
  se_app : ∃ a', Applications (state s') !! id = Some a' ∧ settled (Turn.TurnUsage p) a a';
  se_others : ∀ id', id' ≠ id → Applications (state s') !! id' = Applications (state s) !! id';
  se_acked : Mailbox (state s') = alter (fmap (ack_all (Msg.MessageID m))) id (Mailbox (state s));
  se_prepared : Prepared (state s') !! Msg.MessageID m = None;
  se_committed : committed s' = durable (state s');
}.

(** What a settlement was based on: the result recorded before, or the one made of
    this outcome. *)
Definition prepared_of (s : Supervisor) (id : string) (a : Application) (m : MailboxMessage) (text : string)
    (usage : Usage) (route : RouteInfo) (perr : option error) : TurnResult :=
  default (prepare id (Msg.MessageID m) text usage route (cacheHitKind usage (App.LastCompat a) (CompatKey route)) perr)
    (Prepared (state s) !! Msg.MessageID m).

(** A refused settlement leaves no result, live or committed. *)
Definition no_result (mid : string) (s : Supervisor) : Prop :=
  Results (state s) !! mid = None ∧ Results (committed s) !! mid = None.

Section finish.
Context (env : Env).

Lemma settled_route usage a a' pr k :
  settled usage a a' → settled usage a {| a' with App.LastProvider := pr; App.LastCompat := k |}.
Proof. intros []. by split. Qed.

Lemma wp_store_any {A} (f : bool → M ContextStore A) s (Q : result error A → Supervisor → Prop) :
  (∀ r cs, Q r (stored cs s)) → wp (with_store env f) Q s.
Proof. intros H. apply wp_with_store. apply wp_intro. auto. Qed.

Lemma wp_commit_settles id a m p route hit denied over s :
  Applications (state s) !! id = Some a → no_result (Msg.MessageID m) s →
  wp (commit_turn env id a m p route hit denied over)
    (λ r s', match r with Ok _ => settlement id a m p s s' | Err _ => no_result (Msg.MessageID m) s' end) s.
Proof.
  intros Ha [Hr Hc]. unfold commit_turn. apply wp_bind, wp_store_any. intros [h|e] cs1; [|done].
  apply wp_bind, wp_store_any. intros [cp|e] cs2; [|done].
  destruct (settle (Turn.TurnUsage p) _ (Turn.Text p) a) as [[[a1 status] text] ov] eqn:Es.
  pose proof (settled_checkpoint _ _ _ cp (settle_settled _ _ _ _ _ _ _ _ Es)) as Hs.
  set (s2 := stored cs2 (stored cs1 s)).
  assert (state s2 = state s ∧ committed s2 = committed s) as [E1 E2] by done. clearbody s2.
  unfold recordRouteLocked. destruct (bool_decide (status ≠ failed)); sup_steps.
  all: lazymatch goal with |- no_result _ _ => unfold no_result; cbn; by rewrite E2 | _ => idtac end.
  all: split; cbn; rewrite ?E1, ?lookup_alter_eq, ?lookup_insert_eq, ?lookup_delete_eq; try reflexivity.
  all: lazymatch goal with
       | |- ∀ _, _ → _ => intros id' Hne; rewrite ?lookup_alter_ne, ?lookup_insert_ne by done; reflexivity
       | |- ∃ _ : Application, _ => eexists; split; [reflexivity|first [exact Hs|exact (settled_route _ _ _ _ _ Hs)]]
       | _ => eexists; split_and!; [reflexivity..|]; intros Hlen; exact (proj1 (settle_outcome _ _ _ _ _ _ Hlen Es))
       end.
Qed.

Lemma wp_finish_settles id a m text usage route perr s :
  Applications (state s) !! id = Some a → no_result (Msg.MessageID m) s →
  wp (finishTurn env id m text usage route perr)
    (λ r s', match r with
             | Ok _ => settlement id a m (prepared_of s id a m text usage route perr) s s'
             | Err _ => no_result (Msg.MessageID m) s'
             end) s.
Proof.
  intros Ha Hn. unfold finishTurn, clearInflight. apply wp_bind, wp_modify, wp_bind, wp_gets, wp_bind.
  cbn [state]. rewrite Ha. apply wp_ret. destruct Hn as [Hr Hc].
  rewrite decide_False by (rewrite Hr; by intros []).
  unfold prepared_of. apply wp_bind. unfold prepare_turn. apply wp_bind, wp_gets. cbn [state].
  destruct (Prepared (state s) !! Msg.MessageID m) as [p|] eqn:Ep; cbn [default].
  - apply wp_ret. eapply wp_mono; [by apply wp_commit_settles|]. intros [u|e] s2; [|done].
    intros []. by split.
  - apply wp_bind, wp_modify_state, wp_bind, wp_persist; [|done]. apply wp_ret.
    eapply wp_mono; [by apply wp_commit_settles|]. intros [u|e] s2; [|done]. intros []. by split.
Qed.

Lemma finish_repeated id m text usage route perr s :
  is_Some (Applications (state s) !! id) → is_Some (Results (state s) !! Msg.MessageID m) →
  wp (finishTurn env id m text usage route perr)
    (λ r s', r = Ok () ∧ state s' = state s ∧ committed s' = committed s) s.
Proof.
  intros [a Ha] Hr. unfold finishTurn, clearInflight. apply wp_bind, wp_modify, wp_bind, wp_gets, wp_bind.
  cbn [state]. rewrite Ha. apply wp_ret. by rewrite decide_True by done.
Qed.
End finish.

(** ** Theorems *)

Section theorems.
Context (env : Env) (kenv : KernelEnv) {E : Ed25519} (Henv : env_ok env).
Implicit Types s : Supervisor.

(** Claiming is fair and exact.  In every reachable supervisor a claimed turn is
    the oldest pending message of an application that may run; no application that
    could have run instead is more than the fairness band behind in tokens; exactly
    that message becomes claimed, the taint it declares is on the application, and
    both are committed before the claim is handed out. *)
Theorem claim_is_fair order s id m s' :
  reachable env kenv s → claimTurn env order s = (Ok (Some (id, m)), s') →
  let t := clock env (tick s) in
  ∃ a m0 a', claimable_turn t s id a m0 ∧ m = claim_first m0 ∧
    (∀ id1 a1 m1, id1 ∈ order → claimable_turn t s id1 a1 m1 →
       App.TokensUsed a ≤ within_band (App.TokensUsed a1))%Z ∧
    messages_of (committed s') id = update_first is_pending claim_first (messages_of (state s) id) ∧
    Applications (committed s') !! id = Some a' ∧ submask (taintedPayload (Msg.Payload m0)) (App.TaintBits a').
Proof using Henv.
  intros Hr H. pose proof (reachable_good env kenv s Henv Hr) as Hg.
  pose proof (wp_run _ _ _ _ _ (safe_claimTurn env order _ _ _ Hg) H) as Hg'.
  destruct (claimTurn_run env order s id m s' H) as (c & Hp & -> & -> & Hc & Hms & Happs & _).
  pose proof (pick_claimable _ _ _ _ Hp) as Hcl. destruct (Hcl) as (Ha & _ & _).
  set (taint := taintedPayload (Msg.Payload (c_message c))) in *.
  exists (c_app c), (c_message c), (if decide (taint = 0%Z) then c_app c else add_taint taint (c_app c)).
  split_and!; [done..| | | |].
  - intros id1 a1 m1 Ho H1. eapply pick_fair; try done. apply (inv_apps _ (g_state _ _ _ Hg)).
  - rewrite <-Hms, Hc. unfold messages_of. by rewrite (durable_mailbox _ (inv_mail _ (g_state _ _ _ Hg'))).
  - rewrite Hc. cbn. rewrite Happs. case_decide; [done|]. by rewrite lookup_alter_eq, Ha.
  - fold taint. unfold submask. case_decide as Ht; [by rewrite Ht, Z.lor_0_r|]. cbn. by rewrite <-Z.lor_assoc, Z.lor_diag.
Qed.

(** C25: Claiming is work conserving.  When the disk works, a claim finds a turn
    exactly when some application may run and has a pending message; otherwise it
    reports none and leaves the state alone. *)
Theorem claim_progress order s :
  (∀ n, disk env n = true) → (∀ id, is_Some (Applications (state s) !! id) → id ∈ order) →
  ∃ r s', claimTurn env order s = (Ok r, s') ∧
    (is_Some r ↔ ∃ id a m, claimable_turn (clock env (tick s)) s id a m) ∧ (r = None → state s' = state s).
Proof using.
  intros Hd Hord. destruct (claimTurn_total env order s Hd) as (r & s' & H). exists r, s'. split; [done|].
  destruct r as [[id m]|].
  - destruct (claimTurn_run env order s id m s' H) as (c & Hp & -> & -> & _).
    apply pick_claimable in Hp. split; [|done]. split; [eauto|done].
  - destruct (claimTurn_none env order s s' H) as [Hp ->]. split; [|done]. split; [by intros []|].
    intros (id & a & m & Hc). destruct (pick_None _ _ _ id a m Hp); [|done]. destruct Hc as (Ha & _). eauto.
Qed.

(** C5: A turn is settled exactly once and from one result.  In every reachable
    supervisor, settling a message that already has a result changes nothing.
    Otherwise a successful settlement commits one result, based on the outcome
    recorded before a crash if there is one, together with the charge, the
    acknowledgement and no change to other applications; a failed settlement leaves
    no result behind. *)
Theorem finish_settles_once s id a m text usage route perr r s' :
  reachable env kenv s → Applications (state s) !! id = Some a →
  finishTurn env id m text usage route perr s = (r, s') →
  (is_Some (Results (state s) !! Msg.MessageID m) → r = Ok () ∧ state s' = state s ∧ committed s' = committed s) ∧
  (Results (state s) !! Msg.MessageID m = None →
   match r with
   | Ok _ => settlement id a m (prepared_of s id a m text usage route perr) s s'
   | Err _ => no_result (Msg.MessageID m) s'
   end).
Proof using Henv.
  intros Hr Ha H. split; intros Hres.
  - exact (wp_run _ _ _ _ _ (finish_repeated env id m text usage route perr s (mk_is_Some _ _ Ha) Hres) H).
  - refine (wp_run _ _ _ _ _ (wp_finish_settles env id a m text usage route perr s Ha _) H). split; [done|].
    destruct (reachable_good env kenv s Henv Hr) as [_ _ _ Hev _ _ _].
    eapply lookup_weaken_None; [exact Hres|apply (ev_results _ _ Hev)].
Qed.
End theorems.

(** ** The theorems at sample runs *)

Definition is_claim (r : result error (option (string * MailboxMessage))) : bool :=
  match r with Ok (Some _) => true | _ => false end.

Lemma is_claim_run (m : M Supervisor (option (string * MailboxMessage))) s :
  is_claim (fst (m s)) = true → ∃ id msg s', m s = (Ok (Some (id, msg)), s').
Proof. destruct (m s) as [[[[id msg]|]|e] s']; simpl; eauto; done. Qed.

Lemma claim_is_fair_witness : ∃ id m s' a m0, claimTurn Sample.env [Sample.app] (Sample.run open_ops) = (Ok (Some (id, m)), s') ∧
  claimable_turn (clock Sample.env (tick (Sample.run open_ops))) (Sample.run open_ops) id a m0.
Proof.
  destruct (is_claim_run (claimTurn Sample.env [Sample.app]) (Sample.run open_ops)) as (id & m & s' & H); [by vm_compute|].
  destruct (claim_is_fair Sample.env Sample.kenv Sample.env_ok _ _ _ _ _ open_reachable H) as (a & m0 & a' & Hc & _).
  exact (ex_intro _ id (ex_intro _ m (ex_intro _ s' (ex_intro _ a (ex_intro _ m0 (conj H Hc)))))).
Defined.

Lemma claim_progress_witness : ∃ r s',
  claimTurn Sample.env [Sample.app] (Sample.run open_ops) = (Ok r, s') ∧
  (is_Some r ↔ ∃ id a m, claimable_turn (clock Sample.env (tick (Sample.run open_ops))) (Sample.run open_ops) id a m) ∧
  (r = None → state s' = state (Sample.run open_ops)).
Proof.
  refine (claim_progress Sample.env [Sample.app] (Sample.run open_ops) (λ n, eq_refl) _).
  assert (fst <$> map_to_list (Applications (state (Sample.run open_ops))) = [Sample.app]) as Hk by (by vm_compute).
  intros id [a Ha]. rewrite <-Hk. apply list_elem_of_fmap. exists (id, a). split; [done|]. by apply elem_of_map_to_list.
Defined.

Definition settle_ops : list op := chat_ops ++ [ODeliver "tg" "42" 1 "{}"].

Lemma settle_reachable : reachable Sample.env Sample.kenv (Sample.run settle_ops).
Proof. eapply reachable_steps; [apply start_reachable|]. apply run_steps. by repeat split. Qed.

Lemma finish_settles_once_witness : ∃ a s',
  settlement Sample.app a inbound
    (prepared_of (Sample.run settle_ops) Sample.app a inbound "hi" (mkUsage 7 5 0) (mkRouteInfo "echo" "" 0) None)
    (Sample.run settle_ops) s'.
Proof.
  destruct (some_of (Applications (state (Sample.run settle_ops)) !! Sample.app)) as [a Ha]; [by vm_compute|].
  destruct (finishTurn Sample.env Sample.app inbound "hi" (mkUsage 7 5 0) (mkRouteInfo "echo" "" 0) None
    (Sample.run settle_ops)) as [r s'] eqn:H.
  assert (is_ok (fst (finishTurn Sample.env Sample.app inbound "hi" (mkUsage 7 5 0) (mkRouteInfo "echo" "" 0) None
    (Sample.run settle_ops))) = true) as Hok by (by vm_compute).
  assert (Results (state (Sample.run settle_ops)) !! Msg.MessageID inbound = None) as Hn by (by vm_compute).
  pose proof (proj2 (finish_settles_once Sample.env Sample.kenv Sample.env_ok _ _ _ _ _ _ _ _ _ _ settle_reachable Ha H) Hn) as Hs.
  rewrite H in Hok. destruct r as [u|e]; [|discriminate Hok]. exact (ex_intro _ a (ex_intro _ s' Hs)).
Defined.

(** The turn that was claimed before the retirement ends after it and uses the budget up. *)
Definition late_message : MailboxMessage := Msg.mk "msg-3" "k1" "{}" claimed 3 9 1.
Definition late_ops : list op :=
  retire_ops ++ [OFinish Sample.app late_message "hi" (mkUsage 7 5 0) (mkRouteInfo "echo" "" 0) None].

(** A turn that ends after the retirement can undo it.  The application is created
    with a budget, a turn is claimed, the application is retired; the turn then ends and
    uses the budget up.  The application was tombstoned on disk before and is frozen on
    disk afterwards, and it accepts messages again. *)
Theorem retirement_undone :
  reachable Sample.env Sample.kenv (Sample.run late_ops) ∧
  App.State <$> Applications (committed (Sample.run retire_ops)) !! Sample.app = Some tombstoned ∧
  App.State <$> Applications (committed (Sample.run late_ops)) !! Sample.app = Some frozen ∧
  fst (Enqueue Sample.env "root" Sample.app "k2" "{}" (Sample.run retire_ops)) = Err ErrApplicationRetired ∧
  is_ok (fst (Enqueue Sample.env "root" Sample.app "k2" "{}" (Sample.run late_ops))) = true.
Proof.
  split; [|split_and!; by vm_compute].
  eapply reachable_steps; [apply start_reachable|]. apply run_steps. by repeat split.
Qed.
