(* ===== verification/GateProperties.v ===== *)
(** * The gates: export, revocation, host paths

    What may leave an application, which tokens stay dead, and which host paths an
    operation may touch. *)

From Stdlib Require Import Ascii.
From stdpp Require Import base tactics option list gmap sets strings numbers pretty sorting relations.
From S2P Require Import Prelude Monad GoLib Json Crypto Ledger Policy ContextStore State Taint Mailbox.
From S2P Require Import Lifecycle Revocation Runner Gateway Hostfs Wake Invariant Safety HostfsProofs System.
From S2P Require Import Durability SystemProperties.

(** ** The export gate *)

Section export.
Context (env : Env).

(** A request that lets this text of this application out at this time. *)
Definition approved (t : Z) (a : Application) (text : string) (r : ConfirmationRequest) : Prop :=
  Cfm.ApplicationID r = App.ApplicationID a ∧ Cfm.Kind r = "taint.export" ∧ text = Cfm.Object r ∧
  Cfm.Status r = cfm_approved ∧ (t ≤ Cfm.ExpiresAt r)%Z.

(** Why a text may leave: no unmasked taint, the caller's confirmation, or an
    approved request, which is used up. *)
Inductive released (s : Supervisor) (a : Application) (text : string) (confirm : bool) (requestID : string)
    (s' : Supervisor) : Prop :=
  | released_clean : requestID = "" → blocked_taint a (policy s) = 0%Z → released s a text confirm requestID s'
  | released_confirmed : requestID = "" → confirm = true → released s a text confirm requestID s'
  | released_approved r :
      requestID ≠ "" → Confirmations (state s) !! requestID = Some r → approved (clock env (tick s)) a text r →
      Cfm.Status <$> Confirmations (state s') !! requestID = Some cfm_consumed →
      released s a text confirm requestID s'.

(** The newest audit record allows this export, and it is committed. *)
Definition export_recorded (principal text : string) (s' : Supervisor) : Prop :=
  committed s' = durable (state s') ∧ ∃ r, last (Audit (state s')) = Some r ∧ Aud.Principal r = principal ∧
    Aud.Object r = text ∧ Aud.Decision r = "allow" ∧
    (Aud.Action r = "taint.export" ∨ Aud.Action r = "taint.export.confirm").

Lemma recorded_saved principal text i action d s :
  action = "taint.export" ∨ action = "taint.export.confirm" →
  export_recorded principal text (saved (audited env principal i action text "allow" d s)).
Proof. intros Ha. split; [done|]. cbn. rewrite last_snoc. eexists. by split_and!. Qed.

Lemma export_released order principal id text confirm escalate requestID s out s' :
  exportApplication env order principal id text confirm escalate requestID s = (Ok out, s') →
  out = text ∧ export_recorded principal text s' ∧
  ∃ a, Applications (state s) !! id = Some a ∧ ¬ retired_app a ∧ released s a text confirm requestID s'.
Proof.
  intros H. assert (wp (exportApplication env order principal id text confirm escalate requestID) (λ r s', ∀ out, r = Ok out →
    out = text ∧ export_recorded principal text s' ∧
    ∃ a, Applications (state s) !! id = Some a ∧ ¬ retired_app a ∧ released s a text confirm requestID s') s) as Hwp;
    [|by eapply (wp_run _ _ _ _ _ Hwp H)].
  clear H. unfold exportApplication, exportViaRequestLocked, escalateExportLocked, sweepConfirmationsLocked.
  sup_steps; try done; intros ? [= <-]; (split; [done|]); (split; [apply recorded_saved; by auto|]); exists a; split_and!; try done.
  - match goal with H : ¬ (Cfm.ApplicationID ?r ≠ _ ∨ _) |- _ => apply (released_approved _ _ _ _ _ _ r) end; try done.
    + repeat match goal with H : ¬ (_ ∨ _) |- _ => apply Decidable.not_or in H as [? ?] end.
      split_and!; try (by apply dec_stable). cbn in *. lia.
    + cbn. by rewrite lookup_insert_eq.
  - apply released_clean; [by apply dec_stable|done].
  - apply released_confirmed; [by apply dec_stable|]. by destruct confirm.
Qed.

Lemma consumed_refused order principal id text confirm escalate requestID s r s' :
  requestID ≠ "" → Cfm.Status <$> Confirmations (state s) !! requestID = Some cfm_consumed →
  exportApplication env order principal id text confirm escalate requestID s = (r, s') → ∃ e, r = Err e.
Proof.
  intros Hreq Hc H. assert (wp (exportApplication env order principal id text confirm escalate requestID)
    (λ r _, ∃ e, r = Err e) s) as Hwp; [|by apply (wp_run _ _ _ _ _ Hwp H)].
  clear H. unfold exportApplication. sup_steps; eauto; try done. unfold exportViaRequestLocked.
  apply fmap_Some in Hc as (q & Hq & Hs). apply wp_bind, wp_gets. rewrite Hq. sup_steps; eauto; try done.
  all: exfalso; congruence.
Qed.
End export.

(** ** Revocation *)

(** A token derived from another by attenuation. *)
Inductive descends {E : Ed25519} (t : CapabilityToken) : CapabilityToken → Prop :=
  | descends_self : descends t t
  | descends_attenuated t1 t2 now private caveat grants :
      descends t t1 → Attenuate t1 now private caveat grants = Ok t2 → descends t t2.

Section revocation.
Context {E : Ed25519}.

Lemma attenuate_fields t now private caveat grants t' :
  Attenuate t now private caveat grants = Ok t' →
  Subject t' = Subject t ∧ PublicKey t' = PublicKey t ∧ Caveats t' = Caveats t ++ [caveat].
Proof. unfold Attenuate. destruct (Verify t now); [|done]. repeat case_decide; try done. by intros [= <-]. Qed.

Lemma descends_fields t t' :
  descends t t' → Subject t' = Subject t ∧ PublicKey t' = PublicKey t ∧
    (t' = t ∨ ∃ c cs, Caveats t' = Caveats t ++ c :: cs).
Proof.
  induction 1 as [|t1 t2 now private caveat grants _ (IHs & IHk & IHc) Ha]; [auto|].
  apply attenuate_fields in Ha as (Hs & Hk & Hc). split_and!; [congruence..|]. right.
  destruct IHc as [->|(c & cs & IHc)]; [by exists caveat, []|]. exists c, (cs ++ [caveat]). by rewrite Hc, IHc, <-app_assoc.
Qed.

(** The registry entry of a token. *)
Definition entry_of (t : CapabilityToken) (r : RevokedToken) : Prop :=
  Rev.Digest r = tokenDigest t ∧ Rev.PublicKey r = PublicKey t ∧ Rev.Subject r = Subject t ∧ Rev.Caveats r = Caveats t.

Lemma entry_revokes t r t' : entry_of t r → descends t t' → revokedBy r t' = true.
Proof.
  intros (Hd & Hk & Hs & Hc) (Es & Ek & Ec)%descends_fields. unfold revokedBy.
  rewrite decide_False; [|rewrite Hs, Hk, Es, Ek; unfold bytesEqual; rewrite bool_decide_true by done; intros [?|?]; done].
  destruct Ec as [->|(c & cs & Ec)]; [by rewrite decide_True|]. case_decide; [done|].
  rewrite Hc, Ec, decide_False; [|rewrite length_app; cbn; lia]. apply bool_decide_true. by apply prefix_app_r.
Qed.

Lemma tokenRevoked_elem r entries t : r ∈ entries → revokedBy r t = true → tokenRevoked entries t = true.
Proof. intros Hr Ht. apply existsb_exists. exists r. split; [by apply list_elem_of_In|done]. Qed.

Lemma revoked_denied env principal id object action t s r s' :
  tokenRevoked (RevokedTokens (state s)) t = true →
  checkToken env principal id object action (Some t) s = (r, s') → ∃ e, r = Err e.
Proof.
  intros Ht H. assert (wp (checkToken env principal id object action (Some t)) (λ r _, ∃ e, r = Err e) s) as Hwp;
    [|by apply (wp_run _ _ _ _ _ Hwp H)].
  clear H. unfold checkToken, decide_check. apply wp_bind, wp_now, wp_bind, wp_get. cbn [state ticked]. rewrite Ht.
  destruct (available _ _); sup_steps; eauto.
Qed.

Lemma revoke_enters env principal t reason s s' :
  tokenDigest t ∉ Rev.Digest <$> RevokedTokens (state s) →
  RevokeCapabilityToken env principal t reason s = (Ok (), s') →
  ∃ r, entry_of t r ∧ r ∈ RevokedTokens (committed s').
Proof.
  intros Hn H. assert (wp (RevokeCapabilityToken env principal t reason) (λ r s', r = Ok () →
    ∃ r, entry_of t r ∧ r ∈ RevokedTokens (committed s')) s) as Hwp; [|by apply (wp_run _ _ _ _ _ Hwp H)].
  clear H. unfold RevokeCapabilityToken. sup_steps; try done. intros _.
  eexists. split; [|cbn; apply elem_of_app; right; by left]. done.
Qed.
End revocation.

(** ** Host paths *)

Section hostfs.
Context (env : Env).

(** A mount that lets an application do this to this path, unless it expires. *)
Definition mount_grants (id path operation : string) (m : HostfsMount) : Prop :=
  Mnt.ApplicationID m = id ∧ Mnt.Enabled m = true ∧ path_under_mount path (Mnt.GuestPath m) = true ∧
  mode_allows (Mnt.Mode m) operation = true.

(** A path the check looks at. *)
Definition proper_path (path : string) : Prop :=
  IsAbs path = true ∧ Clean path = path ∧ contains_byte (λ c, bool_decide (c = nul)) path = false.

(** A mount that some reading of the clock from [n] to before [n'] found in time. *)
Definition unexpired (n n' : nat) (m : HostfsMount) : Prop :=
  Mnt.ExpiresAt m = 0%Z ∨ ∃ t, n ≤ t < n' ∧ (clock env t ≤ Mnt.ExpiresAt m)%Z.

(** A mount that all of them find in time. *)
Definition in_time (n n' : nat) (m : HostfsMount) : Prop :=
  Mnt.ExpiresAt m = 0%Z ∨ ∀ t, n ≤ t < n' → (clock env t ≤ Mnt.ExpiresAt m)%Z.

Lemma unexpired_mono n1 n2 n1' n2' m : n1' ≤ n1 → n2 ≤ n2' → unexpired n1 n2 m → unexpired n1' n2' m.
Proof. intros H1 H2 [?|(t & Ht & Hc)]; [by left|]. right. exists t. split; [lia|done]. Qed.

(** The walk over the mounts changes nothing but the clock's readings; it stops with
    success only at a mount that grants, and fails only when none in time is left. *)
Lemma check_mounts_exact id path operation mounts : ∀ s,
  wp (check_mounts env id path operation mounts) (λ r s', state s' = state s ∧ tick s ≤ tick s' ∧
    match r with
    | Ok _ => ∃ m, m ∈ mounts ∧ mount_grants id path operation m ∧ unexpired (tick s) (tick s') m
    | Err e => e = ErrMountDenied ∧ Forall (λ m, mount_grants id path operation m → ¬ in_time (tick s) (tick s') m) mounts
    end) s.
Proof.
  induction mounts as [|m mounts IH]; intros s; simpl; [by sup_steps|].
  set (Q := λ (r : result error unit) (s' : Supervisor), state s' = state s ∧ tick s ≤ tick s' ∧
    match r with
    | Ok _ => ∃ m', m' ∈ m :: mounts ∧ mount_grants id path operation m' ∧ unexpired (tick s) (tick s') m'
    | Err e => e = ErrMountDenied ∧ Forall (λ m, mount_grants id path operation m → ¬ in_time (tick s) (tick s') m) (m :: mounts)
    end).
  assert (∀ s1, state s1 = state s → tick s ≤ tick s1 → (∀ n', tick s1 ≤ n' → mount_grants id path operation m → ¬ in_time (tick s) n' m) →
    wp (check_mounts env id path operation mounts) Q s1) as Hnext.
  { intros s1 Hs1 Hn1 Hm. eapply wp_mono; [by apply IH|]. intros r s2 (Hs2 & Hn2 & H). split; [congruence|]. split; [lia|].
    destruct r as [[]|e].
    - destruct H as (m' & Hin & Hg & Hu). exists m'. split_and!; [by right|done|]. by eapply unexpired_mono; [..|exact Hu].
    - destruct H as [-> Hall]. split; [done|]. constructor; [intros Hg; by apply Hm|]. eapply Forall_impl; [exact Hall|].
      intros m' Hno Hg [Hz|Ht]; [by destruct (Hno Hg); left|]. apply (Hno Hg). right. intros t Hin. apply Ht. lia. }
  case_decide as Hd. { apply Hnext; [done|done|]. intros n' _ (H1 & H2 & _). destruct Hd; congruence. }
  apply wp_bind. apply Decidable.not_or in Hd as [Hid%dec_stable Hen%not_false_iff_true].
  assert (∀ s1, state s1 = state s → tick s ≤ tick s1 → unexpired (tick s) (tick s1) m →
    wp (if negb (path_under_mount path (Mnt.GuestPath m)) then check_mounts env id path operation mounts
        else if mode_allows (Mnt.Mode m) operation then mret () else check_mounts env id path operation mounts)
      Q s1) as Hhere.
  { intros s1 Hs1 Hn1 Hu. destruct (path_under_mount path (Mnt.GuestPath m)) eqn:Ep; cbn [negb];
      [|apply Hnext; [done|done|]; intros n' _ (_ & _ & H & _); congruence].
    destruct (mode_allows (Mnt.Mode m) operation) eqn:Em; [|apply Hnext; [done|done|]; intros n' _ (_ & _ & _ & H); congruence].
    apply wp_ret. split_and!; [done|done|]. exists m. split; [by left|]. done. }
  case_decide as Hz.
  - apply wp_ret. apply Hhere; [done|done|by left].
  - apply wp_bind, wp_now, wp_ret. case_bool_decide as Hlate.
    + apply Hnext; [done|cbn; lia|]. cbn. intros n' Hn' _ [?|Ht]; [done|]. specialize (Ht (tick s)). lia.
    + apply Hhere; [done|cbn; lia|]. right. exists (tick s). cbn. lia.
Qed.
End hostfs.

(** ** Theorems *)

Section theorems.
Context (env : Env) (kenv : KernelEnv) {E : Ed25519} (Henv : env_ok env).
Implicit Types s : Supervisor.

(** C26: Text leaves only through the gate.  When an export succeeds, what comes out
    is the requested text, of an application that is not retired, and either its
    taint is covered by the manifest's mask, or the caller confirmed it, or an
    approved and unexpired request for exactly this text of this application was
    used up; the audit log's newest record says so and is committed.  A used request
    lets nothing out again. *)
Theorem export_gate order principal id text confirm escalate requestID s out s' :
  exportApplication env order principal id text confirm escalate requestID s = (Ok out, s') →
  out = text ∧ export_recorded principal text s' ∧
  (∃ a, Applications (state s) !! id = Some a ∧ ¬ retired_app a ∧ released env s a text confirm requestID s') ∧
  (requestID ≠ "" → ∀ order2 principal2 id2 text2 confirm2 escalate2 r s2,
     exportApplication env order2 principal2 id2 text2 confirm2 escalate2 requestID s' = (r, s2) → ∃ e, r = Err e).
Proof using.
  intros H. destruct (export_released env _ _ _ _ _ _ _ _ _ _ H) as (Ho & Hrec & a & Ha & Hret & Hrel).
  split_and!; [done|done|eauto|]. intros Hreq order2 p2 id2 text2 c2 e2 r s2 H2.
  destruct Hrel as [?|?|q _ _ _ Hcons]; [done|done|]. by eapply consumed_refused.
Qed.

(** C27: Revocation is permanent and covers the whole chain.  Once a token is entered
    in the registry, every later check that presents it or any token attenuated from
    it is refused, after any further operations, failed commits and restarts. *)
Theorem revoked_stays_denied principal t reason s s1 s2 t' principal2 id object action r s3 :
  reachable env kenv s → tokenDigest t ∉ Rev.Digest <$> RevokedTokens (state s) →
  RevokeCapabilityToken env principal t reason s = (Ok (), s1) → rtc (step env kenv) s1 s2 → descends t t' →
  checkToken env principal2 id object action (Some t') s2 = (r, s3) → ∃ e, r = Err e.
Proof using Henv.
  intros Hr Hn Hrev Hs Hd Hc. destruct (revoke_enters env _ _ _ _ _ Hn Hrev) as (e & He & Hin).
  assert (step env kenv s s1) as Hstep.
  { replace s1 with (snd (exec env kenv (ORevoke principal t reason) s)) by (simpl; by rewrite Hrev). by apply step_op. }
  assert (reachable env kenv s1) as Hr1 by (eapply reachable_steps; [done|by apply rtc_once]).
  destruct (later_good env kenv s1 s2 Henv Hr1 Hs) as [_ Hfrom _ Hahead _ _ _].
  eapply revoked_denied; [|exact Hc]. eapply tokenRevoked_elem; [|by eapply entry_revokes].
  eapply elem_of_prefix; [|exact (ev_revoked _ _ Hahead)]. eapply elem_of_prefix; [|exact (ev_revoked _ _ Hfrom)]. done.
Qed.

End theorems.

(** ** The theorems at sample runs *)

(** Imported data taints the application; the export is escalated and approved. *)
Definition approved_ops : list op :=
  [OCreate "root" "alice" "on_event"; OCommitImport "root" Sample.app "k" "{}";
   OExport [] "root" Sample.app "out" false true ""; OSettle "operator" "cfm-0a0a0a0a0a0a0a0a" true].

Lemma export_gate_witness : ∃ s' a,
  released Sample.env (Sample.run approved_ops) a "out" false "cfm-0a0a0a0a0a0a0a0a" s' ∧
  exportApplication Sample.env [] "root" Sample.app "out" false false "" (Sample.run approved_ops) ≠
    exportApplication Sample.env [] "root" Sample.app "out" false false "cfm-0a0a0a0a0a0a0a0a" (Sample.run approved_ops).
Proof.
  destruct (ok_run (exportApplication Sample.env [] "root" Sample.app "out" false false "cfm-0a0a0a0a0a0a0a0a")
    (Sample.run approved_ops)) as (out & s' & H); [by vm_compute|].
  destruct (export_gate Sample.env _ _ _ _ _ _ _ _ _ _ H) as (_ & _ & (a & _ & _ & Hrel) & _).
  refine (ex_intro _ s' (ex_intro _ a (conj Hrel _))). intros Heq%(f_equal (λ x, is_ok (fst x))). vm_compute in Heq. discriminate Heq.
Defined.

Definition revoking : Supervisor := Sample.run open_ops.

Lemma revoked_stays_denied_witness : ∃ s1 r s3,
  RevokeCapabilityToken Sample.env "root" sample_token "leak" revoking = (Ok (), s1) ∧
  checkToken Sample.env "app-1" Sample.app "fs.read" "/data/a/x" (Some (sample_attenuate sample_token "/data/a/**")) s1 = (r, s3) ∧
  ∃ e, r = Err e.
Proof.
  destruct (ok_run (RevokeCapabilityToken Sample.env "root" sample_token "leak") revoking) as ([] & s1 & H); [by vm_compute|].
  destruct (checkToken Sample.env "app-1" Sample.app "fs.read" "/data/a/x"
    (Some (sample_attenuate sample_token "/data/a/**")) s1) as [r s3] eqn:Hc.
  refine (ex_intro _ s1 (ex_intro _ r (ex_intro _ s3 (conj H (conj Hc _))))).
  refine (revoked_stays_denied Sample.env Sample.kenv Sample.env_ok "root" sample_token "leak" revoking s1 s1
    (sample_attenuate sample_token "/data/a/**") _ _ _ _ _ _ open_reachable _ H (rtc_refl _ _) _ Hc).
  - assert (RevokedTokens (state revoking) = []) as Hnone by (by vm_compute). rewrite Hnone. apply not_elem_of_nil.
  - eapply (descends_attenuated _ sample_token _ 1000000000000000000 sample_key "narrow" [mkGrant "fs.read" "/data/a/**"]).
    + apply descends_self.
    + vm_compute. reflexivity.
Defined.

Definition mount_ops : list op :=
  [OCreate "root" "alice" "on_event"; OMount "root" Sample.app "/work" "ro" 0 60].

