(* ===== verification/WebProperties.v ===== *)
(** * The web: what a request may reach, and what its content does

    A request of [WebExecute] stays inside the granted prefixes at every hop, and its
    content is external taint of the application, committed before it is returned. *)

From Stdlib Require Import Ascii.
From stdpp Require Import base tactics option list gmap sets strings numbers pretty sorting relations.
From S2P Require Import Prelude Monad GoLib Json Crypto Ledger Policy ContextStore State Taint Mailbox Url Net UrlProofs Web.
From S2P Require Import Wake KernelWake Invariant Safety TaintProofs HostfsProofs System SystemProperties GateProperties.

(** ** The scope of a capability *)

(** The target is at the origin of a granted prefix and at or below its path. *)
Definition in_scope (prefixes : list string) (target : string) : Prop :=
  ∃ u prefix p, Parse target = Some u ∧ prefix ∈ prefixes ∧ Parse prefix = Some p ∧
    Host p ≠ "" ∧ Host u = Host p ∧ Scheme u = Scheme p ∧
    (Path p = "" ∨ Path p = "/" ∨ ∃ rest, Path u = Path p +:+ rest ∧ (rest = "" ∨ HasPrefix rest "/" = true)).

Lemma prefix_admits_exact u prefix :
  prefix_admits u prefix = true ↔ ∃ p, Parse prefix = Some p ∧
    Host p ≠ "" ∧ Host u = Host p ∧ Scheme u = Scheme p ∧
    (Path p = "" ∨ Path p = "/" ∨ ∃ rest, Path u = Path p +:+ rest ∧ (rest = "" ∨ HasPrefix rest "/" = true)).
Proof.
  unfold prefix_admits. destruct (Parse prefix) as [p|]; [|split; [done|by intros (? & ? & _)]].
  case_decide as Ho; [split; [done|]; intros (? & [= <-] & ? & ? & ? & _); destruct Ho as [?|[?|?]]; congruence|].
  apply Decidable.not_or in Ho as [Hh Ho]. apply Decidable.not_or in Ho as [He Hs].
  apply dec_stable in He, Hs.
  case_decide as Hp; [split; [intros _; exists p; split_and!; try done; tauto|done]|].
  destruct (strip_prefix (Path p) (Path u)) as [rest|] eqn:E.
  - rewrite orb_true_iff, bool_decide_eq_true. apply strip_prefix_Some in E. split.
    + intros Hr. exists p. split_and!; try done. right. right. by exists rest.
    + intros (? & [= <-] & _ & _ & _ & [?|[?|(r & Er & Hr)]]); [tauto|tauto|]. rewrite E in Er.
      apply (inj (String.append (Path p))) in Er as ->. done.
  - split; [done|]. intros (? & [= <-] & _ & _ & _ & [?|[?|(r & Er & _)]]); [tauto|tauto|].
    apply strip_prefix_Some in Er. congruence.
Qed.

Lemma webPrefixAllowed_exact prefixes target : webPrefixAllowed prefixes target = true ↔ in_scope prefixes target.
Proof.
  unfold webPrefixAllowed, in_scope. destruct (Parse target) as [u|]; [|split; [done|by intros (? & ? & ? & ? & _)]].
  rewrite existsb_exists. split.
  - intros (prefix & Hin%list_elem_of_In & (p & Hp)%prefix_admits_exact). exists u, prefix, p. tauto.
  - intros (? & prefix & p & [= <-] & Hin & Hp). exists prefix. split; [by apply list_elem_of_In|].
    apply prefix_admits_exact. by exists p.
Qed.

Lemma follow_exact prefixes targets : ∀ via,
  follow prefixes via targets = None ↔ Forall (in_scope prefixes) targets ∧ (targets = [] ∨ via + length targets ≤ 5).
Proof.
  induction targets as [|t targets IH]; intros via; simpl; [split; [by auto|done]|].
  case_decide; [split; [done|]; intros [_ [?|?]]; [done|lia]|].
  destruct (webPrefixAllowed prefixes t) eqn:Et; simpl.
  - apply webPrefixAllowed_exact in Et. rewrite IH, Forall_cons. split.
    + intros [? [->|?]]; (split; [done|]); right; simpl; lia.
    + intros [[] [?|?]]; (split; [done|]); [done|]. right. lia.
  - split; [done|]. intros [[Hs _]%Forall_cons _]. apply webPrefixAllowed_exact in Hs. congruence.
Qed.

(** ** What a request was granted, and what it fetched *)

Definition limit_of (cap : WebCapability) : Z := if decide (MaxResponseBytes cap ≤ 0)%Z then 1048576 else MaxResponseBytes cap.

Record web_granted (env : Env) (s : Supervisor) (cap : WebCapability) (req : WebRequest) (targets : list string) : Prop := {
  wg_layer : (1 ≤ kindRank (wr_Kind req) ≤ kindRank (wc_Kind cap))%Z;
  wg_scheme : web_scheme (Parse (wr_URL req)) = true;
  wg_scope : Forall (in_scope (URLPrefixes cap)) (wr_URL req :: targets);
  wg_hops : length targets ≤ 4;
  wg_method : Methods cap = [] ∨ method_of (wr_Method req) ∈ Methods cap;
  wg_time : wc_ExpiresAt cap = 0%Z ∨ (clock env (tick s) `div` 1000000000 ≤ wc_ExpiresAt cap)%Z;
}.

(** The whole body came, and it is within the limit. *)
Definition fetched (cap : WebCapability) (req : WebRequest) (net : Network) (result : WebResult)
    (doc : option (list string * string)) : Prop :=
  ∃ resp, answered net = Ok resp ∧ (len (Body resp) ≤ limit_of cap)%Z ∧
    res_Kind result = wr_Kind req ∧ res_Status result = StatusCode resp ∧ res_Taint result = TaintExternal ∧
    ContentSHA256 result = sha256_hex (Body resp) ∧ res_Bytes result = len (Body resp) ∧
    doc = if decide (wr_Kind req = "web.fetch") then None else Some (webDocument (Body resp) (ContentTypeHeader resp)).

(** The application carries the taint of external content. *)
Definition marked (id : string) (st : supervisorState) : Prop :=
  ∃ a, Applications st !! id = Some a ∧ submask TaintExternal (App.TaintBits a).

Lemma kindRank_nonneg k : (0 ≤ kindRank k)%Z.
Proof. unfold kindRank. repeat case_decide; lia. Qed.

(** One byte more than the limit is read, so what passes the limit is the whole body. *)
Lemma limited_whole n body :
  (0 ≤ n < 9223372036854775807)%Z → ¬ (len (limited (i64 (n + 1)) body) > n)%Z →
  limited (i64 (n + 1)) body = body ∧ (len body ≤ n)%Z.
Proof.
  intros Hn. assert (i64 (n + 1) = n + 1)%Z as -> by (unfold i64; rewrite Z.mod_small; lia). unfold limited, len.
  destruct (decide (Z.to_nat (n + 1) ≤ String.length body)).
  - rewrite substring_length by done. lia.
  - intros _. rewrite substring_all by lia. split; [done|lia].
Qed.

Section web.
Context (env : Env) (kenv : KernelEnv) {E : Ed25519}.
Implicit Types s : Supervisor.

Lemma bind_inv {A B} (m : M Supervisor A) (f : A → M Supervisor B) s b s' :
  (m ≫= f) s = (Ok b, s') → ∃ a s1, m s = (Ok a, s1) ∧ f a s1 = (Ok b, s').
Proof. unfold mbind, M_bind. destruct (m s) as [[a|e] s1]; [eauto|done]. Qed.

Lemma web_begin_granted id cap req s limit s1 :
  web_begin env id cap req s = (Ok limit, s1) →
  local s s1 ∧ limit = limit_of cap ∧
  ∀ targets, Forall (in_scope (URLPrefixes cap)) targets → length targets ≤ 4 → web_granted env s cap req targets.
Proof.
  intros H. assert (wp (web_begin env id cap req) (λ r s1, ∀ limit, r = Ok limit →
    local s s1 ∧ limit = limit_of cap ∧
    ∀ targets, Forall (in_scope (URLPrefixes cap)) targets → length targets ≤ 4 → web_granted env s cap req targets) s) as Hwp;
    [|by apply (wp_run _ _ _ _ _ Hwp H)].
  clear H. unfold web_begin. sup_steps; try done; intros ? [= <-].
  all: (split; [done|]); (split; [done|]); intros targets Ht Hl; split; try done.
  all: repeat match goal with H : _ ≠ false |- _ => apply not_false_is_true in H end; try done.
  all: try (pose proof (kindRank_nonneg (wr_Kind req)); lia).
  all: try (constructor; [by apply webPrefixAllowed_exact|done]).
  all: try (destruct (decide (Methods cap = [])); [by left|right]; apply dec_stable; tauto).
Qed.

Lemma webFetch_ok prefixes n net s result body s1 :
  webFetch env prefixes n net s = (Ok (result, body), s1) →
  s1 = ticked s ∧ Forall (in_scope prefixes) (hops net) ∧ length (hops net) ≤ 4 ∧
  ∃ resp, answered net = Ok resp ∧ body = limited (i64 (n + 1)) (Body resp) ∧ ¬ (len body > n)%Z ∧
    result = mkWebResult "web.fetch" (FinalURL resp) (StatusCode resp) (sha256_hex body) (len body)
               (ContentTypeHeader resp) TaintExternal (clock env (tick s)).
Proof.
  intros H. unfold webFetch in H. destruct (made net); [done|].
  destruct (follow prefixes 1 (hops net)) eqn:Ef; [done|]. apply follow_exact in Ef as [Hs Hl].
  destruct (answered net) as [resp|]; [|done]. destruct (body_read net); [done|].
  apply bind_inv in H as ([] & s2 & Hr & H). unfold reject_if in Hr. case_decide; [done|]. injection Hr as <-.
  injection H as <- <- <-. split_and!; [done|done| |by exists resp]. destruct Hl as [->|Hl]; simpl in *; lia.
Qed.

Lemma web_finish_marks principal id req status s s' :
  web_finish env principal id req status s = (Ok (), s') → marked id (committed s').
Proof.
  intros H. assert (wp (web_finish env principal id req status) (λ r s', r = Ok () → marked id (committed s')) s) as Hwp;
    [|by apply (wp_run _ _ _ _ _ Hwp H)].
  clear H. unfold web_finish, accumulateTaint. sup_steps; try done. intros _.
  destruct (Applications (state s) !! id) as [a|] eqn:Ha; [|done].
  exists (add_taint TaintExternal a). split; [|cbn; rewrite Z.lor_comm; apply submask_lor].
  cbn. unfold update_app. cbn. by rewrite lookup_alter_eq, Ha.
Qed.

Lemma marked_evolves id st st' : SInv st → evolves st st' → marked id st → marked id st'.
Proof.
  intros HI Hev (a & Ha & Hm). destruct (ev_apps _ _ Hev id a Ha) as (a' & Ha' & Hg).
  exists a'. split; [done|]. etrans; [exact Hm|]. apply al_taint.
  apply Hg. apply (ao_limit _ _ (inv_apps _ HI id a Ha)).
Qed.

(** Unless the manifest's mask covers it, the export gate stops a marked application. *)
Lemma marked_blocked id order principal text escalate s r s' :
  marked id (state s) → Z.testbit (ExportMask (policy s)) 0 = false →
  exportApplication env order principal id text false escalate "" s = (r, s') → ∃ e, r = Err e.
Proof.
  intros (a & Ha & Hm) Hmask H. destruct r as [out|e]; [|by exists e]. exfalso.
  destruct (export_released _ _ _ _ _ _ _ _ _ _ _ H) as (_ & _ & a' & Ha' & _ & Hrel).
  rewrite Ha in Ha'. injection Ha' as <-. destruct Hrel as [_ Hb| |]; [|done..].
  apply (f_equal (λ z, Z.testbit z 0)) in Hb. unfold blocked_taint, u64_not in Hb.
  rewrite Z.land_spec, Z.lxor_spec, Hmask, Z.testbit_0_l in Hb.
  rewrite (proj1 (submask_bits _ _) Hm 0%Z) in Hb; done.
Qed.

(** C15: What comes back from the web was granted and is marked.  When a request
    returns content, whatever the rest of the process did while it was in flight, the
    layer, the method and the time were within the capability; the URL and each of at
    most four redirects are at the origin of a granted prefix and at or below its path;
    for every limit below the largest 64-bit integer the body is the whole answer and within
    the limit (at that integer one more byte is a negative count, and nothing is read); and
    from then on, after any further operations, failed commits and restarts, the
    application's committed state carries the external taint, so that an export without a
    confirmation is refused unless the manifest's mask covers that taint. *)
Theorem web_content_marked principal id cap req net meanwhile s result doc s' :
  env_ok env → reachable env kenv s → (∀ s1, rtc (step env kenv) s1 (meanwhile s1)) →
  WebExecute env principal id cap req net meanwhile s = (Ok (result, doc), s') →
  web_granted env s cap req (hops net) ∧
  ((MaxResponseBytes cap < 9223372036854775807)%Z → fetched cap req net result doc) ∧
  ∀ s2, rtc (step env kenv) s' s2 →
    marked id (committed s2) ∧
    (Z.testbit (ExportMask (policy s2)) 0 = false → ∀ order p text escalate r s3,
       exportApplication env order p id text false escalate "" s2 = (r, s3) → ∃ e, r = Err e).
Proof.
  intros Henv Hr Hmean H. unfold WebExecute in H.
  apply bind_inv in H as (limit & s1 & Hb & H). apply web_begin_granted in Hb as (Hl & -> & Hgr).
  apply bind_inv in H as ([] & s2 & [= <-] & H).
  apply bind_inv in H as ([result' body] & s3 & Hf & H).
  apply webFetch_ok in Hf as (-> & Hs & Hh & resp & Ha & -> & Hlen & ->).
  apply bind_inv in H as ([] & s4 & Hfin & H). injection H as <- <- <-.
  split; [by apply Hgr|].
  split.
  { intros Hmax. destruct (limited_whole (limit_of cap) (Body resp)) as [Hw Hle]; [unfold limit_of; case_decide; lia|done|].
    exists resp. cbn. rewrite Hw. split_and!; try done; case_decide; cbn; congruence. }
  assert (Good (committed s4) (store s4) s4) as Hg.
  { assert (Good empty_state empty_store (ticked (meanwhile s1))) as Hg1.
    { apply good_ticked. eapply steps_good; [done|apply Hmean|]. eapply good_local; [by eapply reachable_good|done]. }
    pose proof (wp_run _ _ _ _ _ (safe_web_finish env principal id req _ _ _ _ Hg1) Hfin) as []. by split. }
  intros s5 Hsteps. pose proof (steps_good _ _ _ _ _ _ Henv Hsteps Hg) as Hg5.
  pose proof (web_finish_marks _ _ _ _ _ _ Hfin) as Hm.
  assert (marked id (committed s5)) as Hm5 by (eapply marked_evolves; [apply (g_committed _ _ _ Hg)|apply Hg5|done]).
  split; [done|]. intros Hmask order p text escalate r s6. apply marked_blocked; [|done].
  eapply marked_evolves; [apply Hg5|apply Hg5|done].
Qed.
End web.

(** ** Documents *)

Section documents.

(** A link is the value of an [href] attribute of the text. *)
Definition linked (body l : string) : Prop :=
  has_byte quote l = false ∧ ∃ pre post, body = pre +:+ href +:+ l +:+ String quote post.

Lemma hrefs_linked fuel body l : l ∈ hrefs fuel body → linked body l.
Proof.
  revert body. induction fuel as [|fuel IH]; intros body; cbn [hrefs]; [by intros ?%elem_of_nil|].
  destruct (find_sub href body) as [[pre at_href]|] eqn:Ef; [|by intros ?%elem_of_nil].
  apply find_sub_Some in Ef as (-> & r & ->). rewrite (proj2 (strip_prefix_Some href _ r) eq_refl). cbn [default id].
  destruct (Cut quote r) as [link [after|]] eqn:Ec; [|by intros ?%elem_of_nil].
  apply Cut_Some in Ec as [-> Hq]. intros [->|Hl]%elem_of_cons; [split; [done|]; by exists pre, after|].
  destruct (IH _ Hl) as (Hq' & pre' & post & E). split; [done|].
  exists (pre +:+ href +:+ link +:+ pre'), post. rewrite E, !string_app_assoc. done.
Qed.

Lemma collect_spec links seen : ∀ l,
  l ∈ collect seen links ↔ l ∈ seen ∨ l ∈ links ∧ web_link l = true.
Proof.
  revert seen. induction links as [|x links IH]; intros seen l; simpl; [set_solver|].
  rewrite IH. case_decide as Hd; [set_solver|].
  destruct (decide (x ∈ seen)); [set_solver|]. destruct (web_link x) eqn:Hx; [by destruct Hd|]. set_solver.
Qed.

Lemma collect_NoDup links seen : NoDup seen → NoDup (collect seen links).
Proof.
  revert seen. induction links as [|x links IH]; intros seen Hs; simpl; [done|]. apply IH. case_decide as Hd; [|done].
  apply NoDup_app. split_and!; [done| |apply NoDup_singleton]. set_solver.
Qed.

(** The fuel is enough: every round shortens the text. *)
Lemma hrefs_fuel fuel n body : String.length body < fuel → fuel ≤ n → hrefs n body = hrefs fuel body.
Proof.
  revert n body. induction fuel as [|fuel IH]; intros [|n] body Hb Hn; cbn [hrefs]; try lia.
  destruct (find_sub href body) as [[pre at_href]|] eqn:Ef; [|done].
  apply find_sub_Some in Ef as (-> & r & ->). rewrite (proj2 (strip_prefix_Some href _ r) eq_refl). cbn [default id].
  destruct (Cut quote r) as [link [after|]] eqn:Ec; [|done]. apply Cut_Some in Ec as [-> _].
  f_equal. apply IH; [|lia]. rewrite !string_length_app in Hb. simpl in *. lia.
Qed.

(** No tag is left in the text of a document. *)
Lemma outside_tags_plain s : ∀ inTag, contains_byte (one_of "<>") (outside_tags inTag s) = false.
Proof.
  induction s as [|c s IH]; intros inTag; simpl; [done|]. repeat case_decide; try apply IH. destruct inTag; [apply IH|].
  simpl. rewrite IH, orb_false_r. unfold one_of. simpl. by rewrite !bool_decide_false by congruence.
Qed.

Lemma contains_byte_app P s t : contains_byte P (s +:+ t) = contains_byte P s || contains_byte P t.
Proof. induction s as [|c s IH]; simpl; [done|]. by rewrite IH, orb_assoc. Qed.

Lemma fields_plain P s : ∀ skip word,
  contains_byte P word = false → contains_byte P s = false → Forall (λ w, contains_byte P w = false) (fields_from skip word s).
Proof.
  induction s as [|c s IH]; intros skip word Hw Hs; cbn [fields_from].
  - case_decide; [by apply Forall_nil|by apply Forall_singleton].
  - cbn in Hs. apply orb_false_iff in Hs as [Hc Hs]. destruct skip; [|by apply IH].
    destruct (space_len (String c s)).
    + apply IH; [|done]. rewrite contains_byte_app, Hw. cbn. by rewrite Hc.
    + case_decide; [by apply IH|]. apply Forall_cons. split; [done|]. by apply IH.
Qed.

Lemma concat_plain P sep ws :
  contains_byte P sep = false → Forall (λ w, contains_byte P w = false) ws → contains_byte P (String.concat sep ws) = false.
Proof.
  intros Hsep. induction ws as [|w [|w' ws] IH]; intros Hws; [done|by apply Forall_cons in Hws as []|].
  apply Forall_cons in Hws as [Hw Hws]. change (contains_byte P (w +:+ sep +:+ String.concat sep (w' :: ws)) = false).
  by rewrite !contains_byte_app, Hw, Hsep, IH.
Qed.

Local Instance string_le_total : Total string_le.
Proof. intros a b. unfold string_le. apply String.leb_total. Qed.

(** What the document layer extracts.  The links of an HTML body are sorted and
    distinct, each is an [http] or [https] value of an [href] attribute of the body, none
    of those the scan passes is left out, and no tag is left in the text. *)
Theorem document_exact body :
  Sorted string_le (extractLinks body) ∧ NoDup (extractLinks body) ∧
  (∀ l, l ∈ extractLinks body → linked body l) ∧
  (∀ n l, String.length body < n → l ∈ extractLinks body ↔ l ∈ hrefs n body ∧ web_link l = true) ∧
  contains_byte (one_of "<>") (stripTags body) = false.
Proof.
  assert (∀ l, l ∈ extractLinks body ↔ l ∈ hrefs (S (String.length body)) body ∧ web_link l = true) as Hl.
  { intros l. unfold extractLinks. rewrite merge_sort_Permutation, collect_spec. set_solver. }
  split_and!.
  - apply Sorted_merge_sort, _.
  - unfold extractLinks. rewrite merge_sort_Permutation. apply collect_NoDup, NoDup_nil_2.
  - intros l [Hh _]%Hl. by eapply hrefs_linked.
  - intros n l Hn. rewrite Hl. by rewrite (hrefs_fuel (S (String.length body)) n) by lia.
  - apply concat_plain; [done|]. apply fields_plain; [done|]. apply outside_tags_plain.
Qed.
End documents.

(** ** A sample request *)

Definition web_cap : WebCapability := mkWebCapability "web.document" ["https://docs.example/guide"] ["GET"] 0 0.

Definition web_req : WebRequest := mkWebRequest "web.document" "get" "https://docs.example/guide/start" "".

Definition web_net : Network :=
  mkNetwork None ["https://docs.example/guide/intro"]
    (Ok (mkResponse 200 "<p>read <b>this</b></p>" "text/html" "https://docs.example/guide/intro")) None.

(** A message comes in while the request is in flight. *)
Definition web_meanwhile (s : Supervisor) : Supervisor :=
  snd (exec Sample.env Sample.kenv (OEnqueue "root" Sample.app "k2" "{}") s).

Lemma web_content_marked_witness : ∃ result s',
  WebExecute Sample.env "root" Sample.app web_cap web_req web_net web_meanwhile (Sample.run open_ops) =
    (Ok (result, Some ([], "read this")), s') ∧ marked Sample.app (committed s') ∧
  ∃ e, fst (exportApplication Sample.env [] "root" Sample.app "read this" false false "" s') = Err e.
Proof.
  destruct (ok_run (WebExecute Sample.env "root" Sample.app web_cap web_req web_net web_meanwhile) (Sample.run open_ops))
    as ([result doc] & s' & H); [by vm_compute|].
  destruct (web_content_marked Sample.env Sample.kenv "root" Sample.app web_cap web_req web_net web_meanwhile
    (Sample.run open_ops) result doc s' Sample.env_ok open_reachable) as (_ & Hf & Hm); [|exact H|].
  - intros s1. apply rtc_once. by apply step_op.
  - specialize (Hf eq_refl). destruct (Hm s' (rtc_refl _ _)) as [Hmark Hexp]. exists result, s'. split_and!; [|done|].
    + rewrite H. repeat f_equal. destruct Hf as (resp & Ha & _ & _ & _ & _ & _ & _ & ->).
      injection Ha as <-. vm_compute. reflexivity.
    + assert (policy s' = Sample.caps) as Hp.
      { apply (f_equal (λ x, policy (snd x))) in H. cbn [snd] in H. rewrite <-H. vm_compute. reflexivity. }
      destruct (exportApplication Sample.env [] "root" Sample.app "read this" false false "" s') as [r s3] eqn:He.
      apply (Hexp ltac:(rewrite Hp; reflexivity) _ _ _ _ _ _ He).
Defined.

(** ** Where the check is wider or narrower than its prefix *)

(** Dot segments are not removed: the path of an admitted URL may lead out of the prefix. *)
Example dot_segments_admitted :
  webPrefixAllowed ["https://docs.example/guide"] "https://docs.example/guide/../admin" = true.
Proof. vm_compute. reflexivity. Qed.

(** A prefix that ends in a slash admits itself and nothing below it. *)
Example slash_prefix_refuses :
  webPrefixAllowed ["https://docs.example/guide/"] "https://docs.example/guide/" = true ∧
  webPrefixAllowed ["https://docs.example/guide/"] "https://docs.example/guide/start" = false.
Proof. vm_compute. done. Qed.

(** The largest limit wraps around when one is added, and the body is read as empty. *)
Example largest_limit_reads_nothing :
  match fst (WebExecute Sample.env "root" Sample.app {| web_cap with MaxResponseBytes := 9223372036854775807 |} web_req
               web_net id (Sample.run open_ops)) with
  | Ok (result, doc) => res_Status result = 200%Z ∧ res_Bytes result = 0%Z ∧ doc = Some ([], "")
  | Err _ => False
  end.
Proof. vm_compute. done. Qed.

(** Names are compared after the user information: the tricks of a longer host are refused. *)
Example host_boundary :
  let allowed := webPrefixAllowed ["https://docs.example"] in
  allowed "https://docs.example@evil.test/" = false ∧ allowed "https://docs.example.evil.test/" = false ∧
  allowed "http://docs.example/" = false ∧ allowed "https://docs.example:8443/" = false ∧
  allowed "https://docs.example/any?q=1" = true.
Proof. vm_compute. done. Qed.
