(* ===== verification/MailProperties.v ===== *)
(** * Messages: idempotent delivery, the gateway, replies *)

From Stdlib Require Import Ascii.
From stdpp Require Import base tactics option list gmap sets strings numbers pretty sorting relations.
From S2P Require Import Prelude Monad GoLib Json Crypto Ledger Policy ContextStore State Taint Mailbox.
From S2P Require Import Lifecycle Revocation Runner Gateway Hostfs Wake Invariant Safety MailboxProofs GatewayProofs.
From S2P Require Import System Durability SystemProperties.

(** ** Delivered messages *)

(** The mailbox has this message under this key. *)
Definition delivered (st : supervisorState) (id key mid payload : string) : Prop :=
  ∃ m, m ∈ messages_of st id ∧ Msg.IdempotencyKey m = key ∧ Msg.MessageID m = mid ∧ Msg.Payload m = payload.

Lemma elem_of_messages st id m : m ∈ messages_of st id → ∃ ms, Mailbox st !! id = Some ms ∧ m ∈ ms.
Proof. unfold messages_of. destruct (Mailbox st !! id); [eauto|]. by intros ?%elem_of_nil. Qed.

Lemma messages_le_delivered ms ms' m :
  messages_le ms ms' → m ∈ ms → ∃ m', m' ∈ ms' ∧ Msg.IdempotencyKey m' = Msg.IdempotencyKey m ∧
    Msg.MessageID m' = Msg.MessageID m ∧ Msg.Payload m' = Msg.Payload m.
Proof.
  intros (ms1 & ms2 & -> & Hle) Hm. apply list_elem_of_lookup in Hm as [i Hi].
  destruct (Forall2_lookup_l _ _ _ _ _ Hle Hi) as (m' & Hm' & []).
  exists m'. split; [apply elem_of_app; left; by eapply list_elem_of_lookup_2|]. done.
Qed.

Lemma delivered_evolves st st' id key mid payload :
  evolves st st' → delivered st id key mid payload → delivered st' id key mid payload.
Proof.
  intros Hev (m & Hm & Hk & Hi & Hp). apply elem_of_messages in Hm as (ms & Hms & Hm).
  destruct (ev_mail _ _ Hev id ms Hms) as (ms' & Hms' & Hle).
  destruct (messages_le_delivered _ _ _ Hle Hm) as (m' & Hm' & Hk' & Hi' & Hp').
  exists m'. unfold messages_of. rewrite Hms'. cbn. split_and!; congruence.
Qed.

(** A key names one message. *)
Lemma delivered_unique st id key mid payload m :
  mail_ok (Mailbox st) → delivered st id key mid payload →
  find_first (has_key key) (messages_of st id) = Some m → Msg.MessageID m = mid ∧ Msg.Payload m = payload.
Proof.
  intros [Hb _ _] (m' & Hm' & Hk & Hi & Hp) [Hm Hk2]%find_first_Some. apply bool_decide_eq_true in Hk2.
  apply elem_of_messages in Hm' as (ms & Hms & Hm'). unfold messages_of in Hm. rewrite Hms in Hm. cbn in Hm.
  destruct (Hb id ms Hms) as [Hnd _ _ _].
  assert (m = m') as ->; [|done].
  apply list_elem_of_lookup in Hm as [i Hi1]. apply list_elem_of_lookup in Hm' as [j Hj].
  assert (i = j) as ->; [|by simplify_eq].
  apply (NoDup_lookup _ _ _ key Hnd); rewrite list_lookup_fmap; [by rewrite Hi1, <-Hk2|by rewrite Hj, <-Hk].
Qed.

Lemma delivered_found st id key mid payload :
  delivered st id key mid payload → find_first (has_key key) (messages_of st id) ≠ None.
Proof.
  intros (m & Hm & Hk & _) Hn. rewrite find_first_None in Hn. specialize (Hn m Hm).
  unfold has_key in Hn. rewrite bool_decide_true in Hn by done. done.
Qed.

Section mail.
Context (env : Env).

Lemma delivery_delivered principal id key payload s m s' :
  delivery env principal id key payload s (Ok m) s' →
  delivered (state s') id key (Msg.MessageID m) (json_compact payload).
Proof.
  inversion 1; subst.
  - match goal with H : find_first _ _ = Some _ |- _ => apply find_first_Some in H as [Hm Hk%bool_decide_eq_true] end.
    by exists m.
  - exists (new_message env s key payload). split_and!; try done.
    unfold messages_of. cbn. rewrite lookup_insert_eq. cbn. apply elem_of_app. right. by left.
Qed.

(** Delivering again finds the first message or refuses. *)
Lemma delivery_again principal id key payload s r s' mid payload0 :
  mail_ok (Mailbox (state s)) → delivered (state s) id key mid payload0 →
  delivery env principal id key payload s r s' →
  s' = s ∧ ∀ m, r = Ok m → Msg.MessageID m = mid ∧ json_compact payload = payload0.
Proof.
  intros Hok Hd. destruct 1 as [e|a m Ha Hr _ _ Hf Hp|a Ha Hr Hv Hk1 Hk2 Hl Hf]; [done| |].
  - split; [done|]. intros m' [= <-]. destruct (delivered_unique _ _ _ _ _ _ Hok Hd Hf) as [Hi Hp']. by rewrite <-Hp.
  - by destruct (delivered_found _ _ _ _ _ Hd).
Qed.

Lemma Enqueue_delivered principal id key payload s m s' :
  Enqueue env principal id key payload s = (Ok m, s') → delivered (state s') id key (Msg.MessageID m) (json_compact payload).
Proof.
  intros H. assert (wp (Enqueue env principal id key payload) (λ r s', ∀ m, r = Ok m →
    delivered (state s') id key (Msg.MessageID m) (json_compact payload)) s) as Hwp; [|by apply (wp_run _ _ _ _ _ Hwp H)].
  clear H. unfold Enqueue. sup_steps; try done. eapply wp_mono; [apply enqueue_delivery|].
  intros [m1|e] s1 Hd; [|done]. pose proof (delivery_delivered _ _ _ _ _ _ _ Hd). sup_steps; [| |done]; intros ? [= <-]; done.
Qed.

Lemma Enqueue_again principal id key payload s r s' mid payload0 :
  mail_ok (Mailbox (state s)) → delivered (state s) id key mid payload0 →
  Enqueue env principal id key payload s = (r, s') →
  s' = s ∧ ∀ m, r = Ok m → Msg.MessageID m = mid ∧ json_compact payload = payload0.
Proof.
  intros Hok Hd H. assert (wp (Enqueue env principal id key payload) (λ r s', s' = s ∧ ∀ m, r = Ok m →
    Msg.MessageID m = mid ∧ json_compact payload = payload0) s) as Hwp; [|by apply (wp_run _ _ _ _ _ Hwp H)].
  clear H. unfold Enqueue. sup_steps; try done. eapply wp_mono; [apply enqueue_delivery|].
  intros r1 s1 Hd1. destruct (delivery_again _ _ _ _ _ _ _ _ _ Hok Hd Hd1) as [-> Hm].
  destruct r1 as [m1|e]; [|done]. destruct (Hm m1 eq_refl) as [Hi Hp]. sup_steps; naive_solver.
Qed.
End mail.

(** ** The gateway *)

Section gateway.
Context (env : Env).

(** The conversation's cursor is at or past this sequence number, and the mailbox it
    is bound to has the message of that number. *)
Definition routed (st : supervisorState) (ch ext : string) (seq : Z) (mid payload : string) : Prop :=
  ∃ c, Conversations st !! conversationKey ch ext = Some c ∧ Conv.ChannelID c = ch ∧ Conv.ExternalID c = ext ∧
    (seq ≤ Conv.LastSequence c)%Z ∧ delivered st (Conv.ApplicationID c) (gateway_key ch ext seq) mid payload.

Lemma routed_evolves st st' ch ext seq mid payload :
  evolves st st' → routed st ch ext seq mid payload → routed st' ch ext seq mid payload.
Proof.
  intros Hev (c & Hc & Hch & Hext & Hseq & Hd). destruct (ev_convs _ _ Hev _ _ Hc) as (c' & Hc' & []).
  exists c'. split_and!; try congruence; try lia. rewrite cl_app. by eapply delivered_evolves.
Qed.

Lemma DeliverInbound_routed ch ext seq payload s m s' :
  DeliverInbound env ch ext seq payload s = (Ok m, s') → ∃ p, routed (state s') ch ext seq (Msg.MessageID m) p.
Proof.
  intros H. assert (wp (DeliverInbound env ch ext seq payload) (λ r s', ∀ m, r = Ok m →
    ∃ p, routed (state s') ch ext seq (Msg.MessageID m) p) s) as Hwp; [|by apply (wp_run _ _ _ _ _ Hwp H)].
  clear H. unfold DeliverInbound. sup_steps; try done.
  all: match goal with H : conversationLocked _ _ _ = Some _ |- _ =>
         apply conversationLocked_Some in H as (Hc & Hch & Hext) end.
  - intros m0 [= <-]. match goal with H : find_first _ _ = Some _ |- _ =>
      apply find_first_Some in H as [Hm Hk%bool_decide_eq_true] end.
    eexists. exists a. split_and!; try done. eexists. by split_and!.
  - eapply wp_mono; [apply enqueue_delivery|]. intros [m1|e] s1 Hd; [|done].
    pose proof (delivery_delivered _ _ _ _ _ _ _ _ Hd) as Hdel. unfold sourceOf. sup_steps; [|done].
    intros m0 [= <-]. eexists. eexists. split; [cbn; apply lookup_insert_eq|]. split_and!; try done.
Qed.

Lemma DeliverInbound_again ch ext seq payload s mid p r s' :
  mail_ok (Mailbox (state s)) → routed (state s) ch ext seq mid p →
  DeliverInbound env ch ext seq payload s = (r, s') → s' = s ∧ ∀ m, r = Ok m → Msg.MessageID m = mid.
Proof.
  intros Hok (c & Hc & Hch & Hext & Hseq & Hd) H.
  assert (wp (DeliverInbound env ch ext seq payload) (λ r s', s' = s ∧ ∀ m, r = Ok m → Msg.MessageID m = mid) s) as Hwp;
    [|by apply (wp_run _ _ _ _ _ Hwp H)].
  clear H. unfold DeliverInbound. sup_steps; try done.
  all: match goal with H : conversationLocked _ _ _ = Some ?c' |- _ =>
         apply conversationLocked_Some in H as (Hc' & _); assert (c' = c) as -> by congruence end.
  - split; [done|]. intros m0 [= <-]. by eapply delivered_unique.
  - lia.
Qed.

(** ** Replies *)

(** When a reply is accepted: the message has a conversation on record as its source,
    and that is bound to the replying application over an active channel, and only from a serving
    application without unmasked taint. *)
Record may_reply (s : Supervisor) (id mid key : string) (result : TurnResult) : Prop := {
  mr_result : Results (state s) !! mid = Some result;
  mr_owner : Turn.ApplicationID result = id;
  mr_source : sourced s !! mid = Some key;
  mr_bound : ∃ c, Conversations (state s) !! key = Some c ∧ key = conversationKeyFor c ∧ Conv.ApplicationID c = id ∧
    Chan.State <$> Channels (state s) !! Conv.ChannelID c = Some active;
  mr_clean : ∃ a, Applications (state s) !! id = Some a ∧ App.State a = serving ∧ blocked_taint a (policy s) = 0%Z;
}.

(** The entry of this reply in an outbox. *)
Definition reply_entry (out : list OutboxEntry) (mid : string) : option OutboxEntry :=
  find_first (has_out_key ("reply:" +:+ mid)) out.

Lemma Reply_allowed principal id mid s e s' :
  Reply env principal id mid s = (Ok e, s') →
  ∃ key result, may_reply s id mid key result ∧
    (reply_entry (Outbox (state s)) mid = Some e ∧ Outbox (state s') = Outbox (state s) ∨
     reply_entry (Outbox (state s)) mid = None ∧ Out.ConversationID e = key ∧ Out.IdempotencyKey e = "reply:" +:+ mid ∧
       Out.Payload e = reply_json result ∧ Out.Status e = out_pending ∧ Outbox (state s') = bound_outbox (Outbox (state s) ++ [e])) ∧
    committed s' = durable (state s').
Proof.
  intros H. assert (wp (Reply env principal id mid) (λ r s', ∀ e, r = Ok e →
    ∃ key result, may_reply s id mid key result ∧
    (reply_entry (Outbox (state s)) mid = Some e ∧ Outbox (state s') = Outbox (state s) ∨
     reply_entry (Outbox (state s)) mid = None ∧ Out.ConversationID e = key ∧ Out.IdempotencyKey e = "reply:" +:+ mid ∧
       Out.Payload e = reply_json result ∧ Out.Status e = out_pending ∧ Outbox (state s') = bound_outbox (Outbox (state s) ++ [e])) ∧
    committed s' = durable (state s')) s) as Hwp; [|by apply (wp_run _ _ _ _ _ Hwp H)].
  clear H. unfold Reply, deny_reply, enqueueOutboxLocked. sup_steps; try done; intros ? [= <-].
  all: repeat match goal with H : ¬ (_ ∨ _) |- _ => apply Decidable.not_or in H as [? ?] end.
  all: repeat match goal with
       | H : ¬ (_ ≠ _) |- _ => apply dec_stable in H
       | H : active_channel _ _ ≠ false |- _ => apply not_false_iff_true, bool_decide_eq_true in H
       end.
  all: eexists _, _; split; [split; eauto 10|]; split; [|done].
  - left. by split.
  - right. by split_and!.
Qed.
End gateway.

(** ** Theorems *)

Section theorems.
Context (env : Env) (kenv : KernelEnv) {E : Ed25519} (Henv : env_ok env).
Implicit Types s : Supervisor.

(** What was delivered or routed when an operation ended is so ever after. *)
Lemma delivered_later s1 s2 id key mid payload :
  reachable env kenv s1 → rtc (step env kenv) s1 s2 →
  delivered (state s1) id key mid payload → delivered (state s2) id key mid payload.
Proof using Henv.
  intros Hr Hs Hd. destruct (later_good env kenv s1 s2 Henv Hr Hs) as [_ Hfrom _ Hahead _ _ _].
  destruct (reachable_books env kenv s1 Henv Hr) as (_ & Hm & _).
  eapply delivered_evolves; [exact Hahead|]. eapply delivered_evolves; [exact Hfrom|].
  unfold delivered, messages_of in *. by rewrite <-Hm.
Qed.

Lemma routed_later s1 s2 ch ext seq mid payload :
  reachable env kenv s1 → rtc (step env kenv) s1 s2 →
  routed (state s1) ch ext seq mid payload → routed (state s2) ch ext seq mid payload.
Proof using Henv.
  intros Hr Hs Hd. destruct (later_good env kenv s1 s2 Henv Hr Hs) as [_ Hfrom _ Hahead _ _ _].
  destruct (reachable_books env kenv s1 Henv Hr) as (_ & Hm & _ & _ & _ & _ & _ & _ & Hc & _).
  eapply routed_evolves; [exact Hahead|]. eapply routed_evolves; [exact Hfrom|].
  unfold routed, delivered, messages_of in *. by rewrite <-Hm, <-Hc.
Qed.

Lemma reachable_exec s o s1 r :
  reachable env kenv s → admissible env s o → exec env kenv o s = (r, s1) → reachable env kenv s1.
Proof using.
  intros Hr Ho H. eapply reachable_steps; [done|]. apply rtc_once.
  replace s1 with (snd (exec env kenv o s)) by by rewrite H. by apply step_op.
Qed.

Lemma reachable_mail s : reachable env kenv s → mail_ok (Mailbox (state s)).
Proof using Henv. intros Hr. exact (inv_mail _ (g_state _ _ _ (reachable_good env kenv s Henv Hr))). Qed.


(** C29: Inbound messages are routed exactly once.  When the gateway accepted a
    sequence number of a conversation, every redelivery of that number, after any
    further operations and restarts and with whatever payload and outcome, changes
    nothing at all of the supervisor; and when it is accepted it reports the same
    message. *)
Theorem inbound_exactly_once ch ext seq payload s m s1 s2 payload2 r s3 :
  reachable env kenv s → DeliverInbound env ch ext seq payload s = (Ok m, s1) → rtc (step env kenv) s1 s2 →
  DeliverInbound env ch ext seq payload2 s2 = (r, s3) → s3 = s2 ∧ ∀ m2, r = Ok m2 → Msg.MessageID m2 = Msg.MessageID m.
Proof using Henv.
  intros Hr H Hs H2. destruct (DeliverInbound_routed env _ _ _ _ _ _ _ H) as [p Hd].
  assert (reachable env kenv s1) as Hr1.
  { eapply (reachable_exec s (ODeliver ch ext seq payload)); [done|done|].
    cbn. unfold ignore, mbind, M_bind. by rewrite H. }
  eapply DeliverInbound_again; [|by eapply routed_later|exact H2]. apply reachable_mail. by eapply reachable_steps.
Qed.

(** C30: Only results leave, and only to the application's own conversations.  In every
    reachable supervisor, in memory and committed, every entry of the outbox, whatever
    happened since it was queued, carries the reply of a recorded turn result, under the
    key of that result's message, to a conversation that is bound to the application whose
    turn it was, and no two entries are for the same message.  A reply is accepted only
    for a result of the replying application while a conversation on record as the source
    of the message is bound to it over an active channel and it serves without unmasked
    taint; the entry returned is that of this result, the one queued before or a new
    pending one to that conversation; and it is committed. *)
Theorem reply_confined s :
  reachable env kenv s →
  outbox_ok (Results (state s)) (Conversations (state s)) (Outbox (state s)) ∧
  outbox_ok (Results (committed s)) (Conversations (committed s)) (Outbox (committed s)) ∧
  ∀ principal id mid e s', Reply env principal id mid s = (Ok e, s') →
    ∃ key result, may_reply s id mid key result ∧ Out.IdempotencyKey e = "reply:" +:+ mid ∧
      json_compact (Out.Payload e) = json_compact (reply_json result) ∧
      (∃ c, Conversations (state s) !! Out.ConversationID e = Some c ∧ Conv.ApplicationID c = id) ∧
      (reply_entry (Outbox (state s)) mid = Some e ∧ Outbox (state s') = Outbox (state s) ∨
       reply_entry (Outbox (state s)) mid = None ∧ Out.ConversationID e = key ∧ Out.Status e = out_pending ∧
         Outbox (state s') = bound_outbox (Outbox (state s) ++ [e])) ∧
      committed s' = durable (state s').
Proof using Henv.
  intros Hr. pose proof (reachable_good env kenv s Henv Hr) as Hg. pose proof (inv_outbox _ (g_state _ _ _ Hg)) as Hok.
  split_and!; [done|apply (inv_outbox _ (g_committed _ _ _ Hg))|]. intros principal id mid e s' H.
  destruct (Reply_allowed env _ _ _ _ _ _ H) as (key & result & Hm & Hcase & Hc). exists key, result. split; [done|].
  destruct Hcase as [[He Ho]|(He & Hk & Hi & Hp & Hs & Ho)].
  - pose proof He as [Hin Hi%bool_decide_eq_true]%find_first_Some. destruct Hok as [Hall _]. rewrite Forall_forall in Hall.
    destruct (Hall e Hin) as (mid' & r & c & Hi' & Hres & Hp & Hconv & Happ). rewrite Hi in Hi'. apply (inj (String.append "reply:")) in Hi' as <-.
    destruct Hm as [Hres' Hown _ _ _]. assert (r = result) as -> by congruence. split_and!; [done|done| |by left|done].
    exists c. split; [done|congruence].
  - destruct (mr_bound _ _ _ _ _ Hm) as (c & Hc' & _ & Happ & _). split_and!; [done|by rewrite Hp|exists c; by rewrite Hk|by right|done].
Qed.

(** An identity can be bound and yet receive nothing.  When the channel and the
    external identity have together 252 bytes or more, no new inbound message of
    that conversation is ever accepted, because its idempotency key is too long for
    the mailbox. *)
Theorem long_identity_undeliverable ch ext seq payload s c :
  conversationLocked (state s) ch ext = Some c → (Conv.LastSequence c < seq)%Z → (252 ≤ len ch + len ext)%Z →
  ∃ e s', DeliverInbound env ch ext seq payload s = (Err e, s').
Proof using.
  intros Hc Hseq Hlen. assert (256 < len (gateway_key ch ext seq))%Z as Hk.
  { unfold gateway_key. rewrite !len_app. pose proof (len_nonneg (pretty seq)).
    change (len "gw:") with 3%Z. change (len ":") with 1%Z. lia. }
  assert (wp (DeliverInbound env ch ext seq payload) (λ r _, ∃ e, r = Err e) s) as Hwp.
  { unfold DeliverInbound. sup_steps; eauto; simplify_eq; try lia.
    eapply wp_mono; [apply enqueue_delivery|]. intros r s1 Hd. destruct Hd; eauto; lia. }
  unfold wp in Hwp. destruct (DeliverInbound env ch ext seq payload s) as [r s']. destruct Hwp as [e ->]. eauto.
Qed.
End theorems.

(** ** The theorems at sample runs *)


Lemma inbound_exactly_once_witness : ∃ m r s1 s3,
  DeliverInbound Sample.env "tg" "42" 1 "{}" (Sample.run chat_ops) = (Ok m, s1) ∧
  DeliverInbound Sample.env "tg" "42" 1 "[]" s1 = (r, s3) ∧ s3 = s1 ∧ ∀ m2, r = Ok m2 → Msg.MessageID m2 = Msg.MessageID m.
Proof.
  destruct (ok_run (DeliverInbound Sample.env "tg" "42" 1 "{}") (Sample.run chat_ops)) as (m & s1 & H); [by vm_compute|].
  destruct (DeliverInbound Sample.env "tg" "42" 1 "[]" s1) as [r s3] eqn:H2.
  exact (ex_intro _ m (ex_intro _ r (ex_intro _ s1 (ex_intro _ s3 (conj H (conj H2
    (inbound_exactly_once Sample.env Sample.kenv Sample.env_ok _ _ _ _ _ _ _ _ _ _ _ chat_reachable H (rtc_refl _ _) H2))))))).
Defined.

(** The manifest lets external data out again. *)
Definition open_mask : CapabilitySet := mkCapabilitySet "echo" 64 1 ["/data"] [] false ["search"] TaintExternal.
Definition open_start : Supervisor := snd (load Sample.env [] [] empty_state (first_start open_mask 0)).
Definition replying : Supervisor := fold_left (λ s o, snd (exec Sample.env Sample.kenv o s)) (take 5 reply_ops) open_start.

Lemma replying_reachable : reachable Sample.env Sample.kenv replying.
Proof. exists open_mask, 0, [], [], open_start. split; [reflexivity|]. apply run_steps. by repeat split. Qed.

Lemma reply_confined_witness : ∃ e s' key result,
  Reply Sample.env "root" Sample.app "msg-4" replying = (Ok e, s') ∧ may_reply replying Sample.app "msg-4" key result ∧
  Out.IdempotencyKey e = "reply:msg-4".
Proof.
  destruct (ok_run (Reply Sample.env "root" Sample.app "msg-4") replying) as (e & s' & H); [by vm_compute|].
  destruct (reply_confined Sample.env Sample.kenv Sample.env_ok _ replying_reachable) as (_ & _ & Hreply).
  destruct (Hreply _ _ _ _ _ H) as (key & result & Hm & Hi & _).
  exact (ex_intro _ e (ex_intro _ s' (ex_intro _ key (ex_intro _ result (conj H (conj Hm Hi)))))).
Defined.

(** A message that a client enqueued, with a payload that reads like the gateway's, has a
    source once the map is rebuilt, though no channel delivered it. *)
Definition forged : string :=
  obj_literal [("source", json_quote "gateway"); ("channel", json_quote "tg"); ("external_id", json_quote "42")].

Example forged_envelope_sourced :
  let s := Sample.run (chat_ops ++ [OEnqueue "root" Sample.app "k1" forged]) in
  sourced s = ∅ ∧ sourced (snd (load Sample.env [] [] (committed s) (reopened Sample.caps s))) = {["msg-4" := "tg:42"]}.
Proof. vm_compute. done. Qed.

(** An identity of 252 bytes. *)
Definition long_id : string := String.concat "" (replicate 252 "x").
Definition long_ops : list op :=
  [OCreate "root" "alice" "on_event"; OCreateChannel "root" "tg" "telegram"; OBind "root" "tg" long_id Sample.app].

Lemma long_identity_witness : ∃ e s',
  DeliverInbound Sample.env "tg" long_id 1 "{}" (Sample.run long_ops) = (Err e, s').
Proof.
  destruct (some_of (conversationLocked (state (Sample.run long_ops)) "tg" long_id)) as [c Hc]; [by vm_compute|].
  assert (Conv.LastSequence <$> conversationLocked (state (Sample.run long_ops)) "tg" long_id = Some 0%Z) as H0 by (by vm_compute).
  refine (long_identity_undeliverable Sample.env "tg" long_id 1 "{}" (Sample.run long_ops) c Hc _ _).
  - rewrite Hc in H0. injection H0 as ->. lia.
  - by vm_compute.
Defined.
