(* ===== verification/AuditProperties.v ===== *)
(** * The audit log as evidence, and recovery

    Two logs that verify and meet at one hash are the same log; a co-signed
    checkpoint therefore pins the history before it.  Recovery refuses a log that
    does not verify and hands unacknowledged work out again. *)

From Stdlib Require Import Ascii.
From stdpp Require Import base tactics option list gmap sets strings numbers pretty sorting relations.
From S2P Require Import Prelude Monad GoLib Json Crypto Ledger Policy ContextStore State Taint Mailbox.
From S2P Require Import Lifecycle Revocation Witness Runner Gateway Hostfs Wake Invariant Safety System.
From S2P Require Import Durability SystemProperties.

(** ** The encoding of a record ends with the previous hash *)

Lemma string_app_inv_tail (a b x y : string) :
  String.length x = String.length y → a +:+ x = b +:+ y → a = b ∧ x = y.
Proof.
  intros Hl H. assert (String.length a = String.length b) as Hab.
  { apply (f_equal String.length) in H. rewrite !string_length_app in H. lia. }
  clear Hl. revert b Hab H. induction a as [|c a IH]; intros [|c' b] Hab H; try done.
  rewrite !string_app_cons in H. injection H as -> H. destruct (IH b) as [-> ->]; try done. by injection Hab.
Qed.

Lemma join_comma_snoc l x : l ≠ [] → join_comma (l ++ [x]) = join_comma l +:+ "," +:+ x.
Proof.
  induction l as [|y l IH]; [done|]. intros _. destruct l as [|z l]; [done|].
  change ((y :: z :: l) ++ [x]) with (y :: ((z :: l) ++ [x])). rewrite join_comma_cons by done.
  rewrite IH by done. rewrite (join_comma_cons y (z :: l)) by done. by rewrite <-!string_app_assoc.
Qed.

(** What follows the hash of the previous record in the encoding. *)
Definition record_end : string := "," +:+ json_quote "hash" +:+ ":" +:+ json_quote "" +:+ "}".

Lemma audit_json_end r : ∃ front, audit_json r = front +:+ json_quote (Aud.PreviousHash r) +:+ record_end.
Proof.
  unfold audit_json, obj_literal.
  match goal with |- context [(?a ++ ?b ++ ?c ++ ?d ++ ?e)%list] => set (fs := (a ++ b ++ c ++ d)%list);
    replace (a ++ b ++ c ++ d ++ e)%list with ((fs ++ [("previous_hash", json_quote (Aud.PreviousHash r))]) ++ [("hash", json_quote "")])%list
  end.
  2:{ unfold fs. by rewrite <-!app_assoc. }
  assert (fs ≠ []) as Hne by done. clearbody fs. rewrite !fmap_app. cbn [fmap list_fmap fst snd].
  rewrite join_comma_snoc by (by destruct fs). rewrite join_comma_snoc by (by destruct fs).
  exists ("{" +:+ join_comma ((λ kv, json_quote (fst kv) +:+ ":" +:+ snd kv) <$> fs) +:+ "," +:+
    json_quote "previous_hash" +:+ ":").
  unfold record_end. by rewrite <-!string_app_assoc.
Qed.

Lemma auditHash_text r : plain (auditHash r) = true ∧ String.length (auditHash r) = 64.
Proof. split; [apply contextHash_plain|apply sha256_hex_length]. Qed.

Lemma plain_quote_length h : plain h = true → String.length (json_quote h) = S (S (String.length h)).
Proof. intros H. rewrite json_quote_plain by done. cbn. rewrite string_length_app. cbn. lia. Qed.

Lemma audit_json_previous r r' :
  audit_json r = audit_json r' → plain (Aud.PreviousHash r) = true → plain (Aud.PreviousHash r') = true →
  String.length (Aud.PreviousHash r) = String.length (Aud.PreviousHash r') → Aud.PreviousHash r = Aud.PreviousHash r'.
Proof.
  intros H Hp Hp' Hl. destruct (audit_json_end r) as [f Hf], (audit_json_end r') as [f' Hf']. rewrite Hf, Hf' in H.
  rewrite !string_app_assoc in H. apply string_app_inv_tail in H as [H _]; [|done].
  apply string_app_inv_tail in H as [_ H]; [|rewrite !plain_quote_length by done; congruence].
  rewrite !json_quote_plain in H by done. injection H as H. by apply string_app_inv_tail in H as [-> _].
Qed.

(** ** Logs that meet at a hash *)

(** Two different records of the logs, at the same place, with one hash. *)
Definition collision (l1 l2 : list AuditRecord) : Prop :=
  ∃ i r1 r2, l1 !! i = Some r1 ∧ l2 !! i = Some r2 ∧ audit_json r1 ≠ audit_json r2 ∧
    sha256_hex (audit_json r1) = sha256_hex (audit_json r2).

Lemma verify_snoc l r :
  verify_from "" 0 (l ++ [r]) = true →
  verify_from "" 0 l = true ∧ Aud.PreviousHash r = last_hash l ∧ Aud.Hash r = auditHash r.
Proof.
  rewrite verify_from_snoc, andb_true_iff. intros [Hl Hr]. split; [done|].
  assert (default "" (Aud.Hash <$> last l) = last_hash l) as E by (unfold last_hash; by destruct (last l)).
  rewrite E in Hr. cbn [verify_from] in Hr. by repeat case_decide.
Qed.

Lemma last_hash_text l :
  verify_from "" 0 l = true →
  (l = [] ∧ last_hash l = "") ∨ (l ≠ [] ∧ plain (last_hash l) = true ∧ String.length (last_hash l) = 64).
Proof.
  destruct l as [|r l _] using rev_ind; [by left|]. intros (_ & _ & Hh)%verify_snoc. right.
  split; [by destruct l|]. rewrite last_hash_snoc, Hh. apply auditHash_text.
Qed.

Lemma chains_agree l1 : ∀ l2,
  verify_from "" 0 l1 = true → verify_from "" 0 l2 = true → length l1 = length l2 → last_hash l1 = last_hash l2 →
  audit_json <$> l1 = audit_json <$> l2 ∨ collision l1 l2.
Proof.
  induction l1 as [|r1 l1 IH] using rev_ind; intros l2 H1 H2 Hlen Hlast.
  { destruct l2; [by left|done]. }
  destruct l2 as [|r2 l2 _] using rev_ind; [rewrite length_app in Hlen; cbn in Hlen; lia|].
  assert (length l1 = length l2) as Hl by (rewrite !length_app in Hlen; cbn in Hlen; lia).
  apply verify_snoc in H1 as (Hv1 & Hp1 & Hh1). apply verify_snoc in H2 as (Hv2 & Hp2 & Hh2).
  rewrite !last_hash_snoc, Hh1, Hh2 in Hlast.
  destruct (decide (audit_json r1 = audit_json r2)) as [Hj|Hj].
  2:{ right. exists (length l1), r1, r2. rewrite lookup_app_r, Nat.sub_diag by done.
      rewrite lookup_app_r, Hl, Nat.sub_diag by lia. by split_and!. }
  assert (Aud.PreviousHash r1 = Aud.PreviousHash r2) as Hp.
  { destruct (last_hash_text l1 Hv1) as [[-> E1]|(N1 & P1 & L1)], (last_hash_text l2 Hv2) as [[-> E2]|(N2 & P2 & L2)].
    - congruence.
    - by destruct l2.
    - by destruct l1.
    - apply audit_json_previous; rewrite ?Hp1, ?Hp2; [done..|congruence]. }
  destruct (IH l2 Hv1 Hv2 Hl) as [E|(i & x & y & Hx & Hy & Hne & Hs)]; [congruence| |].
  - left. rewrite !fmap_app, E. csimpl. by rewrite Hj.
  - right. exists i, x, y. split_and!; [by apply lookup_app_l_Some..|done|done].
Qed.

Lemma verify_app l k : ∀ p n, verify_from p n (l ++ k) = true → verify_from p n l = true.
Proof.
  induction l as [|r l IH]; intros p n; [done|]. cbn [app verify_from]. repeat case_decide; try done. apply IH.
Qed.

Lemma anchored_take l cp :
  anchored l cp → Aud.Hash <$> last (take (Z.to_nat (Wit.Count cp)) l) = Some (Wit.HeadHash cp) ∧
    length (take (Z.to_nat (Wit.Count cp)) l) = Z.to_nat (Wit.Count cp).
Proof.
  intros [H1 (r & Hr & Hh)%fmap_Some]. pose proof (lookup_lt_Some _ _ _ Hr) as Hlt.
  replace (Z.to_nat (Wit.Count cp)) with (S (Z.to_nat (Wit.Count cp - 1))) by lia.
  rewrite (take_S_r _ _ _ Hr), last_snoc, length_app, length_take. cbn. split; [by rewrite Hh|]. lia.
Qed.

(** ** Recovery *)

(** An application as recovery leaves it. *)
Definition renew (a : Application) : Application :=
  if decide (App.State a = tombstoned) then a else next_generation a.

Section recovery.
Context (env : Env).

Definition renewed (ids : list string) (apps apps' : gmap string Application) : Prop :=
  (∀ id, id ∈ ids → apps' !! id = renew <$> apps !! id) ∧ (∀ id, id ∉ ids → apps' !! id = apps !! id).

Lemma renewed_cons id ids apps apps1 apps' :
  id ∉ ids → apps1 !! id = renew <$> apps !! id → (∀ id', id' ≠ id → apps1 !! id' = apps !! id') →
  renewed ids apps1 apps' → renewed (id :: ids) apps apps'.
Proof.
  intros Hid H1 H2 [Hin Hout]. split.
  - intros id' [->|Hi]%elem_of_cons; [by rewrite Hout|]. rewrite Hin by done. by rewrite H2 by (by intros ->).
  - intros id' Hi. apply not_elem_of_cons in Hi as [Hne Hi]. rewrite Hout by done. by apply H2.
Qed.

Lemma recover_run ids : NoDup ids → ∀ s,
  wp (recover_applications env ids) (λ r s', r = Ok () → Mailbox (state s') = Mailbox (state s) ∧
    renewed ids (Applications (state s)) (Applications (state s'))) s.
Proof.
  induction 1 as [|id ids Hid Hnd IH]; intros s; simpl.
  { sup_steps. intros _. split; [done|]. split; [by intros ? ?%elem_of_nil|done]. }
  assert (∀ s1, Mailbox (state s1) = Mailbox (state s) →
    Applications (state s1) !! id = renew <$> Applications (state s) !! id →
    (∀ id', id' ≠ id → Applications (state s1) !! id' = Applications (state s) !! id') →
    wp (recover_applications env ids) (λ r s', r = Ok () → Mailbox (state s') = Mailbox (state s) ∧
      renewed (id :: ids) (Applications (state s)) (Applications (state s'))) s1) as Hnext.
  { intros s1 Hm H1 H2. eapply wp_mono; [apply IH|]. intros r s' H Hr. destruct (H Hr) as [Hm' Hre].
    split; [congruence|]. by eapply renewed_cons. }
  apply wp_bind, wp_gets. cbn beta iota. destruct (Applications (state s) !! id) as [a|] eqn:Ha.
  2:{ apply Hnext; [done| |done]. by rewrite Ha. }
  case_decide as Ht.
  { apply Hnext; [done| |done]. rewrite Ha. cbn. unfold renew. by rewrite decide_True. }
  sup_steps; [done|]. apply Hnext; [done| |].
  - cbn. rewrite lookup_alter_eq, Ha. cbn. unfold renew. by rewrite decide_False.
  - intros id' Hne. cbn. by apply lookup_alter_ne.
Qed.

(** Kernel identifiers touch nothing recovery reports on. *)
Lemma assign_all order st :
  let st1 := fold_left assign_kernel_id order st in
  Audit st1 = Audit st ∧ Mailbox st1 = Mailbox st ∧
  (∀ id, App.State <$> Applications st1 !! id = App.State <$> Applications st !! id) ∧
  (∀ id a, Applications st !! id = Some a → ∃ k, Applications st1 !! id = Some {| a with App.KernelID := k |}).
Proof.
  revert st. induction order as [|i order IH]; intros st; cbn.
  - split_and!; try done. intros id a Ha. exists (App.KernelID a). rewrite Ha. by destruct a.
  - destruct (IH (assign_kernel_id st i)) as (H1 & H2 & Hs & H3). unfold assign_kernel_id in *.
    destruct (Applications st !! i) as [b|] eqn:Hb; [|done]. case_decide; [|done]. split_and!; [done..| |].
    { intros id. rewrite Hs. cbn. rewrite lookup_alter. case_decide; subst; [by rewrite Hb|done]. }
    intros id a Ha. cbn in H3. destruct (decide (i = id)) as [->|Hne].
    + assert (b = a) as -> by congruence.
      destruct (H3 id {| a with App.KernelID := u64 (NextKernelID st + 1) |}) as [k Hk]; [by rewrite lookup_alter_eq, Hb|].
      by exists k.
    + apply H3. by rewrite lookup_alter_ne.
Qed.

Lemma load_run order1 order2 st s :
  NoDup order2 → wp (load env order1 order2 st) (λ r s', r = Ok () →
    VerifyAudit (Audit st) = Ok () ∧ committed s' = durable (state s') ∧
    (let st1 := fold_left assign_kernel_id order1 st in
     Mailbox (state s') = Mailbox (replay_mailboxes st1) ∧ renewed order2 (Applications st1) (Applications (state s')))) s.
Proof.
  intros Hnd. destruct (assign_all order1 st) as (Ea & _). unfold load. rewrite Ea.
  apply wp_bind, wp_modify, wp_bind, wp_of_result. destruct (VerifyAudit (Audit st)) as [[]|e] eqn:Ev; [|done].
  apply wp_bind, wp_modify, wp_bind, wp_modify_state, wp_bind.
  eapply wp_mono; [by apply recover_run|]. intros [[]|e] s1 H; [|done]. destruct (H eq_refl) as [Hm Hre].
  sup_steps; [|done]. by intros _.
Qed.
End recovery.

(** What recovery makes of a message's status. *)
Definition recovered_status (retired : bool) (status : message_status) : message_status :=
  match status with
  | acked => acked
  | expired => expired
  | pending | claimed => if retired then expired else pending
  end.

Lemma replay_status a ms :
  replay_messages a ms =
  (λ m, set_status (recovered_status (bool_decide (App.State <$> a = Some tombstoned)) (Msg.Status m)) m) <$> ms.
Proof.
  unfold replay_messages. case_decide as Ht.
  - rewrite bool_decide_true by done. apply list_fmap_ext. intros _ [? ? ? st0] _. unfold expire_message, set_status. by destruct st0.
  - rewrite bool_decide_false by done. apply list_fmap_ext. intros _ [? ? ? st0] _. unfold unclaim, set_status. cbn. by destruct st0.
Qed.

(** ** Theorems *)

(** C39: A co-signed checkpoint pins the history.  When two supervisors pass the
    witness check and share a checkpoint, their audit logs agree, record for record
    in their encoding, up to the checkpoint's position, unless two different records
    at the same place have the same SHA-256 hash. *)
Theorem witness_detects_rewrite {E : Ed25519} s1 s2 s1' s2' cp :
  VerifyWitness s1 = (Ok (), s1') → VerifyWitness s2 = (Ok (), s2') →
  cp ∈ WitnessCheckpoints (state s1) → cp ∈ WitnessCheckpoints (state s2) →
  let n := Z.to_nat (Wit.Count cp) in
  audit_json <$> take n (Audit (state s1)) = audit_json <$> take n (Audit (state s2)) ∨
  collision (take n (Audit (state s1))) (take n (Audit (state s2))).
Proof.
  assert (∀ s s', VerifyWitness s = (Ok (), s') → cp ∈ WitnessCheckpoints (state s) →
    verify_from "" 0 (Audit (state s)) = true ∧ anchored (Audit (state s)) cp) as Hwit.
  { intros s s' H Hcp. unfold VerifyWitness, gets, get, of_result, mbind, M_bind in H. cbn in H. unfold VerifyAudit in H.
    destruct (verify_from "" 0 (Audit (state s))); [split; [done|]|done]. cbn in H.
    destruct (check_witnesses (Audit (state s)) (WitnessCheckpoints (state s))) eqn:Ec; [|done]. clear H.
    induction (WitnessCheckpoints (state s)) as [|c cps IH]; [by apply elem_of_nil in Hcp|]. cbn in Ec.
    case_decide; [done|]. destruct (Verify_sig _ _ _); [|done].
    apply elem_of_cons in Hcp as [->|Hcp]; [done|auto]. }
  intros H1 H2 Hc1 Hc2 n. destruct (Hwit _ _ H1 Hc1) as [Hv1 Ha1], (Hwit _ _ H2 Hc2) as [Hv2 Ha2].
  destruct (anchored_take _ _ Ha1) as [Hh1 Hl1], (anchored_take _ _ Ha2) as [Hh2 Hl2].
  fold n in Hh1, Hl1, Hh2, Hl2. apply chains_agree; [| |congruence|].
  - eapply verify_app. by rewrite (take_drop n).
  - eapply verify_app. by rewrite (take_drop n).
  - apply fmap_Some in Hh1 as (r1 & Hr1 & E1). apply fmap_Some in Hh2 as (r2 & Hr2 & E2).
    unfold last_hash. rewrite Hr1, Hr2. congruence.
Qed.

(** C24: Recovery is exact and refuses a broken log.  A state whose audit log does not
    verify is never loaded.  A successful recovery keeps every message in its place,
    hands out again what was claimed but not acknowledged, expires what a retired
    application had left, starts a new generation of every other application without
    touching its budget, charges or taint, and is committed. *)
Theorem recovery_replays env order1 order2 st s r s' :
  NoDup order2 → (∀ id, is_Some (Applications st !! id) → id ∈ order2) →
  load env order1 order2 st s = (r, s') →
  (VerifyAudit (Audit st) ≠ Ok () → ∃ e, r = Err e) ∧
  (r = Ok () →
   committed s' = durable (state s') ∧
   (∀ id ms, Mailbox st !! id = Some ms →
      let retired := bool_decide (App.State <$> Applications st !! id = Some tombstoned) in
      Mailbox (state s') !! id = Some ((λ m, set_status (recovered_status retired (Msg.Status m)) m) <$> ms)) ∧
   (∀ id a, Applications st !! id = Some a →
      ∃ k, Applications (state s') !! id = Some (renew {| a with App.KernelID := k |}))).
Proof.
  intros Hnd Hord H. pose proof (wp_run _ _ _ _ _ (load_run env order1 order2 st s Hnd) H) as Hrun. split.
  - intros Hv. destruct r as [[]|e]; [|eauto]. by destruct Hv, (Hrun eq_refl).
  - intros Hr. destruct (Hrun Hr) as (_ & Hc & Hm & Hin & _). destruct (assign_all order1 st) as (_ & Em & Es & Ha).
    split_and!; [done| |].
    + intros id ms Hms. rewrite Hm. cbn. rewrite map_lookup_imap, Em, Hms. cbn. by rewrite replay_status, Es.
    + intros id a Hida. destruct (Ha id a Hida) as [k Hk]. exists k. rewrite Hin by eauto. by rewrite Hk.
Qed.

(** ** The theorems at sample runs *)

(** The witness signs the head of the log after the sample run. *)
Definition head_checkpoint (s : Supervisor) : WitnessCheckpoint :=
  let cp := Wit.mk (last_hash (Audit (state s))) (Z.of_nat (length (Audit (state s)))) 1 (Public sample_key) "" "w" in
  {| cp with Wit.Signature := Sign sample_key (checkpointMessage cp) |}.

Definition witnessed : Supervisor :=
  (λ s, snd (exec Sample.env Sample.kenv (OCosign "root" (head_checkpoint s)) s)) (Sample.run retire_ops).

Definition witnessed_later : Supervisor := snd (exec Sample.env Sample.kenv (OCreateChannel "root" "tg" "telegram") witnessed).

Lemma witness_detects_rewrite_witness : ∃ cp s1 s2,
  VerifyWitness witnessed = (Ok (), s1) ∧ VerifyWitness witnessed_later = (Ok (), s2) ∧
  let n := Z.to_nat (Wit.Count cp) in
  (audit_json <$> take n (Audit (state witnessed)) = audit_json <$> take n (Audit (state witnessed_later)) ∨
   collision (take n (Audit (state witnessed))) (take n (Audit (state witnessed_later)))).
Proof.
  destruct (ok_run VerifyWitness witnessed) as ([] & s1 & H); [by vm_compute|].
  destruct (ok_run VerifyWitness witnessed_later) as ([] & s2 & H2); [by vm_compute|].
  destruct (some_of (head (WitnessCheckpoints (state witnessed)))) as [cp Hcp]; [by vm_compute|].
  assert (head (WitnessCheckpoints (state witnessed_later)) = head (WitnessCheckpoints (state witnessed))) as Heq
    by (by vm_compute).
  pose proof (eq_trans Heq Hcp) as Hcp2. apply head_Some_elem_of in Hcp, Hcp2.
  exact (ex_intro _ cp (ex_intro _ s1 (ex_intro _ s2 (conj H (conj H2 (witness_detects_rewrite _ _ _ _ cp H H2 Hcp Hcp2)))))).
Defined.

Definition stored_state : supervisorState := committed (Sample.run (open_ops ++ [OClaimTurn [Sample.app]])).

Lemma recovery_replays_witness : ∃ s' ms,
  load Sample.env [Sample.app] [Sample.app] stored_state (first_start Sample.caps 50) = (Ok (), s') ∧
  Mailbox stored_state !! Sample.app = Some ms ∧
  Mailbox (state s') !! Sample.app = Some ((λ m, set_status (recovered_status
    (bool_decide (App.State <$> Applications stored_state !! Sample.app = Some tombstoned)) (Msg.Status m)) m) <$> ms).
Proof.
  destruct (ok_run (load Sample.env [Sample.app] [Sample.app] stored_state) (first_start Sample.caps 50))
    as ([] & s' & H); [by vm_compute|].
  destruct (some_of (Mailbox stored_state !! Sample.app)) as [ms Hms]; [by vm_compute|].
  assert (fst <$> map_to_list (Applications stored_state) = [Sample.app]) as Hk by (by vm_compute).
  refine (ex_intro _ s' (ex_intro _ ms (conj H (conj Hms _)))).
  refine (proj1 (proj2 (proj2 (recovery_replays Sample.env [Sample.app] [Sample.app] stored_state _ _ _ _ _ H) eq_refl)) _ _ Hms).
  - apply NoDup_singleton.
  - intros id [a Ha]. rewrite <-Hk. apply list_elem_of_fmap. exists (id, a). split; [done|]. by apply elem_of_map_to_list.
Defined.
