(* ===== verification/WakeProperties.v ===== *)
(** * Events: the kernel queues and the LSFS cursors *)

From Stdlib Require Import Ascii.
From stdpp Require Import base tactics option list gmap sets strings numbers pretty sorting relations.
From S2P Require Import Prelude Monad GoLib Json Crypto Ledger Policy ContextStore State Taint Mailbox.
From S2P Require Import Lifecycle Revocation Runner Gateway Hostfs Wake KernelWake Invariant Safety MailboxProofs.
From S2P Require Import WakeProofs KernelWakeProofs System Durability SystemProperties MailProperties.

(** ** The loop over persisted events *)

Section loop.
Context (env : Env).

Lemma delivery_pending principal id key payload s r s' i :
  delivery env principal id key payload s r s' → pending_events (state s') i = pending_events (state s) i.
Proof. by destruct 1. Qed.

Lemma pending_set_or_drop id events st : pending_events (set_or_drop_pending id events st) id = events.
Proof.
  unfold set_or_drop_pending, pending_events. case_decide; cbn; [by rewrite lookup_delete_eq|by rewrite lookup_insert_eq].
Qed.

Lemma bind_ok {A B} (m : M Supervisor A) (f : A → M Supervisor B) s a s1 : m s = (Ok a, s1) → (m ≫= f) s = f a s1.
Proof. unfold mbind, M_bind. by intros ->. Qed.

Lemma bind_err {A B} (m : M Supervisor A) (f : A → M Supervisor B) s e s1 : m s = (Err e, s1) → (m ≫= f) s = (Err e, s1).
Proof. unfold mbind, M_bind. by intros ->. Qed.

Lemma try_run {A} (m : M Supervisor A) s r s1 : m s = (r, s1) → try m s = (Ok r, s1).
Proof. unfold try. by intros ->. Qed.

(** The outcome of the recursion as the loop reports it. *)
Definition as_loop (x : result error bool * Supervisor) : result error (option bool) * Supervisor :=
  (match fst x with Ok b => Ok (Some b) | Err e => Err e end, snd x).

(** With one round more than there are events the loop ends, and it does what the
    recursion over the list does. *)
Lemma loop_ends id events : ∀ fuel s, pending_events (state s) id = events → length events < fuel →
  persisted_loop env fuel id s = as_loop (deliver_persisted env id events s).
Proof.
  induction events as [|e events IH]; intros [|fuel] s Hp Hf; try (cbn in Hf; lia);
    cbn [persisted_loop deliver_persisted]; rewrite (bind_ok (gets (λ st, st)) _ s (state s) s eq_refl), Hp; [done|].
  pose proof (enqueue_delivery env "supervisor" id (kernelMessageKey id e) (kernelWakePayload id e) s) as Hd.
  unfold wp in Hd.
  destruct (enqueueLocked env "supervisor" id (kernelMessageKey id e) (kernelWakePayload id e) s) as [[m|err] s1] eqn:Em.
  all: rewrite !(bind_ok _ _ s _ s1 (try_run _ _ _ _ Em)).
  2: by destruct err.
  apply (delivery_pending _ _ _ _ _ _ _ id) in Hd. rewrite Hp in Hd.
  rewrite !(bind_ok (modify_state _) _ s1 () (with_state _ s1) eq_refl).
  assert (with_state (λ st, set_or_drop_pending id (drop 1 (pending_events st id)) st) s1 =
    with_state (set_or_drop_pending id events) s1) as -> by (unfold with_state; by rewrite Hd).
  set (s2 := with_state _ s1).
  assert (pending_events (state s2) id = events) as Hp2 by apply pending_set_or_drop. clearbody s2.
  destruct (persistLocked env s2) as [[[]|err] s3] eqn:Ep.
  - rewrite !(bind_ok _ _ s2 _ s3 Ep). apply IH; [|cbn in Hf; lia].
    assert (wp (persistLocked env) (λ r s', r = Ok () → state s' = state s2) s2) as Hw by by apply wp_persist.
    by rewrite (wp_run _ _ _ _ _ Hw Ep eq_refl).
  - by rewrite !(bind_err _ _ s2 _ s3 Ep).
Qed.
End loop.

(** ** Kernel acknowledgements *)

(** An event the bridge returned from the queue, with its message in the mailbox: the key
    names the application, the boot and the event, the payload is that of the event. *)
Definition carried (kenv : KernelEnv) (boot : string) (st : supervisorState) (id : string) (ev : Z) : Prop :=
  ∃ t h e mid, Ok e ∈ k_reads kenv t h ∧ KEv.EventID e = ev ∧
    delivered st id ("kernel:" +:+ id +:+ ":" +:+ boot +:+ ":" +:+ pretty ev) mid (json_compact (kernelWakePayload id e)).

(** Every acknowledgement made since [base] is of an event whose message is in the
    committed mailbox. *)
Definition acks_backed (kenv : KernelEnv) (boot : string) (base : list kernel_call) (s : Supervisor) : Prop :=
  ∀ id ev, Acked id ev ∈ calls s → Acked id ev ∈ base ∨ carried kenv boot (committed s) id ev.

(** A handler that acknowledges nothing. *)
Definition quiet {A} (m : M Supervisor A) : Prop := safe m ∧ ∀ s, wp m (λ _ s', calls s' = calls s) s.

Lemma good_self c0 cs0 s : Good c0 cs0 s → Good (committed s) (store s) s.
Proof. intros []. by split. Qed.

Lemma carried_evolves kenv boot st st' id ev : evolves st st' → carried kenv boot st id ev → carried kenv boot st' id ev.
Proof.
  intros Hev (t & h & e & mid & Hr & He & Hd). exists t, h, e, mid. split_and!; [done..|]. by eapply delivered_evolves.
Qed.

Section kernel.
Context (env : Env) (kenv : KernelEnv) (boot : string) (Hnamed : boot ≠ "").

Definition acking (c0 : supervisorState) (cs0 : ContextStore) (base : list kernel_call) (s : Supervisor) : Prop :=
  Good c0 cs0 s ∧ acks_backed kenv boot base s.

Lemma backed_mono base s s' :
  acks_backed kenv boot base s → calls s' = calls s → evolves (committed s) (committed s') → acks_backed kenv boot base s'.
Proof. intros Hb Hc Hev id ev Ha. rewrite Hc in Ha. destruct (Hb id ev Ha); [by left|right]. by eapply carried_evolves. Qed.

Lemma quiet_acking {A} (m : M Supervisor A) c0 cs0 base s (Q : result error A → Supervisor → Prop) :
  quiet m → acking c0 cs0 base s → (∀ r s', acking c0 cs0 base s' → Q r s') → wp m Q s.
Proof.
  intros [Hm Hq] [Hg Hb] HQ. eapply wp_mono; [apply wp_and; [apply (Hm _ _ _ Hg)|apply wp_and; [apply (Hm _ _ _ (good_self _ _ _ Hg))|apply Hq]]|].
  intros r s' (Hg' & Hs & Hc). apply HQ. split; [done|]. eapply backed_mono; [exact Hb|exact Hc|apply Hs].
Qed.

Lemma quiet_deliver_persisted id events : quiet (deliver_persisted env id events).
Proof.
  split; [apply safe_deliver_persisted|]. induction events as [|e events IH]; intros s; cbn [deliver_persisted]; [by sup_steps|].
  apply wp_bind, wp_try. eapply wp_mono; [apply enqueue_delivery|]. intros r s1 Hd.
  assert (calls s1 = calls s) as Hc by (by destruct Hd). destruct r as [m|err]; [|destruct err; by sup_steps].
  sup_steps; [|done]. eapply wp_mono; [apply IH|]. intros r s2 Hs2. rewrite Hs2. exact Hc.
Qed.

Lemma quiet_recover id : quiet (recover_persisted env id).
Proof.
  split; [apply safe_recover_persisted|]. intros s. unfold recover_persisted, deliverPersistedKernelLocked, markKernelRecoveryPendingLocked.
  apply wp_bind, wp_modify_state, wp_bind, wp_try, wp_bind, wp_gets. eapply wp_mono; [apply quiet_deliver_persisted|].
  intros [b|e] s1 Hc; by sup_steps.
Qed.

Lemma quiet_handle id : quiet (ensureKernelHandleLocked kenv id).
Proof.
  split; [apply safe_handle|]. intros s. unfold ensureKernelHandleLocked. sup_steps; try done.
  destruct (k_open _ _ _); by sup_steps.
Qed.

Lemma quiet_boot : quiet (boot_identity kenv).
Proof. split; [apply safe_boot|]. intros s. unfold boot_identity. by sup_steps. Qed.

Lemma delivered_mailbox st st' id key mid payload :
  Mailbox st' = Mailbox st → delivered st id key mid payload → delivered st' id key mid payload.
Proof. unfold delivered, messages_of. by intros ->. Qed.

Lemma delivered_durable st id key mid payload :
  delivered st id key mid (json_compact payload) → delivered (durable st) id key mid (json_compact payload).
Proof.
  intros (m & Hm & Hk & Hi & Hp). apply elem_of_messages in Hm as (ms & Hms & Hm).
  exists {| m with Msg.Payload := json_compact (Msg.Payload m) |}. split_and!; try done; cbn.
  - unfold messages_of. cbn. rewrite lookup_fmap, Hms. cbn. apply list_elem_of_fmap. eauto.
  - rewrite Hp. apply json_compact_idem.
Qed.

Lemma set_or_drop_mailbox id events st : Mailbox (set_or_drop_pending id events st) = Mailbox st.
Proof. unfold set_or_drop_pending. by case_decide. Qed.

(** A read event ends in one of two ways: nothing is acknowledged, and the drain stops;
    or its message, with its content and under its key, is committed and then it is
    acknowledged. *)
Lemma delivery_event id key payload s r s' :
  delivery env "supervisor" id key payload s r s' →
  calls s' = calls s ∧ pending_events (state s') id = pending_events (state s) id.
Proof. by destruct 1. Qed.

(** An event is acknowledged only after the commit of its message; with no recorded event
    left, the key has the identity of this boot and the list is empty again afterwards. *)
Lemma deliver_event_boot id h e s :
  wp (deliver_event env kenv id boot h e) (λ r s', (calls s' = calls s ∧ r ≠ Ok true) ∨
    (calls s' = calls s ++ [Acked id (KEv.EventID e)] ∧ r ≠ Ok false ∧ ∃ b mid,
      (pending_events (state s) id = [] → b = boot ∧ (r = Ok true → pending_events (state s') id = [])) ∧
      delivered (committed s') id (kernelMessageKey id {| e with KEv.BootID := b |}) mid (json_compact (kernelWakePayload id e)))) s.
Proof.
  unfold deliver_event, record_call. apply wp_bind, wp_gets. cbn beta iota.
  set (e' := identifyKernelEvent _ _ _).
  assert (kernelMessageKey id {| e with KEv.BootID := KEv.BootID e' |} = kernelMessageKey id e') as He.
  { unfold e', identifyKernelEvent. repeat case_match; done. }
  assert (pending_events (state s) id = [] → KEv.BootID e' = boot) as Hboot.
  { intros Hp. unfold e'. by rewrite Hp. }
  apply wp_bind, wp_try. eapply wp_mono; [apply enqueue_delivery|]. intros r s1 Hd.
  destruct (delivery_event _ _ _ _ _ _ Hd) as [Hc Hpend]. destruct r as [m|err].
  2: { unfold drop_handle. destruct err; sup_steps; by left. }
  apply delivery_delivered in Hd. set (p := json_compact _) in *. rewrite <-He in Hd. set (key := kernelMessageKey id {| e with KEv.BootID := _ |}) in Hd.
  apply wp_bind, wp_gets. cbn beta iota. rewrite Hpend. apply wp_bind, wp_modify_state, wp_bind, wp_try.
  eapply wp_persist; [|unfold drop_handle; sup_steps; by left].
  set (s2 := saved _). assert (delivered (committed s2) id key (Msg.MessageID m) p) as Hd2.
  { apply delivered_durable. by eapply delivered_mailbox; [|exact Hd]. }
  assert (delivered (state s2) id key (Msg.MessageID m) p) as Hd3 by (by eapply delivered_mailbox; [|exact Hd]).
  assert (calls s2 = calls s) as Hc2 by exact Hc. clearbody s2.
  apply wp_bind, wp_with_tick. destruct (k_ack kenv _ _ _) as [err|]; [unfold drop_handle; sup_steps; by left|].
  sup_steps; right; cbn; (split_and!; [by rewrite Hc2|done|]); exists (KEv.BootID e'), (Msg.MessageID m);
    (split; [intros Hp; split; [by apply Hboot|intros [=]]|]); [by rewrite pending_set_or_drop, Hp| |done].
  apply delivered_durable. eapply delivered_mailbox; [|exact Hd3]. apply set_or_drop_mailbox.
Qed.

Lemma deliver_event_exact id h e s :
  wp (deliver_event env kenv id boot h e) (λ r s', (calls s' = calls s ∧ r ≠ Ok true) ∨
    (calls s' = calls s ++ [Acked id (KEv.EventID e)] ∧ r ≠ Ok false ∧ ∃ b mid,
      delivered (committed s') id (kernelMessageKey id {| e with KEv.BootID := b |}) mid (json_compact (kernelWakePayload id e)))) s.
Proof.
  eapply wp_mono; [apply deliver_event_boot|]. intros r s' [H|(Hc & Hr & b & mid & _ & Hd)]; [by left|]. right. eauto.
Qed.

(** Delivering the recorded events leaves none of them, or the queue is not read. *)
Lemma deliver_persisted_empties id events : ∀ s, pending_events (state s) id = events →
  wp (deliver_persisted env id events) (λ r s', r = Ok true → pending_events (state s') id = []) s.
Proof.
  induction events as [|e events IH]; intros s Hp; cbn [deliver_persisted]; [by sup_steps|].
  apply wp_bind, wp_try. eapply wp_mono; [apply enqueue_delivery|]. intros r s1 Hd.
  destruct r as [m|err]; [|destruct err; by sup_steps].
  apply wp_bind, wp_modify_state, wp_bind, wp_persist; [|done]. apply IH. apply pending_set_or_drop.
Qed.

Lemma recover_empties id s :
  wp (recover_persisted env id) (λ r s', r = Ok true → pending_events (state s') id = []) s.
Proof.
  unfold recover_persisted, deliverPersistedKernelLocked.
  apply wp_bind, wp_modify_state, wp_bind, wp_try, wp_bind, wp_gets.
  eapply wp_mono; [by apply deliver_persisted_empties|]. intros [b|e] s1 H1; sup_steps; [|done].
  intros [= ->]. by apply H1.
Qed.

Lemma acking_deliver_event id h e c0 cs0 base s t hd :
  Ok e ∈ k_reads kenv t hd → acking c0 cs0 base s → pending_events (state s) id = [] →
  wp (deliver_event env kenv id boot h e)
    (λ r s', acking c0 cs0 base s' ∧ (r = Ok true → pending_events (state s') id = [])) s.
Proof.
  intros Hread [Hg Hb] Hp. pose proof (safe_deliver_event env kenv id boot h e) as Hs.
  eapply wp_mono; [apply wp_and; [apply (Hs _ _ _ Hg)|apply wp_and; [apply (Hs _ _ _ (good_self _ _ _ Hg))|apply deliver_event_boot]]|].
  intros r s' (Hg' & Hg2 & [[Hc Hr]|(Hc & Hr & b & mid & Hboot & Hd)]).
  { split; [|by intros ->]. split; [done|]. by eapply backed_mono; [..|apply Hg2]. }
  destruct (Hboot Hp) as [-> Hempty]. split; [|done]. split; [done|].
  intros i ev. rewrite Hc, elem_of_app, list_elem_of_singleton. intros [Ha|[= -> ->]].
  - destruct (Hb i ev Ha); [by left|right]. eapply carried_evolves; [apply Hg2|done].
  - right. exists t, hd, e, mid. unfold kernelMessageKey in Hd. rewrite decide_False in Hd by done. by split_and!.
Qed.

Lemma acking_drain id h reads c0 cs0 base s t hd :
  (∀ e, Ok e ∈ reads → Ok e ∈ k_reads kenv t hd) → acking c0 cs0 base s → pending_events (state s) id = [] →
  wp (drain env kenv id boot h reads) (λ _ s', acking c0 cs0 base s') s.
Proof.
  revert s. induction reads as [|[e|err] reads IH]; intros s Hin Hs Hp; cbn [drain]; [by sup_steps| |by sup_steps].
  apply wp_bind. eapply wp_mono; [eapply acking_deliver_event; [apply Hin; by left|done..]|].
  intros [[]|e1] s1 [Hs1 Hp1]; [|by sup_steps|done]. apply IH; [|done|by apply Hp1]. intros e2 ?. apply Hin. by right.
Qed.

Lemma handle_pending id i s :
  wp (ensureKernelHandleLocked kenv id) (λ _ s', pending_events (state s') i = pending_events (state s) i) s.
Proof. unfold ensureKernelHandleLocked. sup_steps; try done. destruct (k_open _ _ _); by sup_steps. Qed.

Lemma acking_applications ids c0 cs0 base s :
  acking c0 cs0 base s → wp (deliver_applications env kenv boot ids) (λ _ s', acking c0 cs0 base s') s.
Proof.
  revert s. induction ids as [|id ids IH]; intros s Hs; cbn [deliver_applications]; [by sup_steps|].
  apply wp_bind, wp_gets. cbn beta iota. case_decide; [by apply IH|].
  apply wp_bind. eapply wp_mono; [apply wp_and; [|apply recover_empties]|].
  { eapply (quiet_acking _ _ _ _ _ (λ _ s', acking c0 cs0 base s')); [apply quiet_recover|done|auto]. }
  intros [b|e] s1 [Hs1 Hp]; [|done]. destruct b; cbn [negb]; [|by apply IH]. specialize (Hp eq_refl).
  apply wp_bind. eapply wp_mono; [apply wp_and; [|apply (handle_pending id id)]|].
  { eapply (quiet_acking _ _ _ _ _ (λ _ s', acking c0 cs0 base s')); [apply quiet_handle|done|auto]. }
  intros [hd|e] s2 [Hs2 Hp2]; [|done]. rewrite Hp in Hp2.
  apply wp_bind, wp_with_tick, wp_bind. eapply wp_mono; [eapply acking_drain; [eauto| |exact Hp2]|].
  { destruct Hs2 as [Hg Hb]. split; [by apply good_ticked|done]. }
  intros [[]|e] s3 Hs3; [by apply IH|by sup_steps|done].
Qed.
End kernel.

Lemma boot_identity_exact kenv s :
  wp (boot_identity kenv) (λ r s', calls s' = calls s ∧ ∀ boot, r = Ok boot → k_boot kenv (tick s) = Ok boot ∧ boot ≠ "") s.
Proof using.
  unfold boot_identity. apply wp_bind, wp_with_tick. destruct (k_boot kenv (tick s)) as [b|e]; sup_steps; (split; [done|]); try done.
  intros ? [= <-]. done.
Qed.

(** One pass over all queues, for a boot identity the kernel gave at its start. *)
Lemma acking_deliverKernel env kenv c0 cs0 s : Good c0 cs0 s →
  wp (deliverKernel env kenv) (λ _ s', ∀ id ev, Acked id ev ∈ calls s' → Acked id ev ∈ calls s ∨
    ∃ boot, k_boot kenv (tick s) = Ok boot ∧ boot ≠ "" ∧ carried kenv boot (committed s') id ev) s.
Proof.
  intros Hg. unfold deliverKernel. apply wp_bind, wp_get. destruct (negb (kernel s)); [sup_steps; by left|].
  apply wp_bind. eapply wp_mono; [apply wp_and; [apply (safe_boot kenv _ _ _ Hg)|apply boot_identity_exact]|].
  intros [boot|e] s1 (Hg1 & Hc & Hb); [|rewrite Hc; by left]. destruct (Hb boot eq_refl) as [Hk Hne].
  eapply wp_mono; [apply (acking_applications env kenv boot Hne _ c0 cs0 (calls s))|].
  { split; [done|]. intros id ev. rewrite Hc. by left. }
  intros r s2 [_ Hb2] id ev Ha. destruct (Hb2 id ev Ha); [by left|right]. eauto.
Qed.

(** ** LSFS cursors *)

(** [b'] is [b] with its cursor moved past commits whose artifacts were all delivered. *)
Definition passed (cs : ContextStore) (st : supervisorState) (b b' : WakeBinding) : Prop :=
  Bind.BindingID b' = Bind.BindingID b ∧ Bind.ApplicationID b' = Bind.ApplicationID b ∧ Bind.Ref b' = Bind.Ref b ∧
  (Bind.Cursor b ≤ Bind.Cursor b')%Z ∧
  ∀ c, c ∈ commit_rows cs → Commit.ContextID c = Bind.Ref b → Commit.Kind c = "artifact" →
    (Bind.Cursor b < Commit.Cursor c ≤ Bind.Cursor b')%Z →
    ∃ mid, delivered st (Bind.ApplicationID b) (lsfs_key b c) mid (json_compact (lsfs_payload b c)).

(** Nothing delivered disappears. *)
Definition mail_kept (st st' : supervisorState) : Prop :=
  ∀ id key mid payload, delivered st id key mid payload → delivered st' id key mid payload.

Lemma lsfs_same b b' c : Bind.BindingID b' = Bind.BindingID b →
  lsfs_key b' c = lsfs_key b c ∧ lsfs_payload b' c = lsfs_payload b c.
Proof. unfold lsfs_key, lsfs_payload. by intros ->. Qed.

Lemma passed_refl cs st b : passed cs st b b.
Proof. split_and!; try done. intros. lia. Qed.

Lemma passed_trans cs st st' b1 b2 b3 :
  mail_kept st st' → passed cs st b1 b2 → passed cs st' b2 b3 → passed cs st' b1 b3.
Proof.
  intros Hk (Hi & Ha & Hr & Hc & H1) (Hi' & Ha' & Hr' & Hc' & H2). split_and!; try congruence; [lia|].
  intros c Hin Href Hart Hcur. destruct (decide (Commit.Cursor c ≤ Bind.Cursor b2)%Z) as [Hle|Hgt].
  - destruct (H1 c) as [mid Hd]; [done..|lia|]. eauto.
  - destruct (H2 c) as [mid Hd]; [done|congruence|done|lia|]. destruct (lsfs_same b1 b2 c Hi) as [Ek Ep].
    rewrite Ha, Ek, Ep in Hd. eauto.
Qed.

(** The commits of the context after the cursor are those to scan, or come after all of them. *)
Definition frontier (cs : ContextStore) (b : WakeBinding) (l : list LSFSCommit) : Prop :=
  ∀ c, c ∈ commit_rows cs → Commit.ContextID c = Bind.Ref b → (Bind.Cursor b < Commit.Cursor c)%Z →
    c ∈ l ∨ ∀ c', c' ∈ l → (Commit.Cursor c' < Commit.Cursor c)%Z.

Lemma ascending_elem a l c : ascending a l → c ∈ l → (a < Commit.Cursor c)%Z.
Proof.
  revert a. induction l as [|c' l IH]; intros a; [by intros _ ?%elem_of_nil|].
  intros [Hc Hl] [->|Hin]%elem_of_cons; [done|]. specialize (IH _ Hl Hin). lia.
Qed.

Lemma frontier_batch cs b n l :
  ascending 0 l → (∀ c, c ∈ commit_rows cs → Commit.ContextID c = Bind.Ref b → (Bind.Cursor b < Commit.Cursor c)%Z → c ∈ l) →
  frontier cs b (take n l).
Proof.
  intros Hasc Hall c Hc Href Hcur. specialize (Hall c Hc Href Hcur). clear Hc Href Hcur.
  revert l Hasc Hall. generalize 0%Z. induction n as [|n IH]; intros a [|d l] Hasc Hall; cbn.
  - by left.
  - right. by intros ? ?%elem_of_nil.
  - by left.
  - destruct Hasc as [Hd Hl]. apply elem_of_cons in Hall as [->|Hin]; [left; by left|].
    destruct (IH _ l Hl Hin) as [?|Hafter]; [left; by right|]. right. intros c' [->|Hc']%elem_of_cons; [|by apply Hafter].
    by eapply ascending_elem.
Qed.

Definition advance (b : WakeBinding) (c : LSFSCommit) : WakeBinding := {| b with Bind.Cursor := Commit.Cursor c |}.

Lemma frontier_advance cs b c l : ascending (Bind.Cursor b) (c :: l) → frontier cs b (c :: l) → frontier cs (advance b c) l.
Proof.
  intros [Hc Hl] Hf d Hd Href Hcur. cbn in *. destruct (Hf d Hd Href ltac:(lia)) as [[->|?]%elem_of_cons|Hafter]; [lia|by left|].
  right. intros c' ?. apply Hafter. by right.
Qed.

Lemma passed_advance cs st b c l :
  ascending (Bind.Cursor b) (c :: l) → frontier cs b (c :: l) →
  (Commit.Kind c = "artifact" → ∃ mid, delivered st (Bind.ApplicationID b) (lsfs_key b c) mid (json_compact (lsfs_payload b c))) →
  passed cs st b (advance b c).
Proof.
  intros [Hc Hl] Hf Hd. split_and!; try done; cbn; [lia|]. intros d Hin Href Hart [Hlo Hhi].
  destruct (Hf d Hin Href Hlo) as [[->|Hdl]%elem_of_cons|Hafter]; [by apply Hd|..].
  - pose proof (ascending_elem _ _ _ Hl Hdl). lia.
  - specialize (Hafter c ltac:(by left)). lia.
Qed.

(** What a scan leaves alone. *)
Definition scan_kept (s s' : Supervisor) : Prop :=
  kernel s' = kernel s ∧ store s' = store s ∧ mail_kept (state s) (state s').

Lemma scan_kept_refl s : scan_kept s s.
Proof. split; [done|]. split; [done|]. by intros ????. Qed.

Lemma scan_kept_trans s1 s2 s3 : scan_kept s1 s2 → scan_kept s2 s3 → scan_kept s1 s3.
Proof. intros (? & ? & H1) (? & ? & H2). split_and!; [congruence..|]. intros ????. eauto. Qed.

Section lsfs.
Context (env : Env) (kenv : KernelEnv).

Lemma delivery_kept principal id key payload s r s' :
  delivery env principal id key payload s r s' → scan_kept s s' ∧ Bindings (state s') = Bindings (state s).
Proof.
  destruct 1; (split; [|done]); (split; [done|]); (split; [done|]); try (by intros ????).
  intros i k mid p (m & Hm & Hrest). exists m. split; [|done]. unfold messages_of in *. cbn.
  rewrite lookup_insert. case_decide; [subst|done]. cbn. apply elem_of_app. by left.
Qed.

(** A scan without the bridge: the cursor passes only commits it delivered. *)
Lemma scan_passed l : ∀ b s, kernel s = false → ascending (Bind.Cursor b) l → frontier (store s) b l →
  wp (scan_commits env kenv b l) (λ r s', ∀ b' f, r = Ok (b', f) →
    scan_kept s s' ∧ Bindings (state s') = Bindings (state s) ∧ passed (store s) (state s') b b' ∧ (f = false → b' = b)) s.
Proof.
  induction l as [|c l IH]; intros b s Hk Hasc Hf; cbn [scan_commits].
  { apply wp_ret. intros b' f [= <- <-]. split_and!; [apply scan_kept_refl|done|apply passed_refl|done]. }
  assert (∀ s1, scan_kept s s1 → Bindings (state s1) = Bindings (state s) → passed (store s) (state s1) b (advance b c) →
    wp (r ← scan_commits env kenv (advance b c) l; mret (fst r, true)) (λ r s', ∀ b' f, r = Ok (b', f) →
      scan_kept s s' ∧ Bindings (state s') = Bindings (state s) ∧ passed (store s) (state s') b b' ∧ (f = false → b' = b)) s1) as Hnext.
  { intros s1 Hs1 Hb1 Hp1. pose proof Hs1 as (Hk1 & Hst & _). apply wp_bind.
    eapply wp_mono; [apply IH; [congruence|by destruct Hasc|rewrite Hst; by apply frontier_advance]|].
    intros [[b2 f2]|e] s2 H2; [|done]. destruct (H2 b2 f2 eq_refl) as (Hs2 & Hb2 & Hp2 & _). apply wp_ret.
    intros b' f [= <- <-]. split_and!; [by eapply scan_kept_trans|congruence| |done].
    rewrite Hst in Hp2. eapply passed_trans; [apply Hs2|exact Hp1|exact Hp2]. }
  case_decide.
  { apply Hnext; [apply scan_kept_refl|done|]. eapply passed_advance; [done..|]. done. }
  apply wp_bind, wp_get. rewrite Hk. apply wp_bind, wp_try. eapply wp_mono; [apply enqueue_delivery|]. intros r s1 Hd.
  destruct (delivery_kept _ _ _ _ _ _ _ Hd) as [Hs1 Hb1]. destruct r as [m|e].
  - apply delivery_delivered in Hd. apply Hnext; [done..|]. eapply passed_advance; [done..|]. eauto.
  - destruct e; sup_steps; try done. intros b' f [= <- <-]. split_and!; [done..|apply passed_refl|done].
Qed.

Lemma commits_batch io owner b limit cs :
  wp (Commits io owner (Bind.Ref b) (Bind.Cursor b) limit)
    (λ r cs', cs' = cs ∧ ∀ l, r = Ok l → ascending (Bind.Cursor b) l ∧ frontier cs b l) cs.
Proof.
  pose proof (Commits_spec io owner (Bind.Ref b) (Bind.Cursor b) limit cs) as Ha. unfold Commits in *.
  case_decide; [by wp_steps|]. revert Ha. unfold transact, wp.
  match goal with |- context [(authorizeContext ?o ?i;; ?k) cs] => destruct ((authorizeContext o i;; k) cs) as [r cs1] eqn:E end.
  destruct io; [|done]. destruct r as [l|e]; [|done]. intros [-> Ha]. split; [done|]. intros ? [= <-].
  split; [by apply Ha|].
  assert (wp (authorizeContext owner (Bind.Ref b);; cs0 ← get;
    mret (take (Z.to_nat limit) (filter (λ c, Commit.ContextID c = Bind.Ref b ∧ (Bind.Cursor b < Commit.Cursor c)%Z) (commit_rows cs0))))
    (λ r _, ∀ l, r = Ok l → frontier cs b l) cs) as Hw; [|by apply (wp_run _ _ _ _ _ Hw E)].
  apply wp_bind, wp_authorize; [|done]. intros _ _. wp_steps. intros ? [= <-].
  apply frontier_batch; [apply ascending_filter, commit_rows_ascending|]. intros c ???. by apply list_elem_of_filter.
Qed.

(** What one binding's scan does to all bindings. *)
Definition scan_step (s s' : Supervisor) : Prop :=
  scan_kept s s' ∧ ∀ k b, Bindings (state s) !! k = Some b →
    ∃ b', Bindings (state s') !! k = Some b' ∧ passed (store s) (state s') b b'.

Lemma scan_step_same s s' : scan_kept s s' → Bindings (state s') = Bindings (state s) → scan_step s s'.
Proof. intros Hs Hb. split; [done|]. intros k b. rewrite Hb. eauto using passed_refl. Qed.

Lemma scan_step_trans s1 s2 s3 : scan_step s1 s2 → scan_step s2 s3 → scan_step s1 s3.
Proof.
  intros [H1 B1] [H2 B2]. split; [by eapply scan_kept_trans|]. intros k b Hb.
  destruct (B1 k b Hb) as (b2 & Hb2 & P1). destruct (B2 k b2 Hb2) as (b3 & Hb3 & P2).
  exists b3. split; [done|]. destruct H1 as (_ & Hst & _), H2 as (_ & _ & Hm). rewrite Hst in P2. by eapply passed_trans.
Qed.

(** Writing back the record of the binding that was scanned. *)
Lemma scan_step_set s s1 key b b' :
  Bindings (state s) !! key = Some b → scan_kept s s1 → Bindings (state s1) = Bindings (state s) →
  passed (store s) (state s1) b b' → scan_step s (with_state (set_binding key b') s1).
Proof.
  intros Hb (Hk & Hst & Hm) Hbs Hp. split; [done|]. intros k b0 Hb0. cbn. rewrite Hbs, lookup_insert.
  case_decide; [|by eauto using passed_refl]. simplify_eq. eauto.
Qed.

Lemma scan_binding_passed key s : kernel s = false →
  wp (scan_binding env kenv key) (λ r s', ∀ f, r = Ok f → scan_step s s' ∧ (f = false → Bindings (state s') = Bindings (state s))) s.
Proof.
  intros Hk. unfold scan_binding. apply wp_bind, wp_gets. cbn beta iota.
  destruct (Bindings (state s) !! key) as [b|] eqn:Hb; [|apply wp_ret; intros f [= <-]; split; [apply scan_step_same; [apply scan_kept_refl|done]|done]].
  destruct (negb (Bind.Enabled b)); [apply wp_ret; intros f [= <-]; split; [apply scan_step_same; [apply scan_kept_refl|done]|done]|].
  assert (scan_step s (with_state (set_binding key {| b with Bind.Enabled := false |}) s)) as Hoff.
  { eapply scan_step_set; [done|apply scan_kept_refl|done|]. split_and!; try done. intros. cbn in *. lia. }
  destruct (Applications (state s) !! Bind.ApplicationID b) as [a|]; [|sup_steps; intros f [= <-]; by split].
  case_decide; [sup_steps; intros f [= <-]; by split|]. apply wp_bind. unfold or_restore. apply wp_bind, wp_try.
  eapply (wp_store_read env); [intros io; apply commits_batch|]. intros [l|e] Hl; [|by sup_steps].
  destruct (Hl l eq_refl) as [Hasc Hf]. apply wp_ret, wp_bind.
  eapply wp_mono; [by apply (scan_passed l b (ticked s))|]. intros [[b' f]|e] s1 H1; [|done].
  destruct (H1 b' f eq_refl) as (Hs1 & Hb1 & Hp & Hsame). sup_steps. intros f' [= <-]. split.
  - by eapply scan_step_set.
  - intros ->. rewrite (Hsame eq_refl). cbn. rewrite Hb1. by apply insert_id.
Qed.

Lemma scan_bindings_passed keys : ∀ s, kernel s = false →
  wp (scan_bindings env kenv keys) (λ r s', ∀ f, r = Ok f → scan_step s s' ∧ (f = false → Bindings (state s') = Bindings (state s))) s.
Proof.
  induction keys as [|key keys IH]; intros s Hk; cbn [scan_bindings].
  { apply wp_ret. intros f [= <-]. split; [apply scan_step_same; [apply scan_kept_refl|done]|done]. }
  apply wp_bind. eapply wp_mono; [by apply scan_binding_passed|]. intros [f1|e] s1 H1; [|done].
  destruct (H1 f1 eq_refl) as [Hs1 Hb1]. apply wp_bind. eapply wp_mono; [apply IH; by destruct Hs1 as [[-> _] _]|].
  intros [f2|e] s2 H2; [|done]. destruct (H2 f2 eq_refl) as [Hs2 Hb2]. apply wp_ret. intros f [= <-].
  split; [by eapply scan_step_trans|]. intros [-> ->]%orb_false_iff. rewrite Hb2 by done. by apply Hb1.
Qed.

Lemma delivered_passed cs st st' b b' :
  (∀ id key mid payload, delivered st id key mid (json_compact payload) → delivered st' id key mid (json_compact payload)) →
  passed cs st b b' → passed cs st' b b'.
Proof. intros Hd (?&?&?&?&H). split_and!; try done. intros c ? ? ? ?. destruct (H c) as [mid ?]; eauto. Qed.
End lsfs.

(** ** The theorems *)

Section theorems.
Context (env : Env) (kenv : KernelEnv) (Henv : env_ok env) {E : Ed25519}.

(** C40: The delivery of persisted kernel events terminates.  The loop re-reads the
    application's list from the state in every round; with one round more than the list
    has events it has ended, and its outcome is that of walking the list once, whatever
    the disk, the mailbox limits and the payloads do. *)
Theorem persisted_loop_terminates id s fuel :
  length (pending_events (state s) id) < fuel →
  persisted_loop env fuel id s = as_loop (deliverPersistedKernelLocked env id s).
Proof using.
  intros Hf. rewrite (loop_ends env id (pending_events (state s) id) fuel s eq_refl Hf). done.
Qed.


(** The cursor of an event source passes only delivered commits.  After a scan
    without the kernel bridge, every binding is still there with the same identity and a
    cursor that has not moved back, and each artifact commit of its context between the
    old and the new cursor has its message in the committed mailbox: backpressure and
    batch limits stop the cursor before the first commit that was not delivered. *)
Theorem lsfs_cursor_delivered s s' key b :
  kernel s = false → deliverLSFS env kenv s = (Ok (), s') → Bindings (state s) !! key = Some b →
  ∃ b', Bindings (state s') !! key = Some b' ∧ passed (store s) (committed s') b b'.
Proof using.
  intros Hk H Hb. assert (wp (deliverLSFS env kenv) (λ r s', r = Ok () →
    ∃ b', Bindings (state s') !! key = Some b' ∧ passed (store s) (committed s') b b') s) as Hwp;
    [|by apply (wp_run _ _ _ _ _ Hwp H)].
  unfold deliverLSFS. apply wp_bind, wp_gets, wp_bind. eapply wp_mono; [by apply scan_bindings_passed|].
  intros [f|e] s1 H1; [|done]. destruct (H1 f eq_refl) as [[_ Hs1] Hb1].
  destruct f; cbn beta iota.
  - apply wp_persist; [|done]. intros _. destruct (Hs1 key b Hb) as (b' & Hb' & Hp). exists b'. split; [exact Hb'|].
    eapply delivered_passed; [|exact Hp]. intros. by apply delivered_durable.
  - apply wp_ret. intros _. exists b. rewrite Hb1 by done. split; [done|apply passed_refl].
Qed.
End theorems.

(** ** The theorems at sample runs *)

(** A bridge whose queues hold one port event, and which accepts everything. *)
Definition port_event : KernelEvent := KEv.mk "" "" false 1 7 1 2 0 99.
Definition bridge : KernelEnv :=
  mkKernelEnv (λ _, Ok "boot-1") (λ _ _, Ok 1%Z) (λ _ _, Ok 2%Z) (λ _ _ _ _, None) (λ _ _ _, None)
    (λ _ _, [Ok port_event]) (λ _ _ _, None) (λ _ _, Ok [port_event]) (λ _ _ _, None).

Definition bridged (ops : list op) : Supervisor := fold_left (λ s o, snd (exec Sample.env bridge o s)) ops Sample.start.

Lemma bridged_create_reachable : reachable Sample.env bridge (bridged [OCreate "root" "alice" "on_event"; OBridge true]).
Proof.
  exists Sample.caps, 0, [], [], Sample.start. split; [reflexivity|].
  eapply rtc_l; [by apply (step_op _ _ _ (OCreate "root" "alice" "on_event"))|].
  apply rtc_once. by apply (step_op _ _ _ (OBridge true)).
Qed.

(** A shutdown has left one event in the list. *)
Definition pending_run : Supervisor := bridged [OCreate "root" "alice" "on_event"; OBridge true; OSnapshot].

Lemma persisted_loop_terminates_witness :
  length (pending_events (state pending_run) Sample.app) = 1 ∧
  persisted_loop Sample.env 2 Sample.app pending_run =
    as_loop (deliverPersistedKernelLocked Sample.env Sample.app pending_run).
Proof.
  assert (length (pending_events (state pending_run) Sample.app) = 1) as H by (by vm_compute).
  split; [exact H|]. apply persisted_loop_terminates. rewrite H. lia.
Defined.

Definition acked (id : string) (ev : Z) (c : kernel_call) : bool :=
  match c with Acked id' ev' => bool_decide (id = id' ∧ ev = ev') | _ => false end.


Definition source_ops : list op :=
  [OCreate "root" "alice" "on_event"; OAddBinding "root" Sample.app "b" "" 0; OImportArtifact "root" Sample.app "k" "{}"].
Definition source_key : string := Sample.app +:+ ":b".

Lemma lsfs_cursor_delivered_witness : ∃ b b' s',
  deliverLSFS Sample.env Sample.kenv (Sample.run source_ops) = (Ok (), s') ∧
  Bindings (state (Sample.run source_ops)) !! source_key = Some b ∧ Bindings (state s') !! source_key = Some b' ∧
  passed (store (Sample.run source_ops)) (committed s') b b'.
Proof.
  destruct (ok_run (deliverLSFS Sample.env Sample.kenv) (Sample.run source_ops)) as ([] & s' & H); [by vm_compute|].
  destruct (some_of (Bindings (state (Sample.run source_ops)) !! source_key)) as [b Hb]; [by vm_compute|].
  assert (kernel (Sample.run source_ops) = false) as Hk by (by vm_compute).
  destruct (lsfs_cursor_delivered Sample.env Sample.kenv _ _ _ _ Hk H Hb) as (b' & Hb' & Hp).
  exact (ex_intro _ b (ex_intro _ b' (ex_intro _ s' (conj H (conj Hb (conj Hb' Hp)))))).
Defined.

(** The commits posted so far for an application. *)
Definition posted (id : string) (s : Supervisor) : list Z :=
  omap (λ c, match c with Posted id' cur => if decide (id = id') then Some cur else None | _ => None end) (calls s).

Definition scanned_run : Supervisor := bridged (source_ops ++ [OBridge true; OLSFS]).
Definition restarted (s : Supervisor) : Supervisor :=
  snd (load Sample.env [] [] (committed s) (reopened Sample.caps s)).

(** With the kernel bridge a commit is posted again after a restart.  One artifact is
    committed and scanned without any error; its post has happened and the cursor in
    memory has passed it, but the cursor on disk has not, and after a restart the next
    scan posts the same commit a second time. *)
Theorem lsfs_post_repeated :
  is_ok (fst (deliverLSFS Sample.env bridge (bridged (source_ops ++ [OBridge true])))) = true ∧
  posted Sample.app scanned_run = [1%Z] ∧
  Bind.Cursor <$> Bindings (state scanned_run) !! source_key = Some 1%Z ∧
  Bind.Cursor <$> Bindings (committed scanned_run) !! source_key = Some 0%Z ∧
  posted Sample.app (snd (deliverLSFS Sample.env bridge (snd (SetKernelBridge true (restarted scanned_run))))) = [1%Z; 1%Z].
Proof. split_and!; by vm_compute. Qed.
