(* ===== verification/ErrorProperties.v ===== *)
(** * Failed requests

    What a client that gets an error can rely on: a request that was refused, or whose
    commit failed, has left no effect. *)

From Stdlib Require Import Ascii.
From stdpp Require Import base tactics option list gmap sets strings numbers pretty sorting relations.
From S2P Require Import Prelude Monad GoLib Json Crypto Ledger Policy ContextStore State Taint Mailbox.
From S2P Require Import Lifecycle Revocation Witness Runner Gateway Hostfs Wake KernelWake Web Invariant Safety.
From S2P Require Import MailboxProofs WakeProofs System Durability SystemProperties.

(** An error leaves the books on disk as they were.  A denial may still add to the
    audit log, and an escalation to the confirmations. *)
Definition all_or_nothing {A} (m : M Supervisor A) : Prop :=
  ∀ s, Synced s → wp m (λ r s', is_ok r = false → books (committed s') = books (committed s)) s.

Create HintDb atomicity.

Ltac nothing :=
  lazymatch goal with
  | |- is_ok (Ok _) = false → _ => intros [=]
  | Hs : Synced ?s |- is_ok (Err _) = false → books (committed ?s') = books (committed ?s) =>
      intros _; first [reflexivity|exact (proj1 Hs)|match goal with H : committed _ = committed _ |- _ => exact (f_equal books H) end]
  | _ => idtac
  end.

Ltac atomic_steps := intros s Hs; sup_steps; nothing.

Section requests.
Context (env : Env).

Lemma atomic_Enqueue principal id key payload : all_or_nothing (Enqueue env principal id key payload).
Proof.
  intros s Hs. unfold Enqueue. sup_steps; nothing.
  eapply wp_mono; [apply enqueue_delivery|]. intros r s' Hd. destruct Hd; sup_steps; nothing.
Qed.

Lemma fold_taints_kept id ms : ∀ s, wp (fold_taints id ms) (λ r s', r = Ok () ∧ committed s' = committed s) s.
Proof.
  induction ms as [|m ms IH]; intros s; simpl; [by sup_steps|]. apply wp_bind, commits_accumulate; intros _; (eapply wp_mono; [apply IH|done]).
Qed.

Lemma atomic_ClaimMailbox principal id : all_or_nothing (ClaimMailbox env principal id).
Proof.
  intros s Hs. unfold ClaimMailbox. sup_steps; nothing.
  eapply wp_mono; [apply fold_taints_kept|]. intros r s' [-> Hc]. sup_steps; nothing.
Qed.

Lemma atomic_Ack principal id mid : all_or_nothing (AckMailbox env principal id mid).
Proof. unfold AckMailbox. atomic_steps. Qed.

Lemma atomic_requeue id mid : all_or_nothing (requeueClaim env id mid).
Proof. unfold requeueClaim. atomic_steps. Qed.

Lemma atomic_foldTaint id taint : all_or_nothing (foldTaint env id taint).
Proof. unfold foldTaint, accumulateTaint. atomic_steps. Qed.

Lemma atomic_web_finish principal id req status : all_or_nothing (web_finish env principal id req status).
Proof. unfold web_finish, accumulateTaint. atomic_steps. Qed.

Lemma wp_store_kept {A} (f : bool → M ContextStore A) s (Q : result error A → Supervisor → Prop) :
  (∀ r s', committed s' = committed s → Q r s') → wp (with_store env f) Q s.
Proof. intros H. apply wp_with_store, wp_intro. intros r cs _. by apply H. Qed.

Lemma atomic_Create principal owner wake : all_or_nothing (CreateApplication env principal owner wake).
Proof.
  intros s Hs. unfold CreateApplication, next_kernel_id, with_store_random. sup_steps; nothing.
  apply wp_store_kept. intros [c|e] s1 Hc; sup_steps; nothing.
Qed.

Lemma atomic_Fork principal parent owner wake : all_or_nothing (ForkApplication env principal parent owner wake).
Proof.
  intros s Hs. unfold ForkApplication, next_kernel_id, with_store_random. sup_steps; nothing.
  apply wp_store_kept. intros [c|e] s1 Hc; sup_steps; nothing.
Qed.

Lemma atomic_Retire principal id : all_or_nothing (RetireApplication env principal id).
Proof.
  intros s Hs. unfold RetireApplication, expireMailboxLocked, drop_handles. sup_steps; nothing.
Qed.

Lemma atomic_SetState principal id st : all_or_nothing (SetApplicationState env principal id st).
Proof. unfold SetApplicationState. atomic_steps. Qed.

Lemma atomic_SetLimit principal id limit : all_or_nothing (SetTokenLimit env principal id limit).
Proof. unfold SetTokenLimit. atomic_steps. Qed.

Lemma atomic_SetRoute principal id backends : all_or_nothing (SetRoutePolicy env principal id backends).
Proof. unfold SetRoutePolicy. atomic_steps. Qed.

Lemma atomic_SetConcurrency n : all_or_nothing (SetTurnConcurrency n).
Proof. unfold SetTurnConcurrency. atomic_steps. Qed.

Lemma atomic_AddTimer principal id t d i payload : all_or_nothing (AddTimer env principal id t d i payload).
Proof. unfold AddTimer. atomic_steps. Qed.

Lemma atomic_Pages id : all_or_nothing (ContextPages env id).
Proof. intros s Hs. unfold ContextPages. sup_steps; nothing. apply wp_store_kept. intros r s1 Hc _. by rewrite Hc. Qed.

Lemma atomic_AuditPages principal id : all_or_nothing (AuditContextPages env principal id).
Proof. unfold AuditContextPages. atomic_steps. Qed.

Lemma atomic_escalate order principal a text : all_or_nothing (escalateExportLocked env order principal a text).
Proof. unfold escalateExportLocked, sweepConfirmationsLocked. atomic_steps. Qed.

Lemma atomic_viaRequest principal a text req : all_or_nothing (exportViaRequestLocked env principal a text req).
Proof. unfold exportViaRequestLocked. atomic_steps. Qed.

(** A gate that lets the export through has not touched the books either. *)
Lemma export_kept order principal id text c e req s : Synced s →
  wp (exportApplication env order principal id text c e req) (λ _ s', books (committed s') = books (committed s)) s.
Proof.
  intros Hs. unfold exportApplication, exportViaRequestLocked, escalateExportLocked, sweepConfirmationsLocked.
  sup_steps; first [reflexivity|exact (proj1 Hs)].
Qed.

Lemma atomic_export order principal id text c e req : all_or_nothing (exportApplication env order principal id text c e req).
Proof. intros s Hs. eapply wp_mono; [by apply export_kept|]. by intros r s' H _. Qed.

Lemma atomic_Settle principal req approve : all_or_nothing (SettleConfirmation env principal req approve).
Proof. unfold SettleConfirmation. atomic_steps. Qed.

Lemma atomic_Revoke {E : Ed25519} principal token reason : all_or_nothing (RevokeCapabilityToken env principal token reason).
Proof. unfold RevokeCapabilityToken. atomic_steps. Qed.

Lemma atomic_check {E : Ed25519} principal id o a token : all_or_nothing (checkToken env principal id o a token).
Proof. unfold checkToken. atomic_steps. Qed.

Lemma atomic_Cosign {E : Ed25519} principal cp : all_or_nothing (RecordCosignature env principal cp).
Proof. unfold RecordCosignature. atomic_steps. Qed.

Lemma atomic_Mount principal id g m l ttl : all_or_nothing (MountHostfs env principal id g m l ttl).
Proof. unfold MountHostfs. atomic_steps. Qed.

Lemma atomic_Unmount principal id : all_or_nothing (UnmountHostfs env principal id).
Proof. unfold UnmountHostfs. atomic_steps. Qed.

Lemma atomic_stage principal id key payload direction action (before : M Supervisor unit) :
  (∀ s, wp before (λ r s', r = Ok () ∧ committed s' = committed s) s) →
  all_or_nothing (stage_transfer env principal id key payload direction action before).
Proof.
  intros Hb s Hs. unfold stage_transfer. sup_steps; nothing.
  eapply wp_mono; [apply Hb|]. intros r s' [-> Hc]. sup_steps; nothing.
Qed.

Lemma atomic_stage_export principal id key payload :
  all_or_nothing (stage_transfer env principal id key payload "export" "artifact.transfer.export" (mret ())).
Proof. apply atomic_stage. intros s. by sup_steps. Qed.

Lemma atomic_ExportArtifact order principal id key payload : all_or_nothing (ExportArtifact env order principal id key payload).
Proof.
  intros s Hs. unfold ExportArtifact. apply wp_bind.
  eapply wp_mono; [apply wp_and; [by apply export_kept|by apply commits_export]|]. intros [t|e] s1 [Hk Hs1]; [|done].
  eapply wp_mono; [by apply atomic_stage_export|]. intros r s2 H2 Hr. rewrite H2 by done. exact Hk.
Qed.

Lemma atomic_CommitImport principal id key payload : all_or_nothing (CommitImport env principal id key payload).
Proof. apply atomic_stage. intros s. by apply commits_accumulate. Qed.

Lemma atomic_AddBinding principal id b r after : all_or_nothing (AddLSFSBinding env principal id b r after).
Proof.
  intros s Hs. unfold AddLSFSBinding. sup_steps; nothing.
  all: apply wp_store_kept; intros [x|e] s1 Hc; sup_steps; nothing.
Qed.

Lemma atomic_SetBinding principal id b e : all_or_nothing (SetLSFSBindingEnabled env principal id b e).
Proof. unfold SetLSFSBindingEnabled. atomic_steps. Qed.

Lemma atomic_ImportArtifact principal id key payload : all_or_nothing (ImportArtifact env principal id key payload).
Proof.
  intros s Hs. unfold ImportArtifact. sup_steps; nothing. apply wp_store_kept. intros [x|e] s1 Hc; sup_steps; nothing.
Qed.

Lemma atomic_bridge attached : all_or_nothing (SetKernelBridge attached).
Proof. unfold SetKernelBridge, closeKernelHandlesLocked. atomic_steps. Qed.

Lemma atomic_CreateChannel principal ch kind : all_or_nothing (CreateChannel env principal ch kind).
Proof. unfold CreateChannel. atomic_steps. Qed.

Lemma atomic_RevokeChannel principal ch : all_or_nothing (RevokeChannel env principal ch).
Proof. unfold RevokeChannel. atomic_steps. Qed.

Lemma atomic_Bind principal ch ext id : all_or_nothing (BindConversation env principal ch ext id).
Proof. unfold BindConversation. atomic_steps. Qed.

Lemma atomic_Deliver ch ext seq payload : all_or_nothing (DeliverInbound env ch ext seq payload).
Proof.
  intros s Hs. unfold DeliverInbound. sup_steps; nothing.
  eapply wp_mono; [apply enqueue_delivery|]. intros r s1 Hd. unfold sourceOf. destruct Hd; sup_steps; nothing.
Qed.

Lemma deny_kept principal id mid e reason s : Synced s →
  wp (deny_reply env principal id mid e reason) (λ r s', is_ok r = false → books (committed s') = books (committed s)) s.
Proof. intros Hs. unfold deny_reply. sup_steps; nothing. Qed.

Lemma enqueueOutbox_kept key idem payload s :
  wp (enqueueOutboxLocked env key idem payload) (λ _ s', committed s' = committed s) s.
Proof. unfold enqueueOutboxLocked. by sup_steps. Qed.

Lemma atomic_Reply principal id mid : all_or_nothing (Reply env principal id mid).
Proof.
  intros s Hs. unfold Reply. sup_steps;
    lazymatch goal with |- wp (deny_reply _ _ _ _ _ _) _ _ => by apply deny_kept | _ => nothing end.
  eapply wp_mono; [apply enqueueOutbox_kept|]. intros [e|err] s1 Hc; [sup_steps; nothing|nothing].
Qed.

Lemma atomic_ClaimOutbox ch ext : all_or_nothing (ClaimOutbox env ch ext).
Proof. unfold ClaimOutbox. atomic_steps. Qed.

Lemma atomic_AckOutbox principal e receipt : all_or_nothing (AckOutbox env principal e receipt).
Proof. unfold AckOutbox. atomic_steps. Qed.

Lemma accumulate_kept id taint s : wp (accumulateTaint id taint) (λ r s', r = Ok () ∧ committed s' = committed s) s.
Proof. by apply commits_accumulate. Qed.

Lemma atomic_claimTurn order : all_or_nothing (claimTurn env order).
Proof.
  intros s Hs. unfold claimTurn. apply wp_bind, wp_now, wp_bind, wp_get.
  destruct (pick order _ (ticked s)) as [c|]; [|sup_steps; nothing].
  apply wp_bind. eapply wp_mono; [apply accumulate_kept|]. intros r s1 [-> Hc]. sup_steps; nothing.
Qed.

Lemma atomic_clearInflight id : all_or_nothing (clearInflight id).
Proof. unfold clearInflight. atomic_steps. Qed.
End requests.

#[export] Hint Resolve atomic_Enqueue atomic_ClaimMailbox atomic_Ack atomic_requeue atomic_foldTaint atomic_web_finish atomic_Create
  atomic_Fork atomic_Retire atomic_SetState atomic_SetLimit atomic_SetRoute atomic_SetConcurrency atomic_AddTimer
  atomic_Pages atomic_AuditPages atomic_export atomic_Settle atomic_Revoke atomic_check atomic_Cosign atomic_Mount atomic_Unmount
  atomic_stage_export atomic_ExportArtifact atomic_CommitImport atomic_AddBinding atomic_SetBinding atomic_ImportArtifact
  atomic_bridge atomic_CreateChannel atomic_RevokeChannel atomic_Bind atomic_Deliver atomic_Reply atomic_ClaimOutbox
  atomic_AckOutbox atomic_claimTurn atomic_clearInflight : atomicity.

(** The operations a client, or a worker between two model calls, makes as one request.
    The passes over timers, event sources and kernel queues and the settlement of a turn
    commit several times. *)
Definition is_request (o : op) : bool :=
  match o with
  | OAttach | OTimers | OLSFS | OKernel | OSnapshot => false
  | OFinish _ _ _ _ _ _ | OExecute _ _ _ _ => false
  | _ => true
  end.

Section theorems.
Context (env : Env) (kenv : KernelEnv) {E : Ed25519}.

Lemma atomic_ignore {A} (m : M Supervisor A) : all_or_nothing m → all_or_nothing (ignore m).
Proof.
  intros Hm s Hs. unfold ignore. apply wp_bind. eapply wp_mono; [by apply Hm|].
  intros [a|e] s' H; [|exact H]. by apply wp_ret.
Qed.
Hint Resolve atomic_ignore : atomicity.

(** C22: A failed request has no effect.  When a request ends in an error, be it a refusal,
    a full mailbox, a denied export or a commit that failed, everything on disk but the
    audit log, the counters, the confirmations and the event sources is as it was before
    the request. *)
Theorem failed_request_no_effect s o e s' :
  reachable env kenv s → is_request o = true → exec env kenv o s = (Err e, s') →
  books (committed s') = books (committed s).
Proof using.
  intros Hr Ho H. pose proof (reachable_synced env kenv s Hr) as Hs.
  assert (all_or_nothing (exec env kenv o)) as Ha by (destruct o; try discriminate Ho; simpl; auto with atomicity).
  exact (wp_run _ _ _ _ _ (Ha s Hs) H eq_refl).
Qed.
End theorems.

(** The disk stops accepting commits when the application is to be retired. *)
Definition failing_env : Env := mkEnv Z.of_nat (entropy Sample.env) (λ t, bool_decide (t < 8)).
Definition failing_run : Supervisor := snd (exec failing_env Sample.kenv (OCreate "root" "alice" "on_event") Sample.start).

Lemma failing_reachable : reachable failing_env Sample.kenv failing_run.
Proof.
  exists Sample.caps, 0, [], [], Sample.start. split; [reflexivity|].
  apply rtc_once. by apply (step_op _ _ _ (OCreate "root" "alice" "on_event")).
Qed.

Lemma failed_request_no_effect_witness : ∃ s',
  exec failing_env Sample.kenv (ORetire "root" Sample.app) failing_run = (Err ErrIO, s') ∧
  books (committed s') = books (committed failing_run).
Proof.
  assert (fst (exec failing_env Sample.kenv (ORetire "root" Sample.app) failing_run) = Err ErrIO) as H by (by vm_compute).
  destruct (exec failing_env Sample.kenv (ORetire "root" Sample.app) failing_run) as [r s'] eqn:Hx. simpl in H. subst r.
  exact (ex_intro _ s' (conj eq_refl
    (failed_request_no_effect failing_env Sample.kenv _ (ORetire "root" Sample.app) _ _ failing_reachable eq_refl Hx))).
Defined.
