(* ===== verification/Protocol.v ===== *)
(** * protocol.go: messages on the wire

    The engine and the control plane speak JSON-RPC, one message per line.  This file
    holds the message type, the encoder, the line reader and the validity rules of the
    decoder, and shows that what is written is read back. *)

From Stdlib Require Import Ascii.
From stdpp Require Import base tactics option list gmap strings numbers pretty.
From S2P Require Import Prelude GoLib Json.

Module Rpc.
Record RPCError := mkError {
  Code : Z;
  Text : string;
}.

(** A raw message that is absent is the empty string. *)
Record Message := mk {
  JSONRPC : string;
  ID : string;
  Method : string;
  Params : string;
  Result : string;
  Error : option RPCError;
}.
End Rpc.
Abbreviation Message := Rpc.Message.
Abbreviation RPCError := Rpc.RPCError.

Global Instance RPCError_eq_dec : EqDecision RPCError.
Proof. solve_decision. Defined.
Global Instance Message_eq_dec : EqDecision Message.
Proof. solve_decision. Defined.

Definition empty_message : Message := Rpc.mk "" "" "" "" "" None.

(** ** Writing *)

Definition rpc_error_json (e : RPCError) : string :=
  obj_literal [("code", json_int (Rpc.Code e)); ("message", json_quote (Rpc.Text e))].

(** A raw field is left out when empty, and has to be valid otherwise. *)
Definition raw_part (name raw : string) : option (list (string * string)) :=
  if decide (raw = "") then Some []
  else if json_valid raw then Some [(name, json_compact raw)] else None.

Definition marshal_message (m : Message) : option string :=
  id ← raw_part "id" (Rpc.ID m);
  params ← raw_part "params" (Rpc.Params m);
  result ← raw_part "result" (Rpc.Result m);
  let method := if decide (Rpc.Method m = "") then [] else [("method", json_quote (Rpc.Method m))] in
  let err := match Rpc.Error m with Some e => [("error", rpc_error_json e)] | None => [] end in
  Some (obj_literal ([("jsonrpc", json_quote (Rpc.JSONRPC m))] ++ id ++ method ++ params ++ result ++ err)).

Definition newline : ascii := "010"%char.
Definition carriage_return : ascii := "013"%char.

(** The bytes [Encoder.Write] sends. *)
Definition Write (m : Message) : option string :=
  data ← marshal_message m; Some (data +:+ String newline "").

(** ** Lines *)

(** The buffer of the scanner: a line and its end have to fit. *)
Definition maxTokenSize : Z := 4194304.

(** The bytes up to the first newline, and what follows it when there is one. *)
Fixpoint split_line (s : string) : string * option string :=
  match s with
  | EmptyString => ("", None)
  | String c r =>
      if decide (c = newline) then ("", Some r)
      else let '(l, rest) := split_line r in (String c l, rest)
  end.

Fixpoint drop_cr (s : string) : string :=
  match s with
  | EmptyString => ""
  | String c r => if decide (c = carriage_return ∧ r = "") then "" else String c (drop_cr r)
  end.

Inductive scan : Type :=
  | ScanLine (line rest : string)
  | ScanEnd
  | ScanTooLong.

(** [bufio.Scanner.Scan] on what is still to come. *)
Definition scan_line (s : string) : scan :=
  if decide (s = "") then ScanEnd
  else
    let '(l, rest) := split_line s in
    if decide (maxTokenSize ≤ len l)%Z then ScanTooLong
    else ScanLine (drop_cr l) (default "" rest).

(** ** Reading *)

(** The members of an object with the text of each value. *)
Fixpoint raw_members (fuel : nat) (s : string) : option (list (string * (string * json)) * string) :=
  match fuel with
  | 0 => None
  | S fuel =>
      r ← expect quote (skip_ws s);
      '(raw, r1) ← scan_string r;
      r2 ← expect ":" (skip_ws r1);
      let r2 := skip_ws r2 in
      '(v, r3) ← value fuel 1 r2;
      let text := String.substring 0 (String.length r2 - String.length r3) r2 in
      match expect "," (skip_ws r3) with
      | Some r4 => '(ms, rest) ← raw_members fuel r4; Some ((unquote 0 raw, (text, v)) :: ms, rest)
      | None => r4 ← expect "}" (skip_ws r3); Some ([(unquote 0 raw, (text, v))], r4)
      end
  end.

Definition raw_object (s : string) : option (list (string * (string * json))) :=
  r ← expect "{" (skip_ws s);
  match expect "}" (skip_ws r) with
  | Some _ => Some []
  | None => '(ms, _) ← raw_members (2 * String.length s + 2) r; Some ms
  end.

Definition set_error (acc : option RPCError * bool) (v : json) : option RPCError * bool :=
  match v with
  | JNull => (None, snd acc)
  | JObj _ =>
      let old := default (Rpc.mkError 0 "") (fst acc) in
      let '(code, ok1) := decode_field as_int64 "code" (Rpc.Code old) (Some v) in
      let '(text, ok2) := decode_field as_string "message" (Rpc.Text old) (Some v) in
      (Some (Rpc.mkError code text), snd acc && ok1 && ok2)
  | _ => (fst acc, false)
  end.

Definition set_string (acc : string * bool) (v : json) : string * bool :=
  match v with
  | JNull => acc
  | JStr s => (s, snd acc)
  | _ => (fst acc, false)
  end.

(** One member of the object; the flag tells whether all types fit so far. *)
Definition set_field (acc : Message * bool) (kv : string * (string * json)) : Message * bool :=
  let '(m, ok) := acc in
  let '(key, (text, v)) := kv in
  if field_match "jsonrpc" key then
    let '(x, ok) := set_string (Rpc.JSONRPC m, ok) v in ({| m with Rpc.JSONRPC := x |}, ok)
  else if field_match "id" key then ({| m with Rpc.ID := text |}, ok)
  else if field_match "method" key then
    let '(x, ok) := set_string (Rpc.Method m, ok) v in ({| m with Rpc.Method := x |}, ok)
  else if field_match "params" key then ({| m with Rpc.Params := text |}, ok)
  else if field_match "result" key then ({| m with Rpc.Result := text |}, ok)
  else if field_match "error" key then
    let '(x, ok) := set_error (Rpc.Error m, ok) v in ({| m with Rpc.Error := x |}, ok)
  else acc.

(** [json.Unmarshal] into a message. *)
Definition unmarshal_message (s : string) : option Message :=
  match parse s with
  | Some JNull => Some empty_message
  | Some (JObj _) =>
      ms ← raw_object s;
      let '(m, ok) := fold_left set_field ms (empty_message, true) in
      if (ok : bool) then Some m else None
  | _ => None
  end.

Definition validID (id : string) : bool :=
  if decide (id = "") then true
  else match parse id with
       | Some JNull | Some (JStr _) | Some (JNum _) => true
       | _ => false
       end.

Definition starts_with (c : ascii) (s : string) : bool :=
  match s with String d _ => bool_decide (d = c) | EmptyString => false end.

(** A request or notification has a method and structured parameters only; a response
    has an identifier and either a result or an error. *)
Definition well_formed (m : Message) : bool :=
  bool_decide (Rpc.JSONRPC m = "2.0") && validID (Rpc.ID m) &&
  if decide (Rpc.Method m ≠ "") then
    bool_decide (Rpc.Result m = "") && bool_decide (Rpc.Error m = None) &&
    (bool_decide (Rpc.Params m = "") || starts_with "{" (Rpc.Params m) || starts_with "[" (Rpc.Params m))
  else
    bool_decide (Rpc.ID m ≠ "") &&
    negb (eqb (bool_decide (Rpc.Result m ≠ "")) (bool_decide (Rpc.Error m ≠ None))) &&
    bool_decide (Rpc.Params m = "").

Inductive read : Type :=
  | Received (m : Message)
  | ParseError (* an [RPCError] with code -32700 *)
  | InvalidMessage
  | Broken. (* the end of the stream or a line that is too long *)

(** [Decoder.Read]: what was read and what is still to come. *)
Definition Read (s : string) : read * string :=
  match scan_line s with
  | ScanEnd | ScanTooLong => (Broken, s)
  | ScanLine line rest =>
      if json_valid line then
        match unmarshal_message line with
        | Some m => (if well_formed m then Received m else InvalidMessage, rest)
        | None => (InvalidMessage, rest)
        end
      else (ParseError, rest)
  end.

(** ** Integers are read back *)

Lemma scan_number_negative lit rest :
  natural_literal lit = true → delimited rest = true →
  scan_number (String "-"%char (lit +:+ rest)) = Some (String "-"%char lit, rest).
Proof.
  intros Hl Hr. pose proof (scan_number_natural lit rest Hl Hr) as H.
  assert (∃ c t, lit = String c t ∧ is_digit c = true) as (c & t & -> & Hc).
  { destruct lit as [|c t]; [done|]. exists c, t. split; [done|].
    destruct c as [[] [] [] [] [] [] [] []]; try done; by apply andb_true_iff in Hl as [? _]. }
  revert H. unfold scan_number. rewrite string_app_cons.
  assert (match String c (t +:+ rest) with String "-"%char r => ("-", r) | _ => ("", String c (t +:+ rest)) end
    = ("", String c (t +:+ rest))) as ->.
  { apply digit_char in Hc. repeat (apply elem_of_cons in Hc as [->|Hc]; [done|]). by apply elem_of_nil in Hc. }
  destruct (match String c (t +:+ rest) with String "0"%char r => Some ("0", r) | _ => digits1 (String c (t +:+ rest)) end)
    as [[int s2]|]; [|done]. cbn [mbind option_bind].
  destruct (match s2 with String "."%char r => '(d, rest) ← digits1 r; Some ("." +:+ d, rest) | _ => Some ("", s2) end)
    as [[frac s3]|]; [|done]. cbn [mbind option_bind].
  match goal with |- (?e ≫= _) = _ → _ => destruct e as [[exp s4]|]; [|done] end. cbn [mbind option_bind].
  intros [= H ->]. cbn in H. by rewrite <-H.
Qed.

Lemma pretty_negative z : (z < 0)%Z → pretty z = String "-"%char (pretty (- z)%Z).
Proof. destruct z as [|p|p]; [lia|lia|]. intros _. reflexivity. Qed.

Lemma reads_as_int z : reads_as 0 (json_int z) (JNum (pretty z)).
Proof.
  unfold json_int. destruct (decide (0 ≤ z)%Z) as [Hz|Hz].
  - destruct (pretty_natural z Hz) as [Hn _]. exact (reads_as_print (JNum (pretty z)) Hn).
  - destruct (pretty_natural (- z) ltac:(lia)) as [Hn _]. rewrite pretty_negative by lia.
    intros fuel depth rest Hf _ Hr. destruct fuel as [|fuel]; [simpl in Hf; lia|].
    rewrite string_app_cons. cbn [value]. rewrite skip_ws_head by done. cbn beta iota.
    rewrite decide_False by done. rewrite decide_False by done. rewrite decide_False by done.
    change (strip_prefix "null" (String "-"%char (pretty (- z)%Z +:+ rest))) with (@None string).
    change (strip_prefix "true" (String "-"%char (pretty (- z)%Z +:+ rest))) with (@None string).
    change (strip_prefix "false" (String "-"%char (pretty (- z)%Z +:+ rest))) with (@None string).
    cbn beta iota. by rewrite scan_number_negative.
Qed.

Lemma ParseInt_pretty z : (- MaxInt64 ≤ z ≤ MaxInt64)%Z → ParseInt (pretty z) = Some z.
Proof.
  intros Hz. destruct (decide (0 ≤ z)%Z); [by apply (as_int64_pretty z); unfold MaxInt64 in *; lia|].
  rewrite pretty_negative by lia. destruct (pretty_natural (- z) ltac:(lia)) as [Hn Hd].
  assert (pretty (- z)%Z ≠ "") as Hne by (by intros E; rewrite E in Hn).
  unfold ParseInt. change (strip_prefix "-" (String "-"%char (pretty (- z)%Z))) with (Some (pretty (- z)%Z)).
  cbn beta iota zeta. rewrite decide_False, Hd by done. cbn [mbind option_bind].
  rewrite decide_True by (unfold MaxInt64 in Hz; lia). f_equal. lia.
Qed.

(** ** Messages are read back *)

(** Text without a line end. *)
Definition one_line (s : string) : bool := negb (contains_byte (λ c, bool_decide (c = newline)) s).

Lemma one_line_cons c s : one_line (String c s) = bool_decide (c ≠ newline) && one_line s.
Proof. unfold one_line. cbn. rewrite negb_orb. by rewrite bool_decide_not. Qed.

Lemma one_line_app s t : one_line (s +:+ t) = one_line s && one_line t.
Proof.
  induction s as [|c s IH]; [done|]. rewrite string_app_cons, !one_line_cons, IH. by rewrite andb_assoc.
Qed.

Lemma split_line_app s rest : one_line s = true → split_line (s +:+ String newline rest) = (s, Some rest).
Proof.
  induction s as [|c s IH]; [done|]. rewrite one_line_cons. intros [Hc%bool_decide_eq_true Hs]%andb_true_iff.
  rewrite string_app_cons. cbn [split_line]. rewrite decide_False, IH by done. done.
Qed.

Lemma drop_cr_app s c : c ≠ carriage_return → drop_cr (s +:+ String c "") = s +:+ String c "".
Proof.
  intros Hc. induction s as [|d s IH]; [unfold drop_cr; simpl; case_decide as H; [by destruct H|done]|].
  rewrite string_app_cons. cbn [drop_cr]. rewrite decide_False, IH; [done|]. intros [_ H]. by destruct s.
Qed.

Lemma hex_value_line c z : hex_value c = Some z → bool_decide (c ≠ newline) = true.
Proof. intros H. apply bool_decide_eq_true. by intros ->. Qed.

(** The text of a string literal is on one line. *)
Lemma scan_one_line s : ∀ raw rest, scan_string s = Some (raw, rest) → one_line raw = true.
Proof.
  induction s as [s IH] using (induction_ltof1 _ String.length). unfold ltof in IH. intros raw rest.
  destruct s as [|c s]; [done|]. cbn [scan_string]. case_decide; [by intros [= <- <-]|]. case_decide.
  - destruct s as [|e s]; [done|]. destruct (one_of _ e || _) eqn:He.
    + destruct (scan_string s) as [[raw' rest']|] eqn:Hs; [|done]. intros [= <- <-]. rewrite !one_line_cons.
      rewrite (IH s ltac:(simpl; lia) _ _ Hs). subst c. rewrite andb_true_r. cbn.
      apply bool_decide_eq_true. intros ->. by vm_compute in He.
    + destruct (decide (e = "u"%char)); [|done]. destruct s as [|h1 [|h2 [|h3 [|h4 s]]]]; try done.
      destruct (hex4 h1 h2 h3 h4) as [z|] eqn:Hh; [|done]. cbn [mbind option_bind].
      destruct (scan_string s) as [[raw' rest']|] eqn:Hs; [|done]. intros [= <- <-]. subst.
      rewrite !one_line_cons, (IH s ltac:(simpl; lia) _ _ Hs). unfold hex4 in Hh.
      destruct (hex_value h1) eqn:E1; [|done]. destruct (hex_value h2) eqn:E2; [|done].
      destruct (hex_value h3) eqn:E3; [|done]. destruct (hex_value h4) eqn:E4; [|done].
      by rewrite (hex_value_line _ _ E1), (hex_value_line _ _ E2), (hex_value_line _ _ E3), (hex_value_line _ _ E4).
  - case_decide as Hc; [done|]. destruct (scan_string s) as [[raw' rest']|] eqn:Hs; [|done]. intros [= <- <-].
    rewrite one_line_cons, (IH s ltac:(simpl; lia) _ _ Hs), andb_true_r. apply bool_decide_eq_true. intros ->.
    by vm_compute in Hc.
Qed.

Lemma one_line_quote s : one_line (json_quote s) = true.
Proof.
  unfold json_quote. rewrite one_line_cons, one_line_app, one_line_cons.
  rewrite (scan_one_line _ _ _ (scan_quote_body s 0 0 "" eq_refl)). done.
Qed.

Lemma one_line_natural lit : natural_literal lit = true → one_line lit = true.
Proof.
  intros Hn. assert (all_digits lit = true) as H.
  { destruct lit as [|c l]; [done|]. unfold natural_literal in Hn.
    destruct c as [[] [] [] [] [] [] [] []]; simpl in *; try done. destruct l; [done|]. done. }
  clear Hn. induction lit as [|c lit IH]; [done|]. cbn in H. apply andb_true_iff in H as [Hc Hl].
  rewrite one_line_cons, IH, andb_true_r by done. apply bool_decide_eq_true. by intros ->.
Qed.

Lemma one_line_int z : one_line (json_int z) = true.
Proof.
  unfold json_int. destruct (decide (0 ≤ z)%Z).
  - by apply one_line_natural, pretty_natural.
  - rewrite pretty_negative, one_line_cons by lia. apply one_line_natural, pretty_natural. lia.
Qed.

Lemma one_line_join l : forallb one_line l = true → one_line (join_comma l) = true.
Proof.
  induction l as [|x l IH]; [done|]. cbn [forallb]. intros [Hx Hl]%andb_true_iff. destruct l as [|y l]; [done|].
  rewrite join_comma_cons, !one_line_app, Hx, IH by done. done.
Qed.

Lemma one_line_obj fs : forallb (λ kv, one_line (snd kv)) fs = true → one_line (obj_literal fs) = true.
Proof.
  intros H. unfold obj_literal. rewrite !one_line_app, one_line_join; [done|].
  induction fs as [|[k v] fs IH]; [done|]. cbn [forallb fmap list_fmap fst snd] in *. apply andb_true_iff in H as [Hv Hfs].
  rewrite !one_line_app, one_line_quote, Hv, IH by done. done.
Qed.

(** A raw message as the runtime makes them: compact, one value, on one line. *)
Record raw_ok (p : string) : Prop := {
  raw_value : ∃ v, reads_as 9000 p v;
  raw_head : ∃ c t, p = String c t ∧ is_ws c = false;
  raw_compact : json_compact p = p;
  raw_line : one_line p = true;
}.

(** What is known of one member of a message's text. *)
Record member_ok (f : string * (string * json)) : Prop := {
  mem_key : utf8 (fst f) = true;
  mem_reads : reads_as 9000 (fst (snd f)) (snd (snd f));
  mem_head : ∃ c t, fst (snd f) = String c t ∧ is_ws c = false;
  mem_line : one_line (fst (snd f)) = true;
}.

Lemma substring_prefix s t : String.substring 0 (String.length (s +:+ t) - String.length t) (s +:+ t) = s.
Proof.
  rewrite string_length_app. replace (String.length s + String.length t - String.length t) with (String.length s) by lia.
  induction s as [|c s IH]; [by destruct t|]. rewrite string_app_cons. cbn. by rewrite IH.
Qed.

Lemma raw_step f fuel tl :
  member_ok f → 2 * String.length (fst (snd f)) ≤ fuel → delimited tl = true →
  raw_members (S fuel) (literal_member f +:+ tl) =
    match expect "," (skip_ws tl) with
    | Some r4 => '(ms, rest) ← raw_members fuel r4; Some (f :: ms, rest)
    | None => r4 ← expect "}" (skip_ws tl); Some ([f], r4)
    end.
Proof.
  destruct f as [k [lit v]]. intros [Hk Hv Hh _] Hf Htl. cbn [fst snd] in *. unfold literal_member, json_quote. cbn [fst snd].
  rewrite !string_app_cons, <- !string_app_assoc. cbn [raw_members].
  rewrite skip_ws_head, expect_head by done. cbn [mbind option_bind]. rewrite string_app_cons.
  match goal with |- context [scan_string (_ +:+ String quote ?r)] => destruct (scan_json_quote k r Hk) as [Hq Hu] end.
  rewrite Hq. cbn [mbind option_bind]. rewrite Hu.
  match goal with |- context [expect ":" (skip_ws ?x)] => change x with (String ":"%char (lit +:+ tl)) end.
  rewrite skip_ws_head, expect_head by done. cbn [mbind option_bind].
  assert (skip_ws (lit +:+ tl) = lit +:+ tl) as ->.
  { destruct Hh as (c & t & -> & Hw). rewrite string_app_cons. by apply skip_ws_head. }
  rewrite Hv by (done || unfold maxNestingDepth; lia). cbn [mbind option_bind]. by rewrite substring_prefix.
Qed.

Lemma raw_members_as fs : ∀ fuel rest,
  fs ≠ [] → Forall member_ok fs → 2 * String.length (join_comma (map literal_member fs)) ≤ fuel →
  raw_members fuel (join_comma (map literal_member fs) +:+ "}" +:+ rest) = Some (fs, rest).
Proof.
  induction fs as [|f fs IH]; [done|]. intros fuel rest _ Hall Hf. apply Forall_cons_1 in Hall as [Hm Hall].
  assert (String.length (literal_member f) > String.length (fst (snd f))) as Hlen.
  { unfold literal_member. rewrite !string_length_app. simpl. lia. }
  destruct (decide (fs = [])) as [->|Hne].
  - cbn [map join_comma] in *. destruct fuel as [|fuel]; [lia|]. rewrite raw_step by (done || lia). done.
  - cbn [map] in *. rewrite join_comma_cons in * by (by destruct fs).
    rewrite !string_length_app in Hf. change (String.length ",") with 1 in Hf.
    destruct fuel as [|fuel]; [lia|]. rewrite <- !string_app_assoc, raw_step by (done || lia).
    change ("," +:+ ?x) with (String ","%char x). rewrite skip_ws_head, expect_head by done. cbn beta iota.
    rewrite IH by (done || lia). done.
Qed.

Definition literal_fields (fs : list (string * (string * json))) : list (string * string) := map (λ f, (fst f, fst (snd f))) fs.

Lemma obj_literal_members fs : obj_literal (literal_fields fs) = "{" +:+ join_comma (map literal_member fs) +:+ "}".
Proof.
  unfold obj_literal, literal_fields. do 2 f_equal. f_equal. exact (map_map _ _ fs).
Qed.

Lemma unmarshal_literal fs :
  fs ≠ [] → Forall member_ok fs →
  json_valid (obj_literal (literal_fields fs)) = true ∧
  unmarshal_message (obj_literal (literal_fields fs)) =
    let '(m, ok) := fold_left set_field fs (empty_message, true) in if (ok : bool) then Some m else None.
Proof.
  intros Hne Hall.
  assert (parse (obj_literal (literal_fields fs)) = Some (JObj (map (λ f, (fst f, snd (snd f))) fs))) as Hp.
  { apply (parse_reads_as (1 + 9000)); [|unfold maxNestingDepth; lia]. apply reads_as_obj; [lia|].
    eapply Forall_impl; [exact Hall|]. by intros f []. }
  unfold json_valid, unmarshal_message. rewrite Hp. split; [done|].
  assert (raw_object (obj_literal (literal_fields fs)) = Some fs) as ->; [|done].
  unfold raw_object. rewrite obj_literal_members. change ("{" +:+ ?x) with (String "{"%char x).
  rewrite skip_ws_head, expect_head by done. cbn [mbind option_bind].
  destruct fs as [|f fs]; [done|]. cbn [map].
  erewrite expect_join; [|unfold literal_member, json_quote; reflexivity|done|done].
  change (literal_member f :: map literal_member fs) with (map literal_member (f :: fs)).
  pose proof (raw_members_as (f :: fs) (2 * String.length (String "{"%char (join_comma (map literal_member (f :: fs)) +:+ "}")) + 2) "" Hne Hall) as H.
  rewrite string_app_nil_r in H. rewrite H; [done|]. simpl. rewrite string_length_app. lia.
Qed.

Lemma set_jsonrpc m ok t s : set_field (m, ok) ("jsonrpc", (t, JStr s)) = ({| m with Rpc.JSONRPC := s |}, ok).
Proof. reflexivity. Qed.
Lemma set_id m ok t v : set_field (m, ok) ("id", (t, v)) = ({| m with Rpc.ID := t |}, ok).
Proof. reflexivity. Qed.
Lemma set_method m ok t s : set_field (m, ok) ("method", (t, JStr s)) = ({| m with Rpc.Method := s |}, ok).
Proof. reflexivity. Qed.
Lemma set_params m ok t v : set_field (m, ok) ("params", (t, v)) = ({| m with Rpc.Params := t |}, ok).
Proof. reflexivity. Qed.
Lemma set_result m ok t v : set_field (m, ok) ("result", (t, v)) = ({| m with Rpc.Result := t |}, ok).
Proof. reflexivity. Qed.

Definition error_value (e : RPCError) : json :=
  JObj [("code", JNum (pretty (Rpc.Code e))); ("message", JStr (Rpc.Text e))].

Lemma set_error_value m t e :
  (- MaxInt64 ≤ Rpc.Code e ≤ MaxInt64)%Z → Rpc.Error m = None →
  set_field (m, true) ("error", (t, error_value e)) = ({| m with Rpc.Error := Some e |}, true).
Proof.
  intros Hc Hn. destruct e as [code text]. cbn [Rpc.Code] in Hc.
  change (set_field (m, true) ("error", (t, error_value (Rpc.mkError code text)))) with
    (let '(x, ok) := set_error (Rpc.Error m, true) (error_value (Rpc.mkError code text)) in ({| m with Rpc.Error := x |}, ok)).
  rewrite Hn. unfold set_error, error_value. cbn [Rpc.Code Rpc.Text fst snd default].
  change (decode_field as_int64 "code" 0%Z (Some (JObj [("code", JNum (pretty code)); ("message", JStr text)])))
    with (match ParseInt (pretty code) with Some x => (x, true) | None => (0%Z, false) end).
  rewrite ParseInt_pretty by done. reflexivity.
Qed.

Lemma member_quote k s : utf8 k = true → utf8 s = true → member_ok (k, (json_quote s, JStr s)).
Proof.
  intros Hk Hs. split; [done| | |]; cbn [fst snd].
  - rewrite <-(sanitized_utf8 s Hs) at 2. apply (reads_as_mono 0); [lia|apply reads_as_quote].
  - by eexists _, _.
  - apply one_line_quote.
Qed.

Lemma member_raw k p v : utf8 k = true → raw_ok p → reads_as 9000 p v → member_ok (k, (p, v)).
Proof. intros Hk [_ Hh _ Hl] Hv. by split. Qed.

Lemma member_error e : utf8 (Rpc.Text e) = true → member_ok ("error", (rpc_error_json e, error_value e)).
Proof.
  intros Ht. split; [done| | |]; cbn [fst snd]; [|by eexists _, _|].
  2: { apply one_line_obj. cbn. by rewrite one_line_int, one_line_quote. }
  apply (reads_as_mono (1 + 0)); [lia|].
  apply (reads_as_obj 0 [("code", (json_int (Rpc.Code e), JNum (pretty (Rpc.Code e))));
                         ("message", (json_quote (Rpc.Text e), JStr (Rpc.Text e)))]); [lia|].
  repeat constructor; cbn [fst snd]; [apply reads_as_int|].
  rewrite <-(sanitized_utf8 _ Ht) at 2. apply reads_as_quote.
Qed.

(** Messages that can be sent: well formed, with text in UTF-8 and raw parts as the
    runtime makes them. *)
Record sendable (m : Message) : Prop := {
  send_form : well_formed m = true;
  send_id : Rpc.ID m = "" ∨ raw_ok (Rpc.ID m);
  send_params : Rpc.Params m = "" ∨ raw_ok (Rpc.Params m);
  send_result : Rpc.Result m = "" ∨ raw_ok (Rpc.Result m);
  send_method : utf8 (Rpc.Method m) = true;
  send_error : ∀ e, Rpc.Error m = Some e → utf8 (Rpc.Text e) = true ∧ (- MaxInt64 ≤ Rpc.Code e ≤ MaxInt64)%Z;
}.

(** A raw part as members of the object. *)
Lemma raw_part_members k p :
  utf8 k = true → p = "" ∨ raw_ok p → ∃ fs, raw_part k p = Some (literal_fields fs) ∧ Forall member_ok fs ∧
    (p = "" ∧ fs = [] ∨ ∃ v, fs = [(k, (p, v))]).
Proof.
  intros Hk [->|Hp]; [by exists []; repeat split; auto|]. destruct (raw_value _ Hp) as [v Hv].
  exists [(k, (p, v))]. split_and!; [|by constructor; [apply member_raw|]|by right; exists v].
  unfold raw_part. destruct (raw_head _ Hp) as (c & t & Hc & _). rewrite decide_False by (by subst).
  unfold json_valid. rewrite (parse_reads_as 9000 p v Hv) by (unfold maxNestingDepth; lia). cbn. by rewrite (raw_compact _ Hp).
Qed.

Lemma method_members m : utf8 (Rpc.Method m) = true → ∃ fs,
  (if decide (Rpc.Method m = "") then [] else [("method", json_quote (Rpc.Method m))]) = literal_fields fs ∧ Forall member_ok fs ∧
  (Rpc.Method m = "" ∧ fs = [] ∨ fs = [("method", (json_quote (Rpc.Method m), JStr (Rpc.Method m)))]).
Proof.
  intros Hm. case_decide; [by exists []; auto|]. eexists. split_and!; [..|by right]; [done|].
  constructor; [by apply member_quote|done].
Qed.

Lemma error_members m :
  (∀ e, Rpc.Error m = Some e → utf8 (Rpc.Text e) = true ∧ (- MaxInt64 ≤ Rpc.Code e ≤ MaxInt64)%Z) → ∃ fs,
  match Rpc.Error m with Some e => [("error", rpc_error_json e)] | None => [] end = literal_fields fs ∧ Forall member_ok fs ∧
  (Rpc.Error m = None ∧ fs = [] ∨
   ∃ e, Rpc.Error m = Some e ∧ (- MaxInt64 ≤ Rpc.Code e ≤ MaxInt64)%Z ∧ fs = [("error", (rpc_error_json e, error_value e))]).
Proof.
  intros He. destruct (Rpc.Error m) as [e|]; [|by exists []; auto]. destruct (He e eq_refl) as [Ht Hc].
  eexists. split_and!; [..|by right; eauto]; [done|]. constructor; [by apply member_error|done].
Qed.

(** The text of a message, and the fields it has. *)
Lemma marshal_sendable m : sendable m → ∃ fs,
  marshal_message m = Some (obj_literal (literal_fields fs)) ∧ fs ≠ [] ∧ Forall member_ok fs ∧
  fold_left set_field fs (empty_message, true) = (m, true).
Proof.
  intros [Hf Hi Hp Hr Hm He]. unfold well_formed in Hf. apply andb_true_iff in Hf as [[Hv _]%andb_true_iff _].
  apply bool_decide_eq_true in Hv.
  destruct (raw_part_members "id" (Rpc.ID m) eq_refl Hi) as (fi & Ei & Fi & Ci).
  destruct (raw_part_members "params" (Rpc.Params m) eq_refl Hp) as (fp & Ep & Fp & Cp).
  destruct (raw_part_members "result" (Rpc.Result m) eq_refl Hr) as (fr & Er & Fr & Cr).
  destruct (method_members m Hm) as (fm & Em & Fm & Cm). destruct (error_members m He) as (fe & Ee & Fe & Ce).
  exists (("jsonrpc", (json_quote (Rpc.JSONRPC m), JStr (Rpc.JSONRPC m))) :: fi ++ fm ++ fp ++ fr ++ fe).
  unfold marshal_message. rewrite Ei, Ep, Er. cbn [mbind option_bind]. cbv zeta. rewrite Em, Ee. split_and!; [|done| |].
  - unfold literal_fields. cbn [map fst snd]. by rewrite !map_app.
  - constructor; [apply member_quote; [done|by rewrite Hv]|]. by rewrite !Forall_app.
  - destruct m as [ver id method params result err]. cbn [Rpc.JSONRPC Rpc.ID Rpc.Method Rpc.Params Rpc.Result Rpc.Error] in *.
    destruct Ci as [[-> ->]|[vi ->]], Cm as [[-> ->]| ->], Cp as [[-> ->]|[vp ->]], Cr as [[-> ->]|[vr ->]],
      Ce as [[-> ->]|(e & -> & Hc & ->)]; cbn [app fold_left];
      rewrite ?set_jsonrpc, ?set_id, ?set_method, ?set_params, ?set_result, ?set_error_value by done; done.
Qed.

(** What a line of the encoder is to the decoder. *)
Lemma read_line m rest : sendable m → ∃ line,
  marshal_message m = Some line ∧
  Read (line +:+ String newline rest) =
    if decide (len line < maxTokenSize)%Z then (Received m, rest) else (Broken, line +:+ String newline rest).
Proof.
  intros Hm. destruct (marshal_sendable m Hm) as (fs & Hd & Hne & Hfs & Hfold).
  destruct (unmarshal_literal fs Hne Hfs) as [Hv Hu]. exists (obj_literal (literal_fields fs)). split; [done|].
  assert (one_line (obj_literal (literal_fields fs)) = true) as Hl.
  { apply one_line_obj. unfold literal_fields. clear -Hfs. induction Hfs as [|f fs Hf _ IH]; [done|].
    cbn. by rewrite (mem_line _ Hf), IH. }
  assert (drop_cr (obj_literal (literal_fields fs)) = obj_literal (literal_fields fs)) as Hcr.
  { rewrite obj_literal_members, string_app_assoc. by apply drop_cr_app. }
  unfold Read, scan_line. rewrite split_line_app by done. rewrite decide_False by (by rewrite obj_literal_members).
  destruct (decide (len (obj_literal (literal_fields fs)) < maxTokenSize)%Z); [|by rewrite decide_True by lia].
  rewrite decide_False by lia. cbn [default]. rewrite Hcr, Hv, Hu, Hfold. by rewrite (send_form _ Hm).
Qed.

Lemma write_line m line rest : marshal_message m = Some line →
  ∃ data, Write m = Some data ∧ data +:+ rest = line +:+ String newline rest.
Proof.
  intros Hd. exists (line +:+ String newline ""). unfold Write. rewrite Hd. split; [done|].
  by rewrite <-string_app_assoc, string_app_cons.
Qed.

Lemma read_back m rest :
  sendable m → (∀ data, marshal_message m = Some data → len data < maxTokenSize)%Z →
  ∃ data, Write m = Some data ∧ Read (data +:+ rest) = (Received m, rest).
Proof.
  intros Hm Hlen. destruct (read_line m rest Hm) as (line & Hd & Hr). destruct (write_line m line rest Hd) as (data & Hw & E).
  exists data. split; [done|]. by rewrite E, Hr, decide_True by (by apply Hlen).
Qed.

(** C38: Messages survive the wire up to the length the decoder takes.  A well-formed
    message whose text is valid UTF-8 and whose raw parts are in the encoder's normal form
    is encoded as one line, of any length.  Reading that line from the front of any stream
    gives back exactly that message and leaves exactly the rest of the stream if the line
    is shorter than 4 MiB, and breaks the connection if it is not. *)
Theorem message_round_trip m rest :
  sendable m → ∃ line data, marshal_message m = Some line ∧ Write m = Some data ∧ len data = (len line + 1)%Z ∧
    Read (data +:+ rest) = if decide (len line < 4194304)%Z then (Received m, rest) else (Broken, data +:+ rest).
Proof.
  intros Hm. destruct (read_line m rest Hm) as (line & Hd & Hr). destruct (write_line m line rest Hd) as (data & Hw & E).
  exists line, data. split_and!; [done|done| |by rewrite E, Hr].
  unfold Write in Hw. rewrite Hd in Hw. injection Hw as <-. by rewrite len_app.
Qed.

(** An answer with an identifier and a result whose text needs escapes. *)
Definition sample_message : Message :=
  Rpc.mk "2.0" "7" "" "" (obj_literal [("text", json_quote "h\u00e9 <&>")]) None.

Lemma sample_raw p v : parse p = Some v → reads_as 9000 p v → json_compact p = p → one_line p = true →
  match p with String c _ => is_ws c = false | EmptyString => False end → raw_ok p.
Proof. intros _ Hr Hc Hl Hh. split; [by exists v| |done|done]. destruct p as [|c t]; [done|]. by exists c, t. Qed.

Lemma sample_sendable : sendable sample_message.
Proof.
  split; [by vm_compute| |by left| |done|done].
  - right. apply (sample_raw _ (JNum "7")); try done. apply (reads_as_mono 0); [lia|]. apply (reads_as_int 7).
  - right. apply (sample_raw _ (JObj [("text", JStr "h\u00e9 <&>")])); try done.
    apply (reads_as_mono (1 + 0)); [lia|].
    apply (reads_as_obj 0 [("text", (json_quote "h\u00e9 <&>", JStr "h\u00e9 <&>"))]); [lia|].
    repeat constructor. apply reads_as_quote.
Qed.

Lemma message_round_trip_witness : ∃ data,
  Write sample_message = Some data ∧ Read (data +:+ "next line") = (Received sample_message, "next line").
Proof.
  destruct (message_round_trip sample_message "next line" sample_sendable) as (line & data & Hl & Hw & _ & Hr).
  exists data. split; [exact Hw|]. rewrite Hr. rewrite decide_True; [reflexivity|].
  vm_compute in Hl. injection Hl as <-. vm_compute. reflexivity.
Defined.
