(* ===== verification/Engine.v ===== *)
(** * protocol.go, limits.go: sessions of an engine

    An engine serves one connection.  It keeps a bounded history of the events of each
    session, hands events to the transport in order, and replays what the transport
    refused when the session is resumed.  A prompt has two critical sections, with the
    call of the provider between them: [start_request] and [finish_turn]. *)

From Stdlib Require Import Ascii.
From stdpp Require Import base tactics option list gmap strings numbers pretty sorting.
From S2P Require Import Prelude GoLib Json Ledger State Protocol.

Definition maxSessions : nat := 64.
Definition maxReplayRequests : nat := 128.
Definition maxRequestIDBytes : Z := 256.
Definition maxTextBytes : Z := 262144.
Definition maxHistoryEvents : Z := 256.
Definition maxHistoryBytes : Z := 2097152.
Definition maxEngineHistoryBytes : Z := 16777216.

(** ** The transport

    [offer] asks the transport to take an event; it may refuse.  The transport is
    server.go's outbound queue, or none. *)

Class Transport (T : Type) := offer : Message → T → bool * T.

(** What the engine's theorems need to know of it: the events it took, in order. *)
Class TransportLog (T : Type) `{Transport T} := taken : T → list Message.
Class TransportLaws (T : Type) `{TransportLog T} : Prop := {
  offer_taken m t : fst (offer m t) = true → taken (snd (offer m t)) = taken t ++ [m];
  offer_refused m t : fst (offer m t) = false → taken (snd (offer m t)) = taken t;
}.

(** ** State *)

Module Sess.
Record engineSession := mk {
  running : bool;
  closed : bool;
  suspended : bool;
  cancelled : bool; (* the context of the running turn *)
  turn : Z;
  eventSeq : Z;
  deliveredSeq : Z;
  requests : gmap string Message;
  ledger : Ledger;
  historyBytes : Z;
  historyFloor : Z;
}.
End Sess.
Abbreviation engineSession := Sess.engineSession.

Definition new_session : engineSession := Sess.mk false false false false 0 0 0 ∅ (mkLedger 0 0 0 0) 0 0.

Module Eng.
Record Engine (T : Type) := mk {
  sessions : gmap string engineSession;
  events : gmap string (list Message);
  historyBytes : Z;
  nextSession : Z;
  onEvent : option T;
  closed : bool;
  tick : nat; (* counts the iterations over the sessions *)
}.
Arguments mk {_} _ _ _ _ _ _ _.
Arguments sessions {_} _.
Arguments events {_} _.
Arguments historyBytes {_} _.
Arguments nextSession {_} _.
Arguments onEvent {_} _.
Arguments closed {_} _.
Arguments tick {_} _.
End Eng.
Abbreviation Engine := Eng.Engine.

Definition NewEngine {T} (transport : option T) : Engine T := Eng.mk ∅ ∅ 0 0 transport false 0.

(** ** Events *)

Definition event_key_le (a b : string * string) : Prop := string_le (fst a) (fst b).
Global Instance event_key_le_dec : RelDecision event_key_le.
Proof. intros a b. unfold event_key_le. apply _. Defined.

(** [json.Marshal] of a map writes the keys in order. *)
Definition marshal_map (fields : list (string * string)) : string := obj_literal (merge_sort event_key_le fields).

Definition usage_json (u : Usage) : string :=
  obj_literal [("input_tokens", json_int (InputTokens u)); ("output_tokens", json_int (OutputTokens u));
    ("cached_tokens", json_int (CachedTokens u))].

Definition event_params (id : string) (turn seq : Z) (fields : list (string * string)) : string :=
  marshal_map (fields ++ [("session_id", json_quote id); ("turn_id", json_int turn); ("event_seq", json_int seq)]).

Definition eventSequence (event : Message) : Z := fst (uint64_field "event_seq" (Rpc.Params event)).

(** The numbers [json.Unmarshal] found are used even when it reports an error; here they
    are those of the engine's own events. *)

(** A turn between its two critical sections. *)
Module Pend.
Record PendingTurn := mk {
  session : string;
  rpc : string; (* the identifier of the call *)
  request : string;
  prompt : string;
}.
End Pend.
Abbreviation PendingTurn := Pend.PendingTurn.

Inductive outcome : Type :=
  | Respond (m : Message)
  | Started (t : PendingTurn).

(** How a provider's call failed. *)
Inductive turn_error : Type := TurnCanceled | TurnFailed.
Global Instance turn_error_eq_dec : EqDecision turn_error.
Proof. solve_decision. Defined.

Global Instance Usage_eq_dec : EqDecision Usage.
Proof. solve_decision. Defined.

Section engine.
Context {T : Type} `{Transport T}.
(** The order in which Go visits a map is arbitrary. *)
Context (visit : nat → list string → list string).

Abbreviation E := (Engine T).

Definition history (id : string) (e : E) : list Message := default [] (Eng.events e !! id).

Definition update_session (id : string) (f : engineSession → engineSession) (e : E) : E :=
  {| e with Eng.sessions := alter f id (Eng.sessions e) |}.

Definition evictOldest (id : string) (e : E) : E :=
  match history id e with
  | [] => e
  | event :: rest =>
      let size := len (Rpc.Params event) in
      let e := update_session id (λ s, {| s with Sess.historyBytes := (Sess.historyBytes s - size)%Z;
                                                 Sess.historyFloor := u64 (Sess.historyFloor s + 1) |}) e in
      {| e with Eng.historyBytes := (Eng.historyBytes e - size)%Z; Eng.events := <[id := rest]> (Eng.events e) |}
  end.

(** The session that retains the most, the first visited among equals. *)
Fixpoint largest (e : E) (ids : list string) (chosen : option (string * Z)) : option (string * Z) :=
  match ids with
  | [] => chosen
  | id :: ids =>
      match Eng.sessions e !! id with
      | Some s =>
          if decide (history id e = []) then largest e ids chosen
          else match chosen with
               | Some (_, best) =>
                   if decide (Sess.historyBytes s > best)%Z then largest e ids (Some (id, Sess.historyBytes s))
                   else largest e ids chosen
               | None => largest e ids (Some (id, Sess.historyBytes s))
               end
      | None => largest e ids chosen
      end
  end.

Definition session_ids (e : E) : list string := fst <$> map_to_list (Eng.sessions e).

Definition evictLargest (e : E) : option E :=
  let order := visit (Eng.tick e) (session_ids e) in
  match largest e order None with
  | Some (victim, _) => Some (evictOldest victim {| e with Eng.tick := S (Eng.tick e) |})
  | None => None
  end.

(** The two loops of [emit]; every round of either drops an event, so as many rounds as
    there are events are enough. *)
Fixpoint trim (fuel : nat) (id : string) (e : E) : E :=
  match fuel with
  | 0 => e
  | S fuel =>
      match Eng.sessions e !! id with
      | Some s =>
          if decide (history id e ≠ [] ∧
               (maxHistoryEvents < Z.of_nat (length (history id e)) ∨ maxHistoryBytes < Sess.historyBytes s)%Z)
          then trim fuel id (evictOldest id e) else e
      | None => e
      end
  end.

Fixpoint reclaim (fuel : nat) (e : E) : E :=
  match fuel with
  | 0 => e
  | S fuel =>
      if decide (maxEngineHistoryBytes < Eng.historyBytes e)%Z then
        match evictLargest e with Some e' => reclaim fuel e' | None => e end
      else e
  end.

Definition retained (e : E) : nat := sum_list_with (λ kv, length (snd kv)) (map_to_list (Eng.events e)).

(** Hand an event of session [id] to the transport unless delivery is suspended. *)
Definition deliver (id : string) (event : Message) (e : E) : E :=
  match Eng.onEvent e, Eng.sessions e !! id with
  | Some t, Some s =>
      if Sess.suspended s then e
      else
        let '(ok, t) := offer event t in
        let e := {| e with Eng.onEvent := Some t |} in
        if (ok : bool) then update_session id (λ s, {| s with Sess.deliveredSeq := Sess.eventSeq s |}) e
        else update_session id (λ s, {| s with Sess.suspended := true |}) e
  | _, _ => e
  end.

Definition retain (id : string) (event : Message) (e : E) : E :=
  let size := len (Rpc.Params event) in
  let e := update_session id (λ s, {| s with Sess.historyBytes := (Sess.historyBytes s + size)%Z |}) e in
  {| e with Eng.historyBytes := (Eng.historyBytes e + size)%Z;
            Eng.events := <[id := history id e ++ [event]]> (Eng.events e) |}.

Definition next_event (id : string) (s : engineSession) (method : string) (fields : list (string * string)) : Message :=
  Rpc.mk "2.0" "" method (event_params id (Sess.turn s) (u64 (Sess.eventSeq s + 1)) fields) "" None.

Definition emit (id method : string) (fields : list (string * string)) (e : E) : E :=
  match Eng.sessions e !! id with
  | None => e
  | Some s =>
      let event := next_event id s method fields in
      let e := update_session id (λ s, {| s with Sess.eventSeq := u64 (Sess.eventSeq s + 1) |}) e in
      let e := retain id event e in
      let e := trim (length (history id e)) id e in
      let e := reclaim (retained e) e in
      deliver id event e
  end.

(** ** Replay after a suspension *)

(** The retained events the peer has not seen, oldest first, until one is refused. *)
Fixpoint replay (id : string) (events : list Message) (e : E) : option error * E :=
  match events with
  | [] => (None, e)
  | event :: events =>
      match Eng.onEvent e, Eng.sessions e !! id with
      | Some t, Some s =>
          let seq := eventSequence event in
          if decide (seq ≤ Sess.deliveredSeq s)%Z then replay id events e
          else
            let '(ok, t) := offer event t in
            let e := {| e with Eng.onEvent := Some t |} in
            if (ok : bool) then replay id events (update_session id (λ s, {| s with Sess.deliveredSeq := seq |}) e)
            else (Some ErrDeliveryRefused, e)
      | _, _ => (None, e)
      end
  end.

Definition flushSession (id : string) (e : E) : option error * E :=
  match Eng.sessions e !! id with
  | None => (None, e)
  | Some s =>
      if decide (Eng.onEvent e = None ∨ Sess.deliveredSeq s = Sess.eventSeq s) then (None, e)
      else if decide (Sess.deliveredSeq s < Sess.historyFloor s)%Z then (Some ErrEventHistoryExpired, e)
      else replay id (history id e) e
  end.
(** ** Sessions *)

Definition issuedSession (id : string) (e : E) : bool :=
  match strip_prefix "session-" id with
  | None => false
  | Some suffix =>
      match ParseUint suffix with
      | Some n => bool_decide (0 < n ∧ n ≤ Eng.nextSession e)%Z && bool_decide (pretty n = suffix)
      | None => false
      end
  end.

Definition releaseSession (id : string) (e : E) : E :=
  let freed := match Eng.sessions e !! id with Some s => Sess.historyBytes s | None => 0%Z end in
  {| e with Eng.historyBytes := (Eng.historyBytes e - freed)%Z;
            Eng.sessions := delete id (Eng.sessions e); Eng.events := delete id (Eng.events e) |}.

Definition result_message (id result : string) : Message := Rpc.mk "2.0" id "" "" result None.
Definition error_message (id : string) (code : Z) (text : string) : Message :=
  Rpc.mk "2.0" id "" "" "" (Some (Rpc.mkError code text)).

Definition stop_json (reason : string) : string := marshal_map [("stop_reason", json_quote reason)].

Definition initialize_fields (name : string) : list (string * string) :=
  [("aok_version", "1"); ("engine", json_quote name);
    ("capabilities", arr_literal (json_quote <$> ["cancel"; "usage"; "suspend"; "resume"]));
    ("limits", marshal_map [("sessions", json_int (Z.of_nat maxSessions));
       ("replay_requests_per_session", json_int (Z.of_nat maxReplayRequests));
       ("request_id_bytes", json_int maxRequestIDBytes); ("text_bytes", json_int maxTextBytes)])].

Definition initialize_result (name : string) : string := marshal_map (initialize_fields name).

Definition request_key (method request : string) : string := method +:+ ":" +:+ request.

Definition new_session_request (rpc : string) (e : E) : Message * E :=
  if Eng.closed e then (error_message rpc (-32000) "engine closed", e)
  else if decide (maxSessions ≤ size (Eng.sessions e) ∨ Eng.nextSession e = MaxUint64)
  then (error_message rpc (-32003) "session capacity reached", e)
  else
    let n := u64 (Eng.nextSession e + 1) in
    let id := "session-" +:+ pretty n in
    (result_message rpc (marshal_map [("session_id", json_quote id)]),
     {| e with Eng.nextSession := n; Eng.sessions := <[id := new_session]> (Eng.sessions e) |}).

Definition unknown_session (rpc method id : string) (e : E) : Message :=
  if issuedSession id e then
    if decide (method = "session/close" ∨ method = "session/abort")
    then result_message rpc (stop_json "cancelled")
    else error_message rpc (-32602) "session closed"
  else error_message rpc (-32602) "unknown session".

Definition resume_session (rpc id : string) (e : E) : Message * E :=
  let e := update_session id (λ s, {| s with Sess.suspended := false |}) e in
  let '(err, e) := flushSession id e in
  match err with
  | None => (result_message rpc (marshal_map [("status", json_quote "resumed")]), e)
  | Some err =>
      (error_message rpc (-32004)
         (if decide (err = ErrEventHistoryExpired) then "event history expired"
          else "event delivery refused; resume again after draining"),
       update_session id (λ s, {| s with Sess.suspended := true |}) e)
  end.

(** [session/abort] and [session/close]; cancelling is a request to the running turn. *)
Definition stop_session (rpc id : string) (close : bool) (e : E) : Message * E :=
  let e := update_session id (λ s, {| s with Sess.cancelled := Sess.cancelled s || Sess.running s;
                                             Sess.closed := Sess.closed s || close |}) e in
  (result_message rpc (stop_json "cancelled"),
   match Eng.sessions e !! id with
   | Some s => if Sess.closed s && negb (Sess.running s) then releaseSession id e else e
   | None => e
   end).

Definition prompt_session (rpc id request text : string) (s : engineSession) (e : E) : outcome * E :=
  if Sess.closed s then (Respond (error_message rpc (-32602) "session closed"), e)
  else if Sess.suspended s then (Respond (error_message rpc (-32004) "session suspended"), e)
  else if Sess.running s then (Respond (error_message rpc (-32001) "turn already running"), e)
  else if decide (request ≠ "" ∧ maxReplayRequests ≤ size (Sess.requests s)) then
    (Respond (error_message rpc (-32003) "replay capacity reached; close session before starting a new one"), e)
  else if decide (Sess.turn s = MaxUint64 ∨ Sess.eventSeq s > MaxUint64 - 4)%Z then
    (Respond (error_message rpc (-32003) "session sequence exhausted"), e)
  else
    let e := update_session id (λ s, {| s with Sess.running := true; Sess.cancelled := false;
                                               Sess.turn := u64 (Sess.turn s + 1) |}) e in
    (Started (Pend.mk id rpc request text), emit id "session/started" [] e).

Definition session_methods : list string :=
  ["session/prompt"; "session/abort"; "session/close"; "session/suspend"; "session/resume"].

(** A request to a session: the first critical section of [handle]. *)
Definition session_request (rpc method id request text : string) (e : E) : outcome * E :=
  match Eng.sessions e !! id with
  | None => (Respond (unknown_session rpc method id e), e)
  | Some s =>
      match (if decide (method = "session/prompt" ∧ request ≠ "")
             then Sess.requests s !! request_key method request else None) with
      | Some prior => (Respond {| prior with Rpc.ID := rpc |}, e)
      | None =>
          if decide (method = "session/suspend") then
            (Respond (result_message rpc (marshal_map [("status", json_quote "suspended")])),
             update_session id (λ s, {| s with Sess.suspended := true |}) e)
          else if decide (method = "session/resume") then
            let '(m, e) := resume_session rpc id e in (Respond m, e)
          else if decide (method = "session/abort" ∨ method = "session/close") then
            let '(m, e) := stop_session rpc id (bool_decide (method = "session/close")) e in (Respond m, e)
          else prompt_session rpc id request text s e
      end
  end.

Definition start_request (name : string) (m : Message) (e : E) : outcome * E :=
  let rpc := Rpc.ID m in
  let method := Rpc.Method m in
  if decide (method = "initialize") then (Respond (result_message rpc (initialize_result name)), e)
  else if decide (method = "health") then (Respond (result_message rpc (marshal_map [("status", json_quote "ok")])), e)
  else if decide (method = "session/new") then let '(m, e) := new_session_request rpc e in (Respond m, e)
  else if decide (method ∉ session_methods) then (Respond (error_message rpc (-32601) "method not found"), e)
  else
    let '(id, ok1) := string_field "session_id" (Rpc.Params m) in
    let '(text, ok2) := string_field "text" (Rpc.Params m) in
    let '(request, ok3) := string_field "request_id" (Rpc.Params m) in
    if decide (ok1 && ok2 && ok3 = false ∨ id = "") then (Respond (error_message rpc (-32602) "invalid params"), e)
    else if decide (maxRequestIDBytes < len request ∨ maxTextBytes < len text)%Z then
      (Respond (error_message rpc (-32602) "request exceeds engine limits"), e)
    else session_request rpc method id request text e.

(** ** The end of a turn *)

Definition stop_reason (s : engineSession) (text : string) (err : option turn_error) : string :=
  let reason := if decide (err ≠ None ∨ maxTextBytes < len text)%Z then "failed" else "completed" in
  if decide (Sess.cancelled s = true ∨ err = Some TurnCanceled) then "cancelled" else reason.

Definition no_usage : Usage := mkUsage 0 0 0.

Definition account (s : engineSession) (usage : Usage) : option error * Ledger :=
  Apply (Sess.ledger s) (Sess.turn s) (Sess.turn s) (saturatingAdd (InputTokens usage) (OutputTokens usage)).

Definition remember (id key : string) (response : Message) (e : E) : E :=
  update_session id (λ s, {| s with Sess.requests := <[key := {| response with Rpc.ID := "" |}]> (Sess.requests s) |}) e.

(** The events at the end of a turn. *)
Definition publish (id reason text : string) (usage : Usage) (e : E) : E :=
  let e := if decide (reason = "completed") then emit id "session/chunk" [("text", json_quote text)] e else e in
  let e := if decide (usage = no_usage) then e else emit id "session/usage" [("usage", usage_json usage)] e in
  emit id (if decide (reason = "failed") then "session/failed" else "session/done") [("stop_reason", json_quote reason)] e.

(** A session that was closed meanwhile goes with its last turn. *)
Definition settle_session (id : string) (e : E) : E :=
  let e := update_session id (λ s, {| s with Sess.running := false; Sess.cancelled := false |}) e in
  match Eng.sessions e !! id with
  | Some s => if Sess.closed s then releaseSession id e else e
  | None => e
  end.

(** The second critical section of a prompt.  A session is not released while its turn
    runs, so that it is always found. *)
Definition finish_turn (t : PendingTurn) (text : string) (usage : Usage) (err : option turn_error) (e : E) : Message * E :=
  let id := Pend.session t in
  match Eng.sessions e !! id with
  | None => (error_message (Pend.rpc t) (-32602) "session closed", e)
  | Some s =>
      let '(account_err, ledger) := if decide (usage = no_usage) then (None, Sess.ledger s) else account s usage in
      let e := update_session id (λ s, {| s with Sess.ledger := ledger |}) e in
      let reason := if decide (account_err ≠ None) then "budget_exhausted" else stop_reason s text err in
      let e := publish id reason text usage e in
      let resp := result_message (Pend.rpc t) (stop_json reason) in
      let e := if decide (Pend.request t = "") then e
               else remember id (request_key "session/prompt" (Pend.request t)) resp e in
      (resp, settle_session id e)
  end.

(** ** Diagnostics and shutdown *)

Definition Events (id : string) (e : E) : list Message := history id e.

Definition EventsSince (id : string) (seq : Z) (e : E) : result error (list Message) :=
  match Eng.sessions e !! id with
  | Some s =>
      if decide (seq < Sess.historyFloor s)%Z then Err ErrEventHistoryExpired
      else Ok (filter (λ event, seq < eventSequence event)%Z (history id e))
  | None => Err ErrEventHistoryExpired
  end.

Definition close_session (e : E) (id : string) : E :=
  let e := update_session id (λ s, {| s with Sess.closed := true; Sess.cancelled := Sess.cancelled s || Sess.running s |}) e in
  match Eng.sessions e !! id with
  | Some s => if Sess.running s then e else releaseSession id e
  | None => e
  end.

Definition Close (e : E) : E :=
  fold_left close_session (visit (Eng.tick e) (session_ids e))
    {| e with Eng.closed := true; Eng.tick := S (Eng.tick e) |}.
End engine.
