(* ===== verification/EngineProofs.v ===== *)
(** * Invariants of the engine

    The retained events of a session are a gapless run of sequence numbers ending at the
    newest, the byte counters are exact and within their budgets, and an event reaches
    the transport once, in order. *)

From Stdlib Require Import Ascii.
From stdpp Require Import base tactics option list gmap strings numbers pretty sorting list_numbers.
From S2P Require Import Prelude GoLib Json Ledger State Protocol Engine.

(** ** Events carry their number *)

Definition event_session (event : Message) : string := fst (string_field "session_id" (Rpc.Params event)).

(** A field that does not hide the numbers of the event. *)
Record field_ok (f : string * string) : Prop := {
  field_utf8 : utf8 (fst f) = true;
  field_reads : ∃ v, reads_as 100 (snd f) v;
  field_seq : field_match "event_seq" (fst f) = false;
  field_session : field_match "session_id" (fst f) = false;
}.

(** What an event's object has under a key. *)
Definition event_member (id : string) (seq : Z) (k : string) (v : json) : Prop :=
  (k = "event_seq" ∧ v = JNum (pretty seq)) ∨ (k = "session_id" ∧ v = JStr id) ∨
  (field_match "event_seq" k = false ∧ field_match "session_id" k = false).

Lemma decode_unique {A} (set : json → option A) name zero k v x ms :
  Forall (λ kv, kv = (k, v) ∨ field_match name (fst kv) = false) ms → (k, v) ∈ ms → field_match name k = true →
  set v = Some x → v ≠ JNull → decode_field set name zero (Some (JObj ms)) = (x, true).
Proof.
  intros Hall Hin Hk Hv Hn. unfold decode_field.
  assert (∀ ms acc, Forall (λ kv, kv = (k, v) ∨ field_match name (fst kv) = false) ms →
    fold_left (decode_member set name) ms acc = acc ∨ fold_left (decode_member set name) ms acc = (x, snd acc)) as Hgen.
  { clear -Hk Hv Hn. intros ms. induction ms as [|kv ms IH]; intros acc Hall; [by left|].
    apply Forall_cons_1 in Hall as [Hkv Hall]. cbn [fold_left].
    assert (decode_member set name acc kv = acc ∨ decode_member set name acc kv = (x, snd acc)) as Hd.
    { destruct Hkv as [->|Hno]; unfold decode_member; cbn [fst snd].
      - rewrite Hk. right. destruct v; try done; by rewrite Hv.
      - left. by rewrite Hno. }
    destruct (IH (decode_member set name acc kv) Hall) as [-> | ->]; destruct Hd as [-> | ->]; auto. }
  apply list_elem_of_split in Hin as (l1 & l2 & ->). rewrite fold_left_app. cbn [fold_left].
  apply Forall_app in Hall as [H1 H2]. apply Forall_cons_1 in H2 as [_ H2].
  set (acc := fold_left (decode_member set name) l1 (zero, true)).
  assert (snd acc = true) as Hs by (unfold acc; by destruct (Hgen l1 (zero, true) H1) as [-> | ->]).
  assert (decode_member set name acc (k, v) = (x, true)) as ->.
  { unfold decode_member. cbn [fst snd]. rewrite Hk, <-Hs. destruct v; try done; by rewrite Hv. }
  by destruct (Hgen l2 (x, true) H2) as [-> | ->].
Qed.

Lemma fields_values n id seq l :
  Forall (λ f, utf8 (fst f) = true ∧ ∃ v, reads_as n (snd f) v ∧ event_member id seq (fst f) v) l →
  ∃ fs, map (λ f, (fst f, fst (snd f))) fs = l ∧
    Forall (λ f, utf8 (fst f) = true ∧ reads_as n (fst (snd f)) (snd (snd f))) fs ∧
    Forall (λ kv, event_member id seq (fst kv) (snd kv)) (map (λ f, (fst f, snd (snd f))) fs).
Proof.
  induction 1 as [|[k lit] l (Hk & v & Hv & Hm) _ (fs & <- & H1 & H2)]; [by exists []|].
  exists ((k, (lit, v)) :: fs). split; [done|]. split; constructor; done.
Qed.

Lemma fields_found (fs : list (string * (string * json))) k lit (P : string → json → Prop) :
  (k, lit) ∈ map (λ f, (fst f, fst (snd f))) fs → Forall (λ kv, P (fst kv) (snd kv)) (map (λ f, (fst f, snd (snd f))) fs) →
  ∃ v, P k v ∧ (k, v) ∈ map (λ f, (fst f, snd (snd f))) fs.
Proof.
  intros Hin HP. apply list_elem_of_In, in_map_iff in Hin as ([k' [lit' v]] & [= -> ->] & Hin).
  assert ((k, v) ∈ map (λ f : string * (string * json), (f.1, f.2.2)) fs) as Hin2.
  { apply list_elem_of_In, in_map_iff. by exists (k, (lit, v)). }
  rewrite Forall_forall in HP. exists v. split; [exact (HP (k, v) Hin2)|done].
Qed.

Lemma event_params_members id turn seq fields :
  utf8 id = true → Forall field_ok fields → ∃ ms,
    parse (event_params id turn seq fields) = Some (JObj ms) ∧
    Forall (λ kv, event_member id seq (fst kv) (snd kv)) ms ∧
    ("event_seq", JNum (pretty seq)) ∈ ms ∧ ("session_id", JStr id) ∈ ms.
Proof.
  intros Hid Hf. unfold event_params, marshal_map.
  set (all := fields ++ [("session_id", json_quote id); ("turn_id", json_int turn); ("event_seq", json_int seq)]).
  assert (Forall (λ f, utf8 (fst f) = true ∧ ∃ v, reads_as 100 (snd f) v ∧ event_member id seq (fst f) v) all) as Hall.
  { apply Forall_app. split.
    - eapply Forall_impl; [exact Hf|]. intros f [H1 [v Hv] H3 H4]. split; [done|]. exists v. split; [done|]. by right; right.
    - repeat constructor; cbn [fst snd].
      + exists (JStr id). split; [|by right; left]. rewrite <-(sanitized_utf8 id Hid) at 2.
        apply (reads_as_mono 0); [lia|apply reads_as_quote].
      + exists (JNum (pretty turn)). split; [apply (reads_as_mono 0); [lia|apply reads_as_int]|]. by right; right.
      + exists (JNum (pretty seq)). split; [apply (reads_as_mono 0); [lia|apply reads_as_int]|]. by left. }
  pose proof (merge_sort_Permutation event_key_le all) as Hperm.
  rewrite <-Hperm in Hall. destruct (fields_values _ _ _ _ Hall) as (fs & Hfs & Hr & Hm).
  exists (map (λ f, (fst f, snd (snd f))) fs). split_and!; [|done|..].
  - rewrite <-Hfs. apply (parse_reads_as (1 + 100)); [by apply reads_as_obj|unfold maxNestingDepth; lia].
  - destruct (fields_found fs "event_seq" (json_int seq) (event_member id seq)) as (v & Hv & Hin);
      [rewrite Hfs, Hperm; apply elem_of_app; right; right; right; by left|done|].
    destruct Hv as [[_ ->]|[[[=] _]|[[=] _]]]. done.
  - destruct (fields_found fs "session_id" (json_quote id) (event_member id seq)) as (v & Hv & Hin);
      [rewrite Hfs, Hperm; apply elem_of_app; right; by left|done|].
    destruct Hv as [[[=] _]|[[_ ->]|[_ [=]]]]. done.
Qed.

Lemma event_params_read id turn seq fields :
  utf8 id = true → Forall field_ok fields → in_u64 seq →
  fst (uint64_field "event_seq" (event_params id turn seq fields)) = seq ∧
  fst (string_field "session_id" (event_params id turn seq fields)) = id.
Proof.
  intros Hid Hf Hseq. destruct (event_params_members id turn seq fields Hid Hf) as (ms & Hp & Hm & H1 & H2).
  unfold uint64_field, string_field. rewrite Hp. destruct (pretty_natural seq) as [Hn Hd]; [by destruct Hseq|]. split.
  - rewrite (decode_unique _ _ _ "event_seq" (JNum (pretty seq)) seq); [done| |done|done| |done].
    + eapply Forall_impl; [exact Hm|]. intros [k v]. unfold event_member. cbn. intros [[-> ->]|[[-> ->]|[? _]]]; auto.
    + cbn [as_uint64]. unfold ParseUint. rewrite decide_False by (by intros E; rewrite E in Hn). rewrite Hd.
      cbn [mbind option_bind]. by rewrite decide_True by apply Hseq.
  - rewrite (decode_unique _ _ _ "session_id" (JStr id) id); [done| |done|done|done|done].
    eapply Forall_impl; [exact Hm|]. intros [k v]. unfold event_member. cbn. intros [[-> ->]|[[-> ->]|[_ ?]]]; auto.
Qed.

(** ** Sums over sessions *)

Section sums.
Context {A : Type} (f : A → Z).
Definition map_sum (m : gmap string A) : Z := sumZ (λ kv, f (snd kv)) (map_to_list m).

Lemma map_sum_insert m k a : m !! k = None → map_sum (<[k := a]> m) = (f a + map_sum m)%Z.
Proof. intros Hk. unfold map_sum. rewrite (sumZ_perm _ _ _ (map_to_list_insert _ _ _ Hk)). by rewrite sumZ_cons. Qed.

Lemma map_sum_delete m k a : m !! k = Some a → map_sum m = (f a + map_sum (delete k m))%Z.
Proof. intros Hk. rewrite <-(map_sum_insert (delete k m) k a) by apply lookup_delete_eq. by rewrite insert_delete_id. Qed.

Lemma map_sum_set m k a b : m !! k = Some a → map_sum (<[k := b]> m) = (map_sum m - f a + f b)%Z.
Proof.
  intros Hk. rewrite (map_sum_delete m k a Hk), <-insert_delete_eq, map_sum_insert by apply lookup_delete_eq. lia.
Qed.

Lemma map_sum_alter m k a g : m !! k = Some a → map_sum (alter g k m) = (map_sum m - f a + f (g a))%Z.
Proof.
  intros Hk. rewrite <-(map_sum_set m k a (g a) Hk). f_equal. apply map_eq. intros i.
  rewrite lookup_insert. destruct (decide (k = i)) as [->|Hne]; [by rewrite lookup_alter_eq, Hk|by rewrite lookup_alter_ne].
Qed.

Lemma map_sum_ge m k a : (∀ i x, m !! i = Some x → 0 ≤ f x)%Z → m !! k = Some a → (f a ≤ map_sum m)%Z.
Proof.
  intros Hf Hk. rewrite (map_sum_delete m k a Hk).
  assert (0 ≤ map_sum (delete k m))%Z; [|lia]. unfold map_sum. apply sumZ_nonneg_Forall, Forall_forall.
  intros [i x] Hin%elem_of_map_to_list. apply lookup_delete_Some in Hin as [_ Hin]. eauto.
Qed.

Lemma map_sum_pos m : (0 < map_sum m)%Z → ∃ k a, m !! k = Some a ∧ (0 < f a)%Z.
Proof.
  induction m as [|k a m Hk IH] using map_ind; [done|]. rewrite map_sum_insert by done. intros H.
  destruct (decide (0 < f a)%Z); [exists k, a; by rewrite lookup_insert_eq|].
  destruct IH as (i & x & Hi & Hx); [lia|]. exists i, x. split; [|done]. rewrite lookup_insert_ne; [done|]. by intros ->; rewrite Hk in Hi.
Qed.
End sums.

(** ** The books of the engine *)

Definition event_bytes (h : list Message) : Z := sumZ (λ event, len (Rpc.Params event)) h.

Record sess_hist (h : list Message) (id : string) (s : engineSession) : Prop := {
  h_seqs : eventSequence <$> h = seqZ (Sess.historyFloor s + 1) (Z.of_nat (length h));
  h_floor : (0 ≤ Sess.historyFloor s)%Z;
  h_end : (Sess.historyFloor s + Z.of_nat (length h) = Sess.eventSeq s)%Z;
  h_range : (Sess.eventSeq s ≤ MaxUint64)%Z;
  h_ids : Forall (λ event, event_session event = id) h;
  h_bytes : Sess.historyBytes s = event_bytes h;
}.

Section books.
Context {T : Type} `{Transport T} (visit : nat → list string → list string).
Implicit Types e : Engine T.

Record book (e : Engine T) : Prop := {
  b_sess id s : Eng.sessions e !! id = Some s → sess_hist (history id e) id s;
  b_dom id h : Eng.events e !! id = Some h → is_Some (Eng.sessions e !! id);
  b_total : Eng.historyBytes e = map_sum Sess.historyBytes (Eng.sessions e);
}.

Lemma event_bytes_nonneg h : (0 ≤ event_bytes h)%Z.
Proof. apply sumZ_nonneg. intros. apply len_nonneg. Qed.

Lemma book_bytes e id s : book e → Eng.sessions e !! id = Some s → (0 ≤ Sess.historyBytes s)%Z.
Proof. intros Hb Hs. rewrite (h_bytes _ _ _ (b_sess e Hb id s Hs)). apply event_bytes_nonneg. Qed.

Lemma lookup_update id f e i :
  Eng.sessions (update_session id f e) !! i = if decide (id = i) then f <$> Eng.sessions e !! i else Eng.sessions e !! i.
Proof. cbn. destruct (decide (id = i)) as [->|Hne]; [by rewrite lookup_alter_eq|by rewrite lookup_alter_ne]. Qed.

(** A change of a session that does not concern its history. *)
Definition keeps_history (f : engineSession → engineSession) : Prop := ∀ s,
  Sess.historyFloor (f s) = Sess.historyFloor s ∧ Sess.eventSeq (f s) = Sess.eventSeq s ∧
  Sess.historyBytes (f s) = Sess.historyBytes s.

Lemma book_update id f e : keeps_history f → book e → book (update_session id f e).
Proof.
  intros Hf [Hs Hd Ht]. split.
  - intros i s. rewrite lookup_update. case_decide; [|by apply Hs]. intros (s0 & Hs0 & ->)%fmap_Some.
    destruct (Hs i s0 Hs0). destruct (Hf s0) as (E1 & E2 & E3). split; rewrite ?E1, ?E2, ?E3; done.
  - intros i h Hi. rewrite lookup_update. case_decide; [|by eapply Hd]. apply fmap_is_Some. by eapply Hd.
  - cbn. rewrite Ht. destruct (Eng.sessions e !! id) as [s|] eqn:E.
    + rewrite (map_sum_alter _ _ _ _ _ E). destruct (Hf s) as (_ & _ & ->). lia.
    + f_equal. symmetry. apply map_eq. intros i. destruct (decide (id = i)) as [->|]; [by rewrite lookup_alter_eq, E|by rewrite lookup_alter_ne].
Qed.

(** *** A new event *)

Definition push (id : string) (event : Message) (e : Engine T) : Engine T :=
  retain id event (update_session id (λ s, {| s with Sess.eventSeq := u64 (Sess.eventSeq s + 1) |}) e).

Lemma history_update id f i e : history i (update_session id f e) = history i e.
Proof. done. Qed.

Lemma push_session id event e i :
  Eng.sessions (push id event e) !! i =
    if decide (id = i) then
      (λ s, {| s with Sess.eventSeq := u64 (Sess.eventSeq s + 1);
                      Sess.historyBytes := (Sess.historyBytes s + len (Rpc.Params event))%Z |}) <$> Eng.sessions e !! i
    else Eng.sessions e !! i.
Proof.
  unfold push, retain. cbn. destruct (decide (id = i)) as [->|Hne].
  - rewrite !lookup_alter_eq. by destruct (Eng.sessions e !! i).
  - by rewrite !lookup_alter_ne.
Qed.

Lemma push_history id event e i : history i (push id event e) = if decide (id = i) then history i e ++ [event] else history i e.
Proof.
  unfold push, retain, history. cbn. rewrite lookup_insert. by destruct (decide (id = i)) as [->|].
Qed.

Lemma push_total id event e s :
  Eng.sessions e !! id = Some s → Eng.historyBytes e = map_sum Sess.historyBytes (Eng.sessions e) →
  Eng.historyBytes (push id event e) = map_sum Sess.historyBytes (Eng.sessions (push id event e)).
Proof.
  intros Hs Ht. unfold push, retain. cbn. rewrite Ht.
  rewrite (map_sum_alter _ _ id {| s with Sess.eventSeq := u64 (Sess.eventSeq s + 1) |})
    by (by rewrite lookup_alter_eq, Hs).
  rewrite (map_sum_alter _ _ id s) by done. cbn. lia.
Qed.

Lemma seqZ_snoc a n : (0 ≤ n)%Z → seqZ a n ++ [(a + n)%Z] = seqZ a (n + 1).
Proof. intros Hn. rewrite (seqZ_app a n 1) by lia. done. Qed.

Lemma book_push id event e s :
  book e → Eng.sessions e !! id = Some s → (Sess.eventSeq s < MaxUint64)%Z →
  eventSequence event = (Sess.eventSeq s + 1)%Z → event_session event = id → book (push id event e).
Proof.
  intros [Hss Hd Ht] Hs Hlt Hseq Hid. split.
  - intros i si. rewrite push_session, push_history. destruct (decide (id = i)) as [<-|Hne]; [|by apply Hss].
    rewrite Hs. intros [= <-]. destruct (Hss id s Hs) as [H1 H2 H3 H4 H5 H6].
    assert (u64 (Sess.eventSeq s + 1) = Sess.eventSeq s + 1)%Z as Hu by (apply u64_small; lia).
    split; cbn; rewrite ?Hu, ?length_app; cbn; try lia.
    + rewrite fmap_app, H1. cbn. rewrite Hseq.
      replace (Sess.eventSeq s + 1)%Z with (Sess.historyFloor s + 1 + Z.of_nat (length (history id e)))%Z by lia.
      rewrite seqZ_snoc by lia. f_equal. lia.
    + apply Forall_app. split; [done|]. by constructor.
    + rewrite H6. unfold event_bytes. rewrite sumZ_app. unfold sumZ at 3. cbn. lia.
  - intros i h. rewrite push_session. unfold push, retain. cbn. rewrite lookup_insert.
    destruct (decide (id = i)) as [<-|Hne]; [rewrite Hs; cbn; eauto|]. apply Hd.
  - by eapply push_total.
Qed.

(** *** Dropping old events *)

(** The part of a session that evictions leave alone. *)
Definition core (s : engineSession) :=
  (Sess.running s, Sess.closed s, Sess.suspended s, Sess.cancelled s, Sess.turn s, Sess.eventSeq s, Sess.deliveredSeq s,
   Sess.requests s, Sess.ledger s).

Record evicts (e e' : Engine T) : Prop := {
  v_core id : core <$> Eng.sessions e' !! id = core <$> Eng.sessions e !! id;
  v_hist id : history id e' `suffix_of` history id e;
  v_on : Eng.onEvent e' = Eng.onEvent e;
  v_next : Eng.nextSession e' = Eng.nextSession e;
  v_closed : Eng.closed e' = Eng.closed e;
}.

Global Instance evicts_preorder : PreOrder evicts.
Proof.
  split; [by split|]. intros e1 e2 e3 [A1 A2 A3 A4 A5] [B1 B2 B3 B4 B5].
  split; [intros id; by rewrite B1|intros id; exact (transitivity (B2 id) (A2 id))|congruence..].
Qed.

Lemma evicts_tick n e : evicts e {| e with Eng.tick := n |}.
Proof. by split. Qed.

Lemma evict_session id e i event rest :
  history id e = event :: rest →
  Eng.sessions (evictOldest id e) !! i =
    if decide (id = i) then
      (λ s, {| s with Sess.historyBytes := (Sess.historyBytes s - len (Rpc.Params event))%Z;
                      Sess.historyFloor := u64 (Sess.historyFloor s + 1) |}) <$> Eng.sessions e !! i
    else Eng.sessions e !! i.
Proof.
  intros Hh. unfold evictOldest. rewrite Hh. cbn. destruct (decide (id = i)) as [->|]; [by rewrite lookup_alter_eq|by rewrite lookup_alter_ne].
Qed.

Lemma evict_history id e i : history i (evictOldest id e) = if decide (id = i) then drop 1 (history i e) else history i e.
Proof.
  unfold evictOldest. destruct (history id e) as [|event rest] eqn:Hh.
  - case_decide; [subst; by rewrite Hh|done].
  - unfold history at 1. cbn. rewrite lookup_insert. case_decide; [subst; by rewrite Hh|done].
Qed.

Lemma evict_evicts id e : evicts e (evictOldest id e).
Proof.
  split.
  - intros i. destruct (history id e) as [|event rest] eqn:Hh; [unfold evictOldest; by rewrite Hh|].
    rewrite (evict_session _ _ _ _ _ Hh). case_decide; [|done]. by destruct (Eng.sessions e !! i).
  - intros i. rewrite evict_history. case_decide; [|done]. apply suffix_drop.
  - unfold evictOldest. by destruct (history id e).
  - unfold evictOldest. by destruct (history id e).
  - unfold evictOldest. by destruct (history id e).
Qed.

Lemma book_tick n e : book e → book {| e with Eng.tick := n |}.
Proof. by intros [? ? ?]. Qed.

Lemma book_evict id e : book e → book (evictOldest id e).
Proof.
  intros Hb. destruct (history id e) as [|event rest] eqn:Hh; [unfold evictOldest; by rewrite Hh|].
  destruct Hb as [Hss Hd Ht].
  assert (∃ s, Eng.sessions e !! id = Some s) as [s Hs].
  { unfold history in Hh. destruct (Eng.events e !! id) as [h|] eqn:E; [|done]. by eapply Hd. }
  destruct (Hss id s Hs) as [H1 H2 H3 H4 H5 H6]. rewrite Hh in H1, H3, H5, H6. cbn in H3.
  assert (u64 (Sess.historyFloor s + 1) = Sess.historyFloor s + 1)%Z as Hu by (apply u64_small; lia).
  split.
  - intros i si. rewrite (evict_session _ _ _ _ _ Hh), evict_history. destruct (decide (id = i)) as [<-|Hne]; [|by apply Hss].
    rewrite Hs, Hh. intros [= <-]. cbn [drop]. rewrite drop_0. split; cbn; rewrite ?Hu; try lia.
    + cbn in H1. rewrite seqZ_cons in H1 by lia. injection H1 as _ H1. rewrite H1. f_equal; lia.
    + by apply Forall_cons_1 in H5 as [_ H5].
    + rewrite H6. unfold event_bytes. rewrite sumZ_cons. lia.
  - intros i h Hi. rewrite (evict_session _ _ _ _ _ Hh). destruct (decide (id = i)) as [<-|Hne]; [by rewrite Hs; eauto|].
    revert Hi. unfold evictOldest. rewrite Hh. cbn. rewrite lookup_insert_ne by done. apply Hd.
  - unfold evictOldest. rewrite Hh. cbn. rewrite Ht, (map_sum_alter _ _ _ _ _ Hs). cbn. lia.
Qed.

Definition fits (id : string) (e : Engine T) : Prop := ∀ s, Eng.sessions e !! id = Some s →
  (Z.of_nat (length (history id e)) ≤ maxHistoryEvents ∧ Sess.historyBytes s ≤ maxHistoryBytes)%Z.

Lemma event_bytes_suffix h h' : h' `suffix_of` h → (event_bytes h' ≤ event_bytes h)%Z.
Proof. intros [k ->]. unfold event_bytes. rewrite sumZ_app. pose proof (event_bytes_nonneg k). unfold event_bytes in *. lia. Qed.

Lemma core_session e e' id s' :
  evicts e e' → Eng.sessions e' !! id = Some s' → ∃ s, Eng.sessions e !! id = Some s ∧ core s' = core s.
Proof.
  intros Hv Hs. pose proof (v_core _ _ Hv id) as E. rewrite Hs in E. cbn in E. symmetry in E.
  apply fmap_Some in E as (s & Hs0 & Hc). eauto.
Qed.

Lemma fits_evicts id e e' : book e → book e' → evicts e e' → fits id e → fits id e'.
Proof.
  intros Hb Hb' Hv Hf s' Hs'. destruct (core_session _ _ _ _ Hv Hs') as (s & Hs & _).
  destruct (Hf s Hs) as [H1 H2]. pose proof (v_hist _ _ Hv id) as Hsuf. split.
  - apply suffix_length in Hsuf. lia.
  - rewrite (h_bytes _ _ _ (b_sess _ Hb' id s' Hs')). rewrite (h_bytes _ _ _ (b_sess _ Hb id s Hs)) in H2.
    apply event_bytes_suffix in Hsuf. lia.
Qed.

Lemma trim_spec fuel id : ∀ e, book e → length (history id e) ≤ fuel →
  book (trim fuel id e) ∧ evicts e (trim fuel id e) ∧ fits id (trim fuel id e).
Proof.
  induction fuel as [|fuel IH]; intros e Hb Hf; cbn [trim].
  - split_and!; [done|done|]. intros s Hs. rewrite (h_bytes _ _ _ (b_sess _ Hb id s Hs)).
    destruct (history id e); [|simpl in Hf; lia]. by vm_compute.
  - destruct (Eng.sessions e !! id) as [s|] eqn:Hs; [|split_and!; [done|done|intros s' Hs'; by rewrite Hs in Hs']].
    case_decide as Hc.
    + destruct (IH (evictOldest id e)) as (H1 & H2 & H3); [by apply book_evict| |].
      { rewrite evict_history, decide_True, length_drop by done. destruct Hc as [Hne _]. destruct (history id e); [done|simpl in *; lia]. }
      split_and!; [done| |done]. etrans; [apply evict_evicts|done].
    + split_and!; [done|done|]. intros s' Hs'. rewrite Hs in Hs'. injection Hs' as <-.
      destruct (decide (history id e = [])) as [Hn|Hn].
      * rewrite Hn, (h_bytes _ _ _ (b_sess _ Hb id s Hs)), Hn. by vm_compute.
      * split; apply dec_stable; intros ?; apply Hc; (split; [done|]); [left|right]; lia.
Qed.

Lemma retained_evict id e : history id e ≠ [] → S (retained (evictOldest id e)) = retained e.
Proof.
  intros Hne. unfold evictOldest, retained. destruct (history id e) as [|event rest] eqn:Hh; [done|]. cbn.
  unfold history in Hh. destruct (Eng.events e !! id) as [h|] eqn:E; [|done]. cbn in Hh. subst h.
  rewrite <-(insert_delete_id (Eng.events e) id (event :: rest) E) at 2. rewrite <-insert_delete_eq.
  by rewrite !map_to_list_insert by apply lookup_delete_eq.
Qed.

Lemma largest_valid e ids : ∀ chosen, (∀ v b, chosen = Some (v, b) → history v e ≠ []) →
  ∀ v b, largest e ids chosen = Some (v, b) → history v e ≠ [].
Proof.
  induction ids as [|id ids IH]; intros chosen Hc v b; cbn [largest]; [by apply Hc|].
  destruct (Eng.sessions e !! id) as [s|]; [|by apply IH]. case_decide; [by apply IH|].
  destruct chosen as [[v0 best]|]; [case_decide|]; apply IH; naive_solver.
Qed.

Lemma largest_some e ids : ∀ c, largest e ids (Some c) ≠ None.
Proof.
  induction ids as [|id ids IH]; intros [v b]; cbn [largest]; [done|].
  destruct (Eng.sessions e !! id); [|apply IH]. case_decide; [apply IH|]. case_decide; apply IH.
Qed.

Lemma largest_found e ids id s : ∀ chosen,
  id ∈ ids → Eng.sessions e !! id = Some s → history id e ≠ [] → largest e ids chosen ≠ None.
Proof.
  induction ids as [|i ids IH]; intros chosen Hin Hs Hh; [by apply elem_of_nil in Hin|]. cbn [largest].
  apply elem_of_cons in Hin as [<-|Hin].
  - rewrite Hs, decide_False by done. destruct chosen as [[v b]|]; [case_decide|]; apply largest_some.
  - destruct (Eng.sessions e !! i) as [si|]; [|by apply IH]. case_decide; [by apply IH|].
    destruct chosen as [[v b]|]; [case_decide|]; by apply IH.
Qed.

Hypothesis Hvisit : ∀ t ids, visit t ids ≡ₚ ids.

Lemma evictLargest_some e : book e → (0 < Eng.historyBytes e)%Z →
  ∃ victim, history victim e ≠ [] ∧ evictLargest visit e = Some (evictOldest victim {| e with Eng.tick := S (Eng.tick e) |}).
Proof.
  intros Hb Hp. rewrite (b_total _ Hb) in Hp. destruct (map_sum_pos _ _ Hp) as (id & s & Hs & Hps).
  assert (history id e ≠ []) as Hh.
  { intros Hn. rewrite (h_bytes _ _ _ (b_sess _ Hb id s Hs)), Hn in Hps. by vm_compute in Hps. }
  unfold evictLargest. destruct (largest e _ None) as [[v b]|] eqn:El.
  - exists v. split; [|done]. by eapply largest_valid in El.
  - exfalso. eapply largest_found; [|exact Hs|exact Hh|exact El]. rewrite Hvisit. unfold session_ids.
    apply list_elem_of_fmap. exists (id, s). split; [done|]. by apply elem_of_map_to_list.
Qed.

Lemma reclaim_spec fuel : ∀ e, book e → retained e ≤ fuel →
  book (reclaim visit fuel e) ∧ evicts e (reclaim visit fuel e) ∧ (Eng.historyBytes (reclaim visit fuel e) ≤ maxEngineHistoryBytes)%Z.
Proof.
  induction fuel as [|fuel IH]; intros e Hb Hf; cbn [reclaim].
  - split_and!; [done|done|]. apply dec_stable. intros Hgt.
    destruct (evictLargest_some e Hb) as (v & Hv & _); [unfold maxEngineHistoryBytes in Hgt; lia|].
    pose proof (retained_evict v e Hv). lia.
  - case_decide as Hc; [|split_and!; [done|done|lia]].
    destruct (evictLargest_some e Hb) as (v & Hv & ->); [unfold maxEngineHistoryBytes in Hc; lia|].
    set (e1 := {| e with Eng.tick := S (Eng.tick e) |}). pose proof (retained_evict v e1 Hv) as Hr.
    destruct (IH (evictOldest v e1)) as (H1 & H2 & H3); [by apply book_evict, book_tick|unfold retained in *; cbn in *; lia|].
    split_and!; [done| |done]. etrans; [apply (evicts_tick (S (Eng.tick e)))|]. etrans; [apply (evict_evicts v)|done].
Qed.

(** ** Everything the engine retains fits *)

Record sound e : Prop := {
  so_book : book e;
  so_fits id : fits id e;
  so_total : (Eng.historyBytes e ≤ maxEngineHistoryBytes)%Z;
}.

Lemma fits_update id f i e : keeps_history f → fits i e → fits i (update_session id f e).
Proof.
  intros Hf Hfit s. rewrite lookup_update, history_update. case_decide; [|by apply Hfit].
  intros (s0 & Hs0 & ->)%fmap_Some. destruct (Hf s0) as (_ & _ & ->). by apply Hfit.
Qed.

Lemma sound_update id f e : keeps_history f → sound e → sound (update_session id f e).
Proof.
  intros Hf [Hb Hfit Ht]. split; [by apply book_update|intros i; by apply fits_update|].
  by destruct (book_update id f e Hf Hb) as [_ _ _].
Qed.

Lemma fits_push_other id event e i : id ≠ i → fits i e → fits i (push id event e).
Proof.
  intros Hne Hf s. rewrite push_session, push_history, !decide_False by done. apply Hf.
Qed.

Definition settle_history (id : string) (event : Message) e : Engine T :=
  let e := push id event e in
  let e := trim (length (history id e)) id e in
  reclaim visit (retained e) e.

Lemma settle_history_spec id event e s :
  sound e → Eng.sessions e !! id = Some s → (Sess.eventSeq s < MaxUint64)%Z →
  eventSequence event = (Sess.eventSeq s + 1)%Z → event_session event = id →
  sound (settle_history id event e) ∧ evicts (push id event e) (settle_history id event e).
Proof.
  intros [Hb Hf Ht] Hs Hlt Hseq Hid. unfold settle_history. set (e1 := push id event e).
  assert (book e1) as Hb1 by (by eapply book_push).
  destruct (trim_spec (length (history id e1)) id e1 Hb1 (le_n _)) as (Hb2 & Hv2 & Hf2).
  set (e2 := trim _ id e1) in *. destruct (reclaim_spec (retained e2) e2 Hb2 (le_n _)) as (Hb3 & Hv3 & Ht3).
  split; [|by etrans]. split; [done| |done]. intros i. apply (fits_evicts i e2); [done..|].
  destruct (decide (id = i)) as [<-|Hne]; [done|].
  apply (fits_evicts i e1); [done..|]. by apply fits_push_other.
Qed.
End books.

(** ** Delivery in order *)

(** The numbers of the events of a session among those the transport took. *)
Definition stream (id : string) (ms : list Message) : list Z :=
  eventSequence <$> filter (λ m, event_session m = id) ms.

Lemma stream_snoc id ms m : stream id (ms ++ [m]) = stream id ms ++ (if decide (event_session m = id) then [eventSequence m] else []).
Proof. unfold stream. rewrite filter_app, fmap_app. f_equal. rewrite filter_cons, filter_nil. by case_decide. Qed.

Definition session_name (n : Z) : string := "session-" +:+ pretty n.

Section flows.
Context {T : Type} `{HLaws : TransportLaws T} (visit : nat → list string → list string).
Hypothesis Hvisit : ∀ t ids, visit t ids ≡ₚ ids.
Implicit Types e : Engine T.

(** A session whose peer has seen the events up to [deliveredSeq], with [owed] newer
    events that delivery has yet to look at. *)
Record flow_sess (t : T) (owed : Z) (id : string) (s : engineSession) : Prop := {
  fs_stream : stream id (taken t) = seqZ 1 (Sess.deliveredSeq s);
  fs_range : (0 ≤ Sess.deliveredSeq s ≤ Sess.eventSeq s - owed)%Z;
  fs_live : Sess.suspended s = false → (Sess.deliveredSeq s = Sess.eventSeq s - owed)%Z;
}.

Record flow_at (e : Engine T) (t : T) (late : string → Z) : Prop := {
  fa_sess id s : Eng.sessions e !! id = Some s → flow_sess t (late id) id s;
  fa_any id : ∃ n, stream id (taken t) = seqZ 1 n;
  fa_fresh n : (Eng.nextSession e < n)%Z → stream (session_name n) (taken t) = [];
}.

Definition on_time (id : string) : Z := 0.
Definition one_late (id i : string) : Z := if decide (id = i) then 1 else 0.

Definition flow e (late : string → Z) : Prop := ∀ t, Eng.onEvent e = Some t → flow_at e t late.

(** What an emission leaves alone. *)
Definition shape (s : engineSession) :=
  (Sess.running s, Sess.closed s, Sess.cancelled s, Sess.turn s, Sess.requests s, Sess.ledger s).

Record calm (e e' : Engine T) : Prop := {
  ca_shape id : shape <$> Eng.sessions e' !! id = shape <$> Eng.sessions e !! id;
  ca_next : Eng.nextSession e' = Eng.nextSession e;
  ca_closed : Eng.closed e' = Eng.closed e;
}.

Global Instance calm_preorder : PreOrder calm.
Proof.
  split; [by split|]. intros e1 e2 e3 [A1 A2 A3] [B1 B2 B3]. split; [intros id; by rewrite B1|congruence..].
Qed.

Lemma calm_update id f e : (∀ s, shape (f s) = shape s) → calm e (update_session id f e).
Proof.
  intros Hf. split; [|done..]. intros i. rewrite lookup_update. case_decide; [|done].
  destruct (Eng.sessions e !! i); cbn; [by rewrite Hf|done].
Qed.

Lemma calm_evicts e e' : evicts e e' → calm e e'.
Proof.
  intros [Hc _ _ Hn Hcl]. split; [|done..]. intros id. specialize (Hc id).
  destruct (Eng.sessions e' !! id), (Eng.sessions e !! id); cbn in *; try done. unfold core, shape in *. congruence.
Qed.

Lemma calm_push id event e : calm e (push id event e).
Proof.
  split; [|done..]. intros i. rewrite push_session. case_decide; [|done]. by destruct (Eng.sessions e !! i).
Qed.

Lemma calm_session e e' id s : calm e e' → Eng.sessions e !! id = Some s →
  ∃ s', Eng.sessions e' !! id = Some s' ∧ shape s' = shape s.
Proof. intros Hc Hs. pose proof (ca_shape _ _ Hc id) as E. rewrite Hs in E. cbn in E. by apply fmap_Some in E as (s' & ? & ?); eauto. Qed.

(** The numbers of the sessions after an emission. *)
Definition counts (id : string) (e e' : Engine T) : Prop := ∀ i s',
  Eng.sessions e' !! i = Some s' → ∃ s, Eng.sessions e !! i = Some s ∧ Sess.eventSeq s' = (Sess.eventSeq s + one_late id i)%Z.

Lemma flow_push id event e s :
  book e → Eng.sessions e !! id = Some s → (Sess.eventSeq s < MaxUint64)%Z →
  flow e on_time → flow (push id event e) (one_late id).
Proof.
  intros Hb Hs Hlt Hf t Ht. destruct (Hf t Ht) as [F1 F2 F3]. split; [|done..].
  intros i si. rewrite push_session. unfold one_late. destruct (decide (id = i)) as [<-|Hne]; [|by apply F1].
  rewrite Hs. intros [= <-]. destruct (F1 id s Hs) as [A B C]. unfold on_time in *.
  destruct (b_sess _ Hb id s Hs).
  split; cbn; rewrite ?u64_small by lia; [done|lia|]. intros Hsus. specialize (C Hsus). lia.
Qed.

Lemma core_fields s s' : core s' = core s →
  Sess.suspended s' = Sess.suspended s ∧ Sess.eventSeq s' = Sess.eventSeq s ∧ Sess.deliveredSeq s' = Sess.deliveredSeq s.
Proof. unfold core. intros [= ?????????]. done. Qed.

Lemma flow_evicts e e' late : evicts e e' → flow e late → flow e' late.
Proof.
  intros Hv Hf t Ht. rewrite (v_on _ _ Hv) in Ht. destruct (Hf t Ht) as [F1 F2 F3]. split; [|done|].
  - intros i s' Hs'. destruct (core_session _ _ _ _ Hv Hs') as (s & Hs & Hc).
    destruct (F1 i s Hs) as [A B C]. destruct (core_fields _ _ Hc) as (E1 & E2 & E3). split; rewrite ?E1, ?E2, ?E3; done.
  - rewrite (v_next _ _ Hv). done.
Qed.

Lemma counts_evicts id event e e' s :
  book e → Eng.sessions e !! id = Some s → (Sess.eventSeq s < MaxUint64)%Z →
  evicts (push id event e) e' → counts id e e'.
Proof.
  intros Hb Hs Hlt Hv i s' Hs'. destruct (core_session _ _ _ _ Hv Hs') as (s0 & Hs0 & Hc).
  assert (Sess.eventSeq s' = Sess.eventSeq s0) as -> by (unfold core in Hc; congruence).
  rewrite push_session in Hs0. unfold one_late. destruct (decide (id = i)) as [<-|Hne]; [|exists s0; split; [done|lia]].
  rewrite Hs in Hs0. injection Hs0 as <-. exists s. split; [done|]. cbn. destruct (b_sess _ Hb id s Hs).
  by rewrite u64_small by lia.
Qed.

Lemma sound_transport (o : option T) (e : Engine T) : sound e → sound {| e with Eng.onEvent := o |}.
Proof. intros [[A B C] D F]. by split. Qed.

(** The transport took the next event of a session. *)
Lemma flow_taken id event e t late s f :
  flow_at e t late → Eng.sessions e !! id = Some s → fst (offer event t) = true →
  event_session event = id → eventSequence event = (Sess.deliveredSeq s + 1)%Z →
  (∃ n, id = session_name n ∧ n ≤ Eng.nextSession e)%Z →
  Sess.deliveredSeq (f s) = eventSequence event → Sess.eventSeq (f s) = Sess.eventSeq s →
  (∀ late', (∀ i, i ≠ id → late' i = late i) → 
     (Sess.deliveredSeq s + 1 ≤ Sess.eventSeq s - late' id)%Z →
     (Sess.suspended (f s) = false → Sess.deliveredSeq s + 1 = Sess.eventSeq s - late' id)%Z →
   flow_at (update_session id f {| e with Eng.onEvent := Some (snd (offer event t)) |}) (snd (offer event t)) late').
Proof.
  intros [F1 F2 F3] Hs Hok Hid Hseq Hname Hd He late' Hl Hle Hlive. apply offer_taken in Hok.
  destruct (F1 id s Hs) as [A B C].
  assert (stream id (taken (snd (offer event t))) = seqZ 1 (Sess.deliveredSeq s + 1)) as Hown.
  { rewrite Hok, stream_snoc, A, decide_True, Hseq by done. rewrite <-seqZ_snoc by lia. do 2 f_equal. lia. }
  assert (∀ i, i ≠ id → stream i (taken (snd (offer event t))) = stream i (taken t)) as Hother.
  { intros i Hi. rewrite Hok, stream_snoc, decide_False, app_nil_r by congruence. done. }
  split.
  - intros i si. rewrite lookup_update. destruct (decide (id = i)) as [<-|Hne]; cbn [Eng.sessions].
    + rewrite Hs. intros [= <-]. split; rewrite ?Hd, ?He, ?Hseq; [done|lia|done].
    + intros Hsi. destruct (F1 i si Hsi) as [A' B' C']. split; rewrite ?Hother, ?Hl by done; done.
  - intros i. destruct (decide (i = id)) as [->|Hne]; [by eexists|]. rewrite Hother by done. apply F2.
  - cbn. intros n Hn. rewrite Hother; [by apply F3|]. intros <-. destruct Hname as (n' & Heq & Hle').
    unfold session_name in Heq. apply (inj (String.append "session-")) in Heq. apply (inj pretty) in Heq. lia.
Qed.

Lemma flow_refused id event e t late s f :
  flow_at e t late → Eng.sessions e !! id = Some s → fst (offer event t) = false →
  Sess.deliveredSeq (f s) = Sess.deliveredSeq s → Sess.eventSeq (f s) = Sess.eventSeq s → Sess.suspended (f s) = true →
  (∀ late', (∀ i, i ≠ id → late' i = late i) → (Sess.deliveredSeq s ≤ Sess.eventSeq s - late' id)%Z →
   flow_at (update_session id f {| e with Eng.onEvent := Some (snd (offer event t)) |}) (snd (offer event t)) late').
Proof.
  intros [F1 F2 F3] Hs Hno Hd He Hsus late' Hl Hle. apply offer_refused in Hno. split.
  - intros i si. rewrite lookup_update. destruct (decide (id = i)) as [<-|Hne]; cbn [Eng.sessions].
    + rewrite Hs. intros [= <-]. destruct (F1 id s Hs) as [A B C]. split; rewrite ?Hno, ?Hd, ?He, ?Hsus; [done|lia|done].
    + intros Hsi. destruct (F1 i si Hsi) as [A' B' C']. split; rewrite ?Hno, ?Hl by done; done.
  - by rewrite Hno.
  - by rewrite Hno.
Qed.

(** Sessions keep their event numbers. *)
Definition same_counts (e e' : Engine T) : Prop := ∀ id,
  Sess.eventSeq <$> Eng.sessions e' !! id = Sess.eventSeq <$> Eng.sessions e !! id.

Lemma same_counts_update id f e : (∀ s, Sess.eventSeq (f s) = Sess.eventSeq s) → same_counts e (update_session id f e).
Proof.
  intros Hf i. rewrite lookup_update. case_decide; [|done]. destruct (Eng.sessions e !! i); cbn; [by rewrite Hf|done].
Qed.

(** After an offer the engine records the transport and what it learned of the session. *)
Lemma offered id (f : engineSession → engineSession) (o : option T) (e : Engine T) :
  keeps_history f → (∀ s, shape (f s) = shape s) → sound e →
  let e' := update_session id f {| e with Eng.onEvent := o |} in sound e' ∧ calm e e' ∧ same_counts e e'.
Proof.
  intros Hk Hsh Hso. split_and!.
  - apply sound_update; [done|]. by apply sound_transport.
  - destruct (calm_update id f {| e with Eng.onEvent := o |} Hsh). by split.
  - apply (same_counts_update id f {| e with Eng.onEvent := o |}). intros s. apply Hk.
Qed.

Lemma deliver_spec id event e s :
  sound e → flow e (one_late id) → Eng.sessions e !! id = Some s →
  event_session event = id → eventSequence event = Sess.eventSeq s →
  (∃ n, id = session_name n ∧ n ≤ Eng.nextSession e)%Z →
  sound (deliver id event e) ∧ flow (deliver id event e) on_time ∧ calm e (deliver id event e) ∧ same_counts e (deliver id event e).
Proof.
  intros Hso Hf Hs Hid Hseq Hname. unfold deliver. rewrite Hs.
  destruct (Eng.onEvent e) as [t|] eqn:Ht; [|by split_and!; [|intros t Ht'; congruence|..]].
  destruct (Hf t Ht) as [F1 F2 F3]. pose proof (F1 id s Hs) as [A B C]. unfold one_late in B, C. rewrite decide_True in B, C by done.
  destruct (Sess.suspended s) eqn:Hsus.
  - split_and!; [done| |done|done]. intros t' Ht'. assert (t' = t) as -> by congruence. split; [|done..].
    intros i si Hsi. destruct (F1 i si Hsi) as [A' B' C']. unfold one_late, on_time in *.
    destruct (decide (id = i)) as [<-|Hne]; [|by split].
    assert (si = s) as -> by congruence. split; [done|lia|congruence].
  - specialize (C eq_refl). assert (∀ i, i ≠ id → on_time i = one_late id i) as Hl.
    { intros i Hi. unfold on_time, one_late. by rewrite decide_False. }
    destruct (offer event t) as [[] t'] eqn:Ho.
    + set (f s := {| s with Sess.deliveredSeq := Sess.eventSeq s |}).
      destruct (offered id f (Some t') e) as (O1 & O2 & O3); [done..|]. split_and!; [done| |done|done].
      intros t0 [= <-]. pose proof (flow_taken id event e t (one_late id) s f) as Hft.
      rewrite Ho in Hft. cbn [fst snd] in Hft. apply Hft; try done; cbn; try lia. all: unfold on_time; lia.
    + set (f s := {| s with Sess.suspended := true |}).
      destruct (offered id f (Some t') e) as (O1 & O2 & O3); [done..|]. split_and!; [done| |done|done].
      intros t0 [= <-]. pose proof (flow_refused id event e t (one_late id) s f) as Hft.
      rewrite Ho in Hft. cbn [fst snd] in Hft. apply Hft; try done; cbn; try lia. all: unfold on_time; lia.
Qed.

Definition emittable id e : Prop := ∃ n, id = session_name n ∧ (n ≤ Eng.nextSession e)%Z ∧ utf8 id = true.

Lemma emit_spec id method fields e s :
  sound e → flow e on_time → Eng.sessions e !! id = Some s → (Sess.eventSeq s < MaxUint64)%Z →
  Forall field_ok fields → emittable id e →
  let e' := emit visit id method fields e in
  sound e' ∧ flow e' on_time ∧ calm e e' ∧ counts id e e'.
Proof.
  intros Hso Hf Hs Hlt Hok (n & Hname & Hn & Hutf). destruct (b_sess _ (so_book _ Hso) id s Hs) as [_ Hfl Hend _ _ _].
  set (event := next_event id s method fields).
  assert (emit visit id method fields e = deliver id event (settle_history visit id event e)) as ->.
  { unfold emit. by rewrite Hs. }
  destruct (event_params_read id (Sess.turn s) (u64 (Sess.eventSeq s + 1)) fields Hutf Hok) as [Hseq Hid];
    [apply u64_range|]. rewrite u64_small in Hseq at 2 by lia.
  destruct (settle_history_spec visit Hvisit id event e s Hso Hs Hlt Hseq Hid) as [Hso1 Hv].
  set (e1 := settle_history visit id event e) in *.
  assert (calm e e1) as Hc1 by (etrans; [apply calm_push|apply calm_evicts, Hv]).
  destruct (calm_session _ _ _ _ Hc1 Hs) as (s1 & Hs1 & _).
  assert (counts id e e1) as Hcnt by (by eapply counts_evicts; [apply Hso|..]).
  destruct (Hcnt _ _ Hs1) as (s' & Hs' & Hes). assert (s' = s) as -> by congruence.
  unfold one_late in Hes. rewrite decide_True in Hes by done.
  destruct (deliver_spec id event e1 s1) as (D1 & D2 & D3 & D4); [done| |done|done| | |].
  - eapply flow_evicts; [exact Hv|]. eapply flow_push; [apply Hso|done..].
  - unfold event. cbn. rewrite Hes. done.
  - exists n. rewrite (ca_next _ _ Hc1). done.
  - split_and!; [done|done|by etrans|]. intros i si Hsi. pose proof (D4 i) as E. rewrite Hsi in E. cbn in E.
    symmetry in E. apply fmap_Some in E as (s2 & Hs2 & ->). by apply Hcnt.
Qed.

(** *** Replay *)

Definition behind (id : string) (k : Z) (i : string) : Z := if decide (id = i) then k else 0.

Lemma flow_update id f e t late late' :
  flow_at e t late → (∀ i, i ≠ id → late' i = late i) →
  (∀ s, Eng.sessions e !! id = Some s → flow_sess t (late' id) id (f s)) → flow_at (update_session id f e) t late'.
Proof.
  intros [F1 F2 F3] Hl Hs. split; [|done..]. intros i si. rewrite lookup_update.
  destruct (decide (id = i)) as [<-|Hne]; [intros (s & Hs0 & ->)%fmap_Some; by apply Hs|]. rewrite Hl by done. apply F1.
Qed.

Lemma flow_same (e : Engine T) (t t' : T) late :
  taken t' = taken t → flow_at e t late → flow_at {| e with Eng.onEvent := Some t' |} t' late.
Proof.
  intros E [F1 F2 F3]. split; rewrite ?E; [|done..]. intros i s Hs. destruct (F1 i s Hs). by split; rewrite ?E.
Qed.

(** How far behind the peer of a session is. *)
Definition lag (s : engineSession) : Z := Sess.eventSeq s - Sess.deliveredSeq s.

Lemma same_counts_trans e1 e2 e3 : same_counts e1 e2 → same_counts e2 e3 → same_counts e1 e3.
Proof. intros A B id. by rewrite B. Qed.

Definition replayed id (err : option error) (s : engineSession) (e e' : Engine T) : Prop :=
  sound e' ∧ calm e e' ∧ same_counts e e' ∧ ∃ t' s', Eng.onEvent e' = Some t' ∧ Eng.sessions e' !! id = Some s' ∧
    flow_at e' t' (behind id (lag s')) ∧ (0 ≤ lag s')%Z ∧ (err = None → lag s' = 0%Z).

Lemma replay_spec id events : ∀ e s t a,
  sound e → Eng.onEvent e = Some t → Eng.sessions e !! id = Some s → flow_at e t (behind id (lag s)) → (0 ≤ lag s)%Z →
  Forall (λ event, event_session event = id) events → eventSequence <$> events = seqZ a (Z.of_nat (length events)) →
  (a ≤ Sess.deliveredSeq s + 1)%Z → (a + Z.of_nat (length events) = Sess.eventSeq s + 1)%Z → emittable id e →
  replayed id (fst (replay id events e)) s e (snd (replay id events e)).
Proof.
  induction events as [|event events IH]; intros e s t a Hso Ht Hs Hf Hlag Hids Hseqs Ha Hend Hem; cbn [replay].
  - split_and!; [done..|]. exists t, s. split_and!; [done..|]. intros _.
    unfold lag in *. cbn in Hend. lia.
  - rewrite Ht, Hs. apply Forall_cons_1 in Hids as [Hid Hids].
    cbn [length] in *. rewrite seqZ_cons in Hseqs by lia. cbn [fmap list_fmap] in Hseqs. injection Hseqs as Hseq Hseqs.
    replace (Z.pred (Z.of_nat (S (length events)))) with (Z.of_nat (length events)) in Hseqs by lia.
    case_decide as Hold.
    + apply (IH e s t (Z.succ a)); try done; lia.
    + assert (eventSequence event = Sess.deliveredSeq s + 1)%Z as Hnext by lia.
      destruct (offer event t) as [[] t'] eqn:Ho; cbn [fst snd].
      * set (f s := {| s with Sess.deliveredSeq := eventSequence event |}).
        destruct (offered id f (Some t') e) as (O1 & O2 & O3); [done..|].
        set (e1 := update_session id f _) in *.
        assert (Eng.sessions e1 !! id = Some (f s)) as Hs1 by (unfold e1; rewrite lookup_update, decide_True by done; cbn; by rewrite Hs).
        assert (flow_at e1 t' (behind id (lag (f s)))) as Hf1.
        { destruct Hem as (n & Hname & Hn & _).
          pose proof (flow_taken id event e t (behind id (lag s)) s f Hf Hs) as Hft. rewrite Ho in Hft. cbn [fst snd] in Hft.
          apply Hft; try done; [by exists n|intros i Hi; unfold behind; by rewrite !decide_False|..];
            unfold behind, lag; rewrite decide_True by done; cbn; lia. }
        destruct (IH e1 (f s) t' (Z.succ a)) as (R1 & R2 & R3 & R4); try done; [unfold lag; cbn; lia|cbn; lia|cbn; lia|].
        split_and!; [done|by etrans|by eapply same_counts_trans|done].
      * split_and!; [by apply sound_transport|by split|done|]. exists t', s. split_and!; [done|done| |done|done].
        apply (flow_same e t t'); [|done]. pose proof (offer_refused event t) as Hr. rewrite Ho in Hr. by apply Hr.
Qed.

Lemma flow_behind id s k e t :
  flow_at e t (behind id k) → Eng.sessions e !! id = Some s → k = 0%Z → flow_at e t on_time.
Proof.
  intros [F1 F2 F3] Hs ->. split; [|done..]. intros i si Hsi. specialize (F1 i si Hsi). unfold behind in F1. by destruct (decide (id = i)).
Qed.

(** Suspending is always possible. *)
Lemma flow_suspend id e t k s :
  flow_at e t (behind id k) → Eng.sessions e !! id = Some s → (0 ≤ k)%Z →
  flow_at (update_session id (λ s, {| s with Sess.suspended := true |}) e) t on_time.
Proof.
  intros Hf Hs Hk. eapply flow_update; [exact Hf| |].
  - intros i Hi. unfold behind, on_time. by rewrite decide_False.
  - intros s' Hs'. destruct (fa_sess _ _ _ Hf id s' Hs') as [A B C]. unfold behind in B. rewrite decide_True in B by done.
    split; cbn; [done|unfold on_time; lia|done].
Qed.

Lemma flow_unsuspend id e t s :
  flow_at e t on_time → Eng.sessions e !! id = Some s →
  flow_at (update_session id (λ s, {| s with Sess.suspended := false |}) e) t (behind id (lag s)) ∧ (0 ≤ lag s)%Z.
Proof.
  intros Hf Hs. destruct (fa_sess _ _ _ Hf id s Hs) as [A B C]. unfold on_time in B. split; [|unfold lag; lia].
  eapply flow_update; [exact Hf| |].
  - intros i Hi. unfold behind, on_time. by rewrite decide_False.
  - intros s' Hs'. assert (s' = s) as -> by congruence. unfold behind, lag. rewrite decide_True by done.
    split; cbn; [done|lia|lia].
Qed.

Lemma flush_spec id e s t :
  sound e → Eng.onEvent e = Some t → Eng.sessions e !! id = Some s → flow_at e t (behind id (lag s)) → (0 ≤ lag s)%Z →
  emittable id e → replayed id (fst (flushSession id e)) s e (snd (flushSession id e)).
Proof.
  intros Hso Ht Hs Hf Hlag Hem. unfold flushSession. rewrite Hs, Ht. case_decide as Hd.
  - destruct Hd as [?|Hd]; [done|]. split_and!; [done..|]. exists t, s. unfold lag. split_and!; [done..|lia|lia].
  - case_decide as Hfl.
    + split_and!; [done..|]. exists t, s. by split_and!.
    + destruct (b_sess _ (so_book _ Hso) id s Hs) as [H1 H2 H3 H4 H5 H6].
      apply (replay_spec _ _ e s t (Sess.historyFloor s + 1)); try done; lia.
Qed.

Record kept (e e' : Engine T) : Prop := {
  k_sound : sound e';
  k_flow : flow e' on_time;
  k_calm : calm e e';
  k_counts : same_counts e e';
}.

Lemma kept_update id f (e : Engine T) :
  sound e → (∀ t, Eng.onEvent e = Some t → flow_at (update_session id f e) t on_time) →
  keeps_history f → (∀ s, shape (f s) = shape s) → kept e (update_session id f e).
Proof.
  intros Hso Hf Hk Hsh. split; [by apply sound_update|by intros t Ht; apply Hf|by apply calm_update|].
  apply same_counts_update. intros s. apply Hk.
Qed.

Lemma kept_trans e1 e2 e3 : calm e1 e2 → same_counts e1 e2 → kept e2 e3 → kept e1 e3.
Proof. intros A B [C D E F]. split; [done..|by etrans|by eapply same_counts_trans]. Qed.

Lemma resume_spec rpc id e s :
  sound e → flow e on_time → Eng.sessions e !! id = Some s → emittable id e → kept e (snd (resume_session rpc id e)).
Proof.
  intros Hso Hf Hs Hem. unfold resume_session. set (f s := {| s with Sess.suspended := false |}).
  set (e1 := update_session id f e).
  assert (sound e1) as Hso1 by (by apply sound_update).
  assert (calm e e1) as Hc1 by (by apply calm_update). assert (same_counts e e1) as Hn1 by (by apply same_counts_update).
  assert (Eng.sessions e1 !! id = Some (f s)) as Hs1 by (unfold e1; rewrite lookup_update, decide_True, Hs by done; done).
  destruct (Eng.onEvent e) as [t|] eqn:Ht.
  - destruct (flow_unsuspend id e t s (Hf t Ht) Hs) as [Hf1 Hlag].
    destruct (flush_spec id e1 (f s) t Hso1 Ht Hs1 Hf1 Hlag Hem) as (R1 & R2 & R3 & t' & s' & Ht' & Hs' & Hf' & Hl' & Hz).
    destruct (flushSession id e1) as [[err|] e2]; cbn [fst snd] in *.
    + apply (kept_trans e e2); [by etrans|by eapply same_counts_trans|]. apply kept_update; [done| |done|done].
      intros t0 Ht0. assert (t0 = t') as -> by congruence. by eapply flow_suspend.
    + split; [done| |by etrans|by eapply same_counts_trans]. intros t0 Ht0. assert (t0 = t') as -> by congruence.
      eapply flow_behind; [exact Hf'|exact Hs'|by apply Hz].
  - unfold flushSession. rewrite Hs1. rewrite decide_True by by left. cbn [snd]. split; [done| |done|done].
    intros t Ht'. cbn in Ht'. congruence.
Qed.
End flows.
