(* ===== verification/EngineSystem.v ===== *)
(** * A connection's engine as a system

    The engine reacts to requests, to the ends of provider calls, to the transport and
    to shutdown, in any order.  Reachable states keep the books of the engine, deliver
    in order, and agree with the turns that are running. *)

From Stdlib Require Import Ascii.
From stdpp Require Import base tactics option list gmap strings numbers pretty sorting list_numbers fin_map_dom.
From S2P Require Import Prelude GoLib Json Ledger State Protocol Engine EngineProofs.

Lemma decimal_plain s : ∀ acc n, decimal acc s = Some n → plain s = true.
Proof.
  induction s as [|c s IH]; intros acc n; [done|]. cbn [decimal plain]. destruct (is_digit c) eqn:Hc; [|done].
  intros Hs%IH. rewrite Hs, andb_true_r. by destruct c as [[] [] [] [] [] [] [] []].
Qed.

Lemma session_name_utf8 n : (0 ≤ n)%Z → utf8 (session_name n) = true.
Proof.
  intros Hn. apply plain_utf8. destruct (pretty_natural n Hn) as [_ Hd]. apply decimal_plain in Hd.
  unfold session_name. revert Hd. generalize (pretty n). intros p Hp. exact Hp.
Qed.

Section system.
Context {T : Type} `{HLaws : TransportLaws T} (visit : nat → list string → list string) (name : string).
Hypothesis Hvisit : ∀ t ids, visit t ids ≡ₚ ids.

Record world := mkWorld { eng : Engine T; turns : gmap string PendingTurn }.

Inductive input : Type :=
  | Request (m : Message)
  | Complete (id text : string) (usage : Usage) (err : option turn_error)
  | Shutdown
  | Traffic (t : T).

(** A turn completes once; traffic leaves what was taken alone. *)
Definition allowed (w : world) (i : input) : Prop :=
  match i with
  | Complete id _ _ _ => is_Some (turns w !! id)
  | Traffic t => ∃ t0, Eng.onEvent (eng w) = Some t0 ∧ taken t = taken t0
  | Request _ | Shutdown => True
  end.

Definition react (w : world) (i : input) : option Message * world :=
  match i with
  | Request m =>
      match start_request visit name m (eng w) with
      | (Respond r, e) => (Some r, mkWorld e (turns w))
      | (Started t, e) => (None, mkWorld e (<[Pend.session t := t]> (turns w)))
      end
  | Complete id text usage err =>
      match turns w !! id with
      | Some t => let '(r, e) := finish_turn visit t text usage err (eng w) in (Some r, mkWorld e (delete id (turns w)))
      | None => (None, w)
      end
  | Shutdown => (None, mkWorld (Close visit (eng w)) (turns w))
  | Traffic t => (None, mkWorld {| (eng w) with Eng.onEvent := Some t |} (turns w))
  end.

Inductive steps (w : world) : world → Prop :=
  | steps_refl : steps w w
  | steps_step w' i : steps w w' → allowed w' i → steps w (snd (react w' i)).

Definition connected (transport : option T) : world := mkWorld (NewEngine transport) ∅.

Inductive reachable : world → Prop :=
  | reachable_start transport w :
      (∀ t, transport = Some t → taken t = []) → steps (connected transport) w → reachable w.

(** ** Sessions and running turns agree *)

Definition pending_key (t : PendingTurn) : string := request_key "session/prompt" (Pend.request t).

Record sess_ok (next : Z) (pending : option PendingTurn) (id : string) (s : engineSession) : Prop := {
  ok_requests : size (Sess.requests s) ≤ maxReplayRequests;
  ok_turn : in_u64 (Sess.turn s);
  ok_running : Sess.running s = true ↔ is_Some pending;
  ok_closed : Sess.closed s = true → Sess.running s = true;
  ok_margin : Sess.running s = true → (Sess.eventSeq s ≤ MaxUint64 - 3)%Z;
  ok_name : ∃ n, (0 < n ≤ next)%Z ∧ id = session_name n;
  ok_pending t : pending = Some t → Pend.session t = id ∧
    (Pend.request t ≠ "" → size (Sess.requests s) < maxReplayRequests ∧ Sess.requests s !! pending_key t = None);
}.

Record roster (e : Engine T) (ts : gmap string PendingTurn) : Prop := {
  r_next : in_u64 (Eng.nextSession e);
  r_size : size (Eng.sessions e) ≤ maxSessions;
  r_sess id s : Eng.sessions e !! id = Some s → sess_ok (Eng.nextSession e) (ts !! id) id s;
  r_turns id t : ts !! id = Some t → is_Some (Eng.sessions e !! id);
}.

(** A closed engine only waits for the turns of closed sessions. *)
Definition shut (e : Engine T) : Prop := ∀ id s,
  Eng.closed e = true → Eng.sessions e !! id = Some s → Sess.closed s = true.

Record good (w : world) : Prop := {
  g_sound : sound (eng w);
  g_flow : flow (eng w) on_time;
  g_roster : roster (eng w) (turns w);
  g_shut : shut (eng w);
}.

Lemma sess_ok_shape next pending id s s' :
  shape s' = shape s → (Sess.running s = true → Sess.eventSeq s' ≤ MaxUint64 - 3)%Z →
  sess_ok next pending id s → sess_ok next pending id s'.
Proof.
  unfold shape. intros [= E1 E2 E3 E4 E5 E6] Hm [A B C D F G I].
  split; rewrite ?E1, ?E2, ?E3, ?E4, ?E5; auto.
Qed.

(** Only session [id] changed, beyond what an emission changes. *)
Record elsewhere (id : string) (e e' : Engine T) : Prop := {
  el_other i s' : i ≠ id → Eng.sessions e' !! i = Some s' →
    ∃ s, Eng.sessions e !! i = Some s ∧ shape s' = shape s ∧ Sess.eventSeq s' = Sess.eventSeq s;
  el_kept i : i ≠ id → is_Some (Eng.sessions e !! i) → is_Some (Eng.sessions e' !! i);
  el_dom s' : Eng.sessions e' !! id = Some s' → is_Some (Eng.sessions e !! id);
  el_next : Eng.nextSession e' = Eng.nextSession e;
  el_closed : Eng.closed e' = Eng.closed e;
}.

Lemma elsewhere_size id e e' : elsewhere id e e' → size (Eng.sessions e') ≤ size (Eng.sessions e).
Proof.
  intros [A B C _ _]. rewrite <-!(size_dom (D := gset string)). apply subseteq_size. intros i. rewrite !elem_of_dom.
  intros [s' Hs']. destruct (decide (i = id)) as [->|Hne]; [by eapply C|]. destruct (A i s' Hne Hs') as (s & -> & _). eauto.
Qed.

Lemma roster_elsewhere id e ts e' ts' :
  roster e ts → elsewhere id e e' → (∀ i, i ≠ id → ts' !! i = ts !! i) →
  (∀ s', Eng.sessions e' !! id = Some s' → sess_ok (Eng.nextSession e) (ts' !! id) id s') →
  (is_Some (ts' !! id) → is_Some (Eng.sessions e' !! id)) → roster e' ts'.
Proof.
  intros [R1 R2 R3 R4] Hel Hts Hid Hlive. pose proof (elsewhere_size _ _ _ Hel) as Hsz. destruct Hel as [A B C D E].
  split; rewrite ?D, ?E.
  - done.
  - lia.
  - intros i s' Hs'. destruct (decide (i = id)) as [->|Hne]; [by apply Hid|].
    destruct (A i s' Hne Hs') as (s & Hs & Hsh & Hev). rewrite Hts by done. eapply sess_ok_shape; [exact Hsh| |by apply R3].
    rewrite Hev. by apply (ok_margin _ _ _ _ (R3 i s Hs)).
  - intros i t Ht. destruct (decide (i = id)) as [->|Hne]; [eauto|]. rewrite Hts in Ht by done. eauto.
Qed.

Lemma shut_elsewhere id e e' :
  shut e → elsewhere id e e' → (∀ s', Eng.closed e = true → Eng.sessions e' !! id = Some s' → Sess.closed s' = true) → shut e'.
Proof.
  intros Hsh [A B C D E] Hid i s' Hcl Hs'. rewrite E in Hcl. destruct (decide (i = id)) as [->|Hne]; [by apply Hid|].
  destruct (A i s' Hne Hs') as (s & Hs & Hshape & _). unfold shape in Hshape. injection Hshape as _ -> _ _ _ _. by eapply Hsh.
Qed.

Lemma elsewhere_trans id e1 e2 e3 : elsewhere id e1 e2 → elsewhere id e2 e3 → elsewhere id e1 e3.
Proof.
  intros [A1 B1 C1 D1 E1] [A2 B2 C2 D2 E2]. split; [|auto..|congruence|congruence].
  - intros i s3 Hne Hs3. destruct (A2 i s3 Hne Hs3) as (s2 & Hs2 & Hsh2 & Hev2).
    destruct (A1 i s2 Hne Hs2) as (s1 & Hs1 & Hsh1 & Hev1). exists s1. split; [done|]. split; congruence.
  - intros s3 Hs3. destruct (C2 s3 Hs3) as [s2 Hs2]. by eapply C1.
Qed.

Lemma elsewhere_update id f (e : Engine T) : elsewhere id e (update_session id f e).
Proof.
  split; [..|done|done].
  - intros i s' Hne. rewrite lookup_update, decide_False by done. eauto.
  - intros i Hne. by rewrite lookup_update, decide_False by done.
  - intros s'. rewrite lookup_update, decide_True by done. intros (s & -> & _)%fmap_Some. eauto.
Qed.

Lemma elsewhere_calm id e e' :
  calm e e' → (∀ i s', i ≠ id → Eng.sessions e' !! i = Some s' → ∃ s, Eng.sessions e !! i = Some s ∧ Sess.eventSeq s' = Sess.eventSeq s) →
  elsewhere id e e'.
Proof.
  intros Hc Hn. assert (∀ i s', Eng.sessions e' !! i = Some s' → ∃ s, Eng.sessions e !! i = Some s ∧ shape s' = shape s) as Hsh.
  { intros i s' Hs'. pose proof (ca_shape _ _ Hc i) as E. rewrite Hs' in E. cbn in E. symmetry in E.
    apply fmap_Some in E as (s & Hs & E). eauto. }
  split; [..|by apply Hc|by apply Hc].
  - intros i s' Hne Hs'. destruct (Hsh i s' Hs') as (s & Hs & E). destruct (Hn i s' Hne Hs') as (s0 & Hs0 & E').
    assert (s0 = s) as -> by congruence. eauto.
  - intros i Hne [s Hs]. destruct (calm_session _ _ _ _ Hc Hs) as (s' & -> & _). eauto.
  - intros s' Hs'. destruct (Hsh id s' Hs') as (s & -> & _). eauto.
Qed.

Lemma elsewhere_emit id e e' : calm e e' → counts id e e' → elsewhere id e e'.
Proof.
  intros Hc Hn. apply elsewhere_calm; [done|]. intros i s' Hne Hs'. destruct (Hn i s' Hs') as (s & Hs & E).
  exists s. split; [done|]. unfold one_late in E. rewrite decide_False in E by done. lia.
Qed.

Lemma elsewhere_same id e e' : calm e e' → same_counts e e' → elsewhere id e e'.
Proof.
  intros Hc Hn. apply elsewhere_calm; [done|]. intros i s' Hne Hs'. specialize (Hn i). rewrite Hs' in Hn.
  cbn in Hn. symmetry in Hn. apply fmap_Some in Hn as (s & Hs & E). eauto.
Qed.

Lemma elsewhere_release id (e : Engine T) : elsewhere id e (releaseSession id e).
Proof.
  split; [..|done|done]; cbn.
  - intros i s' Hne. rewrite lookup_delete_ne by done. eauto.
  - intros i Hne. by rewrite lookup_delete_ne by done.
  - intros s'. by rewrite lookup_delete_eq.
Qed.

(** ** Releasing a session *)

Lemma release_history id i (e : Engine T) : history i (releaseSession id e) = if decide (id = i) then [] else history i e.
Proof. unfold history, releaseSession. cbn. rewrite lookup_delete. by case_decide. Qed.

Lemma sound_release id (e : Engine T) : sound e → sound (releaseSession id e).
Proof.
  intros [[Hss Hd Ht] Hf Htot].
  assert (∀ i s, Eng.sessions (releaseSession id e) !! i = Some s → id ≠ i ∧ Eng.sessions e !! i = Some s) as Hin.
  { intros i s. cbn. by rewrite lookup_delete_Some. }
  split; [split|..].
  - intros i s [Hne Hs]%Hin. rewrite release_history, decide_False by done. by apply Hss.
  - intros i h. cbn. rewrite lookup_delete_Some. intros [Hne Hh]. rewrite lookup_delete_ne by done. by eapply Hd.
  - cbn. rewrite Ht. destruct (Eng.sessions e !! id) as [s|] eqn:Hs.
    + rewrite (map_sum_delete _ _ _ _ Hs). lia.
    + by rewrite delete_id, Z.sub_0_r by done.
  - intros i s [Hne Hs]%Hin. rewrite release_history, decide_False by done. by apply Hf.
  - cbn. destruct (Eng.sessions e !! id) as [s|] eqn:Hs; [|lia].
    pose proof (book_bytes e id s ltac:(by split) Hs). lia.
Qed.

Lemma flow_release id (e : Engine T) : flow e on_time → flow (releaseSession id e) on_time.
Proof.
  intros Hf t Ht. destruct (Hf t Ht) as [F1 F2 F3]. split; [|done..]. intros i s. cbn. rewrite lookup_delete_Some. intros [_ Hs]. by apply F1.
Qed.

(** ** The requests keep the invariant *)

Lemma good_kept e ts e' : good (mkWorld e ts) → kept e e' → good (mkWorld e' ts).
Proof.
  intros [Hso Hf Hr Hsh] [K1 K2 K3 K4]. cbn in *. pose proof (elsewhere_same "" e e' K3 K4) as Hel.
  assert (∀ s', Eng.sessions e' !! "" = Some s' → ∃ s, Eng.sessions e !! "" = Some s ∧ shape s' = shape s ∧ Sess.eventSeq s' = Sess.eventSeq s) as Hnil.
  { intros s' Hs'. pose proof (ca_shape _ _ K3 "") as E. pose proof (K4 "") as E'. rewrite Hs' in E, E'. cbn in E, E'.
    destruct (Eng.sessions e !! "") as [s|]; [|done]. cbn in E, E'. exists s. split; [done|]. split; congruence. }
  split; cbn; [done|done| |].
  - apply (roster_elsewhere "" e ts); [done|done|done|..].
    + intros s' Hs'. destruct (Hnil s' Hs') as (s & Hs & Hshape & Hev). eapply sess_ok_shape; [exact Hshape| |by apply Hr].
      rewrite Hev. apply (ok_margin _ _ _ _ (r_sess _ _ Hr _ _ Hs)).
    + intros [t Ht]. destruct (r_turns _ _ Hr _ _ Ht) as [s Hs]. destruct (calm_session _ _ _ _ K3 Hs) as (s' & -> & _). eauto.
  - apply (shut_elsewhere "" e); [done|done|]. intros s' Hcl Hs'. destruct (Hnil s' Hs') as (s & Hs & Hshape & Hev).
    unfold shape in Hshape. injection Hshape as _ -> _ _ _ _. by eapply Hsh.
Qed.

Lemma good_emittable w id s : good w → Eng.sessions (eng w) !! id = Some s → emittable id (eng w).
Proof.
  intros Hg Hs. destruct (ok_name _ _ _ _ (r_sess _ _ (g_roster _ Hg) _ _ Hs)) as (n & Hn & ->).
  exists n. split_and!; [done|lia|]. apply session_name_utf8. lia.
Qed.

Lemma good_suspend e ts id : good (mkWorld e ts) → good (mkWorld (update_session id (λ s, {| s with Sess.suspended := true |}) e) ts).
Proof.
  intros Hg. eapply good_kept; [exact Hg|]. destruct Hg as [Hso Hf _ _]. apply kept_update; [done| |done|done].
  intros t Ht. eapply flow_update; [by apply Hf|done|]. intros s Hs. destruct (fa_sess _ _ _ (Hf t Ht) id s Hs). by split.
Qed.

Lemma good_resume e ts rpc id s :
  good (mkWorld e ts) → Eng.sessions e !! id = Some s → good (mkWorld (snd (resume_session rpc id e)) ts).
Proof.
  intros Hg Hs. eapply good_kept; [exact Hg|]. pose proof (good_emittable _ _ _ Hg Hs). destruct Hg as [Hso Hf _ _]. by eapply resume_spec.
Qed.

(** A change of a session's status that its events do not see. *)
Lemma sound_flow_status id f (e : Engine T) :
  keeps_history f → (∀ s, Sess.deliveredSeq (f s) = Sess.deliveredSeq s ∧ Sess.suspended (f s) = Sess.suspended s) →
  sound e → flow e on_time → sound (update_session id f e) ∧ flow (update_session id f e) on_time.
Proof.
  intros Hk Hd Hso Hf. split; [by apply sound_update|]. intros t Ht. eapply flow_update; [by apply Hf|done|].
  intros s Hs. destruct (fa_sess _ _ _ (Hf t Ht) id s Hs) as [A B C]. destruct (Hd s) as [E1 E2], (Hk s) as (_ & E3 & _).
  split; rewrite ?E1, ?E2, ?E3; done.
Qed.

Lemma lookup_updated id f (e : Engine T) s : Eng.sessions e !! id = Some s → Eng.sessions (update_session id f e) !! id = Some (f s).
Proof. intros Hs. by rewrite lookup_update, decide_True, Hs by done. Qed.

(** A session is closed; it goes at once unless a turn is running. *)
Lemma good_stop e ts id s f :
  good (mkWorld e ts) → Eng.sessions e !! id = Some s → keeps_history f →
  (∀ s, Sess.deliveredSeq (f s) = Sess.deliveredSeq s ∧ Sess.suspended (f s) = Sess.suspended s ∧ Sess.running (f s) = Sess.running s ∧
    Sess.turn (f s) = Sess.turn s ∧ Sess.requests (f s) = Sess.requests s ∧ (Sess.closed s = true → Sess.closed (f s) = true)) →
  good (mkWorld (if Sess.closed (f s) && negb (Sess.running (f s)) then releaseSession id (update_session id f e) else update_session id f e) ts).
Proof.
  intros [Hso Hf Hr Hsh] Hs Hk Hd. cbn in *. destruct (Hd s) as (_ & _ & Hrun & Htu & Hreq & Hcl).
  pose proof (r_sess _ _ Hr id s Hs) as [A B C D F G I].
  destruct (sound_flow_status id f e) as [Hso1 Hf1]; [done|intros s0; split; apply Hd|done|done|].
  pose proof (lookup_updated id f e s Hs) as Hs1. destruct (Sess.closed (f s) && negb (Sess.running (f s))) eqn:Hrel.
  - apply andb_true_iff in Hrel as [_ Hno%negb_true_iff].
    assert (elsewhere id e (releaseSession id (update_session id f e))) as Hel.
    { eapply elsewhere_trans; [apply elsewhere_update|apply elsewhere_release]. }
    split; cbn [eng turns]; [by apply sound_release|by apply flow_release|..].
    + apply (roster_elsewhere id e ts); [done|done|done|cbn; by rewrite lookup_delete_eq|]. intros Ht%C. congruence.
    + apply (shut_elsewhere id e); [done|done|cbn; by rewrite lookup_delete_eq].
  - split; cbn [eng turns]; [done|done|..].
    + apply (roster_elsewhere id e ts); [done|apply elsewhere_update|done| |by rewrite Hs1].
      rewrite Hs1. intros s' [= <-]. destruct (Hk s) as (_ & Hev & _). split; rewrite ?Hrun, ?Htu, ?Hreq, ?Hev; try done.
      rewrite Hrun in Hrel. intros Hc. rewrite Hc in Hrel. by destruct (Sess.running s).
    + apply (shut_elsewhere id e); [done|apply elsewhere_update|]. rewrite Hs1. intros s' Hc [= <-]. apply Hcl. by eapply Hsh.
Qed.

Lemma good_stop_session e ts rpc id close s :
  good (mkWorld e ts) → Eng.sessions e !! id = Some s → good (mkWorld (snd (stop_session rpc id close e)) ts).
Proof.
  intros Hg Hs. unfold stop_session. set (f s := {| s with Sess.cancelled := Sess.cancelled s || Sess.running s; Sess.closed := Sess.closed s || close |}).
  rewrite (lookup_updated id f e s Hs). cbn [snd]. apply good_stop; [done|done|done|]. intros s0. split_and!; try done. cbn. by intros ->.
Qed.

(** Starting a turn. *)
Lemma good_prompt e ts rpc id request text s t e' :
  good (mkWorld e ts) → Eng.sessions e !! id = Some s →
  (request ≠ "" → Sess.requests s !! request_key "session/prompt" request = None) →
  prompt_session visit rpc id request text s e = (Started t, e') → good (mkWorld e' (<[Pend.session t := t]> ts)).
Proof.
  intros Hg Hs Hnew. unfold prompt_session. destruct (Sess.closed s) eqn:Hcl; [done|]. destruct (Sess.suspended s) eqn:Hsus; [done|].
  destruct (Sess.running s) eqn:Hrun; [done|]. case_decide as Hcap; [done|]. case_decide as Hseq; [done|]. intros [= <- <-]. cbn [Pend.session].
  set (f s := {| s with Sess.running := true; Sess.cancelled := false; Sess.turn := u64 (Sess.turn s + 1) |}).
  pose proof (good_emittable _ _ _ Hg Hs) as Hem. destruct Hg as [Hso Hf Hr Hsh]. cbn in *.
  pose proof (r_sess _ _ Hr id s Hs) as [A B C D F G I].
  destruct (sound_flow_status id f e) as [Hso1 Hf1]; [done..|].
  pose proof (lookup_updated id f e s Hs) as Hs1. set (e1 := update_session id f e) in *.
  destruct (emit_spec visit Hvisit id "session/started" [] e1 (f s)) as (E1 & E2 & E3 & E4); [done..|cbn; lia|done|done|].
  set (e2 := emit _ _ _ _ _) in *. destruct (calm_session _ _ _ _ E3 Hs1) as (s2 & Hs2 & Hshape).
  assert (elsewhere id e e2) as Hel by (eapply elsewhere_trans; [apply elsewhere_update|by apply elsewhere_emit]).
  destruct (E4 id s2 Hs2) as (s1 & Hs1' & Hev). assert (s1 = f s) as -> by congruence. unfold one_late in Hev. rewrite decide_True in Hev by done.
  unfold shape in Hshape. injection Hshape as S1 S2 S3 S4 S5 S6. cbn in *.
  split; cbn [eng turns]; [done|done|..].
  - apply (roster_elsewhere id e ts); [done|done|intros i Hi; by rewrite lookup_insert_ne| |by rewrite Hs2].
    rewrite Hs2, lookup_insert_eq. intros s' [= <-]. split; rewrite ?S1, ?S2, ?S4, ?S5; try done.
    + apply u64_range.
    + intros _. lia.
    + intros t [= <-]. split; [done|]. cbn. intros Hne. split; [|by apply Hnew].
      apply not_and_l in Hcap as [Hq|Hq]; [by apply dec_stable in Hq|lia].
  - apply (shut_elsewhere id e); [done|done|]. intros s' Hc Hs'. assert (s' = s2) as -> by congruence. rewrite S2. by eapply Hsh.
Qed.

Lemma good_new e ts rpc : good (mkWorld e ts) → good (mkWorld (snd (new_session_request rpc e)) ts).
Proof.
  intros Hg. unfold new_session_request. destruct (Eng.closed e) eqn:Hcl; [done|]. case_decide as Hcap; [done|]. cbn [snd].
  destruct Hg as [[[Hss Hd Ht] Hfit Htot] Hf [R1 R2 R3 R4] Hsh]. cbn in *. rewrite u64_small by (unfold in_u64 in R1; lia).
  set (n := (Eng.nextSession e + 1)%Z). change ("session-" +:+ pretty n) with (session_name n). set (id := session_name n).
  assert (Eng.sessions e !! id = None) as Hfresh.
  { destruct (Eng.sessions e !! id) as [s|] eqn:E; [|done]. exfalso. destruct (ok_name _ _ _ _ (R3 id s E)) as (n' & Hn' & Heq).
    unfold id, session_name in Heq. apply (inj (String.append "session-")), (inj pretty) in Heq. unfold n in Heq. lia. }
  assert (Eng.events e !! id = None) as Hev.
  { destruct (Eng.events e !! id) as [h|] eqn:E; [|done]. exfalso. destruct (Hd _ _ E). congruence. }
  assert (history id e = []) as Hhist by (unfold history; by rewrite Hev).
  assert (∀ i s, <[id := new_session]> (Eng.sessions e) !! i = Some s → (i = id ∧ s = new_session) ∨ (Eng.sessions e !! i = Some s)) as Hin.
  { intros i s. rewrite lookup_insert_Some. naive_solver. }
  split; cbn.
  - split; [split|..]; cbn.
    + intros i s [[-> ->]|Hs]%Hin; [|by apply Hss]. unfold history in *. cbn. rewrite Hhist. by split.
    + intros i h Hh. rewrite lookup_insert_is_Some'. right. by eapply Hd.
    + rewrite map_sum_insert by done. rewrite Ht. done.
    + intros i s [[-> ->]|Hs]%Hin; [|by apply Hfit]. unfold history in *. cbn. rewrite Hhist. by vm_compute.
    + done.
  - intros t Hon. destruct (Hf t Hon) as [F1 F2 F3]. split; cbn; [|done|intros m Hm; apply F3; lia].
    intros i s [[-> ->]|Hs]%Hin; [|by apply F1]. split; [|done|done]. unfold id. rewrite F3 by lia. done.
  - split; cbn.
    + unfold in_u64 in *. lia.
    + rewrite map_size_insert_None by done. lia.
    + intros i s [[-> ->]|Hs]%Hin.
      * assert (ts !! id = None) as -> by (destruct (ts !! id) eqn:E; [destruct (R4 _ _ E); congruence|done]).
        split; try done; [cbn; rewrite map_size_empty; unfold maxReplayRequests; lia|]. exists n. unfold in_u64 in *. split; [lia|done].
      * destruct (R3 i s Hs) as [A B C D F (n' & Hn' & Hi) I]. split; try done. exists n'. split; [lia|done].
    + intros i t Hi. rewrite lookup_insert_is_Some'. right. by eapply R4.
  - intros i s Hc. cbn in Hc. congruence.
Qed.

Lemma prompt_refused rpc id request text s e r e' : prompt_session visit rpc id request text s e = (Respond r, e') → e' = e.
Proof.
  unfold prompt_session. destruct (Sess.closed s); [by intros [= _ <-]|]. destruct (Sess.suspended s); [by intros [= _ <-]|].
  destruct (Sess.running s); [by intros [= _ <-]|]. case_decide; [by intros [= _ <-]|]. case_decide; [by intros [= _ <-]|done].
Qed.

Lemma good_session_request e ts rpc method id request text :
  good (mkWorld e ts) → method ∈ session_methods →
  match session_request visit rpc method id request text e with
  | (Respond _, e') => good (mkWorld e' ts)
  | (Started t, e') => good (mkWorld e' (<[Pend.session t := t]> ts))
  end.
Proof.
  intros Hg Hm. unfold session_request. destruct (Eng.sessions e !! id) as [s|] eqn:Hs; [|done].
  destruct (if decide _ then _ else _) as [prior|] eqn:Hprior; [done|].
  destruct (decide (method = "session/suspend")) as [|H1]; [by apply good_suspend|].
  destruct (decide (method = "session/resume")) as [|H2].
  { pose proof (good_resume e ts rpc id s Hg Hs). by destruct (resume_session rpc id e). }
  destruct (decide (method = "session/abort" ∨ method = "session/close")) as [|H3].
  { pose proof (good_stop_session e ts rpc id (bool_decide (method = "session/close")) s Hg Hs). by destruct (stop_session _ _ _ _). }
  assert (method = "session/prompt") as -> by (unfold session_methods in Hm; set_solver).
  destruct (prompt_session visit rpc id request text s e) as [[r|t] e'] eqn:Hp.
  - by rewrite (prompt_refused _ _ _ _ _ _ _ _ Hp).
  - eapply good_prompt; [exact Hg|exact Hs| |exact Hp]. intros Hne. by rewrite decide_True in Hprior.
Qed.

Lemma good_request w m : good w → good (snd (react w (Request m))).
Proof.
  intros Hg. destruct w as [e ts]. cbn [react eng turns]. unfold start_request.
  case_decide; [done|]. case_decide; [done|]. case_decide.
  { pose proof (good_new e ts (Rpc.ID m) Hg). by destruct (new_session_request (Rpc.ID m) e). }
  case_decide as Hm; [done|]. destruct (string_field "session_id" _) as [id ok1], (string_field "text" _) as [text ok2],
    (string_field "request_id" _) as [request ok3].
  case_decide; [done|]. case_decide; [done|].
  pose proof (good_session_request e ts (Rpc.ID m) (Rpc.Method m) id request text Hg Hm) as Hr.
  by destruct (session_request _ _ _ _ _ _ _) as [[r|t] e'].
Qed.

(** ** The end of a turn *)

Lemma field_quote k text :
  utf8 k = true → field_match "event_seq" k = false → field_match "session_id" k = false → field_ok (k, json_quote text).
Proof. split; [done| |done|done]. exists (JStr (sanitized text)). apply (reads_as_mono 0); [lia|]. apply reads_as_quote. Qed.

Lemma field_usage u : field_ok ("usage", usage_json u).
Proof.
  split; [done| |done|done]. eexists. apply (reads_as_mono (1 + 0)); [lia|].
  refine (reads_as_obj 0 [("input_tokens", (json_int (InputTokens u), _)); ("output_tokens", (json_int (OutputTokens u), _));
    ("cached_tokens", (json_int (CachedTokens u), _))] _ _); [lia|]. repeat constructor; apply reads_as_int.
Qed.

(** The session said something more, at most [k] events. *)
Record speaks (id : string) (k : Z) (e e' : Engine T) : Prop := {
  sp_sound : sound e';
  sp_flow : flow e' on_time;
  sp_calm : calm e e';
  sp_else : elsewhere id e e';
  sp_seq s : Eng.sessions e !! id = Some s → ∃ s', Eng.sessions e' !! id = Some s' ∧ (Sess.eventSeq s' ≤ Sess.eventSeq s + k)%Z;
}.

Lemma elsewhere_refl id (e : Engine T) : elsewhere id e e.
Proof. split; eauto. Qed.

Lemma speaks_trans id k1 k2 e1 e2 e3 : speaks id k1 e1 e2 → speaks id k2 e2 e3 → speaks id (k1 + k2) e1 e3.
Proof.
  intros [A1 A2 A3 A4 A5] [B1 B2 B3 B4 B5]. split; [done|done|by etrans|by eapply elsewhere_trans|].
  intros s Hs. destruct (A5 s Hs) as (s2 & Hs2 & Hle). destruct (B5 s2 Hs2) as (s3 & Hs3 & Hle'). exists s3. split; [done|lia].
Qed.

Lemma speaks_none id e : sound e → flow e on_time → speaks id 1 e e.
Proof. split; [done..|apply elsewhere_refl|]. intros s Hs. exists s. split; [done|lia]. Qed.

Lemma speaks_emit id method fields e s :
  sound e → flow e on_time → Eng.sessions e !! id = Some s → (Sess.eventSeq s < MaxUint64)%Z →
  Forall field_ok fields → emittable id e → speaks id 1 e (emit visit id method fields e).
Proof.
  intros Hso Hf Hs Hlt Hok Hem. destruct (emit_spec visit Hvisit id method fields e s) as (E1 & E2 & E3 & E4); [done..|].
  split; [done..|by apply elsewhere_emit|]. intros s0 Hs0. assert (s0 = s) as -> by congruence.
  destruct (calm_session _ _ _ _ E3 Hs) as (s' & Hs' & _). exists s'. split; [done|].
  destruct (E4 id s' Hs') as (s1 & Hs1 & Hev). assert (s1 = s) as -> by congruence.
  unfold one_late in Hev. rewrite decide_True in Hev by done. lia.
Qed.

Lemma emittable_calm id (e e' : Engine T) : calm e e' → emittable id e → emittable id e'.
Proof. intros Hc (n & Hn & Hle & Hu). exists n. by rewrite (ca_next _ _ Hc). Qed.

(** Three events at most end a turn. *)
Lemma publish_spec id reason text usage e s :
  sound e → flow e on_time → Eng.sessions e !! id = Some s → (Sess.eventSeq s ≤ MaxUint64 - 3)%Z → emittable id e →
  speaks id (1 + 1 + 1) e (publish visit id reason text usage e).
Proof.
  intros Hso Hf Hs Hle Hem. unfold publish. set (e1 := if decide (reason = "completed") then _ else e).
  assert (speaks id 1 e e1) as H1.
  { unfold e1. case_decide; [|by apply speaks_none]. eapply speaks_emit; [done|done|exact Hs|lia| |done].
    constructor; [|done]. by apply field_quote. }
  set (e2 := if decide (usage = no_usage) then e1 else _). destruct (sp_seq _ _ _ _ H1 s Hs) as (s1 & Hs1 & Hle1).
  assert (speaks id 1 e1 e2) as H2.
  { unfold e2. case_decide; [apply speaks_none; apply H1|]. eapply speaks_emit; [apply H1|apply H1|exact Hs1|lia| |by eapply emittable_calm; [apply H1|]].
    constructor; [|done]. apply field_usage. }
  eapply speaks_trans; [by eapply speaks_trans|]. destruct (sp_seq _ _ _ _ H2 s1 Hs1) as (s2 & Hs2 & Hle2).
  eapply speaks_emit; [apply H2|apply H2|exact Hs2|lia| |].
  - constructor; [|done]. by apply field_quote.
  - eapply emittable_calm; [apply H2|]. by eapply emittable_calm; [apply H1|].
Qed.

(** Up to the replay cache, the session after the events of the turn is the one before. *)
Lemma remembered t resp (e e2 : Engine T) s s2 :
  sess_ok (Eng.nextSession e) (Some t) (Pend.session t) s → sound e2 → flow e2 on_time → Eng.sessions e2 !! Pend.session t = Some s2 →
  Sess.requests s2 = Sess.requests s →
  let e3 := if decide (Pend.request t = "") then e2 else remember (Pend.session t) (pending_key t) resp e2 in
  sound e3 ∧ flow e3 on_time ∧ elsewhere (Pend.session t) e2 e3 ∧
  ∃ s3, Eng.sessions e3 !! Pend.session t = Some s3 ∧ size (Sess.requests s3) ≤ maxReplayRequests ∧
    Sess.turn s3 = Sess.turn s2 ∧ Sess.closed s3 = Sess.closed s2.
Proof.
  intros Hok Hso Hf Hs2 Hreq e3. unfold e3. destruct (ok_pending _ _ _ _ Hok t eq_refl) as [_ Hcap]. case_decide as Hq.
  - split_and!; [done|done|apply elsewhere_refl|]. exists s2. rewrite Hreq. split_and!; [done|apply Hok|done|done].
  - unfold remember. set (f s := {| s with Sess.requests := _ |}).
    destruct (sound_flow_status (Pend.session t) f e2) as [Hso3 Hf3]; [done..|].
    split_and!; [done|done|apply elsewhere_update|]. exists (f s2). rewrite (lookup_updated _ f e2 s2 Hs2).
    split_and!; [done| |done|done]. cbn. rewrite Hreq. destruct (Hcap Hq) as [Hsz Hno]. rewrite map_size_insert_None by done. lia.
Qed.

Lemma settled id e s e0 :
  sound e → flow e on_time → elsewhere id e0 e → Eng.sessions e !! id = Some s →
  let e' := settle_session id e in
  sound e' ∧ flow e' on_time ∧ elsewhere id e0 e' ∧
  ∀ s', Eng.sessions e' !! id = Some s' → Sess.closed s = false ∧ s' = {| s with Sess.running := false; Sess.cancelled := false |}.
Proof.
  intros Hso Hf Hel Hs e'. unfold e', settle_session. set (f s := {| s with Sess.running := false; Sess.cancelled := false |}).
  destruct (sound_flow_status id f e) as [Hso1 Hf1]; [done..|]. rewrite (lookup_updated id f e s Hs).
  assert (elsewhere id e0 (update_session id f e)) as Hel1 by (eapply elsewhere_trans; [exact Hel|apply elsewhere_update]).
  destruct (Sess.closed (f s)) eqn:Hcl.
  - split_and!; [by apply sound_release|by apply flow_release|eapply elsewhere_trans; [exact Hel1|apply elsewhere_release]|].
    cbn. by rewrite lookup_delete_eq.
  - split_and!; [done..|]. rewrite (lookup_updated id f e s Hs). by intros s' [= <-].
Qed.

Lemma good_complete w id text usage err :
  good w → is_Some (turns w !! id) → good (snd (react w (Complete id text usage err))).
Proof.
  intros Hg [t Ht]. destruct w as [e ts]. cbn in Ht. cbn [react turns eng]. rewrite Ht.
  destruct (r_turns _ _ (g_roster _ Hg) _ _ Ht) as [s Hs]. cbn in Hs. pose proof (good_emittable _ _ _ Hg Hs) as Hem. cbn in Hem.
  destruct Hg as [Hso Hf Hr Hsh]. cbn in *. pose proof (r_sess _ _ Hr _ _ Hs) as Hok. rewrite Ht in Hok.
  destruct (ok_pending _ _ _ _ Hok t eq_refl) as [<- _]. set (id := Pend.session t) in *.
  unfold finish_turn. fold id. rewrite Hs. destruct (if decide (usage = no_usage) then _ else _) as [aerr ledger].
  set (f s := {| s with Sess.ledger := ledger |}). set (reason := if decide (aerr ≠ None) then _ else _).
  destruct (sound_flow_status id f e) as [Hso1 Hf1]; [done..|]. pose proof (lookup_updated id f e s Hs) as Hs1.
  assert (Sess.eventSeq s ≤ MaxUint64 - 3)%Z as Hle by (apply (ok_margin _ _ _ _ Hok), (ok_running _ _ _ _ Hok); eauto).
  set (e1 := update_session id f e) in *. pose proof (publish_spec id reason text usage e1 (f s) Hso1 Hf1 Hs1 Hle Hem) as [P1 P2 P3 P4 P5].
  set (e2 := publish _ _ _ _ _ _) in *. destruct (calm_session _ _ _ _ P3 Hs1) as (s2 & Hs2 & Hshape).
  unfold shape in Hshape. injection Hshape as S1 S2 S3 S4 S5 S6. cbn in S1, S2, S4, S5.
  set (resp := result_message _ _). destruct (remembered t resp e e2 s s2 Hok P1 P2 Hs2 S5) as (M1 & M2 & M3 & s3 & Hs3 & M4 & M5 & M6).
  unfold pending_key in M1, M2, M3, Hs3. fold id in M1, M2, M3, Hs3. set (e3 := if decide (Pend.request t = "") then e2 else _) in *.
  assert (elsewhere id e e3) as Hel3 by (eapply elsewhere_trans; [apply elsewhere_update|]; by eapply elsewhere_trans).
  destruct (settled id e3 s3 e M1 M2 Hel3 Hs3) as (Z1 & Z2 & Z3 & Z4). cbn [snd].
  split; cbn [eng turns]; [done|done|..].
  - apply (roster_elsewhere id e ts); [done|done|intros i Hi; by rewrite lookup_delete_ne| |rewrite lookup_delete_eq; by intros [? ?]].
    intros s' Hs'. destruct (Z4 s' Hs') as [Hcl ->]. rewrite lookup_delete_eq.
    split; cbn; [done|rewrite M5, S4; apply Hok|split; [done|by intros [? ?]]|by rewrite Hcl|done|apply Hok|done].
  - apply (shut_elsewhere id e); [done|done|]. intros s' Hc Hs'. destruct (Z4 s' Hs') as [Hcl ->]. cbn. rewrite M6, S2. by eapply Hsh.
Qed.

(** ** Shutdown *)

Lemma update_absent id f (e : Engine T) : Eng.sessions e !! id = None → update_session id f e = e.
Proof.
  intros Hs. unfold update_session. assert (alter f id (Eng.sessions e) = Eng.sessions e) as ->; [|by destruct e].
  apply map_eq. intros i. destruct (decide (id = i)) as [->|]; [by rewrite lookup_alter_eq, Hs|by rewrite lookup_alter_ne].
Qed.

Lemma close_absent id (e : Engine T) : Eng.sessions e !! id = None → close_session e id = e.
Proof. intros Hs. unfold close_session. rewrite (update_absent _ _ _ Hs). by rewrite Hs. Qed.

Lemma good_close_session e ts id : good (mkWorld e ts) → good (mkWorld (close_session e id) ts).
Proof.
  intros Hg. destruct (Eng.sessions e !! id) as [s|] eqn:Hs; [|by rewrite close_absent].
  unfold close_session. set (f s := {| s with Sess.closed := true; Sess.cancelled := Sess.cancelled s || Sess.running s |}).
  rewrite (lookup_updated id f e s Hs). pose proof (good_stop e ts id s f Hg Hs) as Hst. cbn in Hst.
  change (Sess.running (f s)) with (Sess.running s). destruct (Sess.running s); by apply Hst.
Qed.

Lemma close_session_effect (e : Engine T) id i s' :
  Eng.sessions (close_session e id) !! i = Some s' →
  ∃ s, Eng.sessions e !! i = Some s ∧ (Sess.closed s = true ∨ i = id → Sess.closed s' = true).
Proof.
  destruct (Eng.sessions e !! id) as [s0|] eqn:Hs0; [|rewrite close_absent by done].
  - unfold close_session. rewrite (lookup_updated id _ e s0 Hs0). set (f s := {| s with Sess.closed := true; Sess.cancelled := _ |}).
    destruct (Sess.running _); cbn [releaseSession Eng.sessions]; [|rewrite lookup_delete_Some; intros [Hne Hs']; revert Hs'];
      rewrite lookup_update; case_decide; [intros (s & Hs & ->)%fmap_Some| |done|]; naive_solver.
  - intros Hs'. exists s'. split; [done|]. intros [?| ->]; [done|congruence].
Qed.

Lemma close_sessions_effect ids : ∀ (e : Engine T) i s',
  Eng.sessions (fold_left close_session ids e) !! i = Some s' →
  ∃ s, Eng.sessions e !! i = Some s ∧ (Sess.closed s = true ∨ i ∈ ids → Sess.closed s' = true).
Proof.
  induction ids as [|id ids IH]; intros e i s' Hs'; cbn in Hs'; [exists s'; split; [done|set_solver]|].
  destruct (IH _ _ _ Hs') as (s1 & Hs1 & H1). destruct (close_session_effect _ _ _ _ Hs1) as (s & Hs & H2).
  exists s. split; [done|]. intros Hc. apply H1. rewrite elem_of_cons in Hc. destruct Hc as [?|[?|?]]; auto.
Qed.

Definition mark_closed (e : Engine T) (tick : nat) : Engine T := {| e with Eng.closed := true; Eng.tick := tick |}.

Lemma close_mark (e : Engine T) n id : close_session (mark_closed e n) id = mark_closed (close_session e id) n.
Proof.
  unfold close_session. change (Eng.sessions (update_session id ?f (mark_closed e n))) with (Eng.sessions (update_session id f e)).
  destruct (Eng.sessions (update_session id _ e) !! id) as [s|] eqn:E; [destruct (Sess.running s)|]; done.
Qed.

Lemma close_mark_all ids : ∀ (e : Engine T) n, fold_left close_session ids (mark_closed e n) = mark_closed (fold_left close_session ids e) n.
Proof. induction ids as [|id ids IH]; intros e n; [done|]. cbn [fold_left]. by rewrite close_mark, IH. Qed.

Lemma good_shutdown w : good w → good (snd (react w Shutdown)).
Proof.
  intros Hg. destruct w as [e ts]. cbn [react snd eng turns]. unfold Close.
  change {| e with Eng.closed := true; Eng.tick := S (Eng.tick e) |} with (mark_closed e (S (Eng.tick e))). rewrite close_mark_all.
  set (ids := visit _ _). assert (∀ ids e, good (mkWorld e ts) → good (mkWorld (fold_left close_session ids e) ts)) as Hall.
  { clear. induction ids as [|id ids IH]; intros e Hg; [done|]. cbn. by apply IH, good_close_session. }
  destruct (Hall ids e Hg) as [[[A B C] D F] Hf [R1 R2 R3 R4] _]. cbn in *.
  split; cbn; [by split|intros t Ht; destruct (Hf t Ht); by split|by split|].
  intros i s' _ Hs'. cbn in Hs'. destruct (close_sessions_effect _ _ _ _ Hs') as (s & Hs & Hc). apply Hc. right.
  unfold ids. rewrite Hvisit. unfold session_ids. apply list_elem_of_fmap. exists (i, s). split; [done|]. by apply elem_of_map_to_list.
Qed.

(** ** Every reachable state *)

Lemma good_react w i : good w → allowed w i → good (snd (react w i)).
Proof.
  intros Hg Hi. destruct i as [m|id text usage err| |t]; [by apply good_request|by apply good_complete|by apply good_shutdown|].
  destruct w as [e ts], Hi as (t0 & Ht0 & Htaken). destruct Hg as [Hso Hf [R1 R2 R3 R4] Hsh]. cbn in *.
  split; cbn; [by apply sound_transport| |by split|done]. intros t' [= <-]. eapply flow_same; [exact Htaken|by apply Hf].
Qed.

Lemma good_connected transport : (∀ t, transport = Some t → taken t = []) → good (connected transport).
Proof.
  intros Hnew. split; cbn.
  - split; [split|..]; cbn; [intros id s; by rewrite lookup_empty|intros id h; by rewrite lookup_empty|done|intros id s; cbn; by rewrite lookup_empty|done].
  - intros t Ht. cbn in Ht. apply Hnew in Ht. split; cbn; [intros id s; by rewrite lookup_empty|..]; intros; rewrite Ht; [by exists 0%Z|done].
  - split; cbn; [done|rewrite map_size_empty; lia|intros id s; by rewrite lookup_empty|intros id t; by rewrite lookup_empty].
  - intros id s. cbn. by rewrite lookup_empty.
Qed.

Lemma good_steps w w' : good w → steps w w' → good w'.
Proof. induction 2 as [|w' i _ IH Hi]; [done|]. by apply good_react. Qed.

Lemma reachable_sound w : reachable w → good w.
Proof. intros [transport w' Hnew Hs]. eapply good_steps; [|exact Hs]. by apply good_connected. Qed.
End system.
