(* ===== verification/Server.v ===== *)
(** * server.go: a connection to the engine

    [serveConnection] runs a reader, a writer and one goroutine per prompt.  They share
    the engine, which is under its own lock, and the outbound queue.  The state of a
    connection is what they share; a step is what one of them does between two points
    where another may run. *)

From Stdlib Require Import Ascii.
From stdpp Require Import base tactics option list gmap strings numbers pretty sorting.
From S2P Require Import Prelude GoLib Json Ledger State Protocol Engine EngineProofs EngineSystem.

Definition maxPendingPrompts : nat := 16.
Definition outboundQueueSize : nat := 256.
Definition maxOutboundBytes : Z := 8388608.

(** ** The outbound queue *)

Module Out.
Record Outbound := mk {
  outgoing : list string; (* frames the writer has yet to take *)
  queuedBytes : Z;
  cancelled : bool; (* the context of the connection *)
  accepted : list (bool * Message); (* all that was enqueued, the flag marking events *)
}.
End Out.
Abbreviation Outbound := Out.Outbound.

Definition cancel (q : Outbound) : Outbound := {| q with Out.cancelled := true |}.

Definition enqueue (event : bool) (m : Message) (q : Outbound) : bool * Outbound :=
  if Out.cancelled q then (false, q)
  else match Write m with
       | None => (false, cancel q)
       | Some data =>
           if decide (len data > maxOutboundBytes - Out.queuedBytes q)%Z then (false, q)
           else if decide (length (Out.outgoing q) < outboundQueueSize) then
             (true, Out.mk (Out.outgoing q ++ [data]) (Out.queuedBytes q + len data) (Out.cancelled q)
                      (Out.accepted q ++ [(event, m)]))
           else (false, q)
       end.

(** A response that does not fit ends the connection. *)
Definition send (m : Message) (q : Outbound) : Outbound :=
  let '(ok, q) := enqueue false m q in if (ok : bool) then q else cancel q.

Definition events_of (log : list (bool * Message)) : list Message := snd <$> filter (λ x, fst x = true) log.

(** The engine's events go through the queue. *)
Global Instance outbound_transport : Transport Outbound := enqueue true.
Global Instance outbound_log : TransportLog Outbound := λ q, events_of (Out.accepted q).
Global Instance outbound_laws : TransportLaws Outbound.
Proof.
  split; intros m q; unfold offer, outbound_transport, taken, outbound_log, enqueue.
  - destruct (Out.cancelled q); [done|]. destruct (Write m); [|done]. case_decide; [done|]. case_decide; [|done]. intros _. cbn.
    unfold events_of. by rewrite filter_app, fmap_app.
  - destruct (Out.cancelled q); [done|]. destruct (Write m); [|done]. case_decide; [done|]. by case_decide.
Qed.

(** ** The connection *)

(** A prompt's goroutine: yet to call the engine, in the provider, about to reply, or about
    to give back its slot. *)
Inductive worker : Type :=
  | Spawned (request : Message)
  | Prompting (request : Message) (session : string)
  | Replying (request response : Message)
  | Leaving.

Module Conn.
Record conn := mk {
  world : EngineSystem.world (T := Outbound);
  initialized : bool;
  workers : list worker;
  serving : bool; (* the reader's loop *)
  writing : bool; (* the writer's loop *)
  inflight : option string; (* the frame the writer is writing *)
  wire : list string; (* the frames written *)
  requests : list Message; (* the requests read *)
}.
End Conn.
Abbreviation conn := Conn.conn.

Section server.
Context (visit : nat → list string → list string) (name address : string).

Definition on_queue (f : Outbound → Outbound) (c : conn) : conn :=
  let w := Conn.world c in
  let e := eng w in
  {| c with Conn.world := mkWorld {| e with Eng.onEvent := f <$> Eng.onEvent e |} (turns w) |}.

(** A notification gets no reply. *)
Definition reply (request response : Message) (c : conn) : conn :=
  if decide (Rpc.ID request = "") then c else on_queue (send response) c.

Definition rpc_error (code : Z) (text : string) (c : conn) : conn :=
  on_queue (send (error_message "null" code text)) c.

(** [Engine.Handle] for the requests that do not call the provider. *)
Definition handle (m : Message) (c : conn) : Message * conn :=
  let '(r, w) := react visit name (Conn.world c) (Request m) in
  (default empty_message r, {| c with Conn.world := w |}).

Definition handshake (m : Message) (c : conn) : conn :=
  if decide (Rpc.ID m = "") then c
  else
    let '(response, c) := handle m c in
    let fields := ("address", json_quote address) :: initialize_fields (sanitized name) in
    let c := on_queue (send {| response with Rpc.Result := marshal_map fields |}) c in
    {| c with Conn.initialized := true |}.

(** The slot is taken and the goroutine is there; the reader waits until it is ready. *)
Definition start_prompt (m : Message) (c : conn) : conn := {| c with Conn.workers := Conn.workers c ++ [Spawned m] |}.

Definition spawned (ws : list worker) : list Message := omap (λ wk, match wk with Spawned m => Some m | _ => None end) ws.

Definition serve_request (m : Message) (c : conn) : conn :=
  if decide (Rpc.Method m = "") then rpc_error (-32600) "expected request" c
  else
    let c := {| c with Conn.requests := Conn.requests c ++ [m] |} in
    if decide (Conn.initialized c = false ∧ Rpc.Method m ≠ "initialize") then
      reply m (error_message (Rpc.ID m) (-32002) "initialize required") c
    else if decide (Rpc.Method m = "initialize") then handshake m c
    else if decide (Rpc.Method m ≠ "session/prompt") then
      let '(response, c) := handle m c in reply m response c
    else if decide (length (Conn.workers c) < maxPendingPrompts) then start_prompt m c
    else reply m (error_message (Rpc.ID m) (-32001) "too many pending prompts") c.

(** The end of the reader: cancel and close the engine. *)
Definition leave (c : conn) : conn :=
  let c := on_queue cancel c in
  {| c with Conn.world := snd (react visit name (Conn.world c) Shutdown); Conn.serving := false |}.

(** One round of the reader's loop. *)
Definition serve (r : read) (c : conn) : conn :=
  match r with
  | ParseError => rpc_error (-32700) "parse error" c
  | InvalidMessage => rpc_error (-32600) "invalid request" c
  | Broken => leave c
  | Received m => serve_request m c
  end.

Definition queue_of (c : conn) : option Outbound := Eng.onEvent (eng (Conn.world c)).
Definition is_cancelled (c : conn) : bool := match queue_of c with Some q => Out.cancelled q | None => false end.

(** A prompt's goroutine calls the engine: its turn is registered, or it has its response,
    and in both cases the reader goes on. *)
Definition prompt_starts (i : nat) (c : conn) : conn :=
  match Conn.workers c !! i with
  | Some (Spawned m) =>
      let '(r, w) := react visit name (Conn.world c) (Request m) in
      let session := fst (string_field "session_id" (Rpc.Params m)) in
      let worker := match r with Some r => Replying m r | None => Prompting m session end in
      {| c with Conn.world := w; Conn.workers := <[i := worker]> (Conn.workers c) |}
  | _ => c
  end.

(** The provider of a prompt returned. *)
Definition prompt_returned (i : nat) (text : string) (usage : Usage) (err : option turn_error) (c : conn) : conn :=
  match Conn.workers c !! i with
  | Some (Prompting m session) =>
      let '(r, w) := react visit name (Conn.world c) (Complete session text usage err) in
      {| c with Conn.world := w; Conn.workers := <[i := Replying m (default empty_message r)]> (Conn.workers c) |}
  | _ => c
  end.

(** A prompt's goroutine replies, and gives back its slot. *)
Definition prompt_replies (i : nat) (c : conn) : conn :=
  match Conn.workers c !! i with
  | Some (Replying m r) =>
      let c := reply m r c in {| c with Conn.workers := <[i := Leaving]> (Conn.workers c) |}
  | _ => c
  end.

Definition prompt_ends (i : nat) (c : conn) : conn :=
  match Conn.workers c !! i with
  | Some Leaving => {| c with Conn.workers := delete i (Conn.workers c) |}
  | _ => c
  end.

Definition writer_takes (c : conn) : conn :=
  match queue_of c with
  | Some q =>
      match Out.outgoing q with
      | data :: rest =>
          let c := on_queue (λ q, {| q with Out.outgoing := rest |}) c in {| c with Conn.inflight := Some data |}
      | [] => c
      end
  | None => c
  end.

Definition writer_wrote (ok : bool) (c : conn) : conn :=
  match Conn.inflight c with
  | Some data =>
      let c := on_queue (λ q, {| q with Out.queuedBytes := (Out.queuedBytes q - len data)%Z |}) c in
      if ok then {| c with Conn.inflight := None; Conn.wire := Conn.wire c ++ [data] |}
      else let c := on_queue cancel c in {| c with Conn.inflight := None; Conn.writing := false |}
  | None => c
  end.

(** What happens next, in any order. *)
Inductive cstep (c : conn) : conn → Prop :=
  | C_read s : Conn.serving c = true → spawned (Conn.workers c) = [] → cstep c (serve (fst (Read s)) c)
  | C_leave : Conn.serving c = true → is_cancelled c = true → cstep c (leave c)
  | C_starts i : cstep c (prompt_starts i c)
  | C_returned i text usage err : cstep c (prompt_returned i text usage err c)
  | C_replies i : cstep c (prompt_replies i c)
  | C_ends i : cstep c (prompt_ends i c)
  | C_takes : Conn.writing c = true → Conn.inflight c = None → cstep c (writer_takes c)
  | C_wrote ok : Conn.writing c = true → cstep c (writer_wrote ok c)
  | C_stop : Conn.writing c = true → Conn.inflight c = None → is_cancelled c = true → cstep c {| c with Conn.writing := false |}
  | C_cancel : cstep c (on_queue cancel c).

Definition accepted_conn : conn :=
  Conn.mk (connected (Some (Out.mk [] 0 false []))) false [] true true None [] [].

Inductive served : conn → Prop :=
  | served_start : served accepted_conn
  | served_step c c' : served c → cstep c c' → served c'.
End server.
