(* ===== verification/ServerProofs.v ===== *)
(** * Invariants of a connection

    A connection does what the engine's system does, its queue stays within its bounds,
    the wire carries what was enqueued in order, and every request is answered once. *)

From Stdlib Require Import Ascii.
From stdpp Require Import base tactics option list gmap strings numbers pretty sorting list_numbers.
From S2P Require Import Prelude GoLib Json Ledger State Protocol Engine EngineProofs EngineSystem Server.

(** ** The engine touches its transport by offering events only *)

Section rides.
Context {T : Type} `{Transport T} (visit : nat → list string → list string) (name : string).
Context (R : T → T → Prop) `{!PreOrder R}.
Hypothesis Hoffer : ∀ m t, R t (snd (offer m t)).
Implicit Types e : Engine T.

Definition rides e e' : Prop := option_relation R (λ _, False) (λ _, False) (Eng.onEvent e) (Eng.onEvent e').

Lemma rides_same e e' : Eng.onEvent e' = Eng.onEvent e → rides e e'.
Proof. unfold rides. intros ->. by destruct (Eng.onEvent e); cbn. Qed.

Global Instance rides_preorder : PreOrder rides.
Proof.
  split; [intros e; by apply rides_same|]. intros e1 e2 e3. unfold rides.
  destruct (Eng.onEvent e1), (Eng.onEvent e2), (Eng.onEvent e3); cbn; try done. intros; by etrans.
Qed.

Lemma rides_offer e t m b t' : Eng.onEvent e = Some t → offer m t = (b, t') → rides e {| e with Eng.onEvent := Some t' |}.
Proof. intros He Ho. unfold rides. rewrite He. cbn. pose proof (Hoffer m t) as Hr. by rewrite Ho in Hr. Qed.

Lemma rides_evicts e e' : evicts e e' → rides e e'.
Proof. intros Hv. apply rides_same, Hv. Qed.

Lemma trim_evicts fuel id : ∀ e, evicts e (trim fuel id e).
Proof.
  induction fuel as [|fuel IH]; intros e; cbn [trim]; [done|]. destruct (Eng.sessions e !! id); [|done].
  case_decide; [|done]. etrans; [apply evict_evicts|apply IH].
Qed.

Lemma reclaim_evicts fuel : ∀ e, evicts e (reclaim visit fuel e).
Proof.
  induction fuel as [|fuel IH]; intros e; cbn [reclaim]; [done|]. case_decide; [|done].
  unfold evictLargest. destruct (largest e _ None) as [[v b]|]; [|done].
  etrans; [apply (evicts_tick (S (Eng.tick e)))|]. etrans; [apply (evict_evicts v)|]. apply IH.
Qed.

Lemma rides_emit id method fields e : rides e (emit visit id method fields e).
Proof.
  unfold emit. destruct (Eng.sessions e !! id) as [s|]; [|done]. set (event := next_event _ _ _ _).
  set (e0 := push id event e). set (ea := trim (length (history id e0)) id e0). set (e1 := reclaim visit (retained ea) ea).
  change (rides e (deliver id event e1)). trans e0; [by apply rides_same|]. trans ea; [apply rides_evicts, trim_evicts|].
  trans e1; [apply rides_evicts, reclaim_evicts|]. unfold deliver.
  destruct (Eng.onEvent e1) as [t|] eqn:Ht; [|done]. destruct (Eng.sessions e1 !! id) as [s1|]; [|done].
  destruct (Sess.suspended s1); [done|]. destruct (offer event t) as [b t'] eqn:Ho.
  etrans; [by eapply rides_offer|]. destruct b; by apply rides_same.
Qed.

Lemma rides_replay id events : ∀ e, rides e (snd (replay id events e)).
Proof.
  induction events as [|event events IH]; intros e; cbn [replay]; [done|].
  destruct (Eng.onEvent e) as [t|] eqn:Ht; [|done]. destruct (Eng.sessions e !! id) as [s|]; [|done].
  case_decide; [apply IH|]. destruct (offer event t) as [b t'] eqn:Ho.
  etrans; [by eapply rides_offer|]. destruct b; [|done]. etrans; [|apply IH]. by apply rides_same.
Qed.

Lemma rides_resume rpc id e : rides e (snd (resume_session rpc id e)).
Proof.
  unfold resume_session. set (e1 := update_session id _ e). trans e1; [by apply rides_same|].
  assert (rides e1 (snd (flushSession id e1))) as Hfl.
  { unfold flushSession. destruct (Eng.sessions e1 !! id); [|done]. case_decide; [done|]. case_decide; [done|]. apply rides_replay. }
  destruct (flushSession id e1) as [[err|] e2]; [|done]. cbn [snd] in *. etrans; [exact Hfl|]. by apply rides_same.
Qed.

Lemma rides_session_request rpc method id request text e : rides e (snd (session_request visit rpc method id request text e)).
Proof.
  unfold session_request. destruct (Eng.sessions e !! id) as [s|]; [|done]. destruct (if decide _ then _ else _); [done|].
  destruct (decide (method = "session/suspend")); [by apply rides_same|]. destruct (decide (method = "session/resume")).
  { pose proof (rides_resume rpc id e). by destruct (resume_session rpc id e). }
  case_decide.
  { unfold stop_session. cbn [snd]. destruct (_ !! id) as [s'|]; [|by apply rides_same]. destruct (_ && _); by apply rides_same. }
  unfold prompt_session. destruct (Sess.closed s); [done|]. destruct (Sess.suspended s); [done|]. destruct (Sess.running s); [done|].
  case_decide; [done|]. case_decide; [done|]. cbn [snd]. etrans; [|apply rides_emit]. by apply rides_same.
Qed.

Lemma rides_publish id reason text usage e : rides e (publish visit id reason text usage e).
Proof.
  unfold publish. set (e1 := if decide (reason = "completed") then _ else e). set (e2 := if decide (usage = no_usage) then e1 else _).
  trans e1; [unfold e1; case_decide; [apply rides_emit|done]|].
  trans e2; [unfold e2; case_decide; [done|apply rides_emit]|apply rides_emit].
Qed.

Lemma rides_close ids : ∀ e, rides e (fold_left close_session ids e).
Proof.
  induction ids as [|id ids IH]; intros e; cbn; [done|]. etrans; [|apply IH]. unfold close_session.
  destruct (_ !! id) as [s|]; [|by apply rides_same]. destruct (Sess.running s); by apply rides_same.
Qed.

Lemma rides_react w i : (∀ t, i ≠ Traffic t) → rides (eng w) (eng (snd (react visit name w i))).
Proof.
  intros Hi. destruct i as [m|id text usage err| |t]; [..|by destruct (Hi t)]; cbn [react].
  - assert (rides (eng w) (snd (start_request visit name m (eng w)))) as Hr.
    { unfold start_request. case_decide; [done|]. case_decide; [done|]. case_decide.
      { unfold new_session_request. destruct (Eng.closed (eng w)); [done|]. case_decide; [done|]. by apply rides_same. }
      case_decide; [done|]. destruct (string_field "session_id" _), (string_field "text" _), (string_field "request_id" _).
      case_decide; [done|]. case_decide; [done|]. apply rides_session_request. }
    by destruct (start_request visit name m (eng w)) as [[r|t] e].
  - destruct (turns w !! id) as [t|]; [|done]. unfold finish_turn. destruct (Eng.sessions (eng w) !! Pend.session t) as [s|]; [|done].
    destruct (if decide (usage = no_usage) then _ else _) as [aerr ledger]. cbn [snd eng].
    set (e1 := update_session _ _ (eng w)). trans e1; [by apply rides_same|].
    set (e2 := publish _ _ _ _ _ e1). trans e2; [apply rides_publish|]. set (e3 := if decide (Pend.request t = "") then e2 else _).
    trans e3; [unfold e3; case_decide; by apply rides_same|]. unfold settle_session.
    destruct (_ !! Pend.session t) as [s'|]; [|by apply rides_same]. destruct (Sess.closed s'); by apply rides_same.
  - cbn. unfold Close. etrans; [|apply rides_close]. by apply rides_same.
Qed.
End rides.

(** ** The queue *)

Definition frame (m : Message) : string := default "" (Write m).
Definition frames (log : list (bool * Message)) : list string := frame ∘ snd <$> log.
Definition bytes (l : list string) : Z := sumZ len l.

Lemma bytes_nonneg l : (0 ≤ bytes l)%Z.
Proof. apply sumZ_nonneg. intros. apply len_nonneg. Qed.

Lemma bytes_app l l' : bytes (l ++ l') = (bytes l + bytes l')%Z.
Proof. apply sumZ_app. Qed.

Lemma bytes_one data : bytes [data] = len data.
Proof. unfold bytes. rewrite sumZ_cons. cbn. lia. Qed.

Lemma frames_app l l' : frames (l ++ l') = frames l ++ frames l'.
Proof. apply fmap_app. Qed.

Lemma frames_one event m data : Write m = Some data → frames [(event, m)] = [data].
Proof. intros Hw. unfold frames, frame. cbn [fmap list_fmap compose snd]. unfold compose. cbn [snd]. by rewrite Hw. Qed.

(** Messages of a kind were appended, as far as there was room. *)
Record grows (P : bool * Message → Prop) (q q' : Outbound) : Prop := {
  gr_new : ∃ new, Forall P new ∧ Out.accepted q' = Out.accepted q ++ new ∧
    Out.outgoing q' = Out.outgoing q ++ frames new ∧ Out.queuedBytes q' = (Out.queuedBytes q + bytes (frames new))%Z;
  gr_bytes : (Out.queuedBytes q ≤ maxOutboundBytes → Out.queuedBytes q' ≤ maxOutboundBytes)%Z;
  gr_length : length (Out.outgoing q) ≤ outboundQueueSize → length (Out.outgoing q') ≤ outboundQueueSize;
  gr_cancelled : Out.cancelled q = true → Out.cancelled q' = true;
}.

Global Instance grows_preorder P : PreOrder (grows P).
Proof.
  split.
  - intros q. split; [|done..]. exists []. split_and!; [done|by rewrite app_nil_r|by rewrite app_nil_r|cbn; lia].
  - intros q1 q2 q3 [(n1 & A1 & B1 & C1 & D1) E1 F1 G1] [(n2 & A2 & B2 & C2 & D2) E2 F2 G2]. split; [|auto..].
    exists (n1 ++ n2). split_and!; [by apply Forall_app|by rewrite B2, B1, app_assoc| |].
    + by rewrite C2, C1, frames_app, app_assoc.
    + rewrite D2, D1, frames_app, bytes_app. lia.
Qed.

Lemma grows_weaken (P Q : bool * Message → Prop) q q' : (∀ x, P x → Q x) → grows P q q' → grows Q q q'.
Proof. intros HPQ [(new & A & B) C D F]. split; [|done..]. exists new. split; [|done]. by eapply Forall_impl. Qed.

Lemma enqueue_grows event m q : grows (λ x, x = (event, m)) q (snd (enqueue event m q)).
Proof.
  unfold enqueue. destruct (Out.cancelled q) eqn:Hc; [done|]. destruct (Write m) as [data|] eqn:Hw.
  - case_decide as Hb; [done|]. case_decide as Hl; [|done]. cbn [snd]. split; cbn.
    + exists [(event, m)]. rewrite (frames_one _ _ _ Hw), bytes_one. split_and!; [by constructor|done..].
    + lia.
    + rewrite length_app. cbn. lia.
    + congruence.
  - split; cbn; [|done..]. exists []. split_and!; [done|by rewrite app_nil_r|by rewrite app_nil_r|cbn; lia].
Qed.

Lemma cancel_grows P q : grows P q (cancel q).
Proof. split; cbn; [|done..]. exists []. split_and!; [done|by rewrite app_nil_r|by rewrite app_nil_r|cbn; lia]. Qed.

Lemma send_grows m q : grows (λ x, x = (false, m)) q (send m q).
Proof.
  unfold send. pose proof (enqueue_grows false m q) as Hg. destruct (enqueue false m q) as [[] q']; [done|].
  etrans; [exact Hg|apply cancel_grows].
Qed.

(** A response is taken, or the connection is cancelled. *)
Lemma send_accepted m q :
  Out.accepted (send m q) = Out.accepted q ++ [(false, m)] ∨ (Out.accepted (send m q) = Out.accepted q ∧ Out.cancelled (send m q) = true).
Proof.
  unfold send, enqueue. destruct (Out.cancelled q) eqn:Hc; [by right|]. destruct (Write m); [|by right].
  case_decide; [by right|]. case_decide; [by left|by right].
Qed.

Definition is_event (x : bool * Message) : Prop := fst x = true.

(** ** A connection is a run of the engine's system *)

Section server_proofs.
Context (visit : nat → list string → list string) (name address : string).
Hypothesis Hvisit : ∀ t ids, visit t ids ≡ₚ ids.

Lemma react_grows w i q : (∀ t, i ≠ Traffic t) → Eng.onEvent (eng w) = Some q →
  ∃ q', Eng.onEvent (eng (snd (react visit name w i))) = Some q' ∧ grows is_event q q'.
Proof.
  intros Hi Hq. pose proof (rides_react visit name (grows is_event)) as Hr. specialize (Hr ltac:(intros m t; eapply grows_weaken; [|apply enqueue_grows]; by intros x ->) w i Hi).
  unfold rides in Hr. rewrite Hq in Hr. cbn in Hr. destruct (Eng.onEvent (eng (snd (react visit name w i)))) as [q'|]; [|done]. eauto.
Qed.

Lemma steps_trans w1 w2 w3 : steps visit name w1 w2 → steps visit name w2 w3 → steps visit name w1 w3.
Proof. intros H12. induction 1 as [|w3 i H23 IH Hi]; [done|]. by constructor. Qed.

Lemma steps_react w i : allowed w i → steps visit name w (snd (react visit name w i)).
Proof. intros. by constructor; [constructor|]. Qed.

Lemma steps_on_queue f c : (∀ q, events_of (Out.accepted (f q)) = events_of (Out.accepted q)) →
  steps visit name (Conn.world c) (Conn.world (on_queue f c)).
Proof.
  intros Hf. unfold on_queue. cbn. destruct (Eng.onEvent (eng (Conn.world c))) as [q|] eqn:Hq; cbn.
  - apply (steps_react _ (Traffic (f q))). exists q. split; [done|apply Hf].
  - destruct (Conn.world c) as [[] ts]. cbn in *. subst. constructor.
Qed.

Lemma events_of_app l l' : events_of (l ++ l') = events_of l ++ events_of l'.
Proof. unfold events_of. by rewrite filter_app, fmap_app. Qed.

Lemma send_events m q : events_of (Out.accepted (send m q)) = events_of (Out.accepted q).
Proof. destruct (send_accepted m q) as [-> | [-> _]]; [|done]. rewrite events_of_app. cbn. by rewrite app_nil_r. Qed.

Lemma steps_reply m r c : steps visit name (Conn.world c) (Conn.world (reply m r c)).
Proof. unfold reply. case_decide; [constructor|]. apply steps_on_queue, send_events. Qed.

Lemma steps_handle m c : steps visit name (Conn.world c) (Conn.world (snd (handle visit name m c))).
Proof.
  unfold handle. pose proof (steps_react (Conn.world c) (Request m) I) as Hs.
  by destruct (react visit name (Conn.world c) (Request m)).
Qed.

Lemma steps_serve_request m c : steps visit name (Conn.world c) (Conn.world (serve_request visit name address m c)).
Proof.
  unfold serve_request. case_decide; [apply steps_on_queue, send_events|]. set (c1 := {| c with Conn.requests := _ |}).
  change (Conn.world c) with (Conn.world c1). case_decide; [apply steps_reply|]. case_decide.
  { unfold handshake. case_decide; [constructor|]. pose proof (steps_handle m c1) as Hs. destruct (handle visit name m c1) as [r c2]. cbn [Conn.world snd] in *.
    eapply steps_trans; [exact Hs|]. apply steps_on_queue, send_events. }
  case_decide.
  { pose proof (steps_handle m c1) as Hs. destruct (handle visit name m c1) as [r c2]. cbn [snd] in *. eapply steps_trans; [exact Hs|apply steps_reply]. }
  case_decide; [constructor|apply steps_reply].
Qed.

Lemma steps_leave c : steps visit name (Conn.world c) (Conn.world (leave visit name c)).
Proof. unfold leave. cbn [Conn.world]. eapply steps_trans; [by apply (steps_on_queue cancel)|]. by apply (steps_react _ Shutdown). Qed.

Lemma steps_cstep c c' : cstep visit name address c c' → steps visit name (Conn.world c) (Conn.world c').
Proof.
  destruct 1 as [s _ _| _ _|i|i text usage err|i|i|_ _|ok _|_ _ _|].
  - destruct (fst (Read s)) as [m| | |]; cbn [serve]; [apply steps_serve_request|apply steps_on_queue, send_events..|apply steps_leave].
  - apply steps_leave.
  - unfold prompt_starts. destruct (Conn.workers c !! i) as [[m| | |]|]; try constructor.
    pose proof (steps_react (Conn.world c) (Request m) I) as Hs. by destruct (react visit name (Conn.world c) (Request m)).
  - unfold prompt_returned. destruct (Conn.workers c !! i) as [[|m session| |]|]; try constructor.
    assert (steps visit name (Conn.world c) (snd (react visit name (Conn.world c) (Complete session text usage err)))) as Hs.
    { destruct (turns (Conn.world c) !! session) eqn:Ht; [|cbn; rewrite Ht; constructor]. apply steps_react. by eexists. }
    by destruct (react visit name (Conn.world c) (Complete session text usage err)).
  - unfold prompt_replies. destruct (Conn.workers c !! i) as [[| |m r|]|]; try constructor. apply steps_reply.
  - unfold prompt_ends. destruct (Conn.workers c !! i) as [[]|]; constructor.
  - unfold writer_takes. destruct (queue_of c) as [q|]; [|constructor]. destruct (Out.outgoing q); [constructor|]. by apply steps_on_queue.
  - unfold writer_wrote. destruct (Conn.inflight c) as [data|]; [|constructor].
    destruct ok; cbn; [by apply (steps_on_queue (λ q, {| q with Out.queuedBytes := (Out.queuedBytes q - len data)%Z |}))|].
    set (c1 := on_queue (λ q, {| q with Out.queuedBytes := (Out.queuedBytes q - len data)%Z |}) c).
    eapply steps_trans; [by apply (steps_on_queue (λ q, {| q with Out.queuedBytes := (Out.queuedBytes q - len data)%Z |}))|]. by apply (steps_on_queue cancel c1).
  - constructor.
  - by apply steps_on_queue.
Qed.

Lemma served_steps c : served visit name address c → steps visit name (Conn.world accepted_conn) (Conn.world c).
Proof. induction 1 as [|c c' _ IH Hc]; [constructor|]. eapply steps_trans; [exact IH|by apply steps_cstep]. Qed.

Lemma served_reachable c : served visit name address c → reachable visit name (Conn.world c).
Proof. intros Hs. apply (reachable_start _ _ (Some (Out.mk [] 0 false []))); [by intros t [= <-]|]. by apply served_steps. Qed.

(** ** What the engine answers *)

Lemma start_spec m (e e' : Engine Outbound) o :
  start_request visit name m e = (o, e') →
  match o with
  | Respond r => Rpc.ID r = Rpc.ID m
  | Started t =>
      Rpc.Method m = "session/prompt" ∧ Pend.rpc t = Rpc.ID m ∧ Pend.session t = fst (string_field "session_id" (Rpc.Params m)) ∧
      ∃ s, Eng.sessions e !! Pend.session t = Some s ∧ Sess.running s = false
  end.
Proof.
  unfold start_request. case_decide; [by intros [= <- _]|]. case_decide; [by intros [= <- _]|]. case_decide.
  { unfold new_session_request. destruct (Eng.closed e); [by intros [= <- _]|]. case_decide; by intros [= <- _]. }
  case_decide as Hm; [by intros [= <- _]|]. destruct (string_field "session_id" _) as [id ok1], (string_field "text" _) as [text ok2],
    (string_field "request_id" _) as [request ok3]. case_decide; [by intros [= <- _]|]. case_decide; [by intros [= <- _]|].
  unfold session_request. destruct (Eng.sessions e !! id) as [s|] eqn:Hs;
    [|intros [= <- _]; unfold unknown_session; destruct (issuedSession id e); [case_decide|]; done].
  destruct (if decide _ then _ else _); [by intros [= <- _]|].
  destruct (decide (Rpc.Method m = "session/suspend")) as [|N1]; [by intros [= <- _]|].
  destruct (decide (Rpc.Method m = "session/resume")) as [|N2].
  { unfold resume_session. destruct (flushSession id _) as [[err|] e1]; by intros [= <- _]. }
  destruct (decide (Rpc.Method m = "session/abort" ∨ Rpc.Method m = "session/close")) as [|N3]; [by intros [= <- _]|].
  assert (Rpc.Method m = "session/prompt") as Hp by (unfold session_methods in Hm; set_solver).
  unfold prompt_session. destruct (Sess.closed s); [by intros [= <- _]|]. destruct (Sess.suspended s); [by intros [= <- _]|].
  destruct (Sess.running s) eqn:Hr; [by intros [= <- _]|]. case_decide; [by intros [= <- _]|]. case_decide; [by intros [= <- _]|].
  intros [= <- _]. cbn. split_and!; [done..|]. eauto.
Qed.

Lemma finish_id t text usage err (e : Engine Outbound) : Rpc.ID (fst (finish_turn visit t text usage err e)) = Pend.rpc t.
Proof. unfold finish_turn. destruct (Eng.sessions e !! Pend.session t); [|done]. by destruct (if decide (usage = no_usage) then _ else _). Qed.

(** ** The pipe *)

Record pipe (writing : bool) (wire : list string) (inflight : option string) (q : Outbound) : Prop := {
  p_bytes : Out.queuedBytes q = (bytes (option_list inflight) + bytes (Out.outgoing q))%Z;
  p_max : (Out.queuedBytes q ≤ maxOutboundBytes)%Z;
  p_length : length (Out.outgoing q) ≤ outboundQueueSize;
  p_wire : wire `prefix_of` frames (Out.accepted q);
  p_fifo : writing = true → wire ++ option_list inflight ++ Out.outgoing q = frames (Out.accepted q);
}.

Lemma pipe_grows P wr wi inf q q' : pipe wr wi inf q → grows P q q' → pipe wr wi inf q'.
Proof.
  intros [A B C D E] [(new & _ & F1 & F2 & F3) G H I]. split; auto.
  - rewrite F3, F2, bytes_app. lia.
  - rewrite F1, frames_app. by apply prefix_app_r.
  - intros Hw. rewrite F1, F2, frames_app, <-E by done. by rewrite <-!app_assoc.
Qed.

(** ** Accounts *)

Definition tally {A} (f : A → string) (id : string) (l : list A) : Z := Z.of_nat (length (filter (λ x, f x = id) l)).

Lemma tally_app {A} (f : A → string) id l l' : tally f id (l ++ l') = (tally f id l + tally f id l')%Z.
Proof. unfold tally. rewrite filter_app, length_app. lia. Qed.

Definition one (id id' : string) : Z := if decide (id = id') then 1 else 0.

Lemma tally_one {A} (f : A → string) id x : tally f id [x] = one (f x) id.
Proof. unfold tally, one. rewrite filter_cons, filter_nil. by case_decide. Qed.

Definition worker_id (wk : worker) : string :=
  match wk with Spawned m => Rpc.ID m | Prompting m _ => Rpc.ID m | Replying m _ => Rpc.ID m | Leaving => "" end.

Definition responses (q : Outbound) : list Message := snd <$> filter (λ x, fst x = false) (Out.accepted q).

(** The requests that were neither answered nor are in work. *)
Definition debt (requests : list Message) (workers : list worker) (q : Outbound) (id : string) : Z :=
  tally Rpc.ID id requests - tally Rpc.ID id (responses q) - tally worker_id id workers.

Definition accounts (owed : string → Z) (requests : list Message) (workers : list worker) (q : Outbound) : Prop :=
  ∀ id, id ≠ "" → id ≠ "null" →
    (owed id ≤ debt requests workers q id)%Z ∧ (Out.cancelled q = false → debt requests workers q id = owed id).

Lemma responses_grows q q' : grows is_event q q' → responses q' = responses q.
Proof.
  intros [(new & Hn & E & _) _ _ _]. unfold responses. rewrite E, filter_app, fmap_app.
  assert (filter (λ x, fst x = false) new = []) as ->; [|by rewrite app_nil_r]. clear E.
  induction Hn as [|x new Hx _ IH]; [done|]. rewrite filter_cons, decide_False; [done|]. unfold is_event in Hx. congruence.
Qed.

Lemma grows_open P q q' : grows P q q' → Out.cancelled q' = false → Out.cancelled q = false.
Proof. intros Hg Hc. pose proof (gr_cancelled _ _ _ Hg) as Hk. destruct (Out.cancelled q); [|done]. rewrite Hk in Hc; done. Qed.

Lemma accounts_grows owed rs ws q q' : grows is_event q q' → accounts owed rs ws q → accounts owed rs ws q'.
Proof.
  intros Hg Ha id H1 H2. destruct (Ha id H1 H2) as [A B]. unfold debt in *. rewrite (responses_grows _ _ Hg). split; [done|].
  intros Hc. apply B. by eapply grows_open.
Qed.

Lemma accounts_send owed rs ws q m :
  accounts owed rs ws q → accounts (λ id, owed id - one (Rpc.ID m) id)%Z rs ws (send m q).
Proof.
  intros Ha id H1 H2. destruct (Ha id H1 H2) as [A B]. assert (0 ≤ one (Rpc.ID m) id)%Z as Hpos by (unfold one; case_decide; lia).
  destruct (send_accepted m q) as [E | [E Hc]].
  - assert (responses (send m q) = responses q ++ [m]) as Hr by (unfold responses; by rewrite E, filter_app, fmap_app).
    unfold debt in *. rewrite Hr, tally_app, tally_one. split; [lia|]. intros Hc. apply grows_open with (q := q) (P := λ x, x = (false, m)) in Hc; [|apply send_grows]. specialize (B Hc). lia.
  - assert (responses (send m q) = responses q) as Hr by (unfold responses; by rewrite E).
    unfold debt in *. rewrite Hr. split; [lia|]. congruence.
Qed.

(** ** Workers and turns *)

Definition prompting (wk : worker) : option string := match wk with Prompting _ id => Some id | _ => None end.

Record staff (ts : gmap string PendingTurn) (ws : list worker) : Prop := {
  st_prompting m id : Prompting m id ∈ ws → ∃ t, ts !! id = Some t ∧ Pend.rpc t = Rpc.ID m;
  st_replying m r : Replying m r ∈ ws → Rpc.ID r = Rpc.ID m;
  st_once : NoDup (omap prompting ws);
  st_turns id t : ts !! id = Some t → ∃ m, Prompting m id ∈ ws;
}.

Record conn_ok (owed : string → Z) (c : conn) : Prop := {
  c_queue : ∃ q, queue_of c = Some q ∧ pipe (Conn.writing c) (Conn.wire c) (Conn.inflight c) q ∧
    accounts owed (Conn.requests c) (Conn.workers c) q;
  c_staff : staff (turns (Conn.world c)) (Conn.workers c);
  c_slots : length (Conn.workers c) ≤ maxPendingPrompts;
  c_cold : Conn.initialized c = false →
    Eng.sessions (eng (Conn.world c)) = ∅ ∧ turns (Conn.world c) = ∅ ∧ Conn.workers c = [];
}.

Definition nothing (id : string) : Z := 0.

Lemma accounts_owed owed owed' rs ws q :
  (∀ id, id ≠ "" → id ≠ "null" → owed' id = owed id) → accounts owed rs ws q → accounts owed' rs ws q.
Proof. intros He Ha id H1 H2. rewrite He by done. by apply Ha. Qed.

Lemma ok_owed owed owed' c : (∀ id, id ≠ "" → id ≠ "null" → owed' id = owed id) → conn_ok owed c → conn_ok owed' c.
Proof. intros He [(q & Hq & Hp & Ha) B C D]. split; [|done..]. exists q. split_and!; [done..|]. by eapply accounts_owed. Qed.

(** The queue changed, and nothing else. *)
Lemma ok_on_queue f owed owed' c :
  (∀ q, queue_of c = Some q → pipe (Conn.writing c) (Conn.wire c) (Conn.inflight c) q →
    pipe (Conn.writing c) (Conn.wire c) (Conn.inflight c) (f q)) →
  (∀ q, accounts owed (Conn.requests c) (Conn.workers c) q → accounts owed' (Conn.requests c) (Conn.workers c) (f q)) →
  conn_ok owed c → conn_ok owed' (on_queue f c).
Proof.
  intros Hp Ha [(q & Hq & Hpq & Haq) B C D]. split; [|done..]. exists (f q). unfold queue_of in *. cbn. rewrite Hq. split_and!; [done|by apply Hp|by apply Ha].
Qed.

Lemma ok_send owed c m : conn_ok owed c → conn_ok (λ id, owed id - one (Rpc.ID m) id)%Z (on_queue (send m) c).
Proof.
  apply ok_on_queue; [|intros q; apply accounts_send]. intros q _ Hp. eapply pipe_grows; [exact Hp|apply send_grows].
Qed.

Lemma accounts_cancel owed rs ws q : accounts owed rs ws q → accounts owed rs ws (cancel q).
Proof. intros Ha. eapply accounts_grows; [apply cancel_grows|done]. Qed.

Lemma ok_cancel owed c : conn_ok owed c → conn_ok owed (on_queue cancel c).
Proof.
  apply ok_on_queue; [|intros q; apply accounts_cancel]. intros q _ Hp. eapply pipe_grows; [exact Hp|apply (cancel_grows (λ _, True))].
Qed.

Lemma ok_rpc_error owed code text c : conn_ok owed c → conn_ok owed (rpc_error code text c).
Proof.
  intros Hc. eapply ok_owed; [|by apply ok_send]. intros id H1 H2. cbn. unfold one. rewrite decide_False by done. lia.
Qed.

(** A reply pays the debt of its request. *)
Lemma ok_reply owed c m r : Rpc.ID r = Rpc.ID m → conn_ok owed c → conn_ok (λ id, owed id - one (Rpc.ID m) id)%Z (reply m r c).
Proof.
  intros He Hc. unfold reply. case_decide as Hid.
  - eapply ok_owed; [|exact Hc]. intros id H1 H2. cbn. unfold one. rewrite decide_False by congruence. lia.
  - rewrite <-He. by apply ok_send.
Qed.

(** The engine reacted; the turns that workers rely on are still there. *)
Lemma ok_react owed c i ws :
  conn_ok owed c → (∀ t, i ≠ Traffic t) → let w := snd (react visit name (Conn.world c) i) in
  staff (turns w) ws → length ws ≤ maxPendingPrompts →
  (Conn.initialized c = false → Eng.sessions (eng w) = ∅ ∧ turns w = ∅ ∧ ws = []) →
  conn_ok (λ id, owed id + tally worker_id id (Conn.workers c) - tally worker_id id ws)%Z {| c with Conn.world := w; Conn.workers := ws |}.
Proof.
  intros [(q & Hq & Hp & Ha) B C D] Hi w Hst Hlen Hcold. destruct (react_grows (Conn.world c) i q Hi Hq) as (q' & Hq' & Hg).
  split; cbn; [|done..]. exists q'. split_and!; [done|by eapply pipe_grows|].
  apply (accounts_grows _ _ _ _ _ Hg). intros id H1 H2. destruct (Ha id H1 H2) as [A1 A2]. unfold debt in *.
  split; [lia|]. intros Hc. rewrite <-A2 by done. lia.
Qed.

Lemma react_request m (w : world (T := Outbound)) :
  match react visit name w (Request m) with
  | (Some r, w') => Rpc.ID r = Rpc.ID m ∧ turns w' = turns w ∧ (Rpc.Method m = "initialize" → w' = w)
  | (None, w') =>
      let id := fst (string_field "session_id" (Rpc.Params m)) in
      Rpc.Method m = "session/prompt" ∧
      ∃ t s, turns w' = <[id := t]> (turns w) ∧ Pend.rpc t = Rpc.ID m ∧ Eng.sessions (eng w) !! id = Some s ∧ Sess.running s = false
  end.
Proof.
  cbn [react]. pose proof (start_spec m (eng w)) as Hs.
  assert (Rpc.Method m = "initialize" → start_request visit name m (eng w) = (Respond (result_message (Rpc.ID m) (initialize_result name)), eng w)) as Hinit.
  { intros Hm. unfold start_request. by rewrite decide_True. }
  destruct (start_request visit name m (eng w)) as [[r|t] e'] eqn:Hr; specialize (Hs _ _ eq_refl).
  - split_and!; [done|done|]. intros Hm. specialize (Hinit Hm). injection Hinit as _ ->. by destruct w.
  - destruct Hs as (H1 & H2 & H3 & s & H4 & H5). split; [done|]. exists t, s. cbn. by rewrite <-H3.
Qed.

Lemma ok_handle owed c m :
  conn_ok owed c → (Conn.initialized c = true ∨ Rpc.Method m = "initialize") → Rpc.Method m ≠ "session/prompt" →
  conn_ok owed (snd (handle visit name m c)) ∧ Rpc.ID (fst (handle visit name m c)) = Rpc.ID m.
Proof.
  intros Hc Hm Hp. pose proof (react_request m (Conn.world c)) as Hr. pose proof (ok_react owed c (Request m) (Conn.workers c) Hc) as Hok.
  unfold handle. destruct (react visit name (Conn.world c) (Request m)) as [[r|] w]; [|by destruct Hr as [? _]].
  destruct Hr as (Hid & Hts & Hinit). split; [|done]. cbn [snd] in *.
  eapply ok_owed; [|apply Hok]; [intros id _ _; cbn; lia|done|rewrite Hts; apply Hc|apply Hc|].
  intros Hcold. destruct Hm as [Hm|Hm]; [congruence|]. rewrite (Hinit Hm). by apply (c_cold _ _ Hc).
Qed.

(** A goroutine that is not in the provider takes the place of another such. *)
Lemma staff_replace ts l1 wk wk' l2 :
  prompting wk = None → prompting wk' = None → (∀ m r, wk' = Replying m r → Rpc.ID r = Rpc.ID m) →
  staff ts (l1 ++ wk :: l2) → staff ts (l1 ++ wk' :: l2).
Proof.
  intros Hp Hp' Hr [A B C D]. split.
  - intros m id [H|[H|H]%elem_of_cons]%elem_of_app; [apply A; set_solver|by subst|apply A; set_solver].
  - intros m r [H|[H|H]%elem_of_cons]%elem_of_app; [apply B; set_solver|by apply Hr|apply B; set_solver].
  - rewrite omap_app in *. cbn in *. by rewrite Hp in C; rewrite Hp'.
  - intros id t Ht. destruct (D id t Ht) as [m [H|[H|H]%elem_of_cons]%elem_of_app]; [exists m; set_solver|by subst|exists m; set_solver].
Qed.

Lemma staff_spawn ts ws m : staff ts ws → staff ts (ws ++ [Spawned m]).
Proof.
  intros [A B C D]. split.
  - intros m' id [H|H%list_elem_of_singleton]%elem_of_app; [by apply A|done].
  - intros m' r' [H|H%list_elem_of_singleton]%elem_of_app; [by apply B|done].
  - rewrite omap_app. cbn. by rewrite app_nil_r.
  - intros id t Ht. destruct (D id t Ht) as [m' H]. exists m'. set_solver.
Qed.

(** A session has no turn before its prompt starts. *)
Lemma staff_start ts l1 l2 m id t :
  staff ts (l1 ++ Spawned m :: l2) → ts !! id = None → Pend.rpc t = Rpc.ID m → staff (<[id := t]> ts) (l1 ++ Prompting m id :: l2).
Proof.
  intros [A B C D] Hno Hrpc.
  assert (∀ m', Prompting m' id ∈ l1 ++ l2 → False) as Hnone.
  { intros m' Hin. destruct (A m' id) as (t' & Ht' & _); [set_solver|congruence]. }
  split.
  - intros m' id' Hin. destruct (decide (id' = id)) as [->|Hne].
    + exists t. rewrite lookup_insert_eq. split; [done|]. apply elem_of_app in Hin as [H|[[= ->]|H]%elem_of_cons];
        [exfalso; apply (Hnone m'); set_solver|done|exfalso; apply (Hnone m'); set_solver].
    + destruct (A m' id') as (t' & Ht' & Hr); [set_solver|]. exists t'. by rewrite lookup_insert_ne.
  - intros m' r Hin. apply B. set_solver.
  - rewrite omap_app in *. cbn in *. apply NoDup_app in C as (C1 & C2 & C3). apply NoDup_app. split_and!; [done| |].
    + intros x Hx [->|Hx']%elem_of_cons; [|by apply (C2 x)]. apply list_elem_of_omap in Hx as ([] & Hin & [= ->]). eapply Hnone, elem_of_app. left. exact Hin.
    + apply NoDup_cons. split; [|done]. intros Hx. apply list_elem_of_omap in Hx as ([] & Hin & [= ->]). eapply Hnone, elem_of_app. right. exact Hin.
  - intros id' t' [[<- <-]|[Hne Ht']]%lookup_insert_Some; [exists m; set_solver|]. destruct (D id' t' Ht') as [m' Hm']. exists m'. set_solver.
Qed.

(** The provider returns: the turn is over and the reply is due. *)
Lemma staff_return ts l1 l2 m id r t :
  staff ts (l1 ++ Prompting m id :: l2) → ts !! id = Some t → Rpc.ID r = Pend.rpc t → staff (delete id ts) (l1 ++ Replying m r :: l2).
Proof.
  intros [A B C D] Ht Hr. rewrite omap_app in C. cbn in C. apply NoDup_app in C as (C1 & C2 & [C3 C4]%NoDup_cons).
  assert (∀ m', Prompting m' id ∈ l1 → False) as N1.
  { intros m' H. apply (C2 id); [|by left]. apply list_elem_of_omap. by exists (Prompting m' id). }
  assert (∀ m', Prompting m' id ∈ l2 → False) as N2.
  { intros m' H. apply C3. apply list_elem_of_omap. by exists (Prompting m' id). }
  split.
  - intros m' id' Hin. destruct (A m' id') as (t' & Ht' & Hr'); [set_solver|]. exists t'. rewrite lookup_delete_ne; [done|].
    intros <-. apply elem_of_app in Hin as [H|[H|H]%elem_of_cons]; [by eapply N1|done|by eapply N2].
  - intros m' r' [H|[[= -> ->]|H]%elem_of_cons]%elem_of_app; [apply B; set_solver| |apply B; set_solver].
    destruct (A m id) as (t' & Ht' & Hr'); [set_solver|]. congruence.
  - rewrite omap_app. cbn. apply NoDup_app. split_and!; [done| |done]. intros x H1 H2. apply (C2 x H1). by right.
  - intros id' t' [Hne Ht']%lookup_delete_Some. destruct (D id' t' Ht') as [m' Hm']. exists m'. set_solver.
Qed.

Lemma staff_delete ts l1 l2 : staff ts (l1 ++ Leaving :: l2) → staff ts (l1 ++ l2).
Proof.
  intros [A B C D]. split; [intros; apply A; set_solver|intros; apply B; set_solver| |].
  - rewrite omap_app in *. exact C.
  - intros id t Ht. destruct (D id t Ht) as [m Hm]. exists m. set_solver.
Qed.

Lemma tally_middle {A} (f : A → string) id l1 x l2 : tally f id (l1 ++ x :: l2) = (tally f id (l1 ++ l2) + one (f x) id)%Z.
Proof. change (x :: l2) with ([x] ++ l2). rewrite !tally_app, tally_one. lia. Qed.

Lemma ok_start_prompt owed c m :
  conn_ok owed c → Conn.initialized c = true → length (Conn.workers c) < maxPendingPrompts →
  conn_ok (λ id, owed id - one (Rpc.ID m) id)%Z (start_prompt m c).
Proof.
  intros [(q & Hq & Hp & Ha) B C D] Hinit Hlen. split; cbn.
  - exists q. split_and!; [done..|]. intros id H1 H2. destruct (Ha id H1 H2) as [A1 A2]. unfold debt in *. rewrite tally_app, tally_one. cbn [worker_id].
    split; [lia|]. intros Hc. specialize (A2 Hc). lia.
  - by apply staff_spawn.
  - rewrite length_app. cbn. lia.
  - congruence.
Qed.

Lemma insert_middle {A} (l1 : list A) x y l2 : <[length l1 := y]> (l1 ++ x :: l2) = l1 ++ y :: l2.
Proof. by rewrite <-(Nat.add_0_r (length l1)), insert_app_r. Qed.

Lemma ok_starts owed c i : good (Conn.world c) → conn_ok owed c → conn_ok owed (prompt_starts visit name i c).
Proof.
  intros Hg Hc. unfold prompt_starts. destruct (Conn.workers c !! i) as [[m| | |]|] eqn:Hi; [|done..].
  apply list_elem_of_split_length in Hi as (l1 & l2 & Hws & ->).
  pose proof (react_request m (Conn.world c)) as Hr. pose proof (λ ws, ok_react owed c (Request m) ws Hc) as Hok.
  pose proof (c_staff _ _ Hc) as Hst. pose proof (c_slots _ _ Hc) as Hl. rewrite Hws in Hst, Hl. rewrite length_app in Hl. cbn in Hl.
  assert (Conn.initialized c = false → False) as Hinit.
  { intros Hcold. destruct (c_cold _ _ Hc Hcold) as (_ & _ & He). rewrite Hws in He. by destruct l1. }
  destruct (react visit name (Conn.world c) (Request m)) as [[r|] w]; cbn [snd] in *; rewrite Hws, insert_middle.
  - destruct Hr as (Hid & Hts & _). eapply ok_owed; [|apply (Hok (l1 ++ Replying m r :: l2))].
    + intros id _ _. cbn beta. rewrite Hws, !tally_middle. cbn [worker_id]. lia.
    + done.
    + rewrite Hts. eapply staff_replace; [..|exact Hst]; [done|done|]. by intros ? ? [= <- <-].
    + rewrite length_app. cbn. lia.
    + by intros ?%Hinit.
  - destruct Hr as (_ & t & s & Hts & Hrpc & Hs & Hrun). set (session := fst (string_field "session_id" (Rpc.Params m))) in *.
    eapply ok_owed; [|apply (Hok (l1 ++ Prompting m session :: l2))].
    + intros id _ _. cbn beta. rewrite Hws, !tally_middle. cbn [worker_id]. lia.
    + done.
    + rewrite Hts. apply staff_start; [done| |done]. destruct (turns (Conn.world c) !! session) eqn:E; [|done].
      pose proof (ok_running _ _ _ _ (r_sess _ _ (g_roster _ Hg) _ _ Hs)) as Hiff. rewrite E, Hrun in Hiff. destruct Hiff as [_ Hx]. by discriminate Hx.
    + rewrite length_app. cbn. lia.
    + by intros ?%Hinit.
Qed.

Lemma ok_serve_request c m :
  conn_ok nothing c → conn_ok nothing (serve_request visit name address m c).
Proof.
  intros Hc. unfold serve_request. case_decide as Hnone; [by apply ok_rpc_error|].
  set (c1 := {| c with Conn.requests := Conn.requests c ++ [m] |}).
  assert (conn_ok (one (Rpc.ID m)) c1) as Hc1.
  { destruct Hc as [(q & Hq & Hp & Ha) B C D]. split; [|done..]. exists q. split_and!; [done..|]. cbn. intros id H1 H2. destruct (Ha id H1 H2) as [A1 A2].
    unfold debt, nothing in *. rewrite tally_app, tally_one. split; [lia|]. intros Hcc. specialize (A2 Hcc). lia. }
  assert (∀ r, Rpc.ID r = Rpc.ID m → ∀ c, conn_ok (one (Rpc.ID m)) c → conn_ok nothing (reply m r c)) as Hreply.
  { intros r Hid c2 Hc2. eapply ok_owed; [|by eapply ok_reply]. intros id _ _. unfold nothing. cbn. lia. }
  destruct (decide (Conn.initialized c1 = false ∧ Rpc.Method m ≠ "initialize")) as [|Hi]; [by apply Hreply|].
  destruct (decide (Rpc.Method m = "initialize")) as [Hm|Hm].
  { unfold handshake. case_decide as Hid.
    { eapply ok_owed; [|exact Hc1]. intros id H1 _. unfold one, nothing. rewrite decide_False by congruence. done. }
    destruct (ok_handle _ c1 m Hc1) as [Hh Hr]; [by right|by rewrite Hm|]. destruct (handle visit name m c1) as [r c2]. cbn [fst snd] in *.
    pose proof (ok_send _ c2 {| r with Rpc.Result := marshal_map (("address", json_quote address) :: initialize_fields (sanitized name)) |} Hh) as Hs.
    destruct Hs as [(q & Hq & Hp & Ha) B C D]. split; [|done..|done]. exists q. split_and!; [done..|]. eapply accounts_owed; [|exact Ha].
    intros id _ _. cbn. rewrite Hr. unfold nothing. lia. }
  assert (Conn.initialized c1 = true) as Hinit.
  { destruct (Conn.initialized c1); [done|]. by destruct Hi. }
  destruct (decide (Rpc.Method m ≠ "session/prompt")) as [Hp|Hp].
  { destruct (ok_handle _ c1 m Hc1) as [Hh Hr]; [by left|done|]. destruct (handle visit name m c1) as [r c2]. by apply Hreply. }
  case_decide; [|by apply Hreply]. eapply ok_owed; [|by eapply ok_start_prompt]. intros id _ _. unfold nothing. cbn. lia.
Qed.

(** ** The other steps *)

Lemma close_empty (e : Engine Outbound) : Eng.sessions e = ∅ → Eng.sessions (Close visit e) = ∅.
Proof.
  intros He. unfold Close, session_ids. rewrite He, map_to_list_empty. cbn.
  pose proof (Hvisit (Eng.tick e) []) as Hp. apply Permutation_nil_r in Hp. rewrite Hp. done.
Qed.

Lemma ok_leave owed c : conn_ok owed c → conn_ok owed (leave visit name c).
Proof.
  intros Hc%ok_cancel. unfold leave. set (c1 := on_queue cancel c) in *.
  pose proof (ok_react owed c1 Shutdown (Conn.workers c1) Hc) as Hok. cbn [react snd] in *.
  destruct Hok as [(q & Hq & Hp & Ha) B C D]; [done|apply Hc|apply Hc|..].
  { intros Hi. destruct (c_cold _ _ Hc Hi) as (H1 & H2 & H3). split_and!; [|done..]. by apply close_empty. }
  split; [|done..]. exists q. split_and!; [done..|]. eapply accounts_owed; [|exact Ha]. intros id _ _. cbn. lia.
Qed.

Lemma ok_returned owed c i text usage err : conn_ok owed c → conn_ok owed (prompt_returned visit name i text usage err c).
Proof.
  intros Hc. unfold prompt_returned. destruct (Conn.workers c !! i) as [[|m session| |]|] eqn:Hi; try done.
  apply list_elem_of_split_length in Hi as (l1 & l2 & Hws & ->).
  pose proof (c_staff _ _ Hc) as Hst. rewrite Hws in Hst. destruct (st_prompting _ _ Hst m session) as (t & Ht & Hrpc); [set_solver|].
  pose proof (λ ws, ok_react owed c (Complete session text usage err) ws Hc) as Hok. cbn [react] in *. rewrite Ht in *.
  pose proof (finish_id t text usage err (eng (Conn.world c))) as Hid. destruct (finish_turn visit t text usage err _) as [r e]. cbn [default fst snd turns eng] in *.
  change (id r) with r. assert (<[length l1 := Replying m r]> (Conn.workers c) = l1 ++ Replying m r :: l2) as ->.
  { rewrite Hws. apply insert_middle. }
  eapply ok_owed; [|apply (Hok (l1 ++ Replying m r :: l2))].
  - intros id _ _. cbn beta. rewrite Hws, !tally_middle. cbn [worker_id]. lia.
  - done.
  - by eapply staff_return.
  - pose proof (c_slots _ _ Hc) as Hl. rewrite Hws in Hl. rewrite length_app in *. done.
  - intros Hcold. destruct (c_cold _ _ Hc Hcold) as (_ & _ & He). rewrite Hws in He. by destruct l1.
Qed.

Lemma ok_replies c i : conn_ok nothing c → conn_ok nothing (prompt_replies i c).
Proof.
  intros Hc. unfold prompt_replies. destruct (Conn.workers c !! i) as [[| |m r|]|] eqn:Hi; try done.
  apply list_elem_of_split_length in Hi as (l1 & l2 & Hws & ->). pose proof (c_staff _ _ Hc) as Hst. rewrite Hws in Hst.
  assert (Rpc.ID r = Rpc.ID m) as Hid by (apply (st_replying _ _ Hst); set_solver).
  pose proof (ok_reply nothing c m r Hid Hc) as Hr. assert (Conn.workers (reply m r c) = Conn.workers c) as Hsame by (unfold reply; by case_decide).
  destruct Hr as [(q & Hq & Hp & Ha) B C D]. rewrite Hsame, Hws in *. rewrite insert_middle. split; cbn.
  - exists q. split_and!; [done..|]. intros id H1 H2. destruct (Ha id H1 H2) as [A1 A2]. unfold debt in *. rewrite tally_middle in A1, A2 |- *. cbn [worker_id] in *.
    unfold nothing in *.
    assert (one "" id = 0)%Z as -> by (unfold one; by rewrite decide_False by congruence). split; [lia|]. intros Hcc. specialize (A2 Hcc). lia.
  - by eapply staff_replace; [..|exact B].
  - rewrite length_app in *. done.
  - intros Hcold. destruct (D Hcold) as (_ & _ & He). by destruct l1.
Qed.

Lemma ok_ends c i : conn_ok nothing c → conn_ok nothing (prompt_ends i c).
Proof.
  intros Hc. unfold prompt_ends. destruct (Conn.workers c !! i) as [[]|] eqn:Hi; try done.
  apply list_elem_of_split_length in Hi as (l1 & l2 & Hws & ->). destruct Hc as [(q & Hq & Hp & Ha) B C D]. rewrite Hws in *.
  assert (delete (length l1) (l1 ++ Leaving :: l2) = l1 ++ l2) as -> by apply delete_middle. split; cbn.
  - exists q. split_and!; [done..|]. intros id H1 H2. destruct (Ha id H1 H2) as [A1 A2]. unfold debt in *. rewrite tally_middle in A1, A2. cbn [worker_id] in *.
    
    assert (one "" id = 0)%Z as E0 by (unfold one; by rewrite decide_False by congruence). rewrite E0 in A1, A2. split; [lia|]. intros Hcc. specialize (A2 Hcc). lia.
  - by apply staff_delete.
  - rewrite length_app in *. cbn in C. lia.
  - intros Hcold. destruct (D Hcold) as (_ & _ & He). by destruct l1.
Qed.

Lemma ok_takes owed c : conn_ok owed c → Conn.inflight c = None → conn_ok owed (writer_takes c).
Proof.
  intros [(q & Hq & [P1 P2 P3 P4 P5] & Ha) B C D] Hi. rewrite Hi in *. unfold writer_takes. rewrite Hq. destruct (Out.outgoing q) as [|data rest] eqn:Ho.
  { split; [|done..]. exists q. rewrite Hi. split_and!; [done| |done]. split; rewrite ?Ho; done. }
  split; [|done..]. unfold queue_of in *. cbn. rewrite Hq. cbn. eexists. split; [done|]. split; [|done].
  unfold bytes in *. split; cbn in *; rewrite ?Ho, ?sumZ_cons in *; cbn in *; [lia|done|lia|done|done].
Qed.

Lemma ok_wrote owed c ok : conn_ok owed c → Conn.writing c = true → conn_ok owed (writer_wrote ok c).
Proof.
  intros [(q & Hq & [P1 P2 P3 P4 P5] & Ha) B C D] Hw. specialize (P5 Hw). unfold writer_wrote. destruct (Conn.inflight c) as [data|] eqn:Hi.
  2:{ split; [|done..]. exists q. rewrite Hi. split_and!; [done| |done]. by split. }
  unfold queue_of in *. change (option_list (Some data)) with [data] in *. rewrite bytes_one in P1. pose proof (bytes_nonneg (Out.outgoing q)). pose proof (len_nonneg data).
  destruct ok; (split; [|done..]); unfold queue_of; cbn; rewrite Hq; cbn; eexists; (split; [done|]); split; [..|].
  - split; cbn [Out.queuedBytes Out.outgoing Out.accepted]; [change (bytes (option_list None)) with 0%Z; lia|lia|done| |].
    + rewrite <-P5. exists (Out.outgoing q). by rewrite <-app_assoc.
    + intros _. rewrite <-P5. by rewrite <-app_assoc.
  - done.
  - unfold cancel. split; cbn [Out.queuedBytes Out.outgoing Out.accepted]; [change (bytes (option_list None)) with 0%Z; lia|lia|done|done|done].
  - intros id H1 H2. destruct (Ha id H1 H2) as [A1 A2]. split; [done|]. done.
Qed.

Lemma ok_cstep c c' : good (Conn.world c) → conn_ok nothing c → cstep visit name address c c' → conn_ok nothing c'.
Proof.
  intros Hg Hc. destruct 1 as [s _ _| _ _|i|i text usage err|i|i|Hw Hi|ok Hw|Hw Hi Hcc|].
  - destruct (fst (Read s)) as [m| | |]; cbn [serve]; [by apply ok_serve_request|by apply ok_rpc_error..|by apply ok_leave].
  - by apply ok_leave.
  - by apply ok_starts.
  - by apply ok_returned.
  - by apply ok_replies.
  - by apply ok_ends.
  - by apply ok_takes.
  - by apply ok_wrote.
  - destruct Hc as [(q & Hq & [P1 P2 P3 P4 P5] & Ha) B C D]. split; [|done..]. exists q. split_and!; [done| |done]. by split.
  - by apply ok_cancel.
Qed.

Lemma served_ok c : served visit name address c → conn_ok nothing c.
Proof.
  induction 1 as [|c c' Hs IH Hc]; [|eapply ok_cstep; [|exact IH|exact Hc]; eapply reachable_sound; [exact Hvisit|by apply served_reachable]].
  split; cbn; [|by split; [set_solver|set_solver|constructor|set_solver]|lia|done].
  eexists. split; [done|]. split; [split; cbn; [done|done|unfold outboundQueueSize; lia|done|done]|]. intros id _ _. by split.
Qed.
End server_proofs.
