(* ===== verification/ServerRun.v ===== *)
(** * The engine's inputs under a connection, and where responses come from

    What the reader, the writer and the prompts of a connection do is, for the engine, a
    list of inputs.  The requests among them are the requests that were read, in their
    order and each once, as far as the handshake and the slots admit them; and every
    response of the connection is one of the engine's answers to a request that was read,
    the greeting, or an error of the connection's own. *)

From Stdlib Require Import Ascii.
From stdpp Require Import base tactics option list gmap strings numbers pretty sorting list_numbers.
From S2P Require Import Prelude GoLib Json Ledger State Protocol Engine EngineProofs EngineSystem Server ServerProofs.

Section run.
Context (visit : nat → list string → list string) (name address : string).
Hypothesis Hvisit : ∀ t ids, visit t ids ≡ₚ ids.
Implicit Types w : world (T := Outbound).

(** ** Runs of the engine *)

Abbreviation move w i := (snd (react visit name w i)).

Fixpoint legal w (inputs : list (input (T := Outbound))) : Prop :=
  match inputs with
  | [] => True
  | i :: inputs => allowed w i ∧ legal (move w i) inputs
  end.

(** The engine after these inputs, and what it answered to them. *)
Definition run w (inputs : list (input (T := Outbound))) : world := fold_left (λ w i, move w i) inputs w.

Fixpoint answers w (inputs : list (input (T := Outbound))) : list Message :=
  match inputs with
  | [] => []
  | i :: inputs => option_list (fst (react visit name w i)) ++ answers (move w i) inputs
  end.

(** The requests among the inputs. *)
Definition asked (inputs : list (input (T := Outbound))) : list Message :=
  omap (λ i, match i with Request m => Some m | _ => None end) inputs.

Lemma run_app w l l' : run w (l ++ l') = run (run w l) l'.
Proof. apply fold_left_app. Qed.

Lemma legal_app w l l' : legal w (l ++ l') ↔ legal w l ∧ legal (run w l) l'.
Proof. revert w. induction l as [|i l IH]; intros w; cbn; [tauto|]. rewrite IH. tauto. Qed.

Lemma answers_app w l l' : answers w (l ++ l') = answers w l ++ answers (run w l) l'.
Proof. revert w. induction l as [|i l IH]; intros w; cbn; [done|]. by rewrite IH, app_assoc. Qed.

Lemma asked_app l l' : asked (l ++ l') = asked l ++ asked l'.
Proof. apply omap_app. Qed.

(** ** The requests that reach the engine *)

(** From the first [initialize] that wants an answer on; one that does not is dropped. *)
Fixpoint heard (greeted : bool) (rs : list Message) : list Message :=
  match rs with
  | [] => []
  | m :: rs =>
      if decide (Rpc.Method m = "initialize") then
        if decide (Rpc.ID m = "") then heard greeted rs else m :: heard true rs
      else if greeted then m :: heard true rs
      else heard false rs
  end.

Fixpoint greeted_by (greeted : bool) (rs : list Message) : bool :=
  match rs with
  | [] => greeted
  | m :: rs => greeted_by (greeted || bool_decide (Rpc.Method m = "initialize" ∧ Rpc.ID m ≠ "")) rs
  end.

Definition passes (greeted : bool) (m : Message) : list Message := heard greeted [m].

Lemma greeted_true rs : greeted_by true rs = true.
Proof. induction rs as [|m rs IH]; [done|]. exact IH. Qed.

Lemma heard_snoc g rs m : heard g (rs ++ [m]) = heard g rs ++ passes (greeted_by g rs) m.
Proof.
  revert g. induction rs as [|x rs IH]; intros g; [done|]. cbn [heard greeted_by app].
  destruct (decide (Rpc.Method x = "initialize")) as [Hx|Hx].
  - destruct (decide (Rpc.ID x = "")) as [Hi|Hi].
    + rewrite bool_decide_false by tauto. rewrite orb_false_r. apply IH.
    + rewrite bool_decide_true by tauto. rewrite orb_true_r, IH. done.
  - rewrite bool_decide_false by tauto. rewrite orb_false_r. destruct g; rewrite IH; done.
Qed.

Lemma greeted_snoc g rs m :
  greeted_by g (rs ++ [m]) = greeted_by g rs || bool_decide (Rpc.Method m = "initialize" ∧ Rpc.ID m ≠ "").
Proof. revert g. induction rs as [|x rs IH]; intros g; cbn; [done|]. apply IH. Qed.

Definition not_prompt (m : Message) : Prop := Rpc.Method m ≠ "session/prompt".

#[local] Instance not_prompt_dec m : Decision (not_prompt m).
Proof. unfold not_prompt. apply _. Defined.

(** ** Where responses come from *)

Definition start : world := Conn.world accepted_conn.

Inductive explained (inputs : list (input (T := Outbound))) (rs : list Message) : Message → Prop :=
  | by_engine m r : m ∈ rs → Rpc.Method m ≠ "initialize" → Rpc.ID r = Rpc.ID m → r ∈ answers start inputs → explained inputs rs r
  | by_greeting m : m ∈ rs → Rpc.Method m = "initialize" →
      explained inputs rs (result_message (Rpc.ID m) (marshal_map (("address", json_quote address) :: initialize_fields (sanitized name))))
  | by_guard m : m ∈ rs → Rpc.Method m ≠ "initialize" → explained inputs rs (error_message (Rpc.ID m) (-32002) "initialize required")
  | by_slots m : m ∈ rs → Rpc.Method m = "session/prompt" → explained inputs rs (error_message (Rpc.ID m) (-32001) "too many pending prompts")
  | by_reader code text : (code, text) ∈ [(-32700, "parse error"); (-32600, "invalid request"); (-32600, "expected request")]%Z →
      explained inputs rs (error_message "null" code text).

(** What a prompt's goroutine has in hand. *)
Definition worker_ok (inputs : list (input (T := Outbound))) (rs : list Message) (wk : worker) : Prop :=
  match wk with
  | Spawned m => m ∈ rs ∧ Rpc.Method m = "session/prompt"
  | Prompting m _ => m ∈ rs ∧ Rpc.Method m = "session/prompt"
  | Replying m r => (m ∈ rs ∧ Rpc.Method m = "session/prompt") ∧ r ∈ answers start inputs
  | Leaving => True
  end.

Lemma explained_app inputs more rs new r : explained inputs rs r → explained (inputs ++ more) (rs ++ new) r.
Proof.
  assert (∀ m, m ∈ rs → m ∈ rs ++ new) as Hin by (intros m ?; apply elem_of_app; by left).
  destruct 1; [eapply by_engine|eapply by_greeting|eapply by_guard|eapply by_slots|eapply by_reader]; eauto.
  rewrite answers_app. apply elem_of_app. by left.
Qed.

Lemma worker_ok_app inputs more rs new wk : worker_ok inputs rs wk → worker_ok (inputs ++ more) (rs ++ new) wk.
Proof. destruct wk; cbn; rewrite ?answers_app, ?elem_of_app; tauto. Qed.

(** ** The invariant *)

(** [due] are the requests that reach the engine, or are prompts refused for want of a slot. *)
Record follows (inputs : list (input (T := Outbound))) (due : list Message) (c : conn) (q : Outbound) : Prop := {
  fo_legal : legal start inputs;
  fo_world : Conn.world c = run start inputs;
  fo_queue : queue_of c = Some q;
  fo_asked : asked inputs ++ spawned (Conn.workers c) `sublist_of` due;
  fo_calls : filter not_prompt (asked inputs) = filter not_prompt due;
  fo_one : length (spawned (Conn.workers c)) ≤ 1;
  fo_workers : Forall (worker_ok inputs (Conn.requests c)) (Conn.workers c);
  fo_responses : Forall (explained inputs (Conn.requests c)) (responses q);
}.

Lemma workers_app inputs more rs new ws : Forall (worker_ok inputs rs) ws → Forall (worker_ok (inputs ++ more) (rs ++ new)) ws.
Proof. intros H. eapply Forall_impl; [exact H|]. intros wk. apply worker_ok_app. Qed.

Lemma responses_app inputs more rs new l : Forall (explained inputs rs) l → Forall (explained (inputs ++ more) (rs ++ new)) l.
Proof. intros H. eapply Forall_impl; [exact H|]. intros r. apply explained_app. Qed.

(** The queue changed, with these responses more. *)
Lemma follows_queue f inputs due c q new :
  follows inputs due c q → events_of (Out.accepted (f q)) = events_of (Out.accepted q) →
  responses (f q) = responses q ++ new → Forall (explained inputs (Conn.requests c)) new →
  follows (inputs ++ [Traffic (f q)]) due (on_queue f c) (f q).
Proof.
  intros [A B C D E F G H] He Hr Hn. unfold queue_of in C. split.
  - rewrite legal_app. split; [done|]. split; [|done]. exists q. rewrite <-B. split; [exact C|exact He].
  - rewrite run_app, <-B. unfold on_queue. cbn. by rewrite C.
  - unfold queue_of. cbn. by rewrite C.
  - rewrite asked_app. cbn. by rewrite app_nil_r.
  - rewrite asked_app. cbn. by rewrite app_nil_r.
  - done.
  - cbn. rewrite <-(app_nil_r (Conn.requests c)). by apply workers_app.
  - rewrite Hr. cbn. rewrite <-(app_nil_r (Conn.requests c)). apply responses_app, Forall_app. by split.
Qed.

Lemma send_responses m q : responses (send m q) = responses q ++ [m] ∨ responses (send m q) = responses q.
Proof. unfold responses. destruct (send_accepted m q) as [-> | [-> _]]; [left; by rewrite filter_app, fmap_app|by right]. Qed.

Lemma follows_send inputs due c q m :
  follows inputs due c q → explained inputs (Conn.requests c) m →
  follows (inputs ++ [Traffic (send m q)]) due (on_queue (send m) c) (send m q).
Proof.
  intros Hf Hm. destruct (send_responses m q) as [Hr|Hr].
  - eapply follows_queue; [done|apply send_events|exact Hr|]. by apply Forall_singleton.
  - eapply (follows_queue _ _ _ _ _ []); [done|apply send_events|by rewrite app_nil_r|done].
Qed.

Definition goes_on (due : list Message) (inputs : list (input (T := Outbound))) (c : conn) : Prop :=
  ∃ more q, follows (inputs ++ more) due c q.

Lemma follows_on inputs due c q : follows inputs due c q → goes_on due inputs c.
Proof. intros H. exists [], q. by rewrite app_nil_r. Qed.

Lemma goes_on_from due inputs more c : goes_on due (inputs ++ more) c → goes_on due inputs c.
Proof. intros (l & q & H). exists (more ++ l), q. by rewrite app_assoc. Qed.

Lemma follows_reply inputs due c q m r :
  follows inputs due c q → explained inputs (Conn.requests c) r → goes_on due inputs (reply m r c).
Proof.
  intros Hf Hr. unfold reply. case_decide; [by eapply follows_on|]. eexists _, _. by apply follows_send.
Qed.

(** A request was read that does not reach the engine now. *)
Lemma follows_request inputs due due' c q m :
  follows inputs due c q → due `sublist_of` due' → filter not_prompt due' = filter not_prompt due →
  follows inputs due' {| c with Conn.requests := Conn.requests c ++ [m] |} q.
Proof.
  intros [A B C D E F G H] Hs Hn. split; [done..| | |done| |].
  - cbn. by etrans.
  - by rewrite Hn.
  - cbn. rewrite <-(app_nil_r inputs). by apply workers_app.
  - cbn. rewrite <-(app_nil_r inputs). by apply responses_app.
Qed.

(** The engine reacts, with other goroutines afterwards. *)
Lemma follows_react inputs due due' c q i ws :
  follows inputs due c q → allowed (Conn.world c) i → (∀ t, i ≠ Traffic t) →
  asked (inputs ++ [i]) ++ spawned ws `sublist_of` due' → filter not_prompt (asked (inputs ++ [i])) = filter not_prompt due' →
  length (spawned ws) ≤ 1 → Forall (worker_ok (inputs ++ [i]) (Conn.requests c)) ws →
  ∃ q', follows (inputs ++ [i]) due' {| c with Conn.world := move (Conn.world c) i; Conn.workers := ws |} q'.
Proof.
  intros [A B C D E F G H] Hi Ht Hs Hn Hl Hw. destruct (react_grows visit name (Conn.world c) i q Ht C) as (q' & Hq' & Hg).
  exists q'. split; [| |exact Hq'|done..|].
  - rewrite legal_app. split; [done|]. rewrite <-B. by split.
  - rewrite run_app, <-B. done.
  - rewrite (responses_grows _ _ Hg). cbn. rewrite <-(app_nil_r (Conn.requests c)). by apply responses_app.
Qed.

Lemma answer_in inputs c q due i r :
  follows inputs due c q → fst (react visit name (Conn.world c) i) = Some r → r ∈ answers start (inputs ++ [i]).
Proof.
  intros Hf Hr. rewrite answers_app. apply elem_of_app. right. rewrite <-(fo_world _ _ _ _ Hf). cbn. rewrite Hr. by left.
Qed.

Lemma sublist_snoc (l l' : list Message) m : l `sublist_of` l' → l ++ [m] `sublist_of` l' ++ [m].
Proof. intros H. by apply sublist_app. Qed.

(** A request that reaches the engine while the reader is in its loop. *)
Lemma follows_call inputs due c q m :
  follows inputs due c q → spawned (Conn.workers c) = [] →
  ∃ q', follows (inputs ++ [Request m]) (due ++ [m])
    {| c with Conn.world := move (Conn.world c) (Request m); Conn.requests := Conn.requests c ++ [m] |} q'.
Proof.
  intros Hf Hsp. pose proof Hf as [A B C D E F G H]. rewrite Hsp, app_nil_r in D.
  destruct (follows_react inputs due (due ++ [m]) c q (Request m) (Conn.workers c)) as [q' Hq']; try done.
  - rewrite asked_app, Hsp, app_nil_r. by apply sublist_snoc.
  - rewrite asked_app, !filter_app, E. done.
  - rewrite <-(app_nil_r (Conn.requests c)). by apply workers_app.
  - exists q'. destruct Hq' as [A' B' C' D' E' F' G' H']. split; try done.
    + cbn in *. rewrite <-(app_nil_r (inputs ++ [Request m])). by apply workers_app.
    + cbn in *. rewrite <-(app_nil_r (inputs ++ [Request m])). by apply responses_app.
Qed.

(** ** The steps of a connection *)

Definition conduit (c : conn) : Prop :=
  (∃ inputs q, follows inputs (heard false (Conn.requests c)) c q) ∧ Conn.initialized c = greeted_by false (Conn.requests c).

Lemma conduit_on inputs c :
  goes_on (heard false (Conn.requests c)) inputs c → Conn.initialized c = greeted_by false (Conn.requests c) → conduit c.
Proof. intros (more & q & H) Hi. split; [by exists (inputs ++ more), q|done]. Qed.

Lemma conduit_queue f c : (∀ q, Out.accepted (f q) = Out.accepted q) → conduit c → conduit (on_queue f c).
Proof.
  intros Hf [(inputs & q & H) Hi]. split; [|done]. eexists _, _. eapply (follows_queue f _ _ _ _ []); [exact H|by rewrite Hf| |done].
  unfold responses. by rewrite Hf, app_nil_r.
Qed.

Lemma conduit_error code text c :
  (code, text) ∈ [(-32700, "parse error"); (-32600, "invalid request"); (-32600, "expected request")]%Z →
  conduit c → conduit (rpc_error code text c).
Proof.
  intros Hin [(inputs & q & H) Hi]. split; [|done]. eexists _, _. apply follows_send; [exact H|]. by apply by_reader.
Qed.

Lemma reply_requests m r c : Conn.requests (reply m r c) = Conn.requests c ∧ Conn.initialized (reply m r c) = Conn.initialized c.
Proof. unfold reply. by case_decide. Qed.

Lemma conduit_reply inputs c q m r :
  follows inputs (heard false (Conn.requests c)) c q → Conn.initialized c = greeted_by false (Conn.requests c) →
  explained inputs (Conn.requests c) r → conduit (reply m r c).
Proof.
  intros Hf Hi Hr. destruct (reply_requests m r c) as [E1 E2]. apply (conduit_on inputs); rewrite ?E1, ?E2; [|done]. by eapply follows_reply.
Qed.

Lemma initialize_answer m w : Rpc.Method m = "initialize" →
  react visit name w (Request m) = (Some (result_message (Rpc.ID m) (initialize_result name)), w).
Proof. intros Hm. cbn [react]. unfold start_request. rewrite decide_True by done. by destruct w. Qed.

Lemma conduit_handshake c m : spawned (Conn.workers c) = [] → Rpc.Method m = "initialize" → conduit c →
  conduit (handshake visit name address m {| c with Conn.requests := Conn.requests c ++ [m] |}).
Proof.
  intros Hsp Hm [(inputs & q & Hf) Hi]. unfold handshake. destruct (decide (Rpc.ID m = "")) as [Hid|Hid].
  - assert (passes (greeted_by false (Conn.requests c)) m = []) as Hp by (unfold passes; cbn; by rewrite decide_True, decide_True by done).
    split; cbn.
    + exists inputs, q. rewrite heard_snoc, Hp, app_nil_r. by apply (follows_request _ _ _ _ _ m Hf).
    + rewrite greeted_snoc, bool_decide_false by tauto. by rewrite orb_false_r.
  - assert (passes (greeted_by false (Conn.requests c)) m = [m]) as Hp by (unfold passes; cbn; by rewrite decide_True, decide_False by done).
    destruct (follows_call inputs _ c q m Hf Hsp) as [q' Hf']. unfold handle. cbn [Conn.world].
    rewrite (initialize_answer m) in Hf' |- * by done. cbn [default snd] in *. split; cbn.
    + eexists _, _. rewrite heard_snoc, Hp. pose proof (follows_send _ _ _ _
        (result_message (Rpc.ID m) (marshal_map (("address", json_quote address) :: initialize_fields (sanitized name)))) Hf') as Hs.
      destruct Hs as [A B C D E F G H]; [apply (by_greeting _ _ m); [cbn; apply elem_of_app; right; by left|done]|].
      split; [exact A|exact B|exact C|exact D|exact E|exact F|exact G|exact H].
    + rewrite greeted_snoc, bool_decide_true by tauto. by rewrite orb_true_r.
Qed.

Lemma spawned_app ws ws' : spawned (ws ++ ws') = spawned ws ++ spawned ws'.
Proof. apply omap_app. Qed.

Lemma conduit_serve_request c m : spawned (Conn.workers c) = [] → conduit c → conduit (serve_request visit name address m c).
Proof.
  intros Hsp Hc. unfold serve_request. case_decide as Hm0; [apply conduit_error; [set_solver|done]|].
  set (c1 := {| c with Conn.requests := Conn.requests c ++ [m] |}). pose proof Hc as [(inputs & q & Hf) Hi].
  assert (m ∈ Conn.requests c1) as Hin by (apply elem_of_app; right; by left).
  destruct (decide (Rpc.Method m = "initialize")) as [Hm|Hm].
  { rewrite decide_False by (by intros [_ ?]). by apply conduit_handshake. }
  assert (Conn.initialized c1 = greeted_by false (Conn.requests c1)) as Hi1.
  { cbn. rewrite greeted_snoc, bool_decide_false by tauto. by rewrite orb_false_r. }
  assert (Conn.initialized c = true ∨ Conn.initialized c = false) as [Hg|Hg] by (destruct (Conn.initialized c); auto).
  - assert (passes (greeted_by false (Conn.requests c)) m = [m]) as Hp by (rewrite <-Hi, Hg; unfold passes; cbn; by rewrite decide_False by done).
    rewrite decide_False by (cbn; intros [? _]; congruence). destruct (decide (Rpc.Method m ≠ "session/prompt")) as [Hnp|Hpr].
    + destruct (follows_call inputs _ c q m Hf Hsp) as [q' Hf']. unfold handle. cbn [Conn.world c1].
      destruct (react visit name (Conn.world c) (Request m)) as [r w] eqn:E. cbn [snd] in Hf'.
      pose proof (react_request visit name Hvisit m (Conn.world c)) as Hr. rewrite E in Hr. destruct r as [r|]; [|by destruct Hr as [? _]].
      eapply (conduit_reply (inputs ++ [Request m])); cbn; [rewrite heard_snoc, Hp; exact Hf'|done|].
      eapply (by_engine _ _ m); [done|done|by destruct Hr|]. eapply answer_in; [exact Hf|]. by rewrite E.
    + apply dec_stable in Hpr.
      assert (follows inputs (heard false (Conn.requests c1)) c1 q) as Hf1.
      { cbn. rewrite heard_snoc, Hp. apply (follows_request _ _ _ _ _ m Hf); [by apply sublist_inserts_r|].
        rewrite filter_app, (filter_cons_False not_prompt m []) by (unfold not_prompt; tauto). by rewrite app_nil_r. }
      case_decide as Hslot; [|eapply conduit_reply; [exact Hf1|done|by apply by_slots]]. split; [|done]. exists inputs, q. cbn in Hf1 |- *.
      destruct Hf1 as [A B C D E F G H]. split; try done; cbn.
      * rewrite heard_snoc, Hp, spawned_app, Hsp. pose proof (fo_asked _ _ _ _ Hf) as D0. rewrite Hsp, app_nil_r in D0. by apply sublist_snoc.
      * rewrite spawned_app, Hsp. cbn. lia.
      * apply Forall_app. split; [done|]. by apply Forall_singleton.
  - assert (passes (greeted_by false (Conn.requests c)) m = []) as Hp by (rewrite <-Hi, Hg; unfold passes; cbn; by rewrite decide_False by done).
    rewrite decide_True by (cbn; split; [congruence|done]). eapply conduit_reply; [|done|by apply by_guard].
    cbn. rewrite heard_snoc, Hp, app_nil_r. by apply (follows_request _ _ _ _ _ m Hf).
Qed.

(** A prompt that is read while there is a slot gets it. *)
Lemma prompt_admitted c m :
  Conn.initialized c = true → Rpc.Method m = "session/prompt" → length (Conn.workers c) < maxPendingPrompts →
  Conn.workers (serve visit name address (Received m) c) = Conn.workers c ++ [Spawned m].
Proof.
  intros Hi Hm Hl. cbn [serve]. unfold serve_request. rewrite Hm, decide_False by done. cbn [Conn.initialized Conn.workers].
  rewrite Hi, decide_False by (by intros [? _]). rewrite decide_False by done. rewrite decide_False by tauto. by rewrite decide_True.
Qed.

Lemma conduit_leave c : conduit c → conduit (leave visit name c).
Proof.
  intros Hc. apply (conduit_queue cancel) in Hc; [|done]. destruct Hc as [(inputs & q & Hf) Hi]. unfold leave. set (c1 := on_queue cancel c) in *.
  destruct (follows_react inputs _ (heard false (Conn.requests c1)) c1 q Shutdown (Conn.workers c1) Hf) as [q' Hf']; try done.
  - rewrite asked_app. cbn. rewrite app_nil_r. apply Hf.
  - rewrite asked_app. cbn. rewrite app_nil_r. apply Hf.
  - apply Hf.
  - rewrite <-(app_nil_r (Conn.requests c1)). apply workers_app, Hf.
  - split; [|done]. exists (inputs ++ [Shutdown]), q'. destruct Hf' as [A B C D E F G H]. by split.
Qed.

Lemma spawned_middle l1 wk l2 : spawned (l1 ++ wk :: l2) = spawned l1 ++ spawned [wk] ++ spawned l2.
Proof. rewrite spawned_app. f_equal. apply (spawned_app [wk] l2). Qed.

Lemma spawned_none wk : (∀ m, wk ≠ Spawned m) → spawned [wk] = [].
Proof. destruct wk; [|done..]. intros H. by destruct (H request). Qed.

Lemma conduit_starts c i : conduit c → conduit (prompt_starts visit name i c).
Proof.
  intros Hc. unfold prompt_starts. destruct (Conn.workers c !! i) as [[m| | |]|] eqn:Hw; [|done..].
  apply list_elem_of_split_length in Hw as (l1 & l2 & Hws & ->). destruct Hc as [(inputs & q & Hf) Hi].
  pose proof Hf as [A B C D E F G H]. rewrite Hws, spawned_middle in D, F. rewrite !length_app in F. cbn [spawned omap list_omap length] in F.
  assert (spawned l1 = [] ∧ spawned l2 = []) as [E1 E2] by (split; apply nil_length_inv; unfold spawned in *; lia).
  rewrite E1, E2 in D. cbn in D. rewrite Hws in G. apply Forall_app in G as [G1 [Gm G2]%Forall_cons].
  pose proof (react_request visit name Hvisit m (Conn.world c)) as Hr.
  destruct (react visit name (Conn.world c) (Request m)) as [r w] eqn:Er.
  set (wk := match r with Some r => Replying m r | None => Prompting m _ end). rewrite Hws, insert_middle.
  destruct (follows_react inputs _ (heard false (Conn.requests c)) c q (Request m) (l1 ++ wk :: l2) Hf) as [q' Hf'].
  - done.
  - done.
  - rewrite asked_app, spawned_middle, E1, E2, spawned_none by (unfold wk; by destruct r). cbn. by rewrite app_nil_r.
  - rewrite asked_app, filter_app, (filter_cons_False not_prompt m []); [by rewrite app_nil_r|]. destruct Gm as [_ Gm]. unfold not_prompt. tauto.
  - rewrite spawned_middle, E1, E2, spawned_none by (unfold wk; by destruct r). cbn. lia.
  - rewrite <-(app_nil_r (Conn.requests c)). apply Forall_app. split; [by apply workers_app|]. apply Forall_cons. split; [|by apply workers_app].
    rewrite app_nil_r. unfold wk. destruct r as [r|]; [|exact Gm]. split; [exact Gm|]. eapply answer_in; [exact Hf|]. by rewrite Er.
  - rewrite Er in Hf'. split; [|done]. by exists (inputs ++ [Request m]), q'.
Qed.

Lemma conduit_returned c i text usage err :
  staff (turns (Conn.world c)) (Conn.workers c) → conduit c → conduit (prompt_returned visit name i text usage err c).
Proof.
  intros Hst Hc. unfold prompt_returned. destruct (Conn.workers c !! i) as [[|m session| |]|] eqn:Hw; try done.
  apply list_elem_of_split_length in Hw as (l1 & l2 & Hws & ->). destruct Hc as [(inputs & q & Hf) Hi].
  pose proof Hf as [A B C D E F G H]. rewrite Hws in Hst, D, F, G. apply Forall_app in G as [G1 [Gm G2]%Forall_cons].
  destruct (st_prompting _ _ Hst m session) as (t & Ht & _); [set_solver|]. rewrite spawned_middle in D, F.
  set (i := Complete session text usage err). assert (∃ r, fst (react visit name (Conn.world c) i) = Some r) as [r Hr].
  { cbn. rewrite Ht. destruct (finish_turn _ _ _ _ _ _) as [r e]. by exists r. }
  destruct (react visit name (Conn.world c) i) as [r' w] eqn:Er. cbn in Hr. subst r'. cbn [default]. rewrite Hws, insert_middle.
  destruct (follows_react inputs _ (heard false (Conn.requests c)) c q i (l1 ++ Replying m r :: l2) Hf) as [q' Hf'].
  - by exists t.
  - done.
  - rewrite asked_app, spawned_middle. cbn. rewrite app_nil_r. exact D.
  - rewrite asked_app. cbn. by rewrite app_nil_r.
  - rewrite spawned_middle. exact F.
  - rewrite <-(app_nil_r (Conn.requests c)). apply Forall_app. split; [by apply workers_app|]. apply Forall_cons. split; [|by apply workers_app].
    rewrite app_nil_r. split; [exact Gm|]. eapply answer_in; [exact Hf|]. by rewrite Er.
  - rewrite Er in Hf'. split; [|done]. by exists (inputs ++ [i]), q'.
Qed.

Lemma conduit_workers c l1 wk wk' l2 :
  Conn.workers c = l1 ++ wk :: l2 → spawned [wk] = [] → spawned wk' = [] → (∀ inputs, Forall (worker_ok inputs (Conn.requests c)) wk') →
  conduit c → conduit {| c with Conn.workers := l1 ++ wk' ++ l2 |}.
Proof.
  intros Hws H1 H2 Hok [(inputs & q & [A B C D E F G H]) Hi]. split; [|done]. exists inputs, q.
  assert (spawned (l1 ++ wk' ++ l2) = spawned (Conn.workers c)) as Hs.
  { by rewrite Hws, spawned_middle, H1, !spawned_app, H2. }
  split; cbn [Conn.world Conn.workers Conn.requests]; rewrite ?Hs; try done.
  rewrite Hws in G. apply Forall_app in G as [G1 [_ G2]%Forall_cons]. apply Forall_app. split; [done|]. apply Forall_app. by split.
Qed.

Lemma conduit_replies c i : staff (turns (Conn.world c)) (Conn.workers c) → conduit c → conduit (prompt_replies i c).
Proof.
  intros Hst Hc. unfold prompt_replies. destruct (Conn.workers c !! i) as [[| |m r|]|] eqn:Hw; try done.
  apply list_elem_of_split_length in Hw as (l1 & l2 & Hws & ->).
  assert (conduit (reply m r c)) as Hc'.
  { destruct Hc as [(inputs & q & Hf) Hi]. eapply conduit_reply; [exact Hf|done|]. pose proof (fo_workers _ _ _ _ Hf) as G. rewrite Hws in G.
    apply Forall_app in G as [_ [([Gm Gp] & Ga) _]%Forall_cons]. eapply (by_engine _ _ m); [done|by rewrite Gp| |done].
    apply (st_replying _ _ Hst). rewrite Hws. set_solver. }
  assert (Conn.workers (reply m r c) = l1 ++ Replying m r :: l2) as Hws' by (rewrite <-Hws; unfold reply; by case_decide).
  rewrite Hws', insert_middle. by apply (conduit_workers _ l1 (Replying m r) [Leaving] l2 Hws'); [| |intros; by apply Forall_singleton|].
Qed.

Lemma conduit_ends c i : conduit c → conduit (prompt_ends i c).
Proof.
  intros Hc. unfold prompt_ends. destruct (Conn.workers c !! i) as [[]|] eqn:Hw; try done.
  apply list_elem_of_split_length in Hw as (l1 & l2 & Hws & ->). rewrite Hws.
  assert (delete (length l1) (l1 ++ Leaving :: l2) = l1 ++ [] ++ l2) as -> by apply delete_middle. by apply (conduit_workers _ l1 Leaving [] l2 Hws).
Qed.

(** The writer's state is its own. *)
Lemma conduit_same c c' :
  Conn.world c' = Conn.world c → Conn.initialized c' = Conn.initialized c → Conn.workers c' = Conn.workers c →
  Conn.requests c' = Conn.requests c → conduit c → conduit c'.
Proof.
  intros E1 E2 E3 E4 [(inputs & q & [A B C D E F G H]) Hi]. split; [|by rewrite E2, E4]. exists inputs, q. rewrite E4.
  split; unfold queue_of in *; rewrite ?E1, ?E3, ?E4; done.
Qed.

Lemma conduit_cstep c c' : staff (turns (Conn.world c)) (Conn.workers c) → conduit c → cstep visit name address c c' → conduit c'.
Proof.
  intros Hst Hc. destruct 1 as [s _ Hsp| _ _|i|i text usage err|i|i|_ _|ok _|_ _ _|].
  - destruct (fst (Read s)) as [m| | |]; cbn [serve]; [by apply conduit_serve_request|by apply conduit_error; [set_solver|]..|by apply conduit_leave].
  - by apply conduit_leave.
  - by apply conduit_starts.
  - by apply conduit_returned.
  - by apply conduit_replies.
  - by apply conduit_ends.
  - unfold writer_takes. destruct (queue_of c) as [q|]; [|done]. destruct (Out.outgoing q) as [|data rest]; [done|].
    eapply conduit_same; [..|apply (conduit_queue (λ q, {| q with Out.outgoing := rest |})); [done|exact Hc]]; done.
  - unfold writer_wrote. destruct (Conn.inflight c) as [data|]; [|done].
    assert (conduit (on_queue (λ q, {| q with Out.queuedBytes := (Out.queuedBytes q - len data)%Z |}) c)) as H1 by (by apply conduit_queue).
    destruct ok; [by eapply conduit_same; [..|exact H1]|]. eapply conduit_same; [..|apply (conduit_queue cancel); [done|exact H1]]; done.
  - by eapply conduit_same; [..|exact Hc].
  - by apply conduit_queue.
Qed.

Lemma served_conduit c : served visit name address c → conduit c.
Proof.
  induction 1 as [|c c' Hs IH Hc].
  - split; [|done]. exists [], (Out.mk [] 0 false []). split; cbn; try done. lia.
  - eapply conduit_cstep; [|exact IH|exact Hc]. apply (c_staff _ _ (served_ok visit name address Hvisit c Hs)).
Qed.
End run.
