(* ===== verification/EngineProperties.v ===== *)
(** * What the engine and its connections guarantee

    The history and the queue stay within their budgets, the peer sees the events of a
    session in order and without gaps, a resumed session catches up, a prompt is
    answered from the replay cache when it is repeated, and every request is answered
    once. *)

From Stdlib Require Import Ascii.
From stdpp Require Import base tactics option list gmap strings numbers pretty sorting list_numbers.
From S2P Require Import Prelude GoLib Json Ledger State Protocol Engine EngineProofs EngineSystem Server ServerProofs ServerRun.

(** ** The replay cache only grows *)

Section growth.
Context {T : Type} `{HLaws : TransportLaws T} (visit : nat → list string → list string) (name : string).
Hypothesis Hvisit : ∀ t ids, visit t ids ≡ₚ ids.
Implicit Types e : Engine T.

(** A session is the one it was, with more answers, or it is new. *)
Record growth e e' : Prop := {
  gw_next : (Eng.nextSession e ≤ Eng.nextSession e')%Z;
  gw_sess id s' : Eng.sessions e' !! id = Some s' →
    (∃ s, Eng.sessions e !! id = Some s ∧ Sess.requests s ⊆ Sess.requests s') ∨
    (∃ n, id = session_name n ∧ Eng.nextSession e < n)%Z;
}.

Global Instance growth_preorder : PreOrder growth.
Proof.
  split; [intros e; split; [done|intros id s' Hs'; left; eauto]|]. intros e1 e2 e3 [A1 B1] [A2 B2]. split; [lia|].
  intros id s3 Hs3. destruct (B2 id s3 Hs3) as [(s2 & Hs2 & Hsub)|(n & -> & Hn)]; [|right; exists n; split; [done|lia]].
  destruct (B1 id s2 Hs2) as [(s1 & Hs1 & Hsub')|?]; [|by right]. left. exists s1. split; [done|]. by etrans.
Qed.

Lemma growth_calm e e' : calm e e' → growth e e'.
Proof.
  intros Hc. split; [by rewrite (ca_next _ _ Hc)|]. intros id s' Hs'. left. pose proof (ca_shape _ _ Hc id) as E. rewrite Hs' in E.
  cbn in E. symmetry in E. apply fmap_Some in E as (s & Hs & E). exists s. split; [done|]. unfold shape in E. injection E as _ _ _ _ E _. by rewrite E.
Qed.

Lemma growth_update id f e : (∀ s, Eng.sessions e !! id = Some s → Sess.requests s ⊆ Sess.requests (f s)) → growth e (update_session id f e).
Proof.
  intros Hf. split; [done|]. intros i s'. rewrite lookup_update. destruct (decide (id = i)) as [<-|]; [|intros; left; eauto].
  intros (s & Hs & ->)%fmap_Some. left. eauto.
Qed.

Lemma growth_release id e : growth e (releaseSession id e).
Proof. split; [done|]. intros i s'. cbn. rewrite lookup_delete_Some. intros [_ Hs]. left. eauto. Qed.

Lemma calm_emit id method fields e : calm e (emit visit id method fields e).
Proof.
  unfold emit. destruct (Eng.sessions e !! id) as [s|]; [|done]. set (event := next_event _ _ _ _).
  set (e0 := push id event e). set (ea := trim (length (history id e0)) id e0). set (e1 := reclaim visit (retained ea) ea).
  change (calm e (deliver id event e1)). trans e0; [apply calm_push|]. trans ea; [apply calm_evicts, trim_evicts|].
  trans e1; [apply calm_evicts, reclaim_evicts|]. unfold deliver.
  destruct (Eng.onEvent e1) as [t|]; [|done]. destruct (Eng.sessions e1 !! id) as [s1|]; [|done]. destruct (Sess.suspended s1); [done|].
  destruct (offer event t) as [b t']. trans ({| e1 with Eng.onEvent := Some t' |}); [by split|]. destruct b; by apply calm_update.
Qed.

Lemma growth_publish id reason text usage e : growth e (publish visit id reason text usage e).
Proof.
  unfold publish. set (e1 := if decide (reason = "completed") then _ else e). set (e2 := if decide (usage = no_usage) then e1 else _).
  trans e1; [unfold e1; case_decide; [apply growth_calm, calm_emit|done]|].
  trans e2; [unfold e2; case_decide; [done|apply growth_calm, calm_emit]|apply growth_calm, calm_emit].
Qed.

Lemma growth_close ids : ∀ e, growth e (fold_left close_session ids e).
Proof.
  induction ids as [|id ids IH]; intros e; cbn; [done|]. etrans; [|apply IH]. unfold close_session. set (e1 := update_session id _ e).
  trans e1; [by apply growth_update|]. destruct (Eng.sessions e1 !! id) as [s|]; [|done]. destruct (Sess.running s); [done|apply growth_release].
Qed.

Lemma growth_session_request e ts rpc method id request text :
  good (mkWorld e ts) → growth e (snd (session_request visit rpc method id request text e)).
Proof.
  intros Hg. unfold session_request. destruct (Eng.sessions e !! id) as [s|] eqn:Hs; [|done]. destruct (if decide _ then _ else _); [done|].
  destruct (decide (method = "session/suspend")); [by apply growth_update|]. destruct (decide (method = "session/resume")).
  { pose proof (good_emittable _ _ _ Hg Hs). destruct (resume_spec rpc id e s) as [_ _ Hc _]; [by apply Hg|by apply Hg|done|done|].
    apply growth_calm in Hc. by destruct (resume_session rpc id e). }
  case_decide.
  { unfold stop_session. cbn [snd]. set (e1 := update_session id _ e). trans e1; [by apply growth_update|].
    destruct (Eng.sessions e1 !! id) as [s'|]; [|done]. destruct (_ && _); [apply growth_release|done]. }
  unfold prompt_session. destruct (Sess.closed s); [done|]. destruct (Sess.suspended s); [done|]. destruct (Sess.running s); [done|].
  case_decide; [done|]. case_decide; [done|]. cbn [snd]. etrans; [|apply growth_calm, calm_emit]. by apply growth_update.
Qed.

Lemma growth_finish w id t text usage err :
  good w → turns w !! id = Some t → growth (eng w) (snd (finish_turn visit t text usage err (eng w))).
Proof.
  intros Hg Ht. destruct (r_turns _ _ (g_roster _ Hg) _ _ Ht) as [s Hs]. pose proof (r_sess _ _ (g_roster _ Hg) _ _ Hs) as Hok.
  rewrite Ht in Hok. destruct (ok_pending _ _ _ _ Hok t eq_refl) as [<- Hcap]. unfold finish_turn. rewrite Hs.
  destruct (if decide (usage = no_usage) then _ else _) as [aerr ledger]. cbn [snd]. set (reason := if decide (aerr ≠ None) then _ else _).
  set (e1 := update_session _ _ (eng w)). set (e2 := publish _ _ _ _ _ e1). set (resp := result_message _ _).
  assert (growth (eng w) e2) as H12.
  { trans e1; [by apply growth_update|]. apply growth_publish. }
  assert (growth (eng w) (settle_session (Pend.session t) (if decide (Pend.request t = "") then e2 else remember (Pend.session t) (pending_key t) resp e2))) as H3; [|done].
  set (e3 := if decide (Pend.request t = "") then e2 else _). trans e3.
  - trans e2; [done|]. unfold e3. case_decide as Hq; [done|]. apply growth_update. intros s2 Hs2. cbn. apply insert_subseteq.
    assert (calm e1 e2) as Hc. { unfold e2, publish. set (a := if decide (reason = "completed") then _ else e1). set (b := if decide (usage = no_usage) then a else _).
      trans a; [unfold a; case_decide; [apply calm_emit|done]|]. trans b; [unfold b; case_decide; [done|apply calm_emit]|apply calm_emit]. }
    pose proof (ca_shape _ _ Hc (Pend.session t)) as E. unfold e1 in E. rewrite (lookup_updated _ _ _ _ Hs), Hs2 in E. cbn in E.
    injection E as _ _ _ _ E _. rewrite E. by apply Hcap.
  - unfold settle_session. set (e4 := update_session _ _ e3). trans e4; [by apply growth_update|].
    destruct (Eng.sessions e4 !! Pend.session t) as [s'|]; [|done]. destruct (Sess.closed s'); [apply growth_release|done].
Qed.

Lemma growth_react w i : good w → allowed w i → growth (eng w) (eng (snd (react visit name w i))).
Proof.
  intros Hg Hi. destruct i as [m|id text usage err| |t]; cbn [react].
  - assert (growth (eng w) (snd (start_request visit name m (eng w)))) as Hr.
    { unfold start_request. case_decide; [done|]. case_decide; [done|]. case_decide.
      { unfold new_session_request. destruct (Eng.closed (eng w)); [done|]. case_decide as Hcap; [done|]. cbn [snd].
        pose proof (r_next _ _ (g_roster _ Hg)) as Hn. unfold in_u64 in Hn. rewrite u64_small by lia. split; cbn; [lia|].
        intros i s'. rewrite lookup_insert_Some. intros [[<- _]|[_ Hs]]; [|left; eauto]. right. eexists. split; [reflexivity|lia]. }
      case_decide; [done|]. destruct (string_field "session_id" _), (string_field "text" _), (string_field "request_id" _).
      case_decide; [done|]. case_decide; [done|]. apply (growth_session_request _ (turns w)). by destruct w. }
    by destruct (start_request visit name m (eng w)) as [[r|t] e].
  - destruct Hi as [t Ht]. rewrite Ht. pose proof (growth_finish w id t text usage err Hg Ht). by destruct (finish_turn visit t text usage err (eng w)).
  - cbn. unfold Close. etrans; [|apply growth_close]. split; [done|]. intros; left; eauto.
  - split; [done|]. intros; left; eauto.
Qed.

Lemma growth_steps w w' : good w → steps visit name w w' → growth (eng w) (eng w').
Proof.
  intros Hg. induction 1 as [|w' i Hs IH Hi]; [done|]. etrans; [exact IH|]. apply growth_react; [by eapply good_steps|done].
Qed.
End growth.

(** ** Requests to a session *)

(** A request whose parameters the engine accepts. *)
Definition session_call (m : Message) (method id text request : string) : Prop :=
  Rpc.Method m = method ∧ string_field "session_id" (Rpc.Params m) = (id, true) ∧
  string_field "text" (Rpc.Params m) = (text, true) ∧ string_field "request_id" (Rpc.Params m) = (request, true) ∧
  (len request ≤ maxRequestIDBytes)%Z ∧ (len text ≤ maxTextBytes)%Z.

(** The transport takes these events one after the other. *)
Fixpoint takes {T} `{Transport T} (ms : list Message) (t : T) : Prop :=
  match ms with
  | [] => True
  | m :: ms => fst (offer m t) = true ∧ takes ms (snd (offer m t))
  end.

Lemma filter_none {A} (P : A → Prop) `{∀ x, Decision (P x)} l : Forall (λ x, ¬ P x) l → filter P l = [].
Proof. induction 1 as [|x l Hx _ IH]; [done|]. by rewrite filter_cons, decide_False. Qed.

Lemma filter_all {A} (P : A → Prop) `{∀ x, Decision (P x)} l : Forall P l → filter P l = l.
Proof. induction 1 as [|x l Hx _ IH]; [done|]. rewrite filter_cons, decide_True, IH by done. done. Qed.

Lemma seqs_above h : ∀ a, eventSequence <$> h = seqZ a (Z.of_nat (length h)) → Forall (λ event, a ≤ eventSequence event)%Z h.
Proof.
  induction h as [|event h IH]; intros a Hs; [constructor|]. cbn [length] in Hs. rewrite seqZ_cons in Hs by lia. injection Hs as Ha Hs.
  replace (Z.pred (Z.of_nat (S (length h)))) with (Z.of_nat (length h)) in Hs by lia. constructor; [lia|].
  eapply Forall_impl; [by apply IH|]. cbn. lia.
Qed.

(** The events after a number are those with the numbers after it. *)
Lemma seqs_since h seq : ∀ a, eventSequence <$> h = seqZ a (Z.of_nat (length h)) →
  (a ≤ seq + 1)%Z → (seq + 1 ≤ a + Z.of_nat (length h))%Z →
  eventSequence <$> filter (λ event, seq < eventSequence event)%Z h = seqZ (seq + 1) (a + Z.of_nat (length h) - 1 - seq).
Proof.
  induction h as [|event h IH]; intros a Hs Ha Hb.
  - cbn in *. rewrite seqZ_nil by lia. done.
  - pose proof Hs as Hs0. cbn [length] in *. rewrite seqZ_cons in Hs by lia. injection Hs as Hev Hs.
    replace (Z.pred (Z.of_nat (S (length h)))) with (Z.of_nat (length h)) in Hs by lia. rewrite filter_cons. case_decide as Hd.
    + assert (seq + 1 = a)%Z as -> by lia. rewrite filter_all.
      * trans (seqZ a (Z.of_nat (S (length h)))); [exact Hs0|f_equal; lia].
      * eapply Forall_impl; [by apply seqs_above|]. cbn. lia.
    + rewrite (IH (Z.succ a)) by (done || lia). f_equal. lia.
Qed.

Section replies.
Context {T : Type} `{HLaws : TransportLaws T} (visit : nat → list string → list string) (name : string).
Implicit Types e : Engine T.

Lemma start_call m method id text request e :
  session_call m method id text request → id ≠ "" → method ∈ session_methods →
  start_request visit name m e = session_request visit (Rpc.ID m) method id request text e.
Proof.
  intros (Hm & H1 & H2 & H3 & H4 & H5) Hid Hin. unfold start_request. rewrite Hm, H1, H2, H3.
  unfold session_methods in Hin. rewrite !decide_False; [done|..].
  - lia.
  - intros [?|?]; done.
  - by intros ?.
  - intros ->. set_solver.
  - intros ->. set_solver.
  - intros ->. set_solver.
Qed.

Lemma replay_suspended id events i : ∀ e,
  Sess.suspended <$> Eng.sessions (snd (replay id events e)) !! i = Sess.suspended <$> Eng.sessions e !! i.
Proof.
  induction events as [|event events IH]; intros e; cbn [replay]; [done|].
  destruct (Eng.onEvent e) as [t|]; [|done]. destruct (Eng.sessions e !! id) as [s|]; [|done]. case_decide; [apply IH|].
  destruct (offer event t) as [[] t']; [|done]. rewrite IH, lookup_update. case_decide; [|done]. cbn. by destruct (Eng.sessions e !! i).
Qed.

(** A transport that takes everything leaves nothing behind. *)
Lemma replay_takes id events : ∀ e s t a,
  Eng.onEvent e = Some t → Eng.sessions e !! id = Some s → eventSequence <$> events = seqZ a (Z.of_nat (length events)) →
  takes (filter (λ event, Sess.deliveredSeq s < eventSequence event)%Z events) t → fst (replay id events e) = None.
Proof.
  induction events as [|event events IH]; intros e s t a Ht Hs Hseqs Htakes; cbn [replay]; [done|]. rewrite Ht, Hs.
  pose proof (seqs_above _ _ Hseqs) as Hab. cbn [length] in Hseqs. rewrite seqZ_cons in Hseqs by lia. injection Hseqs as Hev Hseqs.
  replace (Z.pred (Z.of_nat (S (length events)))) with (Z.of_nat (length events)) in Hseqs by lia.
  rewrite filter_cons in Htakes. destruct (decide (eventSequence event ≤ Sess.deliveredSeq s)%Z) as [Hold|Hnew].
  - rewrite decide_False in Htakes by lia. by eapply IH.
  - rewrite decide_True in Htakes by lia. cbn [takes] in Htakes. destruct (offer event t) as [ok t'] eqn:Ho. destruct Htakes as [Hok Htakes]. cbn in Hok. subst ok.
    set (f s := {| s with Sess.deliveredSeq := eventSequence event |}). apply (IH _ (f s) t' (Z.succ a)); [done| |done|].
    + by apply (lookup_updated id f {| e with Eng.onEvent := Some t' |}).
    + cbn [snd] in Htakes. cbn. rewrite filter_all in Htakes.
      * rewrite filter_all; [done|]. eapply Forall_impl; [by apply seqs_above|]. cbn. lia.
      * eapply Forall_impl; [by apply seqs_above|]. cbn. lia.
Qed.

(** The answer of a finished prompt is in the cache. *)
Lemma finish_remembers id t text usage err e s1 :
  Pend.session t = id → Pend.request t ≠ "" →
  Eng.sessions (snd (finish_turn visit t text usage err e)) !! id = Some s1 →
  Sess.requests s1 !! pending_key t = Some {| (fst (finish_turn visit t text usage err e)) with Rpc.ID := "" |}.
Proof.
  intros Hid Hreq. unfold finish_turn. rewrite Hid. destruct (Eng.sessions e !! id) as [s|] eqn:Hs; [|cbn; congruence].
  destruct (if decide (usage = no_usage) then _ else _) as [aerr ledger]. cbn [fst snd]. rewrite decide_False by done.
  set (e2 := publish _ _ _ _ _ _). set (resp := result_message _ _). unfold settle_session, remember. fold (pending_key t).
  destruct (Eng.sessions e2 !! id) as [s2|] eqn:Hs2.
  - rewrite (lookup_updated id _ _ _ (lookup_updated id _ _ _ Hs2)). cbn [Sess.closed]. destruct (Sess.closed s2); [cbn; by rewrite lookup_delete_eq|].
    rewrite (lookup_updated id _ _ _ (lookup_updated id _ _ _ Hs2)). intros [= <-]. cbn. by rewrite lookup_insert_eq.
  - rewrite (update_absent _ _ _ Hs2), (update_absent _ _ _ Hs2). rewrite Hs2. cbn. congruence.
Qed.
End replies.

(** ** A sample connection *)

Definition in_order (n : nat) (ids : list string) : list string := ids.
Lemma in_order_perm t ids : in_order t ids ≡ₚ ids.
Proof. done. Qed.

Definition call (rpc method : string) (fields : list (string * string)) : Message :=
  Rpc.mk "2.0" rpc method (marshal_map fields) "" None.
Definition open_call : Message := call "1" "session/new" [].
Definition prompt_call (rpc : string) : Message :=
  call rpc "session/prompt" [("session_id", json_quote "session-1"); ("text", json_quote "hello"); ("request_id", json_quote "r1")].
Definition session_only (rpc method : string) : Message := call rpc method [("session_id", json_quote "session-1")].
Definition empty_queue : Outbound := Out.mk [] 0 false [].

Definition perform (inputs : list (input (T := Outbound))) : world :=
  fold_left (λ w i, snd (react in_order "mock" w i)) inputs (connected (Some empty_queue)).

(** Inputs without traffic, completing only turns that run. *)
Fixpoint playable (inputs : list (input (T := Outbound))) (w : world) : bool :=
  match inputs with
  | [] => true
  | i :: inputs =>
      match i with
      | Complete id _ _ _ => bool_decide (is_Some (turns w !! id))
      | Traffic _ => false
      | Request _ | Shutdown => true
      end && playable inputs (snd (react in_order "mock" w i))
  end.

Lemma playable_steps inputs : ∀ w, playable inputs w = true →
  steps in_order "mock" w (fold_left (λ w i, snd (react in_order "mock" w i)) inputs w).
Proof.
  induction inputs as [|i inputs IH]; intros w Hp; cbn in *; [constructor|]. apply andb_true_iff in Hp as [Hi Hp].
  eapply steps_trans; [|by apply IH]. apply steps_react. destruct i; cbn in *; [done|by apply bool_decide_eq_true in Hi|done|done].
Qed.

Lemma perform_reachable inputs : playable inputs (connected (Some empty_queue)) = true → reachable in_order "mock" (perform inputs).
Proof. intros Hp. apply (reachable_start _ _ (Some empty_queue)); [by intros t [= <-]|]. by apply playable_steps. Qed.

Definition turn_inputs : list (input (T := Outbound)) := [Request open_call; Request (prompt_call "2")].
Definition paused_inputs : list (input (T := Outbound)) :=
  turn_inputs ++ [Request (session_only "3" "session/suspend"); Complete "session-1" "hi" (mkUsage 1 1 0) None].

Section engine_properties.
Context {T : Type} `{HLaws : TransportLaws T} (visit : nat → list string → list string) (name : string).
Hypothesis Hvisit : ∀ t ids, visit t ids ≡ₚ ids.

(** C33: repeating a prompt is answered from the replay cache.  When a turn with a request
    identifier ended with a response, then after anything else that happens on the
    connection a prompt with the same identifier gets that response under its own call
    identifier, as long as the session is open, and changes nothing: the provider is not
    called again, no event is emitted and nothing is charged. *)
Theorem prompt_replayed w id t text usage err w' m text' :
  reachable visit name w → turns w !! id = Some t → Pend.request t ≠ "" →
  steps visit name (snd (react visit name w (Complete id text usage err))) w' → is_Some (Eng.sessions (eng w') !! id) →
  session_call m "session/prompt" id text' (Pend.request t) →
  ∃ resp, fst (react visit name w (Complete id text usage err)) = Some resp ∧
    react visit name w' (Request m) = (Some {| resp with Rpc.ID := Rpc.ID m |}, w').
Proof using HLaws Hvisit.
  intros Hw Ht Hreq Hsteps [s' Hs'] Hcall. apply (reachable_sound visit name Hvisit) in Hw.
  destruct (r_turns _ _ (g_roster _ Hw) _ _ Ht) as [s Hs]. pose proof (r_sess _ _ (g_roster _ Hw) _ _ Hs) as Hok. rewrite Ht in Hok.
  destruct (ok_pending _ _ _ _ Hok t eq_refl) as [Hid _]. destruct (ok_name _ _ _ _ Hok) as (n & Hn & Hname).
  pose proof (growth_react visit name w (Complete id text usage err) Hw ltac:(by eexists)) as Hg1.
  pose proof (good_react visit name Hvisit w (Complete id text usage err) Hw ltac:(by eexists)) as Hw1.
  pose proof (growth_steps visit name Hvisit _ _ Hw1 Hsteps) as Hg2. cbn [react] in *. rewrite Ht in *.
  pose proof (finish_remembers visit id t text usage err (eng w)) as Hrem.
  destruct (finish_turn visit t text usage err (eng w)) as [resp e1]. cbn [fst snd eng] in *.
  exists resp. split; [done|].
  destruct (gw_sess _ _ Hg2 id s' Hs') as [(s1 & Hs1 & Hsub)|(n' & Heq & Hlt)].
  - specialize (Hrem s1 Hid Hreq Hs1). eapply lookup_weaken in Hrem; [|exact Hsub].
    assert (id ≠ "") as Hne by (rewrite Hname; done).
    rewrite (start_call visit name m _ id text' _ (eng w') Hcall Hne) by (unfold session_methods; set_solver).
    unfold session_request. rewrite Hs', decide_True by done. unfold pending_key in Hrem. rewrite Hrem. by destruct w'.
  - exfalso. rewrite Heq in Hname. unfold session_name in Hname. apply (inj (String.append "session-")), (inj pretty) in Hname.
    pose proof (gw_next _ _ Hg1) as Hle. cbn in Hle. lia.
Qed.

(** C34: a resumed session catches up.  When the engine still retains every event of the
    session that was not delivered (the floor of its history is not above the last
    delivered event), and the transport takes these events, resuming succeeds, the peer has
    then been sent every event of the session, each once and in order, and the session is
    no longer suspended. *)
Theorem resume_recovers w id s t m text request :
  reachable visit name w → Eng.onEvent (eng w) = Some t → Eng.sessions (eng w) !! id = Some s →
  (Sess.historyFloor s ≤ Sess.deliveredSeq s)%Z →
  takes (filter (λ event, Sess.deliveredSeq s < eventSequence event)%Z (history id (eng w))) t →
  session_call m "session/resume" id text request →
  ∃ w' t' s', react visit name w (Request m) = (Some (result_message (Rpc.ID m) (marshal_map [("status", json_quote "resumed")])), w') ∧
    Eng.onEvent (eng w') = Some t' ∧ Eng.sessions (eng w') !! id = Some s' ∧ Sess.suspended s' = false ∧
    Sess.eventSeq s' = Sess.eventSeq s ∧ stream id (taken t') = seqZ 1 (Sess.eventSeq s).
Proof using HLaws Hvisit.
  intros Hw Ht Hs Hfloor Htakes Hcall. apply (reachable_sound visit name Hvisit) in Hw. pose proof (good_emittable _ _ _ Hw Hs) as Hem.
  assert (id ≠ "") as Hne by (destruct Hem as (n & -> & _); done).
  destruct (resume_spec (Rpc.ID m) id (eng w) s) as [_ Hflow Hcalm Hcounts]; [apply Hw|apply Hw|done|done|].
  cbn [react]. rewrite (start_call visit name m _ id text _ _ Hcall Hne) by (unfold session_methods; set_solver).
  unfold session_request. rewrite Hs, decide_False by naive_solver. rewrite decide_False by done. rewrite decide_True by done.
  unfold resume_session in *. set (f s := {| s with Sess.suspended := false |}) in *. set (e1 := update_session id f (eng w)) in *.
  pose proof (lookup_updated id f (eng w) s Hs) as Hs1. fold e1 in Hs1.
  pose proof (b_sess _ (so_book _ (g_sound _ Hw)) id s Hs) as [H1 _ _ _ _ _].
  assert (fst (flushSession id e1) = None ∧ Sess.suspended <$> Eng.sessions (snd (flushSession id e1)) !! id = Some false) as [Hnone Hsus].
  { unfold flushSession. rewrite Hs1. case_decide; [split; [done|]; cbn [snd]; by rewrite Hs1|]. rewrite decide_False by (cbn; lia). split.
    - eapply (replay_takes _ _ e1 (f s)); [exact Ht|exact Hs1|exact H1|exact Htakes].
    - rewrite replay_suspended. by rewrite Hs1. }
  destruct (flushSession id e1) as [err e2] eqn:Hfl. cbn [fst snd] in *. subst err. cbn [snd] in *.
  destruct (Eng.sessions e2 !! id) as [s2|] eqn:Hs2; [|done]. cbn in Hsus. injection Hsus as Hsus.
  pose proof (rides_resume (λ _ _, True) (PreOrder0 := ltac:(by split)) (λ _ _, I) "" id (eng w)) as Hr. unfold rides, resume_session in Hr. fold f in Hr. fold e1 in Hr.
  rewrite Hfl in Hr. cbn [snd] in Hr. rewrite Ht in Hr. cbn in Hr. destruct (Eng.onEvent e2) as [t2|] eqn:Ht2; [|done].
  exists (mkWorld e2 (turns w)), t2, s2. pose proof (Hcounts id) as Hev. rewrite Hs2, Hs in Hev. cbn in Hev. injection Hev as Hev.
  destruct (fa_sess _ _ _ (Hflow t2 Ht2) id s2 Hs2) as [F1 F2 F3]. specialize (F3 Hsus). unfold on_time in F3.
  split_and!; try done. rewrite F1, F3, Hev. f_equal. lia.
Qed.

(** Reading the history from a cursor is complete or reports a gap.  [EventsSince]
    returns exactly the events numbered after the cursor up to the newest one; it fails
    only when an event after the cursor was dropped. *)
Theorem events_since_complete w id s seq :
  reachable visit name w → Eng.sessions (eng w) !! id = Some s → (0 ≤ seq ≤ Sess.eventSeq s)%Z →
  match EventsSince id seq (eng w) with
  | Ok events => eventSequence <$> events = seqZ (seq + 1) (Sess.eventSeq s - seq) ∧ Forall (λ event, event_session event = id) events
  | Err err => err = ErrEventHistoryExpired ∧ (seq < Sess.historyFloor s)%Z
  end.
Proof using HLaws Hvisit.
  intros Hw Hs Hseq. apply (reachable_sound visit name Hvisit) in Hw. destruct (b_sess _ (so_book _ (g_sound _ Hw)) id s Hs) as [H1 H2 H3 H4 H5 H6].
  unfold EventsSince. rewrite Hs. case_decide as Hf; [done|]. split; [|apply Forall_forall; intros x [_ Hx]%list_elem_of_filter; rewrite Forall_forall in H5; by apply H5].
  rewrite (seqs_since _ _ _ H1) by lia. f_equal. lia.
Qed.

(** A closed engine lets go of everything.  Once the engine is closed and its running
    turns have ended, no session, no event and no byte of history is left. *)
Theorem close_releases w :
  reachable visit name w → Eng.closed (eng w) = true → turns w = ∅ →
  Eng.sessions (eng w) = ∅ ∧ Eng.events (eng w) = ∅ ∧ Eng.historyBytes (eng w) = 0%Z.
Proof using HLaws Hvisit.
  intros Hw Hc Hno. apply (reachable_sound visit name Hvisit) in Hw. destruct Hw as [[[Hss Hd Ht] _ _] _ Hr Hsh].
  assert (Eng.sessions (eng w) = ∅) as He.
  { apply map_empty. intros id. apply eq_None_not_Some. intros [s Hs]. pose proof (r_sess _ _ Hr _ _ Hs) as Hok. rewrite Hno, lookup_empty in Hok.
    specialize (Hsh id s Hc Hs). apply (ok_closed _ _ _ _ Hok), (ok_running _ _ _ _ Hok) in Hsh. by destruct Hsh. }
  split_and!; [done| |by rewrite Ht, He]. apply map_empty. intros id. apply eq_None_not_Some. intros [h Hh].
  destruct (Hd id h Hh) as [s Hs]. by rewrite He, lookup_empty in Hs.
Qed.
End engine_properties.

Definition turn_world : world := perform turn_inputs.
Definition paused_world : world := perform paused_inputs.

Lemma prompt_replayed_witness : ∃ resp,
  fst (react in_order "mock" turn_world (Complete "session-1" "hi" (mkUsage 1 1 0) None)) = Some resp ∧
  react in_order "mock" (perform (turn_inputs ++ [Complete "session-1" "hi" (mkUsage 1 1 0) None])) (Request (prompt_call "9")) =
    (Some {| resp with Rpc.ID := "9" |}, perform (turn_inputs ++ [Complete "session-1" "hi" (mkUsage 1 1 0) None])).
Proof.
  apply (prompt_replayed in_order "mock" in_order_perm turn_world "session-1" (Pend.mk "session-1" "2" "r1" "hello") "hi" (mkUsage 1 1 0) None _ (prompt_call "9") "hello").
  - apply perform_reachable. by vm_compute.
  - by vm_compute.
  - done.
  - constructor.
  - vm_compute. by eexists.
  - unfold session_call. split_and!; by vm_compute.
Defined.

Definition paused_session : engineSession := default new_session (Eng.sessions (eng paused_world) !! "session-1").
Definition paused_queue : Outbound := default empty_queue (Eng.onEvent (eng paused_world)).

Lemma resume_recovers_witness : ∃ w' t' s',
  react in_order "mock" paused_world (Request (session_only "4" "session/resume")) =
    (Some (result_message "4" (marshal_map [("status", json_quote "resumed")])), w') ∧
  Eng.onEvent (eng w') = Some t' ∧ Eng.sessions (eng w') !! "session-1" = Some s' ∧ Sess.suspended s' = false ∧
  Sess.eventSeq s' = Sess.eventSeq paused_session ∧ stream "session-1" (taken t') = seqZ 1 (Sess.eventSeq paused_session).
Proof.
  apply (resume_recovers in_order "mock" in_order_perm paused_world "session-1" paused_session paused_queue (session_only "4" "session/resume") "" "").
  - apply perform_reachable. by vm_compute.
  - by vm_compute.
  - by vm_compute.
  - by vm_compute.
  - vm_compute. done.
  - unfold session_call. split_and!; by vm_compute.
Defined.

Lemma events_since_complete_witness :
  match EventsSince "session-1" 1 (eng paused_world) with
  | Ok events => eventSequence <$> events = seqZ (1 + 1) (Sess.eventSeq paused_session - 1) ∧ Forall (λ event, event_session event = "session-1") events
  | Err err => err = ErrEventHistoryExpired ∧ (1 < Sess.historyFloor paused_session)%Z
  end.
Proof.
  apply (events_since_complete in_order "mock" in_order_perm paused_world "session-1" paused_session 1).
  - apply perform_reachable. by vm_compute.
  - by vm_compute.
  - vm_compute. split; done.
Defined.

Lemma close_releases_witness :
  Eng.sessions (eng (perform (paused_inputs ++ [Shutdown]))) = ∅ ∧ Eng.events (eng (perform (paused_inputs ++ [Shutdown]))) = ∅ ∧
  Eng.historyBytes (eng (perform (paused_inputs ++ [Shutdown]))) = 0%Z.
Proof.
  apply (close_releases in_order "mock" in_order_perm (perform (paused_inputs ++ [Shutdown]))).
  - apply perform_reachable. by vm_compute.
  - by vm_compute.
  - by vm_compute.
Defined.

(** ** The connection *)

Lemma prefix_seqZ l a n : l `prefix_of` seqZ a n → l = seqZ a (Z.of_nat (length l)).
Proof.
  intros [k Hk]. apply list_eq. intros i. destruct (decide (i < length l)) as [Hi|Hi].
  - assert (seqZ a n !! i = l !! i) as E by (rewrite Hk; by apply lookup_app_l).
    rewrite <-E. destruct (lookup_lt_is_Some_2 l i Hi) as [x Hx]. rewrite Hx in E. pose proof E as E0. apply lookup_seqZ in E as [-> Hn].
    rewrite E0. symmetry. apply lookup_seqZ. split; [done|lia].
  - rewrite (lookup_ge_None_2 l) by lia. symmetry. apply lookup_ge_None_2. rewrite length_seqZ. lia.
Qed.

Lemma stream_prefix id ms ms' : ms `prefix_of` ms' → stream id ms `prefix_of` stream id ms'.
Proof. intros [k ->]. unfold stream. rewrite filter_app, fmap_app. by apply prefix_app_r. Qed.

Lemma events_prefix l k : events_of (take k l) `prefix_of` events_of l.
Proof. rewrite <-(take_drop k l) at 2. rewrite events_of_app. by apply prefix_app_r. Qed.

Lemma prefix_frames wire log : wire `prefix_of` frames log → wire = frames (take (length wire) log).
Proof.
  intros [k Hk]. unfold frames in *. by rewrite fmap_take, Hk, take_app_length.
Qed.

Section connection_properties.
Context (visit : nat → list string → list string) (name address : string).
Hypothesis Hvisit : ∀ t ids, visit t ids ≡ₚ ids.


(** C35: the peer sees the events of a session in order.  The frames written to the
    connection are those of the first messages that were enqueued, and among these the
    events of any session are numbered 1, 2, 3, ... without a gap, a repetition or an
    inversion, across suspensions, refused deliveries and resumptions. *)
Theorem peer_sees_events_in_order c q :
  served visit name address c → queue_of c = Some q →
  let written := take (length (Conn.wire c)) (Out.accepted q) in
  Conn.wire c = frames written ∧ ∀ id, ∃ n, stream id (events_of written) = seqZ 1 n.
Proof using Hvisit.
  intros Hc Hq written. destruct (served_ok visit name address Hvisit c Hc) as [(q' & Hq' & Hp & _) _ _ _].
  assert (q' = q) as -> by congruence. split; [apply prefix_frames, Hp|]. intros id.
  apply (served_reachable visit name address), (reachable_sound visit name Hvisit) in Hc.
  destruct (fa_any _ _ _ (g_flow _ Hc q Hq) id) as [n Hn]. eexists. eapply prefix_seqZ. rewrite <-Hn. apply stream_prefix, events_prefix.
Qed.

(** C36: every request is answered once.  For every call identifier, the responses
    enqueued and the prompts still to be answered never outnumber the requests read; and while
    the connection is not cancelled they are equal in number, so that no response is lost
    or repeated.  (The identifier null is left out: it also marks the answers to lines
    that are not requests.) *)
Theorem requests_answered_once c q id :
  served visit name address c → queue_of c = Some q → id ≠ "" → id ≠ "null" →
  (tally Rpc.ID id (responses q) + tally worker_id id (Conn.workers c) ≤ tally Rpc.ID id (Conn.requests c))%Z ∧
  (Out.cancelled q = false →
    (tally Rpc.ID id (responses q) + tally worker_id id (Conn.workers c) = tally Rpc.ID id (Conn.requests c))%Z).
Proof using Hvisit.
  intros Hc Hq H1 H2. destruct (served_ok visit name address Hvisit c Hc) as [(q' & Hq' & _ & Ha) _ _ _].
  assert (q' = q) as -> by congruence. destruct (Ha id H1 H2) as [A B]. unfold debt, nothing in *. split; [lia|]. intros Hcc. specialize (B Hcc). lia.
Qed.

(** A peer cannot make a connection retain more than its budgets.  At most 256 frames
    and 8 MiB wait to be written, at most 16 prompts are pending, at most 64 sessions are
    open, each with at most 256 events of 2 MiB and 128 cached answers, and all histories
    together stay within 16 MiB. *)
Theorem connection_bounded c q :
  served visit name address c → queue_of c = Some q → let e := eng (Conn.world c) in
  length (Out.outgoing q) ≤ outboundQueueSize ∧ (bytes (Out.outgoing q) ≤ maxOutboundBytes)%Z ∧
  length (Conn.workers c) ≤ maxPendingPrompts ∧ size (Eng.sessions e) ≤ maxSessions ∧
  (map_sum (λ s, Sess.historyBytes s) (Eng.sessions e) ≤ maxEngineHistoryBytes)%Z ∧
  ∀ id s, Eng.sessions e !! id = Some s →
    (Z.of_nat (length (history id e)) ≤ maxHistoryEvents ∧ event_bytes (history id e) ≤ maxHistoryBytes)%Z ∧
    size (Sess.requests s) ≤ maxReplayRequests.
Proof using Hvisit.
  intros Hc Hq e. destruct (served_ok visit name address Hvisit c Hc) as [(q' & Hq' & [P1 P2 P3 _ _] & _) _ Hslots _].
  assert (q' = q) as -> by congruence. apply (served_reachable visit name address), (reachable_sound visit name Hvisit) in Hc.
  destruct Hc as [[Hb Hfit Htot] _ Hr _]. pose proof (bytes_nonneg (option_list (Conn.inflight c))).
  split_and!; [done|lia|done|apply Hr|rewrite (b_total _ Hb) in Htot; exact Htot|]. intros id s Hs.
  split; [|apply (ok_requests _ _ _ _ (r_sess _ _ Hr _ _ Hs))]. pose proof (h_bytes _ _ _ (b_sess _ Hb id s Hs)) as Hby. destruct (Hfit id s Hs). subst e. split; [done|]. by rewrite <-Hby.
Qed.

(** Nothing happens before the handshake. *)
Lemma initialize_first c :
  served visit name address c → Conn.initialized c = false →
  Eng.sessions (eng (Conn.world c)) = ∅ ∧ turns (Conn.world c) = ∅ ∧ Conn.workers c = [].
Proof using Hvisit. intros Hc. apply (c_cold _ _ (served_ok visit name address Hvisit c Hc)). Qed.
End connection_properties.

(** ** A sample connection over the wire *)

(** A line is read, and a prompt it starts calls the engine before the next is read. *)
Definition serve_line (c : conn) (s : string) : conn :=
  let c := serve in_order "mock" "unix://engine" (fst (Read s)) c in prompt_starts in_order "mock" 0 c.

Fixpoint readable (lines : list string) (c : conn) : bool :=
  match lines with
  | [] => true
  | s :: lines => Conn.serving c && bool_decide (spawned (Conn.workers c) = []) && readable lines (serve_line c s)
  end.

Lemma read_served lines : ∀ c, served in_order "mock" "unix://engine" c → readable lines c = true →
  served in_order "mock" "unix://engine" (fold_left serve_line lines c).
Proof.
  induction lines as [|s lines IH]; intros c Hc; [done|]. cbn. intros [[Hs Hw%bool_decide_eq_true]%andb_true_iff Hr]%andb_true_iff. apply IH; [|done].
  eapply served_step; [|apply C_starts]. eapply served_step; [exact Hc|]. by constructor.
Qed.

Definition sample_lines : list string :=
  frame <$> [open_call; call "0" "initialize" []; open_call; prompt_call "2"; session_only "3" "session/suspend"].
Definition sample_read : conn := fold_left serve_line sample_lines accepted_conn.
Definition sample_conn : conn := writer_wrote true (writer_takes sample_read).
Definition sample_queue : Outbound := default empty_queue (queue_of sample_conn).

Lemma sample_served : served in_order "mock" "unix://engine" sample_conn.
Proof.
  assert (readable sample_lines accepted_conn = true) as Hr by (vm_compute; reflexivity).
  assert (served in_order "mock" "unix://engine" sample_read) as H1 by exact (read_served _ _ (served_start _ _ _) Hr).
  assert (Conn.writing sample_read = true) as H2 by (vm_compute; reflexivity).
  assert (Conn.inflight sample_read = None) as H3 by (vm_compute; reflexivity).
  pose proof (served_step _ _ _ _ _ H1 (C_takes _ _ _ _ H2 H3)) as H4.
  assert (Conn.writing (writer_takes sample_read) = true) as H5 by (vm_compute; reflexivity).
  exact (served_step _ _ _ _ _ H4 (C_wrote _ _ _ _ true H5)).
Qed.


Lemma peer_sees_events_in_order_witness :
  let written := take (length (Conn.wire sample_conn)) (Out.accepted sample_queue) in
  Conn.wire sample_conn = frames written ∧ ∀ id, ∃ n, stream id (events_of written) = seqZ 1 n.
Proof.
  apply (peer_sees_events_in_order in_order "mock" "unix://engine" in_order_perm sample_conn sample_queue); [exact sample_served|by vm_compute].
Defined.

Lemma requests_answered_once_witness :
  (tally Rpc.ID "2" (responses sample_queue) + tally worker_id "2" (Conn.workers sample_conn) ≤ tally Rpc.ID "2" (Conn.requests sample_conn))%Z ∧
  (Out.cancelled sample_queue = false →
    (tally Rpc.ID "2" (responses sample_queue) + tally worker_id "2" (Conn.workers sample_conn) = tally Rpc.ID "2" (Conn.requests sample_conn))%Z).
Proof.
  apply (requests_answered_once in_order "mock" "unix://engine" in_order_perm sample_conn sample_queue "2"); [exact sample_served|by vm_compute|done|done].
Defined.

Lemma connection_bounded_witness :
  let e := eng (Conn.world sample_conn) in
  length (Out.outgoing sample_queue) ≤ outboundQueueSize ∧ (bytes (Out.outgoing sample_queue) ≤ maxOutboundBytes)%Z ∧
  length (Conn.workers sample_conn) ≤ maxPendingPrompts ∧ size (Eng.sessions e) ≤ maxSessions ∧
  (map_sum (λ s, Sess.historyBytes s) (Eng.sessions e) ≤ maxEngineHistoryBytes)%Z ∧
  ∀ id s, Eng.sessions e !! id = Some s →
    (Z.of_nat (length (history id e)) ≤ maxHistoryEvents ∧ event_bytes (history id e) ≤ maxHistoryBytes)%Z ∧
    size (Sess.requests s) ≤ maxReplayRequests.
Proof.
  apply (connection_bounded in_order "mock" "unix://engine" in_order_perm sample_conn sample_queue); [exact sample_served|by vm_compute].
Defined.
