(* ===== verification/Token.v ===== *)
(** * policy.go: the wire form of capability tokens

    A token travels as the base64 of its JSON.  This file holds [MarshalText] and
    [ParseCapabilityToken] and shows that a token survives the trip. *)

From Stdlib Require Import Ascii.
From stdpp Require Import base tactics option list sets strings numbers pretty.
From S2P Require Import Prelude GoLib Json Crypto Policy Protocol.

(** ** Writing *)

Definition grants_json (gs : list CapabilityGrant) : string :=
  if decide (gs = []) then "null" else arr_literal (grant_json <$> gs).

Definition token_members (t : CapabilityToken) : list (string * string) :=
  [("issuer", json_quote (Issuer t)); ("subject", json_quote (Subject t));
   ("expires_at", json_int (ExpiresAt t)); ("public_key", bytes_json (PublicKey t)); ("grants", grants_json (Grants t))] ++
  (if decide (Caveats t = []) then [] else [("caveats", arr_literal (json_quote <$> Caveats t))]) ++
  [("signature", bytes_json (Signature t))].

Definition MarshalText (t : CapabilityToken) : string := base64_rawurl (bytes_of (obj_literal (token_members t))).

(** ** Reading *)

Definition all_some {A} (l : list (option A)) : option (list A) := mapM id l.

(** A byte slice is a base64 string, or an array of small numbers. *)
Definition as_byte (v : json) : option Z :=
  match v with
  | JNull => Some 0%Z
  | JNum lit => n ← ParseUint lit; if decide (n < 256)%Z then Some n else None
  | _ => None
  end.

Definition as_bytes (v : json) : option string :=
  match v with
  | JStr s => string_of_bytes <$> base64_decode std_alphabet true s
  | JArr es => string_of_bytes <$> all_some (as_byte <$> es)
  | _ => None
  end.

Definition as_caveat (v : json) : option string :=
  match v with JNull => Some "" | JStr s => Some s | _ => None end.

Definition as_grant (v : json) : option CapabilityGrant :=
  match v with
  | JNull => Some (mkGrant "" "")
  | JObj _ =>
      let '(object, ok1) := decode_field as_string "object" "" (Some v) in
      let '(action, ok2) := decode_field as_string "action" "" (Some v) in
      if ok1 && ok2 then Some (mkGrant object action) else None
  | _ => None
  end.

Definition as_list {A} (elem : json → option A) (v : json) : option (list A) :=
  match v with JArr es => all_some (elem <$> es) | _ => None end.

(** A slice is reset by [null], unlike a string or a number.  (A list that occurs twice is
    the later one; that [Unmarshal] keeps what a later element leaves out of an earlier
    one is not modelled.) *)
Definition slice_member {A} (set : json → option A) (zero : A) (name : string) (acc : A * bool) (kv : string * json) : A * bool :=
  if field_match name (fst kv) then
    match snd kv with
    | JNull => (zero, snd acc)
    | v => match set v with Some x => (x, snd acc) | None => (fst acc, false) end
    end
  else acc.

Definition slice_field {A} (set : json → option A) (name : string) (zero : A) (v : option json) : A * bool :=
  match v with
  | Some (JObj ms) => fold_left (slice_member set zero name) ms (zero, true)
  | Some JNull => (zero, true)
  | _ => (zero, false)
  end.

Definition unmarshal_token (raw : string) : option CapabilityToken :=
  let v := parse raw in
  let '(issuer, ok1) := decode_field as_string "issuer" "" v in
  let '(subject, ok2) := decode_field as_string "subject" "" v in
  let '(expires, ok3) := decode_field as_int64 "expires_at" 0%Z v in
  let '(key, ok4) := slice_field as_bytes "public_key" "" v in
  let '(grants, ok5) := slice_field (as_list as_grant) "grants" [] v in
  let '(caveats, ok6) := slice_field (as_list as_caveat) "caveats" [] v in
  let '(signature, ok7) := slice_field as_bytes "signature" "" v in
  if forallb id [ok1; ok2; ok3; ok4; ok5; ok6; ok7]
  then Some (mkToken issuer subject expires key grants caveats signature) else None.

Definition ParseCapabilityToken (encoded : string) : result error CapabilityToken :=
  match base64_decode url_alphabet false encoded with
  | None => Err (New "invalid capability token encoding")
  | Some b =>
      match unmarshal_token (string_of_bytes b) with
      | None => Err (New "invalid capability token")
      | Some t => Ok t
      end
  end.

(** ** The round trip *)

(** The value a token's JSON is read as. *)
Definition bytes_value (b : string) : json := if decide (b = "") then JNull else JStr (base64_std (bytes_of b)).
Definition grant_value (g : CapabilityGrant) : json := JObj [("object", JStr (Object g)); ("action", JStr (Action g))].
Definition grants_value (gs : list CapabilityGrant) : json := if decide (gs = []) then JNull else JArr (grant_value <$> gs).
Definition caveats_value (cs : list string) : json := JArr (JStr <$> cs).

Definition token_values (t : CapabilityToken) : list (string * (string * json)) :=
  [("issuer", (json_quote (Issuer t), JStr (Issuer t))); ("subject", (json_quote (Subject t), JStr (Subject t)));
   ("expires_at", (json_int (ExpiresAt t), JNum (pretty (ExpiresAt t)))); ("public_key", (bytes_json (PublicKey t), bytes_value (PublicKey t)));
   ("grants", (grants_json (Grants t), grants_value (Grants t)))] ++
  (if decide (Caveats t = []) then [] else [("caveats", (arr_literal (json_quote <$> Caveats t), caveats_value (Caveats t)))]) ++
  [("signature", (bytes_json (Signature t), bytes_value (Signature t)))].

Lemma token_values_members t : map (λ f, (fst f, fst (snd f))) (token_values t) = token_members t.
Proof. unfold token_values, token_members. by destruct (decide (Caveats t = [])). Qed.

Record printable_token (t : CapabilityToken) : Prop := {
  pt_issuer : utf8 (Issuer t) = true;
  pt_subject : utf8 (Subject t) = true;
  pt_expires : (- MaxInt64 ≤ ExpiresAt t ≤ MaxInt64)%Z;
  pt_grants : Forall (λ g, utf8 (Object g) = true ∧ utf8 (Action g) = true) (Grants t);
  pt_caveats : Forall (λ c, utf8 c = true) (Caveats t);
}.

(** *** The JSON is read as these values *)

Lemma base64_plain alphabet padding bs :
  forallb (λ n, plain_char (char_of alphabet n)) (seqZ 0 64) = true → plain (base64 alphabet padding bs) = true.
Proof.
  intros Hal. assert (∀ n, plain_char (char_of alphabet (n `mod` 64)) = true) as Hd.
  { intros n. rewrite forallb_forall in Hal. apply Hal, list_elem_of_In, elem_of_seqZ. pose proof (Z.mod_pos_bound n 64). lia. }
  induction bs as [|a|a b|a b c bs IH] using byte_triples; cbn [base64 plain]; rewrite ?Hd, ?IH; [done|by destruct padding..|done].
Qed.

Lemma base64_std_plain bs : plain (base64_std bs) = true.
Proof. apply base64_plain. by vm_compute. Qed.

Lemma reads_as_bytes b : reads_as 0 (bytes_json b) (bytes_value b).
Proof.
  unfold bytes_json, bytes_value. case_decide; [by apply (reads_as_print JNull)|]. rewrite <-json_quote_plain by apply base64_std_plain.
  apply (reads_as_print (JStr (base64_std (bytes_of b)))). apply plain_utf8, base64_std_plain.
Qed.

Lemma nesting_bound n l : Forall (λ v, nesting v ≤ n)%Z l → (0 ≤ n)%Z → (foldr Z.max 0 (map nesting l) ≤ n)%Z.
Proof. induction 1; cbn; lia. Qed.

Lemma forallb_Forall {A} (f : A → bool) l : Forall (λ x, f x = true) l → forallb f l = true.
Proof. induction 1; cbn; [done|]. by apply andb_true_iff. Qed.

Lemma reads_as_grants gs : Forall (λ g, utf8 (Object g) = true ∧ utf8 (Action g) = true) gs → reads_as 2 (grants_json gs) (grants_value gs).
Proof.
  intros Hg. unfold grants_json, grants_value. case_decide; [apply (reads_as_mono 0); [lia|by apply (reads_as_print JNull)]|].
  apply (reads_as_mono (nesting (JArr (grant_value <$> gs)))).
  - cbn [nesting]. assert (foldr Z.max 0 (map nesting (grant_value <$> gs)) ≤ 1)%Z; [|lia]. apply nesting_bound; [|lia].
    apply Forall_fmap, Forall_true. intros g. by vm_compute.
  - assert (arr_literal (grant_json <$> gs) = print (JArr (grant_value <$> gs))) as ->.
    { cbn [print]. f_equal. clear. induction gs as [|g gs IH]; [done|]. change (grant_json g :: (grant_json <$> gs) = print (grant_value g) :: map print (grant_value <$> gs)). by rewrite IH. }
    apply reads_as_print. cbn [simple]. apply forallb_Forall, Forall_fmap. eapply Forall_impl; [exact Hg|].
    intros g [H1 H2]. cbn. by rewrite H1, H2.
Qed.

Lemma reads_as_caveats cs : Forall (λ c, utf8 c = true) cs → reads_as 2 (arr_literal (json_quote <$> cs)) (caveats_value cs).
Proof.
  intros Hc. unfold caveats_value. apply (reads_as_mono (nesting (JArr (JStr <$> cs)))).
  - cbn [nesting]. assert (foldr Z.max 0 (map nesting (JStr <$> cs)) ≤ 0)%Z; [|lia]. apply nesting_bound; [|lia]. by apply Forall_fmap, Forall_true.
  - assert (arr_literal (json_quote <$> cs) = print (JArr (JStr <$> cs))) as ->.
    { cbn [print]. f_equal. clear. induction cs as [|c cs IH]; [done|]. change (json_quote c :: (json_quote <$> cs) = json_quote c :: map print (JStr <$> cs)). by rewrite IH. }
    apply reads_as_print. cbn [simple]. by apply forallb_Forall, Forall_fmap.
Qed.

Lemma token_parse t : printable_token t →
  parse (obj_literal (token_members t)) = Some (JObj (map (λ f, (fst f, snd (snd f))) (token_values t))).
Proof.
  intros [P1 P2 P3 P4 P5]. rewrite <-token_values_members. apply (parse_reads_as (1 + 2)); [|unfold maxNestingDepth; lia].
  apply reads_as_obj; [lia|].
  assert (∀ s, utf8 s = true → reads_as 2 (json_quote s) (JStr s)) as Hq.
  { intros s Hs. apply (reads_as_mono 0); [lia|]. rewrite <-(sanitized_utf8 s Hs) at 2. apply reads_as_quote. }
  assert (∀ b, reads_as 2 (bytes_json b) (bytes_value b)) as Hb by (intros b; apply (reads_as_mono 0); [lia|apply reads_as_bytes]).
  unfold token_values. apply Forall_app. split; [|apply Forall_app; split].
  - repeat (constructor; [split; [done|]; cbn [fst snd]|]); [by apply Hq|by apply Hq| |apply Hb|by apply reads_as_grants|constructor].
    apply (reads_as_mono 0); [lia|apply reads_as_int].
  - case_decide; constructor; [split; [done|by apply reads_as_caveats]|constructor].
  - constructor; [split; [done|apply Hb]|constructor].
Qed.

(** *** Each field is found *)

Lemma fold_ignored {A} (step : A → string * json → A) name ms : ∀ acc,
  (∀ acc kv, field_match name (fst kv) = false → step acc kv = acc) → Forall (λ kv, field_match name (fst kv) = false) ms →
  fold_left step ms acc = acc.
Proof.
  induction ms as [|kv ms IH]; intros acc Hs Hall; [done|]. apply Forall_cons_1 in Hall as [H1 H2]. cbn. rewrite Hs by done. by apply IH.
Qed.

Lemma fold_found {A} (step : A → string * json → A) name l1 kv l2 acc :
  (∀ acc kv, field_match name (fst kv) = false → step acc kv = acc) →
  Forall (λ kv, field_match name (fst kv) = false) l1 → Forall (λ kv, field_match name (fst kv) = false) l2 →
  fold_left step (l1 ++ kv :: l2) acc = step acc kv.
Proof. intros Hs H1 H2. rewrite fold_left_app. cbn. rewrite (fold_ignored step name l1) by done. by apply (fold_ignored step name). Qed.

Lemma decode_found {A} (set : json → option A) name zero l1 k v l2 x :
  Forall (λ kv, field_match name (fst kv) = false) l1 → Forall (λ kv, field_match name (fst kv) = false) l2 →
  field_match name k = true → v ≠ JNull → set v = Some x →
  decode_field set name zero (Some (JObj (l1 ++ (k, v) :: l2))) = (x, true).
Proof.
  intros H1 H2 Hk Hv Hx. unfold decode_field. rewrite (fold_found _ name) by (try done; intros acc kv Hno; unfold decode_member; by rewrite Hno).
  unfold decode_member. cbn [fst snd]. rewrite Hk. destruct v; try done; by rewrite Hx.
Qed.

Lemma slice_found {A} (set : json → option A) name zero l1 k v l2 x :
  Forall (λ kv, field_match name (fst kv) = false) l1 → Forall (λ kv, field_match name (fst kv) = false) l2 →
  field_match name k = true → (v = JNull ∧ x = zero ∨ v ≠ JNull ∧ set v = Some x) →
  slice_field set name zero (Some (JObj (l1 ++ (k, v) :: l2))) = (x, true).
Proof.
  intros H1 H2 Hk Hv. unfold slice_field. rewrite (fold_found _ name) by (try done; intros acc kv Hno; unfold slice_member; by rewrite Hno).
  unfold slice_member. cbn [fst snd]. rewrite Hk. destruct Hv as [[-> ->]|[Hn Hx]]; [done|]. destruct v; try done; by rewrite Hx.
Qed.

Lemma all_some_fmap {A B} (f : A → option B) (g : B → A) l : (∀ x, x ∈ l → f (g x) = Some x) → all_some (f <$> (g <$> l)) = Some l.
Proof.
  unfold all_some. induction l as [|x l IH]; intros Hf; [done|]. cbn. rewrite Hf by (by left). cbn. unfold all_some in IH.
  rewrite IH; [done|]. intros y Hy. apply Hf. by right.
Qed.

Lemma bytes_found b : bytes_value b = JNull ∧ b = "" ∨ bytes_value b ≠ JNull ∧ as_bytes (bytes_value b) = Some b.
Proof.
  unfold bytes_value. case_decide as Hb; [by left|right]. split; [done|]. cbn. unfold base64_std.
  rewrite base64_round by (apply std_alphabet_good || apply bytes_of_range). cbn. by rewrite string_of_bytes_of.
Qed.

Lemma grants_found gs : grants_value gs = JNull ∧ gs = [] ∨ grants_value gs ≠ JNull ∧ as_list as_grant (grants_value gs) = Some gs.
Proof.
  unfold grants_value. case_decide as Hg; [by left|right]. split; [done|]. apply all_some_fmap. intros [o a] _. by vm_compute.
Qed.

Lemma caveats_found cs : caveats_value cs ≠ JNull ∧ as_list as_caveat (caveats_value cs) = Some cs.
Proof. split; [done|]. apply all_some_fmap. done. Qed.

(** The members before and after a field have other names. *)
Ltac other_names := repeat (constructor; [reflexivity|]); constructor.
Tactic Notation "find_decode" uconstr(before) :=
  refine (decode_found _ _ _ before _ _ _ _ _ _ _ _ _); [other_names|other_names|reflexivity|discriminate|].
Tactic Notation "find_slice" uconstr(before) :=
  refine (slice_found _ _ _ before _ _ _ _ _ _ _ _); [other_names|other_names|reflexivity|].

Lemma slice_absent {A} (set : json → option A) name zero ms :
  Forall (λ kv, field_match name (fst kv) = false) ms → slice_field set name zero (Some (JObj ms)) = (zero, true).
Proof. intros Hall. apply (fold_ignored _ name); [|done]. intros acc kv Hno. unfold slice_member. by rewrite Hno. Qed.

Lemma unmarshal_members t : printable_token t → unmarshal_token (obj_literal (token_members t)) = Some t.
Proof.
  intros Ht. unfold unmarshal_token. rewrite (token_parse t Ht). cbv zeta. unfold token_values.
  assert (as_int64 (JNum (pretty (ExpiresAt t))) = Some (ExpiresAt t)) as Hexp by (apply ParseInt_pretty, Ht).
  destruct t as [issuer subject expires key grants caveats signature]. cbn [Issuer Subject ExpiresAt PublicKey Grants Caveats Signature] in *.
  match goal with |- context [Some (JObj ?l)] => set (ms := l) end.
  assert (decode_field as_string "issuer" "" (Some (JObj ms)) = (issuer, true)) as ->.
  { unfold ms. case_decide; (find_decode (@nil (string * json)); reflexivity). }
  assert (decode_field as_string "subject" "" (Some (JObj ms)) = (subject, true)) as ->.
  { unfold ms. case_decide; (find_decode [_ : string * json]; reflexivity). }
  assert (decode_field as_int64 "expires_at" 0%Z (Some (JObj ms)) = (expires, true)) as ->.
  { unfold ms. case_decide; (find_decode [_ : string * json; _]; exact Hexp). }
  assert (slice_field as_bytes "public_key" "" (Some (JObj ms)) = (key, true)) as ->.
  { unfold ms. case_decide; (find_slice [_ : string * json; _; _]; exact (bytes_found key)). }
  assert (slice_field (as_list as_grant) "grants" [] (Some (JObj ms)) = (grants, true)) as ->.
  { unfold ms. case_decide; (find_slice [_ : string * json; _; _; _]; exact (grants_found grants)). }
  assert (slice_field (as_list as_caveat) "caveats" [] (Some (JObj ms)) = (caveats, true)) as ->.
  { unfold ms. case_decide as Hc; [subst; apply slice_absent; other_names|].
    find_slice [_ : string * json; _; _; _; _]; right; exact (caveats_found caveats). }
  assert (slice_field as_bytes "signature" "" (Some (JObj ms)) = (signature, true)) as ->; [|done].
  unfold ms. case_decide; [find_slice [_ : string * json; _; _; _; _]|find_slice [_ : string * json; _; _; _; _; _]]; exact (bytes_found signature).
Qed.

(** A capability token survives its wire form.  What [ParseCapabilityToken] reads from
    the text [MarshalText] writes is the token itself, so that a signature made over the
    token before it was sent verifies after it was received. *)
Theorem token_round_trip t : printable_token t → ParseCapabilityToken (MarshalText t) = Ok t.
Proof.
  intros Ht. unfold ParseCapabilityToken, MarshalText, base64_rawurl.
  rewrite base64_round by (apply url_alphabet_good || apply bytes_of_range). by rewrite string_of_bytes_of, unmarshal_members.
Qed.

Definition wire_sample : CapabilityToken :=
  mkToken "root" "app-1" 2000000000 "key" [mkGrant "fs.read" "/data/**"; mkGrant "tool" "search"] ["narrow"] "signature".

Lemma token_round_trip_witness : ParseCapabilityToken (MarshalText wire_sample) = Ok wire_sample.
Proof. apply token_round_trip. split; [reflexivity|reflexivity|unfold MaxInt64; cbn; lia|repeat (constructor; [split; reflexivity|]); constructor|repeat (constructor; [reflexivity|]); constructor]. Defined.
