(* ===== verification/Control.v ===== *)
(** * control.go: the control plane

    A local client sends requests to the supervisor over a socket of its own.  The peer's
    identity comes from the socket, not from the request.  [handle] is the whole
    dispatcher: it decodes the parameters, checks the principal, calls one method of the
    supervisor and maps its error to a code. *)

From Stdlib Require Import Ascii.
From stdpp Require Import base tactics option list gmap sets strings numbers pretty sorting relations.
From S2P Require Import Prelude Monad GoLib Json Crypto Ledger Policy ContextStore State Taint Mailbox.
From S2P Require Import Lifecycle Revocation Witness Runner Gateway Hostfs Wake KernelWake System Protocol Token.

(** ** Parameters *)

Module Ctl.
Record Params := mk {
  Principal : string;
  ApplicationID : string;
  ParentApplicationID : string;
  OwnerAgent : string;
  WakePolicy : string;
  Key : string;
  Payload : string;
  MessageID : string;
  Object : string;
  Action : string;
  Path : string;
  Token : string;
  TokenLimit : Z;
  TimerID : string;
  DelayMS : Z;
  IntervalMS : Z;
  SourceKind : string;
  SourceRef : string;
  BindingID : string;
  AfterCursor : Z;
  Backends : list string;
  Text : string;
  Confirm : bool;
  Escalate : bool;
  RequestID : string;
  Approve : bool;
  HeadHash : string;
  Count : Z;
  Time : Z;
  PublicKey : string;
  Signature : string;
  Reason : string;
}.
End Ctl.
Abbreviation Params := Ctl.Params.

Definition no_params : Params :=
  Ctl.mk "" "" "" "" "" "" "" "" "" "" "" "" 0 "" 0 0 "" "" "" 0 [] "" false false "" false "" 0 0 "" "" "".

Definition as_bool (v : json) : option bool := match v with JBool b => Some b | _ => None end.

(** A raw field keeps the text of its value. *)
Definition raw_field (name raw : string) : string :=
  match raw_object raw with
  | Some ms => fold_left (λ acc kv, if field_match name (fst kv) then fst (snd kv) else acc) ms ""
  | None => ""
  end.

(** Fields are decoded one by one, noting whether each fits its type. *)
Definition field {A} (r : A * bool) (k : A → option Params) : option Params := if snd r then k (fst r) else None.

Definition decode_params (raw : string) : option Params :=
  if decide (raw = "") then Some no_params
  else
    let v := parse raw in
    let str name := decode_field as_string name "" v in
    let i64 name := decode_field as_int64 name 0%Z v in
    let u64 name := decode_field as_uint64 name 0%Z v in
    let bln name := decode_field as_bool name false v in
    field (str "principal") (λ principal,
    field (str "application_id") (λ application,
    field (str "parent_application_id") (λ parent,
    field (str "owner_agent") (λ owner,
    field (str "wake_policy") (λ wake,
    field (str "idempotency_key") (λ key,
    field (str "message_id") (λ message,
    field (str "object") (λ object,
    field (str "action") (λ action,
    field (str "path") (λ path,
    field (str "capability_token") (λ token,
    field (u64 "token_limit") (λ limit,
    field (str "timer_id") (λ timer,
    field (i64 "delay_ms") (λ delay,
    field (i64 "interval_ms") (λ interval,
    field (str "source_kind") (λ kind,
    field (str "source_ref") (λ ref,
    field (str "binding_id") (λ binding,
    field (i64 "after_cursor") (λ after,
    field (slice_field (as_list as_caveat) "backends" [] v) (λ backends,
    field (str "text") (λ text,
    field (bln "confirm") (λ confirm,
    field (bln "escalate") (λ escalate,
    field (str "request_id") (λ request,
    field (bln "approve") (λ approve,
    field (str "head_hash") (λ head,
    field (u64 "count") (λ count,
    field (i64 "time") (λ time,
    field (str "reason") (λ reason,
    Some (Ctl.mk principal application parent owner wake key (raw_field "payload" raw) message object action path token
      limit timer delay interval kind ref binding after backends text confirm escalate request approve head count time
      (raw_field "public_key" raw) (raw_field "signature" raw) reason)))))))))))))))))))))))))))))).

(** ** Answers *)

(** What a response carries before it is encoded. *)
Inductive answer : Type :=
  | Note (text : string) (* a fixed JSON text *)
  | AnApplication (a : Application)
  | Applications_ (l : list Application)
  | Pages_ (id : string) (pages : list string) (tail : string)
  | APolicy (p : RoutePolicy)
  | Routes (l : list RouteRecord)
  | Head (hash : string) (count : Z)
  | AChannel (c : MessageChannel)
  | AConversation (c : MessageConversation)
  | Conversations_ (l : list MessageConversation)
  | AMessage (m : MailboxMessage)
  | Messages (l : list MailboxMessage)
  | AnEntry (e : OutboxEntry)
  | Entries (l : list OutboxEntry)
  | AConfirmation (c : ConfirmationRequest)
  | Confirmations_ (l : list ConfirmationRequest)
  | AResult (r : TurnResult)
  | ACapacity (c : MailboxCapacity)
  | Bindings_ (l : list WakeBinding)
  | Timers_ (l : list ApplicationTimer)
  | AHandle (h : string)
  | Allowed (ok : bool) (reason : option error)
  | AuditLog (l : list AuditRecord).

(** A response is an answer, or a code and an error. *)
Definition response : Type := result (Z * error) answer.

Definition fail (code : Z) (text : string) : response := Err (code, New text).

(** Run a method; its error gets a code. *)
Definition respond {A} (code : error → Z) (ok : A → answer) (m : M Supervisor A) : M Supervisor response :=
  r ← try m; mret (match r with Ok a => Ok (ok a) | Err e => Err (code e, e) end).

(** A fixed answer with one field that is true. *)
Definition affirm {A} (key : string) (a : A) : answer := Note (obj_literal [(key, "true")]).

Definition always (code : Z) (e : error) : Z := code.
Definition found_code (e : error) : Z :=
  if decide (e = ErrApplicationNotFound ∨ e = ErrApplicationRetired) then -32004 else -32000.
Definition pages_code (e : error) : Z := if decide (e = ErrApplicationNotFound) then -32004 else -32000.
Definition export_code (e : error) : Z :=
  match e with ErrTaintBlocked => -32006 | ErrConfirmationPending _ => -32007 | _ => -32000 end.
Definition witness_code (e : error) : Z := if decide (e = ErrWitnessMismatch) then -32008 else -32000.
Definition send_code (e : error) : Z := if decide (e = ErrMailboxFull) then -32005 else -32000.

(** [int64 (n)] of an unsigned number. *)
Definition to_int64 (n : Z) : Z := if decide (n ≤ MaxInt64)%Z then n else (n - 18446744073709551616)%Z.

Definition maxTimerMS : Z := 86400000.
Definition millisecond : Z := 1000000.

(** The bytes of a raw field, encoded and decoded again as part of a checkpoint. *)
Definition raw_bytes (raw : string) : option string :=
  if decide (raw = "") then Some ""
  else match parse raw with
       | Some JNull => Some ""
       | Some v => as_bytes v
       | None => None
       end.

Definition checkpoint_of (p : Params) : option WitnessCheckpoint :=
  key ← raw_bytes (Ctl.PublicKey p);
  signature ← raw_bytes (Ctl.Signature p);
  Some (Wit.mk (sanitized (Ctl.HeadHash p)) (Ctl.Count p) (Ctl.Time p) key signature (sanitized (Ctl.Reason p))).

(** [Supervisor.Audit] *)
Definition audit_records : M Supervisor (list AuditRecord) := gets Audit.

Section control.
Context (env : Env) {E : Ed25519}.
(** The order in which Go visits the maps during the request. *)
Context (order : list string).

Definition context_pages (p : Params) : M Supervisor response :=
  r ← try (ContextPages env (Ctl.ApplicationID p));
  match r with
  | Err e => mret (Err (pages_code e, e))
  | Ok (pages, tail) =>
      try (AuditContextPages env (Ctl.Principal p) (Ctl.ApplicationID p));;
      mret (Ok (Pages_ (Ctl.ApplicationID p) pages tail))
  end.

Definition create_source (p : Params) : M Supervisor response :=
  if decide (Ctl.SourceKind p = "lsfs") then
    respond (always (-32000)) (affirm "ok")
      (AddLSFSBinding env (Ctl.Principal p) (Ctl.ApplicationID p) (Ctl.BindingID p) (Ctl.SourceRef p) (Ctl.AfterCursor p))
  else if decide (Ctl.SourceKind p ≠ "" ∧ Ctl.SourceKind p ≠ "timer") then mret (fail (-32602) "unsupported source kind")
  else if decide (Ctl.DelayMS p ≤ 0 ∨ Ctl.DelayMS p > maxTimerMS ∨ Ctl.IntervalMS p < 0 ∨ Ctl.IntervalMS p > maxTimerMS)%Z
  then mret (fail (-32602) "timer duration out of range")
  else
    respond (always (-32000)) (affirm "ok")
      (AddTimer env (Ctl.Principal p) (Ctl.ApplicationID p) (Ctl.TimerID p) (Ctl.DelayMS p * millisecond)
         (Ctl.IntervalMS p * millisecond) (Ctl.Payload p)).

Definition list_sources (p : Params) : M Supervisor response :=
  if decide (Ctl.SourceKind p = "lsfs") then respond (always (-32004)) Bindings_ (ListLSFSBindings (Ctl.ApplicationID p))
  else if decide (Ctl.SourceKind p ≠ "" ∧ Ctl.SourceKind p ≠ "timer") then mret (fail (-32602) "unsupported source kind")
  else respond (always (-32004)) Timers_ (ListTimers (Ctl.ApplicationID p)).

Definition set_source (enabled : bool) (p : Params) : M Supervisor response :=
  if decide (Ctl.SourceKind p ≠ "lsfs") then mret (fail (-32602) "bind/disable requires lsfs source kind")
  else respond (always (-32000)) (affirm "ok")
    (SetLSFSBindingEnabled env (Ctl.Principal p) (Ctl.ApplicationID p) (Ctl.BindingID p) enabled).

(** The text of the decoder's error is not modelled. *)
Definition cosign (p : Params) : M Supervisor response :=
  match checkpoint_of p with
  | None => mret (fail (-32002) "invalid checkpoint")
  | Some cp => respond witness_code (affirm "witnessed") (RecordCosignature env (Ctl.Principal p) cp)
  end.

Definition zero_token : CapabilityToken := mkToken "" "" 0 "" [] [] "".

Definition revoke (p : Params) : M Supervisor response :=
  match (if decide (Ctl.Token p = "") then Ok zero_token else ParseCapabilityToken (Ctl.Token p)) with
  | Err e => mret (Err ((-32002)%Z, e))
  | Ok token =>
      respond (always (-32000)) (affirm "revoked")
        (RevokeCapabilityToken env (Ctl.Principal p) token (Ctl.Reason p))
  end.

(** A denial is an answer, not an error. *)
Definition check_answer (r : result error bool) : response :=
  match r with
  | Ok ok => Ok (Allowed ok None)
  | Err e => if decide (e = ErrCapabilityDenied) then Ok (Allowed false (Some e)) else Err ((-32000)%Z, e)
  end.

Definition check (p : Params) : M Supervisor response :=
  let action := if decide (Ctl.Path p = "") then Ctl.Action p else Ctl.Path p in
  let token := if decide (Ctl.Token p = "") then Ok None
               else match ParseCapabilityToken (Ctl.Token p) with Ok t => Ok (Some t) | Err e => Err e end in
  match token with
  | Err e => mret (Ok (Allowed false (Some e)))
  | Ok token =>
      r ← try (match token with
               | None => Check env (Ctl.Principal p) (Ctl.ApplicationID p) (Ctl.Object p) action
               | Some t => CheckWithToken env (Ctl.Principal p) (Ctl.ApplicationID p) (Ctl.Object p) action t
               end);
      mret (check_answer r)
  end.

Definition deliver (p : Params) : M Supervisor response :=
  if decide (Ctl.Count p ≤ 0)%Z then mret (fail (-32002) "sequence required")
  else respond (always (-32000)) AMessage (DeliverInbound env (Ctl.BindingID p) (Ctl.Path p) (to_int64 (Ctl.Count p)) (Ctl.Payload p)).

(** The switch on the method, from its last cases to its first. *)
Definition dispatch_messages (method : string) (p : Params) : M Supervisor response :=
  let principal := Ctl.Principal p in
  let id := Ctl.ApplicationID p in
  if decide (method = "budget.set") then
    respond (always (-32000)) (affirm "ok") (SetTokenLimit env principal id (Ctl.TokenLimit p))
  else if decide (method = "event_source.create") then create_source p
  else if decide (method = "message.result") then respond (always (-32004)) AResult (Result id (Ctl.MessageID p))
  else if decide (method = "message.send") then respond send_code AMessage (Enqueue env principal id (Ctl.Key p) (Ctl.Payload p))
  else if decide (method = "message.claim") then respond (always (-32004)) Messages (ClaimMailbox env principal id)
  else if decide (method = "mailbox.capacity") then respond (always (-32004)) ACapacity (InspectMailboxCapacity id)
  else if decide (method = "mailbox.list") then respond (always (-32004)) Messages (ListMailbox id)
  else if decide (method = "event_source.list") then list_sources p
  else if decide (method = "event_source.bind") then set_source true p
  else if decide (method = "event_source.disable") then set_source false p
  else if decide (method = "artifact.import") then
    respond (always (-32000)) AHandle (ImportArtifact env principal id (Ctl.Key p) (Ctl.Payload p))
  else if decide (method = "message.ack") then
    respond (always (-32004)) (affirm "acked") (AckMailbox env principal id (Ctl.MessageID p))
  else if decide (method = "capability.revoke") then revoke p
  else if decide (method = "capability.check") then check p
  else if decide (method = "audit.list") then respond (always 0) AuditLog audit_records
  else mret (fail (-32601) "method not found").

Definition dispatch_gateway (method : string) (p : Params) : M Supervisor response :=
  let principal := Ctl.Principal p in
  let id := Ctl.ApplicationID p in
  if decide (method = "witness.head") then respond (always (-32000)) (λ h, Head (fst h) (snd h)) WitnessHead
  else if decide (method = "witness.cosign") then cosign p
  else if decide (method = "witness.verify") then respond (always (-32008)) (affirm "verified") VerifyWitness
  else if decide (method = "message.channel.create") then
    respond (always (-32000)) AChannel (CreateChannel env principal (Ctl.BindingID p) (Ctl.SourceKind p))
  else if decide (method = "message.channel.revoke") then
    respond (always (-32004)) (affirm "revoked") (RevokeChannel env principal (Ctl.BindingID p))
  else if decide (method = "message.conversation.bind") then
    respond (always (-32000)) AConversation (BindConversation env principal (Ctl.BindingID p) (Ctl.Path p) id)
  else if decide (method = "message.conversation.list") then
    respond (always 0) Conversations_ (ListConversations order (Ctl.BindingID p))
  else if decide (method = "gateway.deliver") then deliver p
  else if decide (method = "gateway.reply") then respond (always (-32000)) AnEntry (Reply env principal id (Ctl.MessageID p))
  else if decide (method = "gateway.outbox.claim") then
    respond (always (-32000)) Entries (ClaimOutbox env (Ctl.BindingID p) (Ctl.Path p))
  else if decide (method = "gateway.outbox.ack") then
    respond (always (-32000)) (affirm "acked") (AckOutbox env principal (Ctl.MessageID p) (Ctl.Reason p))
  else if decide (method = "confirmation.list") then respond (always 0) Confirmations_ (ListConfirmations order id)
  else if decide (method = "confirmation.settle") then
    respond (always (-32000)) AConfirmation (SettleConfirmation env principal (Ctl.RequestID p) (Ctl.Approve p))
  else dispatch_messages method p.

Definition dispatch (method : string) (p : Params) : M Supervisor response :=
  let principal := Ctl.Principal p in
  let id := Ctl.ApplicationID p in
  if decide (method = "health") then mret (Ok (Note (obj_literal [("status", json_quote "ok"); ("component", json_quote "supervisor")])))
  else if decide (method = "application.create") then
    respond (always (-32000)) AnApplication (CreateApplication env principal (Ctl.OwnerAgent p) (Ctl.WakePolicy p))
  else if decide (method = "application.fork") then
    respond found_code AnApplication (ForkApplication env principal (Ctl.ParentApplicationID p) (Ctl.OwnerAgent p) (Ctl.WakePolicy p))
  else if decide (method = "context.pages") then context_pages p
  else if decide (method = "application.inspect") then respond (always (-32004)) AnApplication (InspectApplication id)
  else if decide (method = "application.list") then respond (always 0) Applications_ ListApplications
  else if decide (method = "application.retire") then
    respond (always (-32004)) (affirm "retired") (RetireApplication env principal id)
  else if decide (method = "application.freeze" ∨ method = "application.resume") then
    respond (always (-32000)) (affirm "ok")
      (SetApplicationState env principal id (if decide (method = "application.resume") then "serving" else "frozen"))
  else if decide (method = "application.set_route_policy") then
    respond (always (-32000)) APolicy (SetRoutePolicy env principal id (Ctl.Backends p))
  else if decide (method = "route.list") then respond (always (-32004)) Routes (ListRouteRecords id)
  else if decide (method = "application.export") then
    respond export_code (affirm "exported")
      (exportApplication env order principal id (Ctl.Text p) (Ctl.Confirm p) (Ctl.Escalate p) (Ctl.RequestID p))
  else dispatch_gateway method p.

Definition handle (req : Message) (principal : string) : M Supervisor response :=
  match decode_params (Rpc.Params req) with
  | None => mret (fail (-32602) "invalid params")
  | Some p =>
      if decide (Ctl.Principal p ≠ "" ∧ Ctl.Principal p ≠ principal)
      then mret (fail (-32003) "principal does not match peer identity")
      else dispatch (Rpc.Method req) {| p with Ctl.Principal := principal |}
  end.

(** One round of a connection's loop: [None] closes it, otherwise there may be a reply to
    an identifier. *)
Definition serve_message (r : read) (principal : string) : M Supervisor (option (option (string * response))) :=
  match r with
  | ParseError | InvalidMessage => mret (Some (Some ("null", fail (-32600) "invalid request")))
  | Broken => mret None
  | Received req =>
      if decide (Rpc.Method req = "") then mret None
      else resp ← handle req principal;
           mret (Some (if decide (Rpc.ID req = "") then None else Some (Rpc.ID req, resp)))
  end.
End control.

(** ** The peer *)

(** The socket's credentials, when there are any; only the server's own user is let in. *)
Definition controlPrincipal (unix : bool) (peer : result error Z) (euid : Z) : result error string :=
  if negb unix then Err (New "control requires unix socket")
  else match peer with
       | Err e => Err e
       | Ok uid => if decide (uid = euid) then Ok ("unix:uid:" +:+ pretty uid) else Err (New "control peer denied")
       end.
