(* ===== verification/ControlProperties.v ===== *)
(** * What the control plane guarantees

    A control request is at most two operations of the supervisor, on behalf of the peer
    the socket names; so that what holds of every history of the supervisor holds under
    any clients.  A request that is answered with an error has changed nothing. *)

From Stdlib Require Import Ascii.
From stdpp Require Import base tactics option list gmap sets strings numbers pretty sorting relations.
From S2P Require Import Prelude Monad GoLib Json Crypto Ledger Policy ContextStore State Taint Mailbox.
From S2P Require Import Lifecycle Revocation Witness Runner Gateway Hostfs Wake KernelWake Invariant Safety.
From S2P Require Import MailboxProofs LifecycleProofs System Durability SystemProperties ErrorProperties Protocol Token Control.

(** Whose authority an operation is carried out and audited under.  Deliveries from a
    channel and claims of its outbox have no principal. *)
Definition acts_for (principal : string) (o : op) : Prop :=
  match o with
  | OCreate p _ _ | OFork p _ _ _ | ORetire p _ | OSetState p _ _ | OSetLimit p _ _ | OSetRoute p _ _
  | OAddTimer p _ _ _ _ _ | OAuditPages p _ | OEnqueue p _ _ _ | OClaim p _ | OAck p _ _ | OExport _ p _ _ _ _ _
  | OSettle p _ _ | ORevoke p _ _ | OCheck p _ _ _ _ | OCosign p _ | OCreateChannel p _ _ | ORevokeChannel p _
  | OBind p _ _ _ | OReply p _ _ | OAckOutbox p _ _ | OAddBinding p _ _ _ _ | OSetBinding p _ _ _
  | OImportArtifact p _ _ _ => p = principal
  | OPages _ | ODeliver _ _ _ _ | OClaimOutbox _ _ => True
  | _ => False
  end.

Section control.
Context (env : Env) (kenv : KernelEnv) {E : Ed25519} (order : list string).

(** The operations carried out from [s] to [s']. *)
Fixpoint performs (principal : string) (s : Supervisor) (ops : list op) (s' : Supervisor) : Prop :=
  match ops with
  | [] => s' = s
  | o :: ops => admissible env s o ∧ acts_for principal o ∧ performs principal (snd (exec env kenv o s)) ops s'
  end.

Lemma performs_steps principal ops : ∀ s s', performs principal s ops s' → rtc (step env kenv) s s'.
Proof.
  induction ops as [|o ops IH]; intros s s'; cbn; [by intros ->|]. intros (Ha & _ & Hp). eapply rtc_l; [by apply step_op|]. by apply IH.
Qed.

(** A handler does what some operations do, and errors have no effect. *)
Record served_by (principal : string) (m : M Supervisor response) : Prop := {
  sb_ops s : fresh_id env s → ∃ ops, length ops ≤ 2 ∧ performs principal s ops (snd (m s));
  sb_error s : Synced s → wp m (λ r s', match r with Ok (Ok _) => True | _ => books (committed s') = books (committed s) end) s;
}.

Lemma served_ret principal r : served_by principal (mret r).
Proof. split; [intros s _; exists []; split; [cbn; lia|done]|]. intros s Hs. apply wp_ret. by destruct r. Qed.

Lemma snd_respond {A} code (ok : A → answer) m s : snd (respond code ok m s) = snd (m s).
Proof. unfold respond, mbind, M_bind, try. by destruct (m s) as [[a|e] s']. Qed.

Lemma respond_error {A} code (ok : A → answer) m : all_or_nothing m → ∀ s, Synced s →
  wp (respond code ok m) (λ r s', match r with Ok (Ok _) => True | _ => books (committed s') = books (committed s) end) s.
Proof.
  intros Hm s Hs. specialize (Hm s Hs). unfold wp in *. unfold respond, mbind, M_bind, try.
  destruct (m s) as [[a|e] s']; cbn; [done|]. by apply Hm.
Qed.

(** A method that is an operation of the system. *)
Lemma served_op {A} principal code (ok : A → answer) m o :
  (∀ s, snd (m s) = snd (exec env kenv o s)) → all_or_nothing m → (∀ s, fresh_id env s → admissible env s o) → acts_for principal o →
  served_by principal (respond code ok m).
Proof.
  intros Hm Ha Hadm Hp. split; [|by apply respond_error].
  intros s Hf. exists [o]. split; [cbn; lia|]. cbn. split; [by apply Hadm|]. split; [done|]. by rewrite snd_respond.
Qed.

(** A method that only reads. *)
Lemma served_read {A} principal code (ok : A → answer) m :
  (∀ s, wp m (λ _ s', s' = s) s) → served_by principal (respond code ok m).
Proof.
  intros Hm. assert (∀ s, snd (m s) = s) as Hsnd by (intros s; exact (wp_snd _ (λ s', s' = s) _ (Hm s))). split.
  - intros s _. exists []. split; [cbn; lia|]. cbn. by rewrite snd_respond.
  - intros s Hs. apply respond_error; [|done]. intros s0 Hs0. eapply wp_mono; [apply Hm|]. by intros r s' ->.
Qed.

Lemma snd_ignore {A} (m : M Supervisor A) s : snd (ignore m s) = snd (m s).
Proof. unfold ignore, mbind, M_bind. by destruct (m s) as [[a|e] s']. Qed.

Ltac reads :=
  apply served_read; intros s; repeat first [progress sup_steps|apply wp_of_result|match goal with |- match ?x with _ => _ end => destruct x end]; done.
Ltac is_op o := apply (served_op _ _ _ _ o); [intros s; cbn [exec]; by rewrite ?snd_ignore|auto with atomicity|try done|done].

Lemma check_error r : is_ok (check_answer r) = false → is_ok r = false.
Proof. destruct r as [ok|e]; [done|]. done. Qed.

Lemma served_check principal p : Ctl.Principal p = principal → served_by principal (check env p).
Proof.
  intros Hp. unfold check. set (action := if decide (Ctl.Path p = "") then _ else _). cbv zeta.
  destruct (if decide (Ctl.Token p = "") then _ else _) as [token|e]; [|apply served_ret].
  set (m := match token with None => Check _ _ _ _ _ | Some t => _ end).
  assert (m = checkToken env (Ctl.Principal p) (Ctl.ApplicationID p) (Ctl.Object p) action token) as -> by (unfold m; by destruct token).
  set (k := checkToken _ _ _ _ _ _). split.
  - intros s _. exists [OCheck (Ctl.Principal p) (Ctl.ApplicationID p) (Ctl.Object p) action token]. split; [cbn; lia|]. cbn [performs exec acts_for].
    split; [done|]. split; [done|]. rewrite snd_ignore. unfold mbind, M_bind, try. fold k. by destruct (k s) as [[a|e] s'].
  - intros s Hs. pose proof (atomic_check env (Ctl.Principal p) (Ctl.ApplicationID p) (Ctl.Object p) action token s Hs) as Ha. fold k in Ha.
    unfold wp in *. unfold mbind, M_bind, try. destruct (k s) as [r s']. cbn. destruct (check_answer r) as [a|[code e]] eqn:Hc; [done|].
    apply Ha, check_error. by rewrite Hc.
Qed.

Lemma served_pages principal p : Ctl.Principal p = principal → served_by principal (context_pages env p).
Proof.
  intros Hp. unfold context_pages. set (id := Ctl.ApplicationID p). split.
  - intros s _. unfold mbind, M_bind, try. destruct (ContextPages env id s) as [[[pages tail]|e] s1] eqn:Hc; cbn.
    + exists [OPages id; OAuditPages (Ctl.Principal p) id]. split; [cbn; lia|]. cbn [performs exec acts_for admissible]. rewrite snd_ignore, Hc. cbn [snd].
      split_and!; try done. by destruct (AuditContextPages env (Ctl.Principal p) id s1) as [[]  s2].
    + exists [OPages id]. split; [cbn; lia|]. cbn [performs exec acts_for admissible]. rewrite snd_ignore, Hc. by split_and!.
  - intros s Hs. pose proof (atomic_Pages env id s Hs) as Ha. unfold wp in *. unfold mbind, M_bind, try.
    destruct (ContextPages env id s) as [[[pages tail]|e] s1]; cbn; [by destruct (AuditContextPages env (Ctl.Principal p) id s1)|]. by apply Ha.
Qed.

Lemma served_create_source principal p : Ctl.Principal p = principal → served_by principal (create_source env p).
Proof.
  intros <-. unfold create_source. case_decide; [is_op (OAddBinding (Ctl.Principal p) (Ctl.ApplicationID p) (Ctl.BindingID p) (Ctl.SourceRef p) (Ctl.AfterCursor p))|].
  case_decide; [apply served_ret|]. case_decide; [apply served_ret|].
  is_op (OAddTimer (Ctl.Principal p) (Ctl.ApplicationID p) (Ctl.TimerID p) (Ctl.DelayMS p * millisecond) (Ctl.IntervalMS p * millisecond) (Ctl.Payload p)).
Qed.

Lemma served_set_source principal enabled p : Ctl.Principal p = principal → served_by principal (set_source env enabled p).
Proof.
  intros <-. unfold set_source. case_decide; [apply served_ret|].
  is_op (OSetBinding (Ctl.Principal p) (Ctl.ApplicationID p) (Ctl.BindingID p) enabled).
Qed.

Lemma served_revoke principal p : Ctl.Principal p = principal → served_by principal (revoke env p).
Proof.
  intros <-. unfold revoke. destruct (if decide (Ctl.Token p = "") then _ else _) as [token|e]; [|apply served_ret].
  is_op (ORevoke (Ctl.Principal p) token (Ctl.Reason p)).
Qed.

Lemma served_dispatch principal method p :
  Ctl.Principal p = principal → in_u64 (Ctl.TokenLimit p) → served_by principal (dispatch env order method p).
Proof.
  intros Hp Hl. unfold dispatch, dispatch_gateway, dispatch_messages. cbv zeta. rewrite ?Hp.
  destruct (decide (method = "health")) as [_|_]; [apply served_ret|].
  destruct (decide (method = "application.create")) as [_|_]; [is_op (OCreate principal (Ctl.OwnerAgent p) (Ctl.WakePolicy p))|].
  destruct (decide (method = "application.fork")) as [_|_]; [is_op (OFork principal (Ctl.ParentApplicationID p) (Ctl.OwnerAgent p) (Ctl.WakePolicy p))|].
  destruct (decide (method = "context.pages")) as [_|_]; [by apply served_pages|].
  destruct (decide (method = "application.inspect")) as [_|_]; [unfold InspectApplication; reads|].
  destruct (decide (method = "application.list")) as [_|_]; [unfold ListApplications; reads|].
  destruct (decide (method = "application.retire")) as [_|_]; [is_op (ORetire principal (Ctl.ApplicationID p))|].
  destruct (decide (method = "application.freeze" ∨ method = "application.resume")) as [_|_]; [is_op (OSetState principal (Ctl.ApplicationID p) (if decide (method = "application.resume") then "serving" else "frozen"))|].
  destruct (decide (method = "application.set_route_policy")) as [_|_]; [is_op (OSetRoute principal (Ctl.ApplicationID p) (Ctl.Backends p))|].
  destruct (decide (method = "route.list")) as [_|_]; [unfold ListRouteRecords; reads|].
  destruct (decide (method = "application.export")) as [_|_]; [is_op (OExport order principal (Ctl.ApplicationID p) (Ctl.Text p) (Ctl.Confirm p) (Ctl.Escalate p) (Ctl.RequestID p))|].
  destruct (decide (method = "witness.head")) as [_|_]; [unfold WitnessHead; reads|].
  destruct (decide (method = "witness.cosign")) as [_|_]; [unfold cosign; rewrite Hp; destruct (checkpoint_of p) as [cp|]; [is_op (OCosign principal cp)|apply served_ret]|].
  destruct (decide (method = "witness.verify")) as [_|_]; [unfold VerifyWitness; reads|].
  destruct (decide (method = "message.channel.create")) as [_|_]; [is_op (OCreateChannel principal (Ctl.BindingID p) (Ctl.SourceKind p))|].
  destruct (decide (method = "message.channel.revoke")) as [_|_]; [is_op (ORevokeChannel principal (Ctl.BindingID p))|].
  destruct (decide (method = "message.conversation.bind")) as [_|_]; [is_op (OBind principal (Ctl.BindingID p) (Ctl.Path p) (Ctl.ApplicationID p))|].
  destruct (decide (method = "message.conversation.list")) as [_|_]; [unfold ListConversations; reads|].
  destruct (decide (method = "gateway.deliver")) as [_|_]; [unfold deliver; case_decide; [apply served_ret|is_op (ODeliver (Ctl.BindingID p) (Ctl.Path p) (to_int64 (Ctl.Count p)) (Ctl.Payload p))]|].
  destruct (decide (method = "gateway.reply")) as [_|_]; [is_op (OReply principal (Ctl.ApplicationID p) (Ctl.MessageID p))|].
  destruct (decide (method = "gateway.outbox.claim")) as [_|_]; [is_op (OClaimOutbox (Ctl.BindingID p) (Ctl.Path p))|].
  destruct (decide (method = "gateway.outbox.ack")) as [_|_]; [is_op (OAckOutbox principal (Ctl.MessageID p) (Ctl.Reason p))|].
  destruct (decide (method = "confirmation.list")) as [_|_]; [unfold ListConfirmations; reads|].
  destruct (decide (method = "confirmation.settle")) as [_|_]; [is_op (OSettle principal (Ctl.RequestID p) (Ctl.Approve p))|].
  destruct (decide (method = "budget.set")) as [_|_]; [is_op (OSetLimit principal (Ctl.ApplicationID p) (Ctl.TokenLimit p))|].
  destruct (decide (method = "event_source.create")) as [_|_]; [by apply served_create_source|].
  destruct (decide (method = "message.result")) as [_|_]; [unfold Result; reads|].
  destruct (decide (method = "message.send")) as [_|_]; [is_op (OEnqueue principal (Ctl.ApplicationID p) (Ctl.Key p) (Ctl.Payload p))|].
  destruct (decide (method = "message.claim")) as [_|_]; [is_op (OClaim principal (Ctl.ApplicationID p))|].
  destruct (decide (method = "mailbox.capacity")) as [_|_]; [unfold InspectMailboxCapacity; reads|].
  destruct (decide (method = "mailbox.list")) as [_|_]; [unfold ListMailbox; reads|].
  destruct (decide (method = "event_source.list")) as [_|_]; [unfold list_sources; repeat case_decide; [unfold ListLSFSBindings; reads|apply served_ret|unfold ListTimers; reads]|].
  destruct (decide (method = "event_source.bind")) as [_|_]; [by apply served_set_source|]. destruct (decide (method = "event_source.disable")) as [_|_]; [by apply served_set_source|].
  destruct (decide (method = "artifact.import")) as [_|_]; [is_op (OImportArtifact principal (Ctl.ApplicationID p) (Ctl.Key p) (Ctl.Payload p))|].
  destruct (decide (method = "message.ack")) as [_|_]; [is_op (OAck principal (Ctl.ApplicationID p) (Ctl.MessageID p))|].
  destruct (decide (method = "capability.revoke")) as [_|_]; [by apply served_revoke|].
  destruct (decide (method = "capability.check")) as [_|_]; [by apply served_check|].
  destruct (decide (method = "audit.list")) as [_|_]; [unfold audit_records; reads|]. apply served_ret.
Qed.

Lemma field_bind {A} (r : A * bool) k p : field r k = Some p → k (fst r) = Some p.
Proof. unfold field. by destruct (snd r). Qed.

Lemma decode_limit raw p : decode_params raw = Some p → in_u64 (Ctl.TokenLimit p).
Proof.
  unfold decode_params. case_decide; [by intros [= <-]|]. cbv zeta. intros Hp. do 29 (apply field_bind in Hp). injection Hp as <-. cbn.
  exact (uint64_field_range "token_limit" raw).
Qed.

Lemma served_handle req principal : served_by principal (handle env order req principal).
Proof.
  unfold handle. destruct (decode_params (Rpc.Params req)) as [p|] eqn:Hd; [|apply served_ret]. case_decide; [apply served_ret|].
  apply served_dispatch; [done|]. exact (decode_limit _ _ Hd).
Qed.

(** C8: the control plane is a client of the system.  A control request carries out at
    most two operations of the supervisor, each on behalf of the peer the socket names
    whatever the request says, and each allowed by the system's rules; so that the states
    clients can bring the supervisor into are reachable states of the system, and what
    is proved of these holds under any clients. *)
Theorem control_refines_system req principal s :
  reachable env kenv s → fresh_id env s →
  (∃ ops, length ops ≤ 2 ∧ performs principal s ops (snd (handle env order req principal s))) ∧
  reachable env kenv (snd (handle env order req principal s)).
Proof using.
  intros Hr Hf. destruct (sb_ops _ _ (served_handle req principal) s Hf) as (ops & Hl & Hp). split; [by exists ops|].
  eapply reachable_steps; [exact Hr|]. by eapply performs_steps.
Qed.

(** An error response means that nothing happened.  When a control request is answered
    with an error, the applications, mailboxes, results, channels, mounts and all other
    books on disk are what they were before the request. *)
Theorem control_error_no_effect req principal s s' code e :
  reachable env kenv s → handle env order req principal s = (Ok (Err (code, e)), s') →
  books (committed s') = books (committed s).
Proof using.
  intros Hr H. pose proof (reachable_synced env kenv s Hr) as Hs.
  exact (wp_run _ _ _ _ _ (sb_error _ _ (served_handle req principal) s Hs) H).
Qed.

End control.

Definition control_call (method : string) (fields : list (string * string)) : Message :=
  Rpc.mk "2.0" "1" method (obj_literal fields) "" None.
Definition send_request : Message :=
  control_call "message.send" [("application_id", json_quote Sample.app); ("idempotency_key", json_quote "k2"); ("payload", "{}")].
Definition retire_request : Message := control_call "application.retire" [("application_id", json_quote "nobody")].

Lemma open_fresh : fresh_id Sample.env (Sample.run open_ops).
Proof. intros b Hb. vm_compute in Hb. injection Hb as <-. by vm_compute. Qed.

Lemma control_refines_system_witness :
  let s' := snd (handle Sample.env [] send_request "unix:uid:0" (Sample.run open_ops)) in
  (∃ ops, length ops ≤ 2 ∧ performs Sample.env Sample.kenv "unix:uid:0" (Sample.run open_ops) ops s') ∧
  reachable Sample.env Sample.kenv s'.
Proof. apply (control_refines_system Sample.env Sample.kenv [] send_request "unix:uid:0"); [exact open_reachable|exact open_fresh]. Defined.

Lemma error_run {A} (m : M Supervisor A) s r : fst (m s) = r → m s = (r, snd (m s)).
Proof. intros <-. by destruct (m s). Qed.

Lemma control_error_no_effect_witness :
  books (committed (snd (handle Sample.env [] retire_request "unix:uid:0" (Sample.run open_ops)))) = books (committed (Sample.run open_ops)).
Proof.
  apply (control_error_no_effect Sample.env Sample.kenv [] retire_request "unix:uid:0" (Sample.run open_ops) _ (-32004) ErrApplicationNotFound);
    [exact open_reachable|]. apply error_run. vm_compute. reflexivity.
Defined.
