(* ===== verification/Router.v ===== *)
(** * router.go: fallback over providers

    A router tries its providers in an order that comes from policy, never from the
    prompt, and reports which of them served the turn. *)

From Stdlib Require Import Ascii.
From stdpp Require Import base tactics option list sets strings numbers pretty.
From S2P Require Import Prelude GoLib Json Ledger State Runner.

(** A provider of the router; [CompatKey] is optional. *)
Record Backend := mkBackend {
  b_name : string;
  b_compat : option string;
  b_complete : string → result error (string * Usage);
}.

Definition compatKeyOf (b : Backend) : string := default (b_name b) (b_compat b).

Fixpoint check_names (seen : list string) (providers : list (option Backend)) : result error (list Backend) :=
  match providers with
  | [] => Ok []
  | None :: _ => Err (New "router provider is invalid")
  | Some b :: providers =>
      if decide (b_name b = "") then Err (New "router provider is invalid")
      else if decide (b_name b ∈ seen) then Err (New ("router provider " +:+ json_quote (b_name b) +:+ " is duplicated"))
      else match check_names (b_name b :: seen) providers with
           | Ok bs => Ok (b :: bs)
           | Err e => Err e
           end
  end.

Definition NewRouterProvider (providers : list (option Backend)) : result error (list Backend) :=
  if decide (providers = []) then Err (New "router requires at least one provider") else check_names [] providers.

(** The providers named by the policy, in its order, each once. *)
Fixpoint select_named (name : string) (providers : list Backend) (seen : list string) (chosen : list Backend) :
    list string * list Backend :=
  match providers with
  | [] => (seen, chosen)
  | b :: providers =>
      if decide (b_name b = name ∧ name ∉ seen) then select_named name providers (name :: seen) (chosen ++ [b])
      else select_named name providers seen chosen
  end.

Fixpoint select (allowed : list string) (providers : list Backend) (seen : list string) (chosen : list Backend) : list Backend :=
  match allowed with
  | [] => chosen
  | name :: allowed => let '(seen, chosen) := select_named name providers seen chosen in select allowed providers seen chosen
  end.

Definition candidates (allowed : list string) (providers : list Backend) : list Backend :=
  if decide (allowed = []) then providers else select allowed providers [] [].

Section router.
(** [err.Error ()], and what [ctx.Err ()] says when it is asked for the n-th time. *)
Context (error_text : error → string) (ctx : nat → option error).

Definition no_route (e : error) : Outcome := mkOutcome "" (mkUsage 0 0 0) (Some (mkRouteInfo "" "" 0)) 0 (Some e).

(** The loop over the candidates; the failures are kept for the report. *)
Fixpoint try_candidates (asked : nat) (failures : list string) (bs : list Backend) (prompt : string) : Outcome :=
  match bs with
  | [] =>
      no_route (if decide (failures = []) then New "route policy excludes every backend"
                else New ("all routed providers failed: " +:+ String.concat "; " failures))
  | b :: bs =>
      match ctx asked with
      | Some e => no_route e
      | None =>
          match b_complete b prompt with
          | Ok (text, usage) =>
              mkOutcome text usage (Some (mkRouteInfo (b_name b) (compatKeyOf b) (Z.of_nat (length failures) `mod` 4294967296))) 0 None
          | Err e =>
              match ctx (S asked) with
              | Some e => no_route e
              | None => try_candidates (S (S asked)) (failures ++ [b_name b +:+ ": " +:+ error_text e]) bs prompt
              end
          end
      end
  end.

Definition completeRouted (providers : list Backend) (allowed : list string) (prompt : string) : Outcome :=
  try_candidates 0 [] (candidates allowed providers) prompt.

(** The router as the provider of the runner: it enforces the route policy itself. *)
Definition router_provider (providers : list Backend) : ProviderInfo :=
  mkProviderInfo "router" "router" true (completeRouted providers).
End router.

(** ** Proofs *)

Lemma select_named_spec name providers : ∀ seen chosen,
  let '(seen', chosen') := select_named name providers seen chosen in
  ∃ new, chosen' = chosen ++ new ∧ length new ≤ 1 ∧ new ⊆ providers ∧ Forall (λ b, b_name b = name ∧ name ∉ seen) new ∧
    (∀ n, n ∈ seen' ↔ n ∈ seen ∨ n ∈ (b_name <$> new)).
Proof.
  induction providers as [|b providers IH]; intros seen chosen; cbn [select_named].
  - exists []. split_and!; [by rewrite app_nil_r|cbn; lia|set_solver|constructor|set_solver].
  - case_decide as Hc.
    + destruct Hc as [Hn Hs]. specialize (IH (name :: seen) (chosen ++ [b])).
      destruct (select_named name providers (name :: seen) (chosen ++ [b])) as [seen' chosen']. destruct IH as (new & -> & Hl & Hsub & Hall & Hseen).
      assert (new = []) as ->. { destruct new as [|x new]; [done|]. apply Forall_cons_1 in Hall as [[_ Hx] _]. set_solver. }
      exists [b]. split_and!; [by rewrite app_nil_r|cbn; lia|set_solver|by constructor|]. intros n. rewrite Hseen. cbn. rewrite Hn. set_solver.
    + specialize (IH seen chosen). destruct (select_named name providers seen chosen) as [seen' chosen'].
      destruct IH as (new & -> & Hl & Hsub & Hall & Hseen). exists new. split_and!; [done|done|set_solver|done|done].
Qed.

(** What is chosen is named by the policy, comes from the router and occurs once. *)
Lemma select_spec allowed providers : ∀ seen chosen,
  (∀ n, n ∈ seen ↔ n ∈ (b_name <$> chosen)) → NoDup (b_name <$> chosen) →
  ∃ new, select allowed providers seen chosen = chosen ++ new ∧ new ⊆ providers ∧
    Forall (λ b, b_name b ∈ allowed) new ∧ NoDup (b_name <$> (chosen ++ new)).
Proof.
  induction allowed as [|name allowed IH]; intros seen chosen Hseen Hnd; cbn [select].
  - exists []. rewrite app_nil_r. split_and!; [done|set_solver|constructor|done].
  - pose proof (select_named_spec name providers seen chosen) as Hs. destruct (select_named name providers seen chosen) as [seen' chosen'].
    destruct Hs as (new & -> & Hl & Hsub & Hall & Hseen'). destruct (IH seen' (chosen ++ new)) as (more & -> & Hsub' & Hall' & Hnd').
    + intros n. rewrite Hseen', fmap_app, elem_of_app. by rewrite Hseen.
    + rewrite fmap_app. apply NoDup_app. split_and!; [done| |].
      * intros n Hn (b & -> & Hb)%list_elem_of_fmap. rewrite Forall_forall in Hall. destruct (Hall b Hb) as [E Hno]. apply Hno, Hseen. by rewrite <-E.
      * destruct new as [|x [|y new]]; [constructor|apply NoDup_singleton|cbn in Hl; lia].
    + exists (new ++ more). rewrite app_assoc. split_and!; [done|set_solver| |done]. apply Forall_app. split.
      * eapply Forall_impl; [exact Hall|]. intros b [-> _]. by left.
      * eapply Forall_impl; [exact Hall'|]. intros b Hb. by right.
Qed.

Lemma candidates_spec allowed providers :
  candidates allowed providers ⊆ providers ∧ (allowed ≠ [] → Forall (λ b, b_name b ∈ allowed) (candidates allowed providers)) ∧
  (NoDup (b_name <$> providers) → NoDup (b_name <$> candidates allowed providers)).
Proof.
  unfold candidates. case_decide as Ha; [done|].
  destruct (select_spec allowed providers [] []) as (new & -> & Hsub & Hall & Hnd); [set_solver|constructor|]. done.
Qed.

Section router_proofs.
Context (error_text : error → string).

(** The candidates before the one that served failed. *)
Lemma try_success ctx bs prompt : ∀ asked failures,
  let o := try_candidates error_text ctx asked failures bs prompt in
  o_err o = None → ∃ l1 b l2, bs = l1 ++ b :: l2 ∧ Forall (λ c, is_ok (b_complete c prompt) = false) l1 ∧
    b_complete b prompt = Ok (o_text o, o_usage o) ∧
    o_route o = Some (mkRouteInfo (b_name b) (compatKeyOf b) (Z.of_nat (length failures + length l1) `mod` 4294967296)).
Proof.
  induction bs as [|b bs IH]; intros asked failures; cbn [try_candidates]; [done|]. destruct (ctx asked); [done|].
  destruct (b_complete b prompt) as [[text usage]|e] eqn:Hb.
  - cbn. intros _. exists [], b, bs. rewrite Nat.add_0_r. by split_and!.
  - destruct (ctx (S asked)); [done|]. intros Ho. destruct (IH _ _ Ho) as (l1 & b' & l2 & -> & Hall & Hok & Hr).
    exists (b :: l1), b', l2. split_and!; [done|by constructor; [rewrite Hb|]|done|]. rewrite Hr, length_app. cbn. do 3 f_equal. lia.
Qed.

(** Without cancellation a candidate that can serve is reached. *)
Lemma try_reaches bs prompt : ∀ asked failures,
  (∃ b, b ∈ bs ∧ is_ok (b_complete b prompt) = true) →
  o_err (try_candidates error_text (λ _, None) asked failures bs prompt) = None.
Proof.
  induction bs as [|b bs IH]; intros asked failures (b0 & Hin & Hok); [by apply elem_of_nil in Hin|]. cbn [try_candidates].
  destruct (b_complete b prompt) as [[text usage]|e] eqn:Hb; [done|]. apply IH. exists b0. split; [|done].
  apply elem_of_cons in Hin as [->|Hin]; [by rewrite Hb in Hok|done].
Qed.

(** Routing obeys the policy and falls back in order.  When a routed turn succeeds, the
    text and usage are those of one of the router's providers, which the application's
    policy allows when it has one; all candidates before it in the policy's order were
    tried and failed, and their number is reported.  And a turn that is not cancelled
    does succeed when some allowed provider can serve it. *)
Theorem route_first_success ctx providers allowed prompt :
  let o := completeRouted error_text ctx providers allowed prompt in
  (o_err o = None → ∃ failed b rest, candidates allowed providers = failed ++ b :: rest ∧
    b ∈ providers ∧ (allowed ≠ [] → b_name b ∈ allowed) ∧ Forall (λ c, is_ok (b_complete c prompt) = false) failed ∧
    b_complete b prompt = Ok (o_text o, o_usage o) ∧
    o_route o = Some (mkRouteInfo (b_name b) (compatKeyOf b) (Z.of_nat (length failed) `mod` 4294967296))) ∧
  ((∀ n, ctx n = None) → (∃ b, b ∈ candidates allowed providers ∧ is_ok (b_complete b prompt) = true) → o_err o = None).
Proof.
  cbv zeta. split.
  - intros Ho. destruct (try_success _ _ _ _ _ Ho) as (l1 & b & l2 & Hc & Hall & Hok & Hr). exists l1, b, l2.
    destruct (candidates_spec allowed providers) as (Hsub & Hal & _). split_and!; [done| | |done|done|done].
    + apply Hsub. rewrite Hc. set_solver.
    + intros Hne. specialize (Hal Hne). rewrite Hc in Hal. apply Forall_app in Hal as [_ [Hb _]%Forall_cons_1]. done.
  - intros Hctx Hex. unfold completeRouted.
    assert (∀ bs asked failures, try_candidates error_text ctx asked failures bs prompt = try_candidates error_text (λ _, None) asked failures bs prompt) as ->.
    { induction bs as [|b bs IH]; intros asked failures; [done|]. cbn. rewrite !Hctx. destruct (b_complete b prompt) as [[]|]; [done|]. apply IH. }
    by apply try_reaches.
Qed.
End router_proofs.
