(* ===== verification/Restart.v ===== *)
(** * pid1.go: restarting the supervisor

    PID 1 restarts the supervisor at most so many times within a window of time; the
    process provider admits the starts of its engine by the same rule. *)

From Stdlib Require Import Ascii.
From stdpp Require Import base tactics option list sets strings numbers.
From S2P Require Import Prelude GoLib.

Definition second : Z := 1000000000.
Definition minute : Z := 60 * second.

(** ** The window *)

Definition recent (window now : Z) (starts : list Z) : list Z := filter (λ t, now - t < window)%Z starts.

(** A start at [now] when fewer than [limit] others are recent. *)
Definition admit_start (limit window now : Z) (starts : list Z) : option (list Z) :=
  let kept := recent window now starts in
  if decide (limit ≤ Z.of_nat (length kept))%Z then None else Some (kept ++ [now]).

(** ** PID 1 *)

Record InitConfig := mkInitConfig {
  Supervisor_ : string;
  Restart : bool;
  MaxRestarts : Z;
  RestartWindow : Z;
  StopTimeout : Z;
}.

Definition with_default (v d : Z) : Z := if decide (v = 0)%Z then d else v.

Definition init_config (c : InitConfig) : result error InitConfig :=
  if decide (Supervisor_ c = "" ∨ IsAbs (Supervisor_ c) = false) then
    Err (New "init supervisor must be an absolute executable path")
  else
    let c := mkInitConfig (Supervisor_ c) (Restart c) (with_default (MaxRestarts c) 3)
               (with_default (RestartWindow c) minute) (with_default (StopTimeout c) (5 * second)) in
    if decide (MaxRestarts c < 1 ∨ RestartWindow c ≤ 0 ∨ StopTimeout c ≤ 0)%Z
    then Err (New "invalid init restart limits") else Ok c.

(** What became of one incarnation of the supervisor. *)
Inductive incarnation : Type :=
  | NotStarted (e : error)
  | Exited (status : option error) (cancelled : option error) (* [ctx.Err ()] after the exit *)
  | Stopped (e : error). (* the context was cancelled; the child was terminated *)

(** How a run of PID 1 ended, or that it goes on. *)
Inductive fate : Type :=
  | Returned (e : option error)
  | Running.

(** The loop of [RunInit] on the times of its rounds and their incarnations; also the
    times at which it started the supervisor. *)
Fixpoint supervise (c : InitConfig) (starts : list Z) (script : list (Z * incarnation)) : fate * list Z :=
  match script with
  | [] => (Running, [])
  | (now, i) :: script =>
      match admit_start (MaxRestarts c) (RestartWindow c) now starts with
      | None => (Returned (Some ErrRestartIntensity), [])
      | Some starts =>
          match i with
          | NotStarted e => (Returned (Some e), [now])
          | Exited status cancelled =>
              if negb (Restart c) then (Returned status, [now])
              else match cancelled with
                   | Some e => (Returned (Some e), [now])
                   | None => let '(f, log) := supervise c starts script in (f, now :: log)
                   end
          | Stopped e => (Returned (Some e), [now])
          end
      end
  end.

Definition RunInit (c : InitConfig) (kernel : option error) (script : list (Z * incarnation)) : fate * list Z :=
  match init_config c with
  | Err e => (Returned (Some e), [])
  | Ok c => match kernel with Some e => (Returned (Some e), []) | None => supervise c [] script end
  end.

(** ** The intensity is bounded *)

Fixpoint ascending (l : list Z) : Prop :=
  match l with
  | [] => True
  | t :: l => Forall (λ t', t ≤ t')%Z l ∧ ascending l
  end.

(** Any [limit] + 1 successive starts take at least [window]. *)
Definition spaced (limit : nat) (window : Z) (log : list Z) : Prop := ∀ i a b,
  log !! i = Some a → log !! (i + limit) = Some b → (window ≤ b - a)%Z.

(** The starts that are kept are the end of the log; the others are out of the window. *)
Record window_inv (limit : nat) (window clock : Z) (log starts : list Z) : Prop := {
  wi_suffix : ∃ old, log = old ++ starts ∧ Forall (λ t, window ≤ clock - t)%Z old;
  wi_ascending : ascending starts;
  wi_clock : Forall (λ t, t ≤ clock)%Z starts;
  wi_spaced : spaced limit window log;
}.

Lemma recent_suffix window now l : ascending l →
  ∃ old, l = old ++ recent window now l ∧ Forall (λ t, window ≤ now - t)%Z old.
Proof.
  induction l as [|t l IH]; intros Ha; [by exists []|]. destruct Ha as [Ht Ha]. unfold recent. rewrite filter_cons. case_decide as Hr.
  - exists []. split; [|constructor]. cbn. f_equal. clear IH. induction Ht as [|t' l Ht' _ IHl]; [done|].
    rewrite filter_cons, decide_True by lia. f_equal. apply IHl. by destruct Ha.
  - destruct (IH Ha) as (old & E & Hold). exists (t :: old). split; [cbn; f_equal; exact E|]. constructor; [lia|done].
Qed.

Lemma ascending_app l l' : ascending (l ++ l') → ascending l'.
Proof. induction l as [|t l IH]; [done|]. intros [_ Ha]. by apply IH. Qed.

Lemma ascending_snoc l now : ascending l → Forall (λ t, t ≤ now)%Z l → ascending (l ++ [now]).
Proof.
  induction l as [|t l IH]; cbn; [by repeat constructor|]. intros [Ht Ha] [Hn Hl]%Forall_cons_1. split; [|by apply IH].
  apply Forall_app. split; [done|]. by constructor.
Qed.

Lemma recent_inv limit window clock log starts now :
  window_inv limit window clock log starts → (clock ≤ now)%Z → window_inv limit window now log (recent window now starts).
Proof.
  intros [(old & -> & Hold) Ha Hc Hsp] Hle.
  destruct (recent_suffix window now starts Ha) as (out & E & Hout). set (kept := recent window now starts) in *. split.
  - exists (old ++ out). split; [rewrite E at 1; by rewrite <-app_assoc|].
    apply Forall_app. split; [|done]. eapply List.Forall_impl; [|exact Hold]; cbn; lia.
  - rewrite E in Ha. by eapply ascending_app.
  - rewrite E in Hc. apply Forall_app in Hc as [_ Hc]. eapply List.Forall_impl; [|exact Hc]; cbn; lia.
  - done.
Qed.

Lemma admit_inv limit window clock log starts now starts' :
  window_inv limit window clock log starts → (clock ≤ now)%Z →
  admit_start (Z.of_nat limit) window now starts = Some starts' → window_inv limit window now (log ++ [now]) starts'.
Proof.
  intros Hi Hle. apply (recent_inv _ _ _ _ _ now) in Hi as [(old & E & Hold) Ha Hc Hsp]; [|done].
  unfold admit_start. cbv zeta. set (kept := recent window now starts) in *. case_decide as Hl; [done|]. intros [= <-]. subst log. split.
  - exists old. split; [by rewrite <-app_assoc|done].
  - by apply ascending_snoc.
  - apply Forall_app. split; [done|]. by repeat constructor.
  - intros i a b Hi Hb. apply lookup_app_Some in Hb as [Hb|[Hlen Hb]].
    + eapply Hsp; [|exact Hb]. rewrite lookup_app_l in Hi; [done|]. apply lookup_lt_Some in Hb. lia.
    + apply list_lookup_singleton_Some in Hb as [Hidx <-]. apply (Forall_lookup_1 _ _ i _ Hold).
      rewrite length_app in Hlen, Hidx. rewrite <-app_assoc, lookup_app_l in Hi by lia. exact Hi.
Qed.

Lemma supervise_spaced c limit : ∀ script clock log starts,
  MaxRestarts c = Z.of_nat limit → window_inv limit (RestartWindow c) clock log starts →
  ascending (clock :: (fst <$> script)) → spaced limit (RestartWindow c) (log ++ snd (supervise c starts script)).
Proof.
  intros script. induction script as [|[now i] script IH]; intros clock log starts Hm Hi Hasc; cbn [supervise].
  - cbn. rewrite app_nil_r. apply Hi.
  - cbn in Hasc. destruct Hasc as [[Hn Hrest]%Forall_cons_1 [Hnow Hasc]]. rewrite Hm.
    destruct (admit_start (Z.of_nat limit) (RestartWindow c) now starts) as [starts'|] eqn:Hadm; [|cbn; rewrite app_nil_r; apply Hi].
    pose proof (admit_inv _ _ _ _ _ _ _ Hi Hn Hadm) as Hi'. destruct i as [e|status cancelled|e]; [apply Hi'| |apply Hi'].
    destruct (negb (Restart c)); [apply Hi'|]. destruct cancelled as [e|]; [apply Hi'|].
    specialize (IH now (log ++ [now]) starts' Hm Hi' (conj Hnow Hasc)). destruct (supervise c starts' script) as [f l]. cbn in *.
    by rewrite <-app_assoc in IH.
Qed.

(** A supervisor that crashes again and again. *)
Definition crash (i : Z * incarnation) : Prop := ∃ status, snd i = Exited status None.

Lemma supervise_gives_up c limit first : ∀ script starts,
  MaxRestarts c = Z.of_nat limit → Restart c = true → Forall crash script →
  Forall (λ t, first ≤ t)%Z starts → Forall (λ i, first ≤ fst i < first + RestartWindow c)%Z script →
  length starts ≤ limit → limit < length starts + length script →
  fst (supervise c starts script) = Returned (Some ErrRestartIntensity).
Proof.
  intros script. induction script as [|[now i] script IH]; intros starts Hm Hr Hcr Hst Hsc Hl Hlen; cbn [supervise]; [cbn in Hlen; lia|].
  apply Forall_cons_1 in Hcr as [[status Hi] Hcr]. apply Forall_cons_1 in Hsc as [Hnow Hsc]. cbn in Hi, Hnow. subst i.
  assert (recent (RestartWindow c) now starts = starts) as Hrec.
  { unfold recent. clear -Hst Hnow. induction Hst as [|t l Ht _ IHl]; [done|]. rewrite filter_cons, decide_True by lia. by rewrite IHl. }
  unfold admit_start. rewrite Hrec, Hm. case_decide as Hd; [done|]. rewrite Hr. cbn [negb].
  assert (fst (supervise c (starts ++ [now]) script) = Returned (Some ErrRestartIntensity)) as H.
  { apply IH; [done|done|done| |done|rewrite length_app; cbn; lia|rewrite length_app; cbn in *; lia].
    apply Forall_app. split; [done|]. constructor; [lia|constructor]. }
  by destruct (supervise c (starts ++ [now]) script).
Qed.

(** PID 1 does not restart the supervisor in a tight loop.  With the limits it runs
    under, any [MaxRestarts] + 1 successive starts take at least [RestartWindow]; and a
    supervisor that keeps crashing within one window makes it give up with the intensity
    error instead of going on. *)
Theorem restart_intensity_bounded c c' script :
  init_config c = Ok c' → ascending (fst <$> script) →
  spaced (Z.to_nat (MaxRestarts c')) (RestartWindow c') (snd (RunInit c None script)) ∧
  (Restart c' = true → Forall crash script → (MaxRestarts c' < Z.of_nat (length script))%Z →
    (∃ first, Forall (λ i, first ≤ fst i < first + RestartWindow c')%Z script) →
    fst (RunInit c None script) = Returned (Some ErrRestartIntensity)).
Proof.
  intros Hc Hasc. unfold RunInit. rewrite Hc.
  assert (MaxRestarts c' = Z.of_nat (Z.to_nat (MaxRestarts c'))) as Hm.
  { unfold init_config in Hc. case_decide; [done|]. cbv zeta in Hc. case_decide; [done|]. injection Hc as <-. cbn in *. lia. }
  split.
  - destruct script as [|[now i] script]; [by intros j a b Hj|].
    apply (supervise_spaced c' _ ((now, i) :: script) now [] []); [done| |].
    + split; [by exists []|done|constructor|by intros j a b Hj].
    + cbn in *. destruct Hasc as [Hn Hasc]. split; [by constructor|done].
  - intros Hr Hcr Hlen (first & Hall). eapply (supervise_gives_up c' _ first); [exact Hm|done|done|constructor|done|cbn; lia|cbn; lia].
Qed.

Definition sample_init : InitConfig := mkInitConfig "/sbin/aok-supervisor" true 0 0 0.
Definition crashes : list (Z * incarnation) := (λ n, (n * second, Exited None None)%Z) <$> [0; 1; 2; 3]%Z.

Lemma restart_intensity_bounded_witness :
  let c' := mkInitConfig "/sbin/aok-supervisor" true 3 minute (5 * second) in
  spaced (Z.to_nat (MaxRestarts c')) (RestartWindow c') (snd (RunInit sample_init None crashes)) ∧
  (Restart c' = true → Forall crash crashes → (MaxRestarts c' < Z.of_nat (length crashes))%Z →
    (∃ first, Forall (λ i, first ≤ fst i < first + RestartWindow c')%Z crashes) →
    fst (RunInit sample_init None crashes) = Returned (Some ErrRestartIntensity)).
Proof.
  apply (restart_intensity_bounded sample_init (mkInitConfig "/sbin/aok-supervisor" true 3 minute (5 * second)) crashes); [by vm_compute|].
  cbn. repeat (split || constructor); unfold second; lia.
Defined.
