(* ===== verification/Sandbox.v ===== *)
(** * sandbox/policy.go, compile.go and native/aok-sandbox.c: confining an engine

    The Go side compiles a manifest into the argument vector of the launcher.  The
    launcher, a C program, turns its arguments into Landlock rules, a mask of kept
    descriptors and a seccomp filter, and runs the engine under them. *)

From Stdlib Require Import Ascii.
From stdpp Require Import base tactics option list sets strings pretty numbers.
From S2P Require Import Prelude GoLib Json.

(** ** policy.go *)

Record Policy := mkPolicy { Read : list string; Write_ : list string; Execute : list string; Network : bool; KeepFD : list Z }.

Definition glob_byte : ascii → bool := one_of (String "000"%char "*?[]").

Definition rule_path (path : string) : result error string :=
  let path := TrimSuffix path "/**" in
  if decide (IsAbs path = false ∨ contains_byte glob_byte path = true ∨ Clean path ≠ path)
  then Err (New ("unsupported sandbox path " +:+ json_quote path)) else Ok path.

Fixpoint rule_args (flag : string) (paths : list string) : result error (list string) :=
  match paths with
  | [] => Ok []
  | path :: paths =>
      match rule_path path with
      | Err e => Err e
      | Ok path => match rule_args flag paths with Err e => Err e | Ok args => Ok (flag :: path :: args) end
      end
  end.

Fixpoint keep_args (fds : list Z) : result error (list string) :=
  match fds with
  | [] => Ok []
  | fd :: fds =>
      if decide (fd < 3 ∨ fd > 63)%Z then Err (New "delegated fd must be between 3 and 63")
      else match keep_args fds with Err e => Err e | Ok args => Ok ("--keep-fd" :: pretty fd :: args) end
  end.

Definition Args (p : Policy) (command : list string) : result error (list string) :=
  if decide (match command with [] => true | c :: _ => negb (IsAbs c) end = true)
  then Err (New "sandbox command must be an absolute executable path")
  else
    match rule_args "--read" (Read p) with Err e => Err e | Ok reads =>
    match rule_args "--write" (Write_ p) with Err e => Err e | Ok writes =>
    match rule_args "--execute" (Execute p) with Err e => Err e | Ok executes =>
    match keep_args (KeepFD p) with Err e => Err e | Ok keeps =>
      Ok (reads ++ writes ++ executes ++ (if Network p then ["--net"] else []) ++ keeps ++ ["--"] ++ command)
    end end end end.

(** ** compile.go *)

Record Manifest := mkManifest { FSRead : list string; FSWrite : list string; Net : bool; Tools : list string }.

Record LauncherPlan := mkLauncherPlan { Launcher : string; plan_Args : list string; plan_Policy : Policy }.

Definition normalizeRules (rules : list string) : list string := (λ r, TrimSuffix r "/**") <$> rules.

Definition validRule (rule : string) : bool := negb (contains_byte (one_of (String " " (String "009" (String "010" (String "013" ""))))) rule).

Definition Compile (m : Manifest) (launcher : string) (engineCommand : list string) (keepFD : list Z) : result error LauncherPlan :=
  if decide (launcher = "" ∨ IsAbs launcher = false) then Err (New "launcher must be an absolute executable path")
  else if decide (match engineCommand with [] => true | c :: _ => negb (IsAbs c) end = true)
  then Err (New "engine command must be an absolute executable path")
  else
    let policy := mkPolicy (normalizeRules (FSRead m)) (normalizeRules (FSWrite m)) [] (Net m) keepFD in
    match find_first (λ r, negb (validRule r)) (Read policy ++ Write_ policy) with
    | Some rule => Err (New ("whitespace in sandbox rule " +:+ json_quote rule))
    | None =>
        match Args policy engineCommand with
        | Err e => Err e
        | Ok args => Ok (mkLauncherPlan launcher args policy)
        end
    end.

(** ** native/aok-sandbox.c: the arguments *)

Definition FS_EXEC : Z := Z.shiftl 1 0.
Definition FS_WRITE : Z := Z.shiftl 1 1.
Definition FS_READ : Z := Z.shiftl 1 2.
Definition FS_DIR : Z := Z.shiftl 1 3.
Definition FS_REFER : Z := Z.shiftl 1 13.
Definition FS_TRUNCATE : Z := Z.shiftl 1 14.
Definition FS_ALL : Z := Z.shiftl 1 16 - 1.
Definition FS_MUTATE : Z := Z.lor (Z.lor (Z.lor FS_WRITE FS_TRUNCATE) FS_REFER) (Z.shiftl 0x1ff 4).

(** What the launcher sees of the system: the Landlock ABI, the files that open and
    whether they are directories, the open descriptors, and the system calls that fail,
    by the label the launcher reports. *)
Record Kernel := mkKernel {
  abi : Z;
  stat : string → option bool;
  fd_open : Z → bool;
  fails : string → bool;
}.

Definition die {A} (what : string) : result string A := Err what.

(** The rights of a rule: the directory rights are masked off another kind of file. *)
Definition narrow (dir : bool) (rights : Z) : Z :=
  if dir then rights else Z.land rights (Z.lor (Z.lor (Z.lor FS_EXEC FS_READ) FS_WRITE) FS_TRUNCATE).

Definition rule (k : Kernel) (path : string) (rights : Z) : result string (string * Z) :=
  if negb (IsAbs path) then die "absolute rule path required"
  else
    match stat k path with
    | None => die "open sandbox rule"
    | Some dir => if fails k "landlock_add_rule" then die "landlock_add_rule" else Ok (path, narrow dir rights)
    end.

(** [strtol] in base 10: the value, clamped to a [long], and the text after it. *)
Definition digit_of (c : ascii) : option Z :=
  let n := nat_of_ascii c in if decide (48 ≤ n ∧ n ≤ 57) then Some (Z.of_nat (n - 48)) else None.

Fixpoint digits (acc : Z) (s : string) : Z * string :=
  match s with
  | String c s' => match digit_of c with Some d => digits (acc * 10 + d)%Z s' | None => (acc, s) end
  | EmptyString => (acc, s)
  end.

Fixpoint skip_space (s : string) : string :=
  match s with
  | String c s' => if is_space c then skip_space s' else s
  | EmptyString => s
  end.

Definition clamp_long (v : Z) : Z := Z.max (-9223372036854775808) (Z.min v 9223372036854775807).

Definition strtol (s : string) : Z * string :=
  let t := skip_space s in
  let '(negative, t) :=
    match t with
    | String "-"%char t => (true, t)
    | String "+"%char t => (false, t)
    | _ => (false, t)
    end in
  match t with
  | String c _ =>
      match digit_of c with
      | Some _ => let '(v, rest) := digits 0 t in (clamp_long (if negative then - v else v)%Z, rest)
      | None => (0%Z, s)
      end
  | EmptyString => (0%Z, s)
  end.

Record Options := mkOptions {
  rules : list (string * Z);
  network : bool;
  keep : Z;
}.

Definition option_rights (flag : string) : option Z :=
  if decide (flag = "--read") then Some (Z.lor FS_READ FS_DIR)
  else if decide (flag = "--write") then Some FS_MUTATE
  else if decide (flag = "--execute") then Some (Z.lor FS_READ FS_EXEC)
  else None.

(** The loop over the arguments; also what follows the separator, [[]] without one. *)
Fixpoint options (k : Kernel) (argv : list string) (o : Options) : result string (Options * list string) :=
  match argv with
  | [] => Ok (o, [])
  | arg :: argv =>
      if decide (arg = "--") then Ok (o, argv)
      else if decide (arg = "--net") then options k argv (mkOptions (rules o) true (keep o))
      else if decide (arg = "--keep-fd") then
        match argv with
        | [] => die "missing delegated fd"
        | text :: argv =>
            let '(fd, rest) := strtol text in
            if decide (rest ≠ "" ∨ fd < 3 ∨ fd > 63 ∨ fd_open k fd = false)%Z then die "invalid delegated fd"
            else options k argv (mkOptions (rules o) (network o) (Z.lor (keep o) (Z.shiftl 1 fd)))
        end
      else
        match option_rights arg with
        | None => die "unknown sandbox option"
        | Some rights =>
            match argv with
            | [] => die "missing rule path"
            | path :: argv =>
                match rule k path rights with
                | Err e => Err e
                | Ok r => options k argv (mkOptions (rules o ++ [r]) (network o) (keep o))
                end
            end
        end
  end.

(** What the engine runs under: its Landlock rules, the descriptors from 3 on that were
    not closed, whether its filter admits internet sockets, and its arguments. *)
Record Exec := mkExec {
  exec_rules : list (string * Z);
  exec_fds : list Z;
  exec_network : bool;
  exec_argv : list string;
}.

Definition kept_fds (keep : Z) : list Z := filter (λ fd, Z.testbit keep fd = true) (seqZ 3 61).

Fixpoint first_failure (k : Kernel) (calls : list string) : option string :=
  match calls with [] => None | c :: calls => if fails k c then Some c else first_failure k calls end.

Definition main (k : Kernel) (argv : list string) : result string Exec :=
  if decide (abi k < 6)%Z then die "Landlock ABI 6 required"
  else if fails k "landlock_create_ruleset" then die "landlock_create_ruleset"
  else
    match options k argv (mkOptions [] false 0) with
    | Err e => Err e
    | Ok (o, command) =>
        match command with
        | [] => die "missing absolute sandbox command"
        | cmd :: _ =>
            if negb (IsAbs cmd) then die "missing absolute sandbox command"
            else
              match rule k cmd (Z.lor FS_READ FS_EXEC) with
              | Err e => Err e
              | Ok r =>
                  match first_failure k ["no_new_privs"; "drop capabilities"; "landlock_restrict_self"; "close_range"; "chdir"; "seccomp"; "exec sandbox command"] with
                  | Some e => die e
                  | None => Ok (mkExec (rules o ++ [r]) (kept_fds (keep o)) (network o) command)
                  end
              end
        end
    end.

(** ** native/aok-sandbox.c: the filter *)

(** The classic BPF instructions the filter uses; a jump counts the instructions it skips. *)
Inductive insn : Type :=
  | LD (offset : Z)
  | JEQ (k : Z) (jt jf : nat)
  | JGE (k : Z) (jt jf : nat)
  | JSET (k : Z) (jt jf : nat)
  | RET (k : Z).

Record seccomp_data := mkData { nr : Z; arch : Z; arg0 : Z }.

(** The 32-bit word at an offset of [struct seccomp_data], on a little-endian machine. *)
Definition load (d : seccomp_data) (offset : Z) : Z :=
  if decide (offset = 0)%Z then u32 (nr d)
  else if decide (offset = 4)%Z then u32 (arch d)
  else if decide (offset = 16)%Z then u32 (arg0 d)
  else 0.

Fixpoint run (fuel : nat) (d : seccomp_data) (a : Z) (code : list insn) : option Z :=
  match fuel with
  | 0 => None
  | S fuel =>
      match code with
      | [] => None
      | LD offset :: code => run fuel d (load d offset) code
      | JEQ k jt jf :: code => run fuel d a (drop (if decide (a = k) then jt else jf) code)
      | JGE k jt jf :: code => run fuel d a (drop (if decide (k ≤ a)%Z then jt else jf) code)
      | JSET k jt jf :: code => run fuel d a (drop (if decide (Z.land a k ≠ 0)%Z then jt else jf) code)
      | RET k :: _ => Some k
      end
  end.

Inductive Arch : Type := aarch64 | x86_64.

#[export] Instance Arch_eq_dec : EqDecision Arch.
Proof. solve_decision. Defined.

Definition NATIVE_ARCH (m : Arch) : Z := match m with aarch64 => 0xC00000B7 | x86_64 => 0xC000003E end.

Definition RET_KILL_PROCESS : Z := 0x80000000.
Definition RET_EPERM : Z := Z.lor 0x50000 1.
Definition RET_ENOSYS : Z := Z.lor 0x50000 38.
Definition RET_ALLOW : Z := 0x7fff0000.
Definition AF_INET : Z := 2.
Definition AF_INET6 : Z := 10.
Definition UINT32_MAX : Z := 0xffffffff.

(** CLONE_NEWNS, NEWCGROUP, NEWUTS, NEWIPC, NEWUSER, NEWPID and NEWNET. *)
Definition CLONE_NEW : Z :=
  foldr Z.lor 0%Z [0x20000; 0x2000000; 0x4000000; 0x8000000; 0x10000000; 0x20000000; 0x40000000]%Z.

Definition DENY (n : Z) : list insn := [JEQ n 0 1; RET RET_EPERM].

(** The system calls denied by name. *)
Definition denied_names (m : Arch) : list string :=
  ["ptrace"; "process_vm_readv"; "process_vm_writev"; "pidfd_getfd"; "mount"; "umount2";
   "pivot_root"; "chroot"; "unshare"; "setns"; "open_by_handle_at"; "name_to_handle_at";
   "bpf"; "perf_event_open"; "userfaultfd"; "io_uring_setup"; "io_uring_enter"; "io_uring_register";
   "keyctl"; "add_key"; "request_key"; "init_module"; "finit_module"; "delete_module";
   "reboot"; "kexec_load"; "swapon"; "swapoff"; "fsopen"; "fsconfig"; "fsmount";
   "move_mount"; "open_tree"; "mount_setattr"; "mknodat"; "fchmod"; "fchmodat"; "fchown"; "fchownat";
   "setxattr"; "lsetxattr"; "fsetxattr"; "removexattr"; "lremovexattr"; "fremovexattr"]
  ++ match m with x86_64 => ["chmod"; "chown"; "lchown"; "mknod"] | aarch64 => [] end.

Section filter.
  (** The system call numbers of the machine, from the kernel's headers. *)
  Context (SYS : string → Z) (m : Arch).

Definition denied : list Z := (SYS <$> denied_names m) ++ [452%Z; SYS "socketpair"].

Definition filter_code (network : bool) : list insn :=
  [LD 4; JEQ (NATIVE_ARCH m) 1 0; RET RET_KILL_PROCESS; LD 0]
  ++ match m with x86_64 => [JGE 0x40000000 0 1; RET RET_KILL_PROCESS] | aarch64 => [] end
  ++ (denied ≫= DENY)
  ++ [JEQ (SYS "clone3") 0 1; RET RET_ENOSYS;
      JEQ (SYS "clone") 0 4; LD 16; JSET CLONE_NEW 0 1; RET RET_EPERM; RET RET_ALLOW;
      JEQ (SYS "socket") 0 6; LD 16; JEQ (if network then AF_INET else UINT32_MAX) 2 0;
      JEQ (if network then AF_INET6 else UINT32_MAX) 1 0; RET RET_EPERM; RET RET_ALLOW;
      RET RET_EPERM; RET RET_ALLOW].

(** The verdict on a system call: the program run from its start with a step for each instruction. *)
Definition run_filter (network : bool) (d : seccomp_data) : option Z :=
  run (length (filter_code network)) d 0 (filter_code network).

(** What the filter means to decide on the call [n] whose first argument is [a]. *)
Definition call_verdict (network : bool) (n a : Z) : Z :=
  if decide (n ∈ denied) then RET_EPERM
  else if decide (n = SYS "clone3") then RET_ENOSYS
  else if decide (n = SYS "clone") then
    if decide (Z.land a CLONE_NEW = 0)%Z then RET_ALLOW else RET_EPERM
  else if decide (n = SYS "socket") then
    if decide (a ∈ if network then [AF_INET; AF_INET6] else [UINT32_MAX]) then RET_ALLOW else RET_EPERM
  else RET_ALLOW.

Definition verdict (network : bool) (d : seccomp_data) : Z :=
  if decide (u32 (arch d) ≠ NATIVE_ARCH m) then RET_KILL_PROCESS
  else if decide (m = x86_64 ∧ 0x40000000 ≤ u32 (nr d))%Z then RET_KILL_PROCESS
  else call_verdict network (u32 (nr d)) (u32 (arg0 d)).

(** ** The filter decides what it means to *)


Lemma run_ld fuel d a offset code : run (S fuel) d a (LD offset :: code) = run fuel d (load d offset) code.
Proof. reflexivity. Qed.

Lemma run_jeq fuel d a k jt jf code :
  run (S fuel) d a (JEQ k jt jf :: code) = run fuel d a (drop (if decide (a = k) then jt else jf) code).
Proof. reflexivity. Qed.

Lemma run_jge fuel d a k jt jf code :
  run (S fuel) d a (JGE k jt jf :: code) = run fuel d a (drop (if decide (k ≤ a)%Z then jt else jf) code).
Proof. reflexivity. Qed.

Lemma run_jset fuel d a k jt jf code :
  run (S fuel) d a (JSET k jt jf :: code) = run fuel d a (drop (if decide (Z.land a k ≠ 0)%Z then jt else jf) code).
Proof. reflexivity. Qed.

Lemma run_ret fuel d a k code : run (S fuel) d a (RET k :: code) = Some k.
Proof. reflexivity. Qed.

Lemma run_denies d n l : ∀ fuel code, length l * 2 < fuel →
  run fuel d n ((l ≫= DENY) ++ code) = if decide (n ∈ l) then Some RET_EPERM else run (fuel - length l) d n code.
Proof.
  induction l as [|x l IH]; intros fuel code Hf; [by rewrite decide_False, Nat.sub_0_r by set_solver|].
  destruct fuel as [|[|fuel]]; [cbn in Hf; lia..|].
  change ((x :: l) ≫= DENY) with (JEQ x 0 1 :: RET RET_EPERM :: (l ≫= DENY)). rewrite <-!app_comm_cons, run_jeq.
  destruct (decide (n = x)) as [->|Hx]; cbn [drop]; [by rewrite run_ret, decide_True by set_solver|].
  rewrite drop_0, IH by (cbn in Hf; lia). destruct (decide (n ∈ l)) as [Hl|Hl]; [by rewrite decide_True by set_solver|].
  rewrite decide_False by set_solver. reflexivity.
Qed.

(** The part of the program behind the denied calls. *)
Definition tail_code (network : bool) : list insn :=
  [JEQ (SYS "clone3") 0 1; RET RET_ENOSYS;
   JEQ (SYS "clone") 0 4; LD 16; JSET CLONE_NEW 0 1; RET RET_EPERM; RET RET_ALLOW;
   JEQ (SYS "socket") 0 6; LD 16; JEQ (if network then AF_INET else UINT32_MAX) 2 0;
   JEQ (if network then AF_INET6 else UINT32_MAX) 1 0; RET RET_EPERM; RET RET_ALLOW;
   RET RET_EPERM; RET RET_ALLOW].

Lemma run_tail network d n fuel : 15 ≤ fuel → n ∉ denied →
  run fuel d n (tail_code network) = Some (call_verdict network n (u32 (arg0 d))).
Proof.
  intros Hf Hn. do 15 (destruct fuel as [|fuel]; [lia|]). unfold tail_code, call_verdict. rewrite (decide_False (P:=n ∈ denied)) by done.
  rewrite run_jeq. destruct (decide (n = SYS "clone3")); cbn [drop]; [apply run_ret|].
  rewrite run_jeq. destruct (decide (n = SYS "clone")); cbn [drop].
  { rewrite run_ld, run_jset. change (load d 16) with (u32 (arg0 d)).
    destruct (decide (Z.land (u32 (arg0 d)) CLONE_NEW = 0)%Z) as [E|E]; [rewrite decide_False by tauto|rewrite decide_True by done]; apply run_ret. }
  rewrite run_jeq. destruct (decide (n = SYS "socket")); cbn [drop]; [|apply run_ret].
  rewrite run_ld. change (load d 16) with (u32 (arg0 d)). rewrite run_jeq. generalize (u32 (arg0 d)). intros x.
  destruct (decide (x = if network then AF_INET else UINT32_MAX)) as [E|E]; cbn [drop].
  { rewrite decide_True; [apply run_ret|]. subst x. destruct network; set_solver. }
  rewrite run_jeq. destruct (decide (x = if network then AF_INET6 else UINT32_MAX)) as [E'|E']; cbn [drop].
  { rewrite decide_True; [apply run_ret|]. subst x. destruct network; set_solver. }
  rewrite decide_False; [apply run_ret|]. destruct network; set_solver.
Qed.

Lemma filter_length network : length (filter_code network) = (match m with x86_64 => 6 | aarch64 => 4 end) + length denied * 2 + 15.
Proof.
  assert (∀ l, length (l ≫= DENY) = length l * 2) as Hl.
  { intros l. induction l as [|x l IH]; [done|]. change ((x :: l) ≫= DENY) with (JEQ x 0 1 :: RET RET_EPERM :: (l ≫= DENY)). cbn. rewrite IH. lia. }
  unfold filter_code. rewrite !length_app, Hl. destruct m; cbn [length]; lia.
Qed.

(** C11: The seccomp filter of the launcher, run instruction by instruction on any system
    call, gives the verdict it means to.  A call of another architecture (or of the x32
    ABI) kills the process; the listed calls, [clone3], a [clone] that makes a namespace
    and every [socket] but an internet one under [--net] are refused; anything else is
    allowed.  Without [--net] the one family that passes is 0xffffffff, which no protocol
    has.  Every run of the program returns. *)
Theorem seccomp_filter_exact network d : run_filter network d = Some (verdict network d).
Proof.
  unfold run_filter, verdict. rewrite filter_length. unfold filter_code. fold (tail_code network).
  assert (∀ fuel, length denied * 2 + 15 ≤ fuel →
    run fuel d (u32 (nr d)) ((denied ≫= DENY) ++ tail_code network) = Some (call_verdict network (u32 (nr d)) (u32 (arg0 d)))) as Hrest.
  { intros fuel Hf. rewrite run_denies by lia. destruct (decide (u32 (nr d) ∈ denied)) as [Hn|Hn]; [|apply run_tail; [lia|done]].
    unfold call_verdict. by rewrite decide_True. }
  cbn [app]. destruct (decide (u32 (arch d) ≠ NATIVE_ARCH m)) as [Ha|Ha].
  { destruct m; cbn [plus]; rewrite run_ld, run_jeq; change (load d 4) with (u32 (arch d)); rewrite decide_False by done; apply run_ret. }
  apply dec_stable in Ha. destruct m; cbn [plus]; rewrite run_ld, run_jeq; change (load d 4) with (u32 (arch d));
    rewrite decide_True by done; cbn [drop]; rewrite run_ld; change (load d 0) with (u32 (nr d)).
  - rewrite decide_False by (by intros [? _]). apply Hrest. lia.
  - cbn [app]. rewrite run_jge. destruct (decide (0x40000000 ≤ u32 (nr d))%Z) as [Hx|Hx]; cbn [drop].
    + rewrite decide_True by done. apply run_ret.
    + rewrite decide_False by tauto. apply Hrest. lia.
Qed.

End filter.

(** ** The launcher enforces the policy it is given *)

Definition trimmed (paths : list string) : list string := (λ path, TrimSuffix path "/**") <$> paths.

Definition group_rules (rights : Z) (paths : list string) : list (string * Z) := (λ path, (path, rights)) <$> trimmed paths.

(** The rules a policy lists, and those it stands for, the command's own last. *)
Definition listed_rules (p : Policy) : list (string * Z) :=
  group_rules (Z.lor FS_READ FS_DIR) (Read p) ++ group_rules FS_MUTATE (Write_ p) ++ group_rules (Z.lor FS_READ FS_EXEC) (Execute p).

Definition policy_rules (p : Policy) (cmd : string) : list (string * Z) := listed_rules p ++ [(cmd, Z.lor FS_READ FS_EXEC)].

(** The rights a rule has on the file its path names. *)
Definition narrowed (k : Kernel) (r : string * Z) : string * Z := (fst r, narrow (default false (stat k (fst r))) (snd r)).

Definition enforced (k : Kernel) (p : Policy) (cmd : string) (command : list string) : Exec :=
  mkExec (narrowed k <$> policy_rules p cmd) (filter (λ fd, fd ∈ KeepFD p) (seqZ 3 61)) (Network p) command.

Definition exist (k : Kernel) (rs : list (string * Z)) : Prop := Forall (λ r, is_Some (stat k (fst r))) rs.

(** The system can install the policy. *)
Record installable (k : Kernel) (p : Policy) (cmd : string) : Prop := {
  in_abi : (6 ≤ abi k)%Z;
  in_calls : ∀ c, fails k c = false;
  in_paths : exist k (policy_rules p cmd);
  in_fds : Forall (λ fd, fd_open k fd = true) (KeepFD p);
}.

Definition plain_flag (flag : string) : Prop := flag ≠ "--" ∧ flag ≠ "--net" ∧ flag ≠ "--keep-fd".

Lemma rule_path_Ok path path' : rule_path path = Ok path' → path' = TrimSuffix path "/**" ∧ IsAbs path' = true.
Proof. unfold rule_path. cbv zeta. case_decide as H; [done|]. intros [= <-]. split; [done|]. destruct (IsAbs _) eqn:E; [done|]. tauto. Qed.

Lemma rule_outcome k path rights : IsAbs path = true →
  (rule k path rights = Ok (narrowed k (path, rights)) ∧ is_Some (stat k path)) ∨
  ((∃ e, rule k path rights = Err e) ∧ (fails k "landlock_add_rule" = true ∨ ¬ is_Some (stat k path))).
Proof.
  intros Ha. unfold rule, narrowed. rewrite Ha. cbn. destruct (stat k path) as [dir|] eqn:Hs; [|right; split; [by eexists|right; by intros [? ?]]].
  destruct (fails k "landlock_add_rule"); [right; split; [by eexists|by left]|left; cbn; eauto].
Qed.

(** The options of a group of rules add them in order, or the system refuses one. *)
Lemma options_rules k flag rights paths args : plain_flag flag → option_rights flag = Some rights → rule_args flag paths = Ok args →
  let rs := group_rules rights paths in
  (∀ rest o, options k (args ++ rest) o = options k rest (mkOptions (rules o ++ (narrowed k <$> rs)) (network o) (keep o))) ∧
    exist k rs ∨
  (∀ rest o, ∃ e, options k (args ++ rest) o = Err e) ∧
    (fails k "landlock_add_rule" = true ∨ ¬ exist k rs).
Proof.
  intros (F1 & F2 & F3) Hr. revert args. induction paths as [|path paths IH]; intros args; unfold group_rules; cbn [rule_args trimmed fmap list_fmap].
  { intros [= <-]. left. split; [|constructor]. intros rest [rs n kp]. cbn. by rewrite app_nil_r. }
  destruct (rule_path path) as [path'|] eqn:Hp; [|done]. destruct (rule_args flag paths) as [args'|] eqn:Ha; [|done]. intros [= <-].
  apply rule_path_Ok in Hp as [-> Habs]. specialize (IH args' eq_refl).
  assert (∀ rest o, options k ((flag :: TrimSuffix path "/**" :: args') ++ rest) o =
    match rule k (TrimSuffix path "/**") rights with Err e => Err e
    | Ok r => options k (args' ++ rest) (mkOptions (rules o ++ [r]) (network o) (keep o)) end) as Hstep.
  { intros rest o. cbn [app options]. rewrite (decide_False (P := flag = "--")), (decide_False (P := flag = "--net")), (decide_False (P := flag = "--keep-fd")), Hr by done. done. }
  destruct (rule_outcome k _ rights Habs) as [[Hrule Hs]|[[e Hrule] Hbad]].
  - destruct IH as [[IH Hall]|[IH Hbad]].
    + left. split; [|by constructor]. intros rest o. rewrite Hstep, Hrule, IH. cbn. by rewrite <-app_assoc.
    + right. split; [|destruct Hbad as [?|Hn]; [by left|right; intros Hall; apply Hn; by inversion Hall]].
      intros rest o. rewrite Hstep, Hrule. apply IH.
  - right. split; [intros rest o; exists e; by rewrite Hstep, Hrule|].
    destruct Hbad as [?|Hn]; [by left|right; intros Hall; apply Hn; by inversion Hall].
Qed.

Lemma strtol_pretty fd : (3 ≤ fd ≤ 63)%Z → strtol (pretty fd) = (fd, "").
Proof.
  intros Hfd. assert (forallb (λ fd, bool_decide (strtol (pretty fd) = (fd, ""))) (seqZ 3 61) = true) as Hall by (vm_compute; reflexivity).
  rewrite forallb_forall in Hall. eapply bool_decide_eq_true, Hall, list_elem_of_In, elem_of_seqZ. lia.
Qed.

Definition keep_mask (m : Z) (fds : list Z) : Z := foldl (λ m fd, Z.lor m (Z.shiftl 1 fd)) m fds.

Lemma options_keeps k fds args : keep_args fds = Ok args →
  (∀ rest o, options k (args ++ rest) o = options k rest (mkOptions (rules o) (network o) (keep_mask (keep o) fds))) ∧ Forall (λ fd, fd_open k fd = true) fds ∨
  (∀ rest o, ∃ e, options k (args ++ rest) o = Err e) ∧ ¬ Forall (λ fd, fd_open k fd = true) fds.
Proof.
  revert args. induction fds as [|fd fds IH]; intros args; cbn [keep_args].
  { intros [= <-]. left. split; [|constructor]. by intros rest [rs n kp]. }
  case_decide as Hfd; [done|]. destruct (keep_args fds) as [args'|]; [|done]. intros [= <-]. specialize (IH args' eq_refl).
  assert (∀ rest o, options k (("--keep-fd" :: pretty fd :: args') ++ rest) o =
    if fd_open k fd then options k (args' ++ rest) (mkOptions (rules o) (network o) (Z.lor (keep o) (Z.shiftl 1 fd))) else die "invalid delegated fd") as Hstep.
  { intros rest o. cbn [app options]. rewrite decide_False, decide_False, decide_True, strtol_pretty by (done || lia).
    destruct (fd_open k fd); [rewrite decide_False by (intros [?|[?|[?|?]]]; (done || lia))|rewrite decide_True by auto]; done. }
  destruct (fd_open k fd) eqn:Hopen.
  - destruct IH as [[IH Hall]|[IH Hn]]; [left|right].
    + split; [|by constructor]. intros rest o. by rewrite Hstep, IH.
    + split; [|intros Hall; apply Hn; by inversion Hall]. intros rest o. rewrite Hstep. apply IH.
  - right. split; [intros rest o; eexists; apply Hstep|]. intros Hall. inversion Hall. congruence.
Qed.

Lemma keep_mask_bit fds : ∀ m b, Forall (λ fd, 0 ≤ fd)%Z fds → (0 ≤ b)%Z →
  Z.testbit (keep_mask m fds) b = true ↔ Z.testbit m b = true ∨ b ∈ fds.
Proof.
  induction fds as [|fd fds IH]; intros m b Hpos Hb; cbn [keep_mask foldl]; [set_solver|].
  apply Forall_cons_1 in Hpos as [Hfd Hpos]. fold (keep_mask (Z.lor m (Z.shiftl 1 fd)) fds). rewrite IH by done.
  rewrite Z.lor_spec, orb_true_iff, Z.shiftl_spec, elem_of_cons by lia.
  assert (Z.testbit 1 (b - fd) = true ↔ b = fd) as ->; [|tauto].
  destruct (decide (b = fd)) as [->|Hne]; [by rewrite Z.sub_diag|].
  split; [|done]. intros H. exfalso. destruct (decide (b < fd)%Z); [by rewrite Z.testbit_neg_r in H by lia|].
  rewrite Z.bits_above_log2 in H; [done|lia|cbn; lia].
Qed.

Lemma keep_args_range fds args : keep_args fds = Ok args → Forall (λ fd, 3 ≤ fd ≤ 63)%Z fds.
Proof.
  revert args. induction fds as [|fd fds IH]; intros args; cbn; [by constructor|]. case_decide; [done|].
  destruct (keep_args fds); [|done]. intros _. constructor; [lia|]. by eapply IH.
Qed.

Lemma kept_fds_of fds args : keep_args fds = Ok args → kept_fds (keep_mask 0 fds) = filter (λ fd, fd ∈ fds) (seqZ 3 61).
Proof.
  intros H%keep_args_range. unfold kept_fds. apply list_filter_iff. intros b.
  destruct (decide (0 ≤ b)%Z) as [Hb|Hb].
  - rewrite keep_mask_bit, Z.testbit_0_l; [naive_solver| |done]. eapply List.Forall_impl; [|exact H]. cbn. lia.
  - rewrite Z.testbit_neg_r by lia. split; [done|]. intros Hin. apply (list_elem_of_lookup_1) in Hin as [i Hi].
    apply (Forall_lookup_1 _ _ _ _ H) in Hi. cbn in Hi. lia.
Qed.

Lemma not_installable k p cmd rs : rs ⊆ policy_rules p cmd →
  fails k "landlock_add_rule" = true ∨ ¬ exist k rs → ¬ installable k p cmd.
Proof.
  intros Hsub [Hf|Hn] [_ Hc Hp _]; [by rewrite Hc in Hf|]. apply Hn. unfold exist in *. rewrite Forall_forall in Hp |- *.
  intros r Hr. apply Hp, list_elem_of_In, Hsub, list_elem_of_In, Hr.
Qed.

Lemma options_args k p cmd rest args : Args p (cmd :: rest) = Ok args →
  options k args (mkOptions [] false 0) = Ok (mkOptions (narrowed k <$> listed_rules p) (Network p) (keep_mask 0 (KeepFD p)), cmd :: rest) ∧
    exist k (listed_rules p) ∧ Forall (λ fd, fd_open k fd = true) (KeepFD p) ∧ IsAbs cmd = true ∧ kept_fds (keep_mask 0 (KeepFD p)) = filter (λ fd, fd ∈ KeepFD p) (seqZ 3 61) ∨
  (∃ e, options k args (mkOptions [] false 0) = Err e) ∧ ¬ installable k p cmd.
Proof.
  unfold Args. case_decide as Hcmd; [done|]. assert (IsAbs cmd = true) as Habs by (by destruct (IsAbs cmd)).
  destruct (rule_args "--read" (Read p)) as [reads|] eqn:Hr; [|done]. destruct (rule_args "--write" (Write_ p)) as [writes|] eqn:Hw; [|done].
  destruct (rule_args "--execute" (Execute p)) as [exes|] eqn:Hx; [|done]. destruct (keep_args (KeepFD p)) as [keeps|] eqn:Hk; [|done].
  intros [= <-].
  destruct (options_rules k "--read" _ _ _ ltac:(done) eq_refl Hr) as [[Or Er]|[Or Hbad]].
  2: { right. split; [apply Or|]. eapply not_installable; [|exact Hbad]. unfold policy_rules, listed_rules. set_solver. }
  destruct (options_rules k "--write" _ _ _ ltac:(done) eq_refl Hw) as [[Ow Ew]|[Ow Hbad]].
  2: { right. split; [rewrite Or; apply Ow|]. eapply not_installable; [|exact Hbad]. unfold policy_rules, listed_rules. set_solver. }
  destruct (options_rules k "--execute" _ _ _ ltac:(done) eq_refl Hx) as [[Ox Ex]|[Ox Hbad]].
  2: { right. split; [rewrite Or, Ow; apply Ox|]. eapply not_installable; [|exact Hbad]. unfold policy_rules, listed_rules. set_solver. }
  assert (∀ o, network o = false → options k ((if Network p then ["--net"] else []) ++ keeps ++ ["--"] ++ cmd :: rest) o =
    options k (keeps ++ ["--"] ++ cmd :: rest) (mkOptions (rules o) (Network p) (keep o))) as Hnet.
  { intros [rs n kp] Hn. cbn in Hn. subst n. by destruct (Network p). }
  rewrite Or, Ow, Ox, Hnet by done. destruct (options_keeps k _ _ Hk) as [[Ok_ Ek]|[Ok_ Hbad]].
  - left. rewrite Ok_. split; [|split; [|eauto using kept_fds_of]; by repeat apply Forall_app_2]. unfold listed_rules. rewrite !fmap_app. cbn. by rewrite <-!app_assoc.
  - right. split; [apply Ok_|]. by intros [_ _ _ ?].
Qed.

Lemma first_failure_None k calls : first_failure k calls = None ∨ ∃ c, fails k c = true ∧ first_failure k calls = Some c.
Proof. induction calls as [|c calls IH]; [by left|]. cbn. destruct (fails k c) eqn:E; [right; eauto|done]. Qed.

Lemma enforce_policy k p cmd rest args : Args p (cmd :: rest) = Ok args →
  match main k args with
  | Ok e => e = enforced k p cmd (cmd :: rest)
  | Err _ => ¬ installable k p cmd
  end.
Proof.
  intros Hargs. unfold main. case_decide as Habi; [by intros [? _ _ _]; lia|].
  destruct (fails k "landlock_create_ruleset") eqn:Hf; [intros [_ Hc _ _]; by rewrite Hc in Hf|].
  destruct (options_args k p cmd rest args Hargs) as [(-> & He & Hfds & Habs & Hkept)|[[e ->] Hn]]; [|done].
  rewrite Habs. cbn [negb]. destruct (rule_outcome k cmd (Z.lor FS_READ FS_EXEC) Habs) as [[-> Hs]|[[e ->] Hbad]].
  - cbn [network keep rules]. match goal with |- context [first_failure k ?l] => destruct (first_failure_None k l) as [->|(c & Hc & ->)] end.
    + unfold enforced, policy_rules. by rewrite fmap_app, Hkept.
    + intros [_ Hall _ _]. by rewrite Hall in Hc.
  - intros [_ Hall Hp _]. destruct Hbad as [Hb|Hb]; [by rewrite Hall in Hb|].
    apply Forall_app in Hp as [_ Hp]. apply Forall_cons_1 in Hp as [Hp _]. done.
Qed.

(** C12: The launcher enforces the policy its arguments were compiled from, on any
    system.  Either it runs the command with the Landlock rules of the policy and no
    others (the rights of a rule on a plain file narrowed to those of files), with the
    delegated descriptors and no others open, with internet sockets admitted exactly when
    the policy has the network, and with its arguments unchanged; or it runs nothing, and
    the system could not install the policy. *)
Theorem launcher_enforces_policy k p cmd rest args : Args p (cmd :: rest) = Ok args →
  match main k args with
  | Ok e => e = enforced k p cmd (cmd :: rest)
  | Err _ => ¬ installable k p cmd
  end.
Proof. apply enforce_policy. Qed.

Lemma launcher_enforces_policy_witness :
  let p := mkPolicy ["/input/**"] ["/output"] [] false [3%Z] in
  let k := mkKernel 6 (λ path, Some (bool_decide (path ≠ "/engine"))) (λ _, true) (λ _, false) in
  match main k ["--read"; "/input"; "--write"; "/output"; "--keep-fd"; "3"; "--"; "/engine"; "x"] with
  | Ok e => e = enforced k p "/engine" ["/engine"; "x"]
  | Err _ => ¬ installable k p "/engine"
  end.
Proof.
  apply (launcher_enforces_policy (mkKernel 6 (λ path, Some (bool_decide (path ≠ "/engine"))) (λ _, true) (λ _, false))
    (mkPolicy ["/input/**"] ["/output"] [] false [3%Z]) "/engine" ["x"]).
  vm_compute. reflexivity.
Defined.

(** The right [bit] on the file a path names, given by a rule of its own. *)
Definition grants (e : Exec) (path : string) (right : Z) : Prop :=
  ∃ rights, (path, rights) ∈ exec_rules e ∧ Z.land rights right ≠ 0%Z.

Lemma narrow_land dir rights x : Z.land (narrow dir rights) x ≠ 0%Z → Z.land rights x ≠ 0%Z.
Proof.
  unfold narrow. destruct dir; [done|]. intros H E. apply H.
  by rewrite <-Z.land_assoc, (Z.land_comm _ x), Z.land_assoc, E, Z.land_0_l.
Qed.

Lemma grants_enforced k p cmd command path x : grants (enforced k p cmd command) path x →
  path ∈ trimmed (Read p) ∧ Z.land (Z.lor FS_READ FS_DIR) x ≠ 0%Z ∨ path ∈ trimmed (Write_ p) ∧ Z.land FS_MUTATE x ≠ 0%Z ∨
  (path ∈ trimmed (Execute p) ∨ path = cmd) ∧ Z.land (Z.lor FS_READ FS_EXEC) x ≠ 0%Z.
Proof.
  intros (rights & Hin & Hx). cbn in Hin. apply list_elem_of_fmap in Hin as ([path' r] & [= -> ->] & Hin). cbn in *.
  apply narrow_land in Hx. unfold policy_rules, listed_rules, group_rules in Hin. set_solver.
Qed.

(** An engine started from a compiled manifest is confined to it.  A rule that lets it
    change a file is one of the manifest's write rules; a rule that lets it read one is a
    read rule or the engine's own; the engine is all it may execute, whatever tools the
    manifest declares; it keeps only the descriptors it was delegated, and has internet
    sockets only if the manifest has the network. *)
Theorem compiled_manifest_confined m launcher cmd rest fds plan k e :
  Compile m launcher (cmd :: rest) fds = Ok plan → main k (plan_Args plan) = Ok e →
  exec_argv e = cmd :: rest ∧ exec_network e = Net m ∧ (∀ fd, fd ∈ exec_fds e → fd ∈ fds) ∧
  (∀ path, grants e path FS_MUTATE → path ∈ trimmed (normalizeRules (FSWrite m))) ∧
  (∀ path, grants e path (Z.lor FS_READ FS_DIR) → path ∈ trimmed (normalizeRules (FSRead m)) ∨ path = cmd) ∧
  (∀ path, grants e path FS_EXEC → path = cmd).
Proof.
  unfold Compile. case_decide; [done|]. case_decide; [done|]. cbv zeta. destruct (find_first _ _); [done|].
  set (p := mkPolicy _ _ _ _ _). destruct (Args p (cmd :: rest)) as [args|] eqn:Hargs; [|done]. intros [= <-] He. cbn in He.
  pose proof (enforce_policy k p cmd rest args Hargs) as Hp. rewrite He in Hp. subst e. cbn [enforced exec_argv exec_network exec_fds].
  split; [done|]. split; [done|]. split; [intros fd Hfd; apply list_elem_of_filter in Hfd; tauto|].
  split; [|split]; intros path Hg%grants_enforced; cbn in Hg;
    destruct Hg as [[Hin Hx]|[[Hin Hx]|[[Hin|Hin] Hx]]]; auto; set_solver.
Qed.

Lemma compiled_manifest_confined_witness :
  let m := mkManifest ["/input/**"] ["/output"] false ["/bin/sh"] in
  let k := mkKernel 6 (λ path, Some (bool_decide (path ≠ "/engine"))) (λ _, true) (λ _, false) in
  let e := mkExec [("/input", Z.lor FS_READ FS_DIR); ("/output", FS_MUTATE); ("/engine", Z.lor FS_READ FS_EXEC)] [3%Z] false ["/engine"] in
  exec_argv e = ["/engine"] ∧ exec_network e = Net m ∧ (∀ fd, fd ∈ exec_fds e → fd ∈ [3%Z]) ∧
  (∀ path, grants e path FS_MUTATE → path ∈ trimmed (normalizeRules (FSWrite m))) ∧
  (∀ path, grants e path (Z.lor FS_READ FS_DIR) → path ∈ trimmed (normalizeRules (FSRead m)) ∨ path = "/engine") ∧
  (∀ path, grants e path FS_EXEC → path = "/engine").
Proof.
  eapply (compiled_manifest_confined (mkManifest ["/input/**"] ["/output"] false ["/bin/sh"]) "/launcher" "/engine" [] [3%Z] _
    (mkKernel 6 (λ path, Some (bool_decide (path ≠ "/engine"))) (λ _, true) (λ _, false))).
  - vm_compute. reflexivity.
  - vm_compute. reflexivity.
Defined.

(** A rule with the recursion marker twice, which the launcher's argument compiler
    refuses, passes through a manifest. *)
Lemma double_marker_accepted :
  is_ok (Args (mkPolicy ["/data/**/**"] [] [] false []) ["/engine"]) = false ∧
  is_ok (Compile (mkManifest ["/data/**/**"] [] false []) "/launcher" ["/engine"] []) = true.
Proof. split; vm_compute; reflexivity. Qed.
