(* ===== verification/Process.v ===== *)
(** * process_provider.go: an engine in a process of its own

    The provider starts the engine's process when it is needed, at most so many times a
    minute, reaps it when a call fails, and completes a prompt by three calls over the
    engine protocol.  What the system answers (files, sockets, processes, time) is an
    argument of the operations. *)

From Stdlib Require Import Ascii.
From stdpp Require Import base tactics option list gmap strings numbers pretty sorting.
From S2P Require Import Prelude GoLib Json Ledger State Protocol Engine Restart Sandbox.

Module Proc.
Record ProcessProviderConfig := mkConfig {
  Command : string;
  Arguments_ : list string;
  StartupTimeout : Z;
  RequestTimeout : Z;
  ShutdownTimeout : Z;
  MaxStarts : Z;
  ResourceController : bool; (* whether there is one *)
  SandboxLauncher : string;
  SandboxPolicy : Policy;
}.

(** What the provider's operations hold of the system. *)
Record Held := mkHeld {
  dirs : Z;
  listeners : Z;
  files : Z;
  children : Z;
}.

Record ProcessProvider := mk {
  config : ProcessProviderConfig;
  starts : list Z;
  child : bool;
  closed : bool;
  held : Held;
  spawned : list Z; (* of the processes that were started, the clock readings of their starts *)
}.
End Proc.
Abbreviation ProcessProviderConfig := Proc.ProcessProviderConfig.
Abbreviation ProcessProvider := Proc.ProcessProvider.

Definition NewProcessProvider (c : ProcessProviderConfig) : result error ProcessProvider :=
  if decide (Proc.Command c = "" ∨ IsAbs (Proc.Command c) = false) then Err (New "engine command must be absolute")
  else
    let c := {| c with Proc.StartupTimeout := with_default (Proc.StartupTimeout c) (5 * second);
                       Proc.RequestTimeout := with_default (Proc.RequestTimeout c) (2 * minute);
                       Proc.ShutdownTimeout := with_default (Proc.ShutdownTimeout c) second;
                       Proc.MaxStarts := with_default (Proc.MaxStarts c) 5 |} in
    if decide (Proc.StartupTimeout c < 0 ∨ Proc.RequestTimeout c ≤ 0 ∨ Proc.ShutdownTimeout c < 0 ∨ Proc.MaxStarts c < 1)%Z
    then Err (New "invalid process provider limits")
    else Ok (Proc.mk c [] false false (Proc.mkHeld 0 0 0 0) []).

(** ** Starting the process *)

(** The separator goes in front of the first [--aok-child]. *)
Fixpoint split_child (args : list string) : list string :=
  match args with
  | [] => []
  | arg :: rest => if decide (arg = "--aok-child") then "--" :: arg :: rest else arg :: split_child rest
  end.

(** The command to run and its arguments: the engine's own, or the launcher's. *)
Definition engine_argv (c : ProcessProviderConfig) : result error (string * list string) :=
  let args := split_child (Proc.Arguments_ c) in
  if decide (Proc.SandboxLauncher c = "") then Ok (Proc.Command c, args)
  else
    let pol := Proc.SandboxPolicy c in
    let pol := if decide (KeepFD pol = []) then mkPolicy (Sandbox.Read pol) (Write_ pol) (Execute pol) (Network pol) [3%Z] else pol in
    match Args pol (Proc.Command c :: args) with
    | Err e => Err e
    | Ok args => Ok (Proc.SandboxLauncher c, args)
    end.

(** What ends the wait after an attempt to reach the child: it exited, the caller gave up,
    the time is over, or five milliseconds have passed. *)
Inductive wakeup : Type :=
  | Done
  | CtxDone (e : error)
  | TimerFired
  | After5ms.

(** One attempt: whether the connection was made and the request written, what the child
    sent within the deadline, and what ended the wait after it. *)
Record probe := mkProbe { pr_dialled : bool; pr_written : bool; pr_stream : string; pr_wakeup : wakeup }.

(** What the system answers to the steps of a start.  The timer fires after the last of the
    attempts, if nothing else ends them. *)
Record launch := mkLaunch {
  mkdir : option error;
  listen : option error;
  listener_file : option error;
  spawn : option error;
  attach : option error;
  probes : list probe;
}.

Definition add_held (d l f c : Z) (p : ProcessProvider) : ProcessProvider :=
  let h := Proc.held p in
  {| p with Proc.held := Proc.mkHeld (Proc.dirs h + d) (Proc.listeners h + l) (Proc.files h + f) (Proc.children h + c) |}.

(** Kill the child and wait for it, close its listener again, remove its directory. *)
Definition reapLocked (p : ProcessProvider) : ProcessProvider :=
  if Proc.child p then {| (add_held (-1) 0 0 (-1) p) with Proc.child := false |} else p.

(** The child answered the request [1] without an error. *)
Definition answers (pr : probe) : bool :=
  pr_dialled pr && pr_written pr &&
  match fst (Protocol.Read (pr_stream pr)) with
  | Received m => bool_decide (Rpc.ID m = "1" ∧ Rpc.Error m = None)
  | _ => false
  end.

(** The loop that waits until the child is ready. *)
Fixpoint await_ready (l : list probe) (p : ProcessProvider) : option error * ProcessProvider :=
  match l with
  | [] => (Some (New "engine startup timeout"), reapLocked p)
  | pr :: l =>
      if answers pr then (None, p)
      else match pr_wakeup pr with
           | Done => (Some (New "engine exited during startup"), reapLocked p)
           | CtxDone e => (Some e, reapLocked p)
           | TimerFired => (Some (New "engine startup timeout"), reapLocked p)
           | After5ms => await_ready l p
           end
  end.

(** The steps of a start that was admitted. *)
Definition launch_child (now : Z) (w : launch) (p : ProcessProvider) : option error * ProcessProvider :=
  match mkdir w with Some e => (Some e, p) | None =>
  let p := add_held 1 0 0 0 p in
  match listen w with Some e => (Some e, add_held (-1) 0 0 0 p) | None =>
  let p := add_held 0 1 0 0 p in
  match listener_file w with Some e => (Some e, add_held (-1) (-1) 0 0 p) | None =>
  let p := add_held 0 0 1 0 p in
  match engine_argv (Proc.config p) with Err e => (Some e, add_held (-1) (-1) (-1) 0 p) | Ok _ =>
  match spawn w with Some e => (Some e, add_held (-1) (-1) (-1) 0 p) | None =>
  let p := {| (add_held 0 0 0 1 p) with Proc.spawned := Proc.spawned p ++ [now] |} in
  match (if Proc.ResourceController (Proc.config p) then attach w else None) with
  | Some e => (Some e, add_held 0 0 0 (-1) p)
  | None =>
      let p := {| (add_held 0 (-1) (-1) 0 p) with Proc.child := true |} in
      await_ready (probes w) p
  end end end end end end.

Definition startLocked (now : Z) (w : launch) (p : ProcessProvider) : option error * ProcessProvider :=
  if Proc.closed p then (Some (New "engine process closed"), p)
  else if Proc.child p then (None, p)
  else
    match admit_start (Proc.MaxStarts (Proc.config p)) minute now (Proc.starts p) with
    | None => (Some ErrRestartIntensity, {| p with Proc.starts := recent minute now (Proc.starts p) |})
    | Some starts => launch_child now w {| p with Proc.starts := starts |}
    end.

Definition Close (p : ProcessProvider) : ProcessProvider :=
  if Proc.closed p then p else reapLocked {| p with Proc.closed := true |}.

(** ** The calls *)

(** What a call reads on the way to its response: the text so far and the usage. *)
Definition gathered : Type := string * Usage.

Definition set_usage (acc : Usage * bool) (kv : string * json) : Usage * bool :=
  if field_match "usage" (fst kv) then
    match snd kv with
    | JNull => acc
    | JObj _ =>
        let u := fst acc in
        let '(i, ok1) := decode_field as_uint64 "input_tokens" (InputTokens u) (Some (snd kv)) in
        let '(o, ok2) := decode_field as_uint64 "output_tokens" (OutputTokens u) (Some (snd kv)) in
        let '(c, ok3) := decode_field as_uint64 "cached_tokens" (CachedTokens u) (Some (snd kv)) in
        (mkUsage i o c, snd acc && ok1 && ok2 && ok3)
    | _ => (fst acc, false)
    end
  else acc.

Definition usage_field (params : string) : Usage * bool :=
  match parse params with
  | Some (JObj ms) => fold_left set_usage ms (no_usage, true)
  | Some JNull => (no_usage, true)
  | _ => (no_usage, false)
  end.

(** A notification on the way. *)
Definition gather (m : Message) (g : gathered) : result error gathered :=
  if decide (Rpc.Method m = "session/chunk") then
    let '(t, ok) := string_field "text" (Rpc.Params m) in
    if (ok : bool) then Ok (fst g +:+ t, snd g) else Err (New "invalid engine chunk")
  else if decide (Rpc.Method m = "session/usage") then
    let '(u, ok) := usage_field (Rpc.Params m) in
    if (ok : bool) then Ok (fst g, u) else Err (New "invalid engine usage")
  else Ok g.

(** Read up to the response.  [cut] is the error at the end of the stream. *)
Fixpoint await (fuel : nat) (cut : error) (id stream : string) (g : gathered) : result error Message * string * gathered :=
  match fuel with
  | 0 => (Err cut, stream, g)
  | S fuel =>
      match Protocol.Read stream with
      | (Broken, stream) => (Err cut, stream, g)
      | (ParseError, stream) => (Err (New "parse error"), stream, g)
      | (InvalidMessage, stream) => (Err ErrInvalidMessage, stream, g)
      | (Received m, stream) =>
          if decide (Rpc.Method m ≠ "") then
            match gather m g with
            | Err e => (Err e, stream, g)
            | Ok g => await fuel cut id stream g
            end
          else if decide (Rpc.ID m ≠ id) then (Err (New "engine response ID mismatch"), stream, g)
          else match Rpc.Error m with
               | Some e => (Err (New ("engine request rejected: " +:+ Rpc.Text e)), stream, g)
               | None => (Ok m, stream, g)
               end
      end
  end.

Definition request (id method params : string) : Message := Rpc.mk "2.0" id method params "" None.

(** The requests of a completion. *)
Definition hello : Message := request "1" "initialize" "{}".
Definition ask_session : Message := request "2" "session/new" "{}".
Definition ask_prompt (session prompt : string) : Message :=
  request "3" "session/prompt"
    (marshal_map [("session_id", json_quote session); ("request_id", json_quote "turn-1"); ("text", json_quote prompt)]).

(** One call: the request is written, which may fail, and its response awaited. *)
Definition call (m : Message) (wrote : option error) (cut : error) (stream : string) (g : gathered)
    : result error Message * string * gathered :=
  match wrote with
  | Some e => (Err e, stream, g)
  | None => await (S (String.length stream)) cut (Rpc.ID m) stream g
  end.

(** The system on one completion. *)
Module Xch.
Record exchange := mk {
  cancelled : option error; (* the caller's context, before *)
  now : Z;
  world : launch;
  dial : option error;
  wrote1 : option error;
  wrote2 : option error;
  wrote3 : option error;
  stream : string; (* what the engine sends *)
  cut : error; (* how it ends *)
  expired : option error; (* the request's context, after *)
}.
End Xch.
Abbreviation exchange := Xch.exchange.

Definition converse (prompt : string) (x : exchange) : option error * gathered :=
  match call hello (Xch.wrote1 x) (Xch.cut x) (Xch.stream x) ("", no_usage) with
  | (Err e, _, g) => (Some e, g)
  | (Ok _, s, g) =>
      match call ask_session (Xch.wrote2 x) (Xch.cut x) s g with
      | (Err e, _, g) => (Some e, g)
      | (Ok m, s, g) =>
          let '(session, ok) := string_field "session_id" (Rpc.Result m) in
          if negb ok then (Some (New "json"), g)
          else if decide (session = "") then (Some (New "empty engine session"), g)
          else
            match call (ask_prompt session prompt) (Xch.wrote3 x) (Xch.cut x) s g with
            | (Err e, _, g) => (Some e, g)
            | (Ok m, _, g) =>
                let '(reason, ok) := string_field "stop_reason" (Rpc.Result m) in
                if negb ok then (Some (New "json"), g)
                else if decide (reason ≠ "completed") then (Some (New "engine turn did not complete"), g)
                else (None, g)
            end
      end
  end.

(** The error, the text and the usage of a completion. *)
Definition Complete (prompt : string) (x : exchange) (p : ProcessProvider) : (option error * string * Usage) * ProcessProvider :=
  if decide (maxTextBytes < len prompt)%Z then ((Some (New "prompt exceeds engine limit"), "", no_usage), p)
  else
    match Xch.cancelled x with
    | Some e => ((Some e, "", no_usage), p)
    | None =>
        match startLocked (Xch.now x) (Xch.world x) p with
        | (Some e, p) => ((Some e, "", no_usage), p)
        | (None, p) =>
            match Xch.dial x with
            | Some e => ((Some e, "", no_usage), reapLocked p)
            | None =>
                match converse prompt x with
                | (Some e, g) => ((Some (default e (Xch.expired x)), "", snd g), reapLocked p)
                | (None, g) => ((None, fst g, snd g), p)
                end
            end
        end
    end.

(** ** What the provider holds *)

Inductive operation : Type :=
  | OComplete (prompt : string) (x : exchange)
  | OClose.

Definition perform (o : operation) (p : ProcessProvider) : ProcessProvider :=
  match o with
  | OComplete prompt x => snd (Complete prompt x p)
  | OClose => Close p
  end.

(** The operations one after the other. *)
Definition history_of (ops : list operation) (p : ProcessProvider) : ProcessProvider := fold_left (λ p o, perform o p) ops p.

(** The times of completions, and that the engine's process can be put under the controller. *)
Definition times (ops : list operation) : list Z := ops ≫= λ o, match o with OComplete _ x => [Xch.now x] | OClose => [] end.
Definition attachable (o : operation) : Prop := match o with OComplete _ x => attach (Xch.world x) = None | OClose => True end.

(** A directory and a process for the child, and nothing else. *)
Record tidy (p : ProcessProvider) : Prop := {
  ti_held : Proc.held p = if Proc.child p then Proc.mkHeld 1 0 0 1 else Proc.mkHeld 0 0 0 0;
  ti_closed : Proc.closed p = true → Proc.child p = false;
}.

Lemma tidy_reap p : tidy p → tidy (reapLocked p).
Proof.
  intros [H C]. unfold reapLocked. destruct (Proc.child p) eqn:E; [|by split; rewrite ?E]. split; [|done].
  cbn. by rewrite H.
Qed.

(** The wait ends with the child ready, or with the child reaped. *)
Lemma await_ready_cases l p :
  (await_ready l p = (None, p) ∧ ∃ pr, pr ∈ l ∧ answers pr = true) ∨ ∃ e, await_ready l p = (Some e, reapLocked p).
Proof.
  induction l as [|pr l IH]; cbn [await_ready]; [eauto|]. destruct (answers pr) eqn:E; [left; split; [done|]; exists pr; by split; [left|]|].
  destruct (pr_wakeup pr); eauto. destruct IH as [[H (pr' & ? & ?)]|H]; [left; split; [done|]; exists pr'; by split; [right|]|by right].
Qed.

Lemma tidy_launch n w p : attach w = None → Proc.child p = false → Proc.closed p = false → tidy p → tidy (snd (launch_child n w p)).
Proof.
  intros Ha Hc Hcl [H _]. rewrite Hc in H. destruct p as [c st ch cl h sp]. cbn in *. subst. unfold launch_child. rewrite Ha.
  destruct (mkdir w); [by split|]. destruct (listen w); [by split|]. destruct (listener_file w); [by split|]. cbn.
  destruct (engine_argv c); [|by split]. destruct (spawn w); [by split|].
  destruct (Proc.ResourceController c);
    match goal with |- context [await_ready ?l ?p] => destruct (await_ready_cases l p) as [[-> _]|[e ->]] end; by split.
Qed.

Lemma tidy_start n w p : attach w = None → tidy p → tidy (snd (startLocked n w p)).
Proof.
  intros Ha Ht. unfold startLocked. destruct (Proc.closed p) eqn:Hcl; [done|]. destruct (Proc.child p) eqn:Hc; [done|].
  pose proof (ti_held _ Ht) as Hh. rewrite Hc in Hh. destruct (admit_start _ _ _ _) as [st|]; [apply tidy_launch; [done..|]|];
    (split; cbn; [done|congruence]).
Qed.

Lemma tidy_perform o p : attachable o → tidy p → tidy (perform o p).
Proof.
  intros Ha Ht. destruct o as [prompt x|]; cbn in *.
  - unfold Complete. case_decide; [done|]. destruct (Xch.cancelled x); [done|].
    pose proof (tidy_start (Xch.now x) (Xch.world x) p Ha Ht) as Hs. destruct (startLocked _ _ _) as [[e|] p']; [done|]. cbn in Hs.
    destruct (Xch.dial x); [by apply tidy_reap|]. destruct (converse prompt x) as [[e|] g]; [by apply tidy_reap|done].
  - unfold Close. destruct (Proc.closed p) eqn:Hcl; [done|]. destruct Ht as [Hh _]. unfold reapLocked. cbn.
    destruct (Proc.child p) eqn:Hc; split; cbn; try done. by rewrite Hh.
Qed.

Lemma reap_kept p :
  Proc.config (reapLocked p) = Proc.config p ∧ Proc.starts (reapLocked p) = Proc.starts p ∧ Proc.spawned (reapLocked p) = Proc.spawned p.
Proof. unfold reapLocked. by destruct (Proc.child p). Qed.

(** A launch leaves the window alone, and starts at most one process. *)
Lemma launch_kept n w p :
  Proc.config (snd (launch_child n w p)) = Proc.config p ∧ Proc.starts (snd (launch_child n w p)) = Proc.starts p ∧
  (Proc.spawned (snd (launch_child n w p)) = Proc.spawned p ∨ Proc.spawned (snd (launch_child n w p)) = Proc.spawned p ++ [n]).
Proof.
  unfold launch_child. destruct (mkdir w); [auto|]. destruct (listen w); [auto|]. destruct (listener_file w); [auto|]. cbn.
  destruct (engine_argv (Proc.config p)); [|auto]. destruct (spawn w); [auto|].
  destruct (if Proc.ResourceController (Proc.config p) then attach w else None); [auto|].
  match goal with |- context [await_ready ?l ?q] => destruct (await_ready_cases l q) as [[-> _]|[e ->]] end; cbn; [auto|].
  unfold reapLocked. cbn. auto.
Qed.

(** ** How often a process is started *)

Lemma sublist_window (l l' : list Z) : l `sublist_of` l' → ∀ i n a b,
  l !! i = Some a → l !! (i + n) = Some b → ∃ j m, n ≤ m ∧ l' !! j = Some a ∧ l' !! (j + m) = Some b.
Proof.
  induction 1 as [|x l l' Hs IH|x l l' Hs IH]; intros i n a b Ha Hb; [done| |].
  - destruct i as [|i]; cbn in *.
    + injection Ha as <-. destruct n as [|n]; cbn in Hb; [injection Hb as <-; by exists 0, 0|].
      change (l !! n = Some b) in Hb. pose proof (lookup_lt_Some _ _ _ Hb) as Hn.
      destruct (lookup_lt_is_Some_2 l 0) as [c Hc]; [lia|]. destruct (IH 0 n c b Hc Hb) as (j & m & Hm & _ & Hb').
      exists 0, (S (j + m)). split_and!; [lia|done|done].
    + destruct (IH i n a b Ha Hb) as (j & m & Hm & Hj & Hjm). by exists (S j), m.
  - destruct (IH i n a b Ha Hb) as (j & m & Hm & Hj & Hjm). by exists (S j), m.
Qed.

Lemma ascending_lookup l : ascending l → ∀ i j a b, i ≤ j → l !! i = Some a → l !! j = Some b → (a ≤ b)%Z.
Proof.
  induction l as [|t l IH]; intros Ha i j a b Hij Hi Hj; [done|]. destruct Ha as [Ht Ha].
  destruct j as [|j]; [destruct i; [cbn in *; simplify_eq; lia|lia]|]. destruct i as [|i]; cbn in *.
  - injection Hi as <-. by eapply Forall_lookup_1 in Hj; [|exact Ht].
  - eapply (IH Ha i j); [lia|done..].
Qed.

(** Some of the starts: they are no closer to each other. *)
Lemma spaced_sublist limit window l l' : l `sublist_of` l' → ascending l' → spaced limit window l' → spaced limit window l.
Proof.
  intros Hs Ha Hsp i a b Hi Hb. destruct (sublist_window l l' Hs i limit a b Hi Hb) as (j & m & Hm & Hj & Hjm).
  assert (is_Some (l' !! (j + limit))) as [c Hc].
  { apply lookup_lt_is_Some_2. apply lookup_lt_Some in Hjm. lia. }
  pose proof (Hsp j a c Hj Hc). pose proof (ascending_lookup _ Ha (j + limit) (j + m) c b ltac:(lia) Hc Hjm). lia.
Qed.

(** The processes were started by starts that were admitted. *)
Definition log_inv (limit : nat) (clock : Z) (p : ProcessProvider) : Prop :=
  Proc.MaxStarts (Proc.config p) = Z.of_nat limit ∧
  ∃ admitted, Proc.spawned p `sublist_of` admitted ∧ ascending admitted ∧ Forall (λ t, t ≤ clock)%Z admitted ∧
    window_inv limit minute clock admitted (Proc.starts p).

Lemma log_inv_kept limit clock p p' :
  Proc.config p' = Proc.config p → Proc.starts p' = Proc.starts p → Proc.spawned p' = Proc.spawned p →
  log_inv limit clock p → log_inv limit clock p'.
Proof. unfold log_inv. by intros -> -> ->. Qed.

Lemma log_inv_later limit clock now p : (clock ≤ now)%Z → log_inv limit clock p → log_inv limit now p.
Proof.
  intros Hle (Hm & adm & Hs & Ha & Hc & [(old & E & Hold) H2 H3 H4]). split; [done|]. exists adm. split_and!; [done..| |].
  - eapply List.Forall_impl; [|exact Hc]; cbn; lia.
  - split; [|done| |done].
    + exists old. split; [done|]. eapply List.Forall_impl; [|exact Hold]; cbn; lia.
    + eapply List.Forall_impl; [|exact H3]; cbn; lia.
Qed.

Lemma start_log limit now w p : log_inv limit now p → log_inv limit now (snd (startLocked now w p)).
Proof.
  intros Hi. unfold startLocked. destruct (Proc.closed p); [done|]. destruct (Proc.child p); [done|].
  destruct Hi as (Hm & adm & Hs & Ha & Hc & Hw). rewrite Hm. destruct (admit_start _ _ _ _) as [st|] eqn:Hadm.
  - match goal with |- context [launch_child now w ?q] => destruct (launch_kept now w q) as (Ec & Es & Esp) end. cbn in Esp.
    unfold log_inv. rewrite Ec, Es. split; [done|]. exists (adm ++ [now]). split_and!.
    + destruct Esp as [-> | ->]; [by apply sublist_inserts_r|by apply sublist_app].
    + by apply ascending_snoc.
    + apply Forall_app. split; [done|]. by apply Forall_singleton.
    + by eapply admit_inv.
  - split; [done|]. exists adm. split_and!; [done..|]. by eapply recent_inv.
Qed.

Lemma perform_log limit clock o p :
  log_inv limit clock p → Forall (λ t, clock ≤ t)%Z (times [o]) → log_inv limit (default clock (head (times [o]))) (perform o p).
Proof.
  intros Hi Hc. destruct o as [prompt x|]; cbn [perform].
  - apply Forall_cons_1 in Hc as [Hc _]. change (default clock (head (times [OComplete prompt x]))) with (Xch.now x).
    apply (log_inv_later _ _ (Xch.now x)) in Hi; [|done]. unfold Complete. case_decide; [done|]. destruct (Xch.cancelled x); [done|].
    apply (start_log _ _ (Xch.world x)) in Hi. destruct (startLocked _ _ _) as [[e|] p']; [done|]. cbn in Hi.
    destruct (reap_kept p') as (E1 & E2 & E3).
    destruct (Xch.dial x); [by eapply log_inv_kept|]. destruct (converse prompt x) as [[e|] g]; [by eapply log_inv_kept|done].
  - cbn. unfold Close. destruct (Proc.closed p); [done|].
    destruct (reap_kept {| p with Proc.closed := true |}) as (E1 & E2 & E3). by eapply log_inv_kept.
Qed.

Lemma times_cons o ops : times (o :: ops) = times [o] ++ times ops.
Proof. destruct o; [|done]. cbn. reflexivity. Qed.

Lemma history_log limit ops : ∀ clock p,
  log_inv limit clock p → ascending (clock :: times ops) → ∃ clock', log_inv limit clock' (history_of ops p).
Proof.
  induction ops as [|o ops IH]; intros clock p Hi Ha; [by exists clock|].
  rewrite times_cons in Ha. destruct Ha as [Hc Ha]. apply Forall_app in Hc as [Hc Hr].
  apply (IH _ _ (perform_log limit clock o p Hi Hc)). destruct o as [prompt x|]; cbn in Ha |- *; [done|]. by split.
Qed.

Lemma history_tidy ops : ∀ p, Forall attachable ops → tidy p → tidy (history_of ops p).
Proof.
  induction ops as [|o ops IH]; intros p Ha Ht; [done|]. apply Forall_cons_1 in Ha as [Ho Ha].
  apply (IH _ Ha (tidy_perform o p Ho Ht)).
Qed.

(** A start that succeeds leaves a child, and a new child has answered. *)
Lemma start_ready n w p p' : startLocked n w p = (None, p') →
  Proc.child p' = true ∧ (Proc.child p = false → ∃ pr, pr ∈ probes w ∧ answers pr = true).
Proof.
  unfold startLocked. destruct (Proc.closed p); [done|]. destruct (Proc.child p) eqn:Hc; [by intros [= <-]|].
  destruct (admit_start _ _ _ _) as [st|]; [|done]. unfold launch_child.
  destruct (mkdir w); [done|]. destruct (listen w); [done|]. destruct (listener_file w); [done|].
  destruct (engine_argv _); [|done]. destruct (spawn w); [done|].
  destruct (if Proc.ResourceController _ then attach w else None); [done|].
  match goal with |- context [await_ready ?l ?q] => destruct (await_ready_cases l q) as [[-> Hpr]|[e ->]] end; [|done].
  intros [= <-]. done.
Qed.

(** C37: The process provider holds what its child needs and nothing more.  After any
    completions, whether they succeed or fail at any step, and any closing, it owns one
    process and one directory if it has a child and nothing otherwise, a closed provider
    has no child, and of the processes that were started any [MaxStarts] + 1 successive
    ones have starts that are at least a minute apart, by the clock readings of the starts.
    A start that succeeds leaves a child, and a child it made has answered a request.
    The completions are those whose process the resource controller takes. *)
Theorem process_provider_contained c p0 ops :
  NewProcessProvider c = Ok p0 → Forall attachable ops → ascending (times ops) →
  let p := history_of ops p0 in
  Proc.held p = (if Proc.child p then Proc.mkHeld 1 0 0 1 else Proc.mkHeld 0 0 0 0) ∧
  (Proc.closed p = true → Proc.child p = false) ∧
  spaced (Z.to_nat (Proc.MaxStarts (Proc.config p0))) minute (Proc.spawned p) ∧
  ∀ now w p', startLocked now w p = (None, p') →
    Proc.child p' = true ∧ (Proc.child p = false → ∃ pr, pr ∈ probes w ∧ answers pr = true).
Proof.
  intros Hnew Hat Hasc p.
  assert (tidy p0 ∧ Proc.starts p0 = [] ∧ Proc.spawned p0 = [] ∧ (0 ≤ Proc.MaxStarts (Proc.config p0))%Z) as (Ht & Hst & Hsp & Hm).
  { unfold NewProcessProvider in Hnew. case_decide; [done|]. cbv zeta in Hnew. case_decide; [done|]. injection Hnew as <-. cbn in *.
    split_and!; try done. lia. }
  pose proof (history_tidy ops p0 Hat Ht) as [H1 H2]. split_and!; [done..| |intros now w p'; apply start_ready].
  destruct (history_log (Z.to_nat (Proc.MaxStarts (Proc.config p0))) ops (default 0%Z (head (times ops))) p0) as (clock & _ & adm & Hs & Ha & _ & Hw).
  - split; [lia|]. exists []. rewrite Hst, Hsp. split_and!; try done. split; [by exists []|done|constructor|by intros j a b Hj].
  - destruct (times ops) as [|t ts]; [done|]. cbn in *. destruct Hasc as [Hn Hasc]. split; [by constructor|done].
  - eapply spaced_sublist; [exact Hs|exact Ha|apply Hw].
Qed.

Definition sample_config : ProcessProviderConfig :=
  Proc.mkConfig "/usr/bin/engine" ["--aok-child"] 0 0 0 0 true "" (mkPolicy [] [] [] false []).

(** The child answers at the second attempt. *)
Definition ready_line : string := default "" (Write (Rpc.mk "2.0" "1" "" "" "{}" None)).
Definition launched : launch :=
  mkLaunch None None None None None [mkProbe false false "" After5ms; mkProbe true true ready_line After5ms].
Definition at_time (w : launch) (t : Z) : operation := OComplete "hi" (Xch.mk None t w None None None None "" (New "EOF") None).

Lemma process_provider_contained_witness :
  let p0 := default (Proc.mk sample_config [] false false (Proc.mkHeld 0 0 0 0) [])
              (match NewProcessProvider sample_config with Ok p => Some p | Err _ => None end) in
  let p := history_of [at_time launched 1; at_time launched 2; OClose] p0 in
  Proc.spawned p = [1; 2]%Z ∧
  Proc.held p = (if Proc.child p then Proc.mkHeld 1 0 0 1 else Proc.mkHeld 0 0 0 0) ∧
  (Proc.closed p = true → Proc.child p = false) ∧
  spaced (Z.to_nat (Proc.MaxStarts (Proc.config p0))) minute (Proc.spawned p).
Proof.
  intros p0 p. destruct (process_provider_contained sample_config p0 [at_time launched 1; at_time launched 2; OClose]) as (H1 & H2 & H3 & _).
  - vm_compute. reflexivity.
  - repeat constructor.
  - cbn. repeat (split || constructor); lia.
  - split; [vm_compute; reflexivity|]. exact (conj H1 (conj H2 H3)).
Defined.

(** A start whose process the resource controller refuses leaves its directory, its
    listener and the listener's file behind, for good: closing the provider does not
    release them. *)
Theorem attach_failure_leaks e : ∃ p0, NewProcessProvider sample_config = Ok p0 ∧
  Proc.held (history_of [at_time (mkLaunch None None None None (Some e) []) 1; OClose] p0) = Proc.mkHeld 1 1 1 0.
Proof. eexists. split; [vm_compute; reflexivity|]. vm_compute. reflexivity. Qed.
