(* ===== verification/Wire.v ===== *)
(** * The text of messages

    What the runtime writes into a message, strings, numbers and objects of them, is in
    the encoder's normal form: it reads back as its value, is on one line, and is left
    alone by the compactor.  The length of the text is bounded by the length of the
    strings in it. *)

From Stdlib Require Import Ascii.
From stdpp Require Import base tactics option list gmap strings numbers pretty sorting.
From S2P Require Import Prelude GoLib Json Ledger State Protocol Engine EngineProofs.

(** ** The compactor leaves a quoted string alone *)

Fixpoint continued (n : nat) (s : string) : bool :=
  match n, s with
  | 0, _ => true
  | S n, String c r => between 128 191 c && continued n r
  | S n, EmptyString => false
  end.

Lemma cont_continued lo hi s : (128 ≤ lo)%Z → (hi ≤ 191)%Z → cont lo hi s = true → ∃ c r, s = String c r ∧ between 128 191 c = true.
Proof.
  intros Hlo Hhi. destruct s as [|c r]; [done|]. cbn. unfold between. rewrite !bool_decide_eq_true. intros H.
  exists c, r. split; [done|]. rewrite bool_decide_eq_true. lia.
Qed.

Lemma utf8_len_continued c r n : utf8_len (String c r) = S n → continued n r = true.
Proof.
  unfold utf8_len. intros H. repeat case_match; simplify_eq; try done;
  repeat match goal with
  | H : _ && _ = true |- _ => apply andb_true_iff in H as [? ?]
  | H : cont _ _ ?s = true |- _ => apply cont_continued in H as (? & ? & ? & ?); [|lia|lia]; simplify_eq/=
  end; cbn [continued]; repeat match goal with H : between 128 191 _ = true |- _ => rewrite H end; done.
Qed.

Lemma high_plain c X : (128 ≤ code c)%Z → c ≠ "226"%char → compact_from Inside (String c X) = String c (compact_from Inside X).
Proof.
  intros Hc Hne. destruct (high_char c Hc) as (Hq & Hb & _). cbn [compact_from]. rewrite !decide_False by done.
  assert (html_escape c = None) as -> by (unfold html_escape; repeat case_decide; by subst).
  unfold line_separator. by rewrite decide_False.
Qed.

Lemma continued_separator c s n t : utf8_len (String c s) = S n → line_separator (String c s) = None →
  line_separator (String c (quote_body n 0 s +:+ t)) = None.
Proof.
  intros Hn Hl. unfold line_separator. destruct (decide (c = "226"%char)) as [->|]; [|done].
  assert (n = 2) as ->.
  { revert Hn. unfold utf8_len. cbn. repeat case_match; try done; by intros [= <-]. }
  destruct s as [|a [|b s]]; [by vm_compute in Hn| |].
  - apply utf8_len_continued in Hn. cbn in Hn. by rewrite andb_false_r in Hn.
  - cbn [quote_body]. rewrite !string_app_cons. unfold line_separator in Hl. by rewrite decide_True in Hl by done.
Qed.

Lemma control_compact c X : (code c < 32)%Z → compact_from Inside (control_escape c +:+ X) = control_escape c +:+ compact_from Inside X.
Proof. destruct c as [[] [] [] [] [] [] [] []]; intros H; first [by vm_compute in H|reflexivity]. Qed.

Lemma replacement_compact X : compact_from Inside (u_escape "fffd" +:+ X) = u_escape "fffd" +:+ compact_from Inside X.
Proof. reflexivity. Qed.

Lemma compact_quote_body s : ∀ copy drop t, continued copy s = true →
  compact_from Inside (quote_body copy drop s +:+ t) = quote_body copy drop s +:+ compact_from Inside t.
Proof.
  induction s as [|c s IH]; intros copy drop t Hc; cbn [quote_body]; [done|].
  destruct drop as [|drop]; [|by apply IH]. destruct copy as [|copy].
  - case_decide.
    + case_decide as Hs.
      * rewrite !string_app_cons. cbn [compact_from]. rewrite decide_True by done. by rewrite IH.
      * case_decide; [rewrite <-!string_app_assoc, control_compact, IH by done; done|].
        destruct (html_escape c) as [esc|] eqn:Hesc.
        -- rewrite <-!string_app_assoc, compact_escape, IH; [done..|by eapply html_escape_elem].
        -- rewrite string_app_cons. cbn [compact_from]. rewrite !decide_False, Hesc by tauto.
           assert (line_separator (String c (quote_body 0 0 s +:+ t)) = None) as ->; [|by rewrite IH].
           unfold line_separator. rewrite decide_False; [done|]. intros ->. by vm_compute in H.
    + destruct (utf8_len (String c s)) as [|n] eqn:Hn.
      * rewrite <-!string_app_assoc, replacement_compact, IH by done. done.
      * pose proof (utf8_len_continued _ _ _ Hn) as Hcn. destruct (line_separator (String c s)) as [esc|] eqn:Hesc.
        -- rewrite <-!string_app_assoc, compact_escape, IH; [done..|by eapply line_separator_elem].
        -- destruct (high_char c) as (Hq & Hb & _); [lia|]. rewrite string_app_cons. cbn [compact_from].
           rewrite !decide_False by done.
           assert (html_escape c = None) as -> by (unfold html_escape; repeat case_decide; subst; done).
           rewrite (continued_separator _ _ _ t Hn Hesc). by rewrite IH.
  - cbn [continued] in Hc. apply andb_true_iff in Hc as [Hb Hc]. unfold between in Hb. apply bool_decide_eq_true in Hb.
    rewrite string_app_cons, high_plain, IH; [done|done|lia|]. intros ->. by vm_compute in Hb; destruct Hb as [_ Hb].
Qed.

(** ** Text in normal form *)

Definition compacts (p : string) : Prop := ∀ t, compact_from Outside (p +:+ t) = p +:+ compact_from Outside t.

(** [p] is the text of the value [v], nested at most [n] deep. *)
Record literal (n : Z) (p : string) (v : json) : Prop := {
  lit_reads : reads_as n p v;
  lit_head : ∃ c t, p = String c t ∧ is_ws c = false;
  lit_compact : compacts p;
  lit_line : one_line p = true;
}.

Lemma compacts_app p q : compacts p → compacts q → compacts (p +:+ q).
Proof. intros Hp Hq t. by rewrite <-!string_app_assoc, Hp, Hq. Qed.

Lemma compacts_char c : is_ws c = false → c ≠ quote → compacts (String c "").
Proof. intros Hw Hq t. rewrite string_app_cons. cbn [compact_from]. rewrite Hw, decide_False by done. done. Qed.

Lemma compacts_quote s : compacts (json_quote s).
Proof.
  intros t. unfold json_quote. rewrite !string_app_cons. cbn [compact_from]. change (is_ws quote) with false. rewrite decide_True by done.
  f_equal. rewrite <-!string_app_assoc, compact_quote_body by done. f_equal.
Qed.

Lemma compacts_digits s : all_digits s = true → compacts s.
Proof.
  induction s as [|c s IH]; [by intros _ t|]. cbn. intros [Hc Hs]%andb_true_iff t. rewrite !string_app_cons. cbn [compact_from].
  assert (is_ws c = false ∧ c ≠ quote) as [-> Hq] by (by destruct c as [[] [] [] [] [] [] [] []]).
  rewrite decide_False by done. f_equal. by apply IH.
Qed.

Lemma natural_all_digits lit : natural_literal lit = true → all_digits lit = true.
Proof.
  destruct lit as [|c l]; [done|]. unfold natural_literal.
  destruct c as [[] [] [] [] [] [] [] []]; simpl; try done. by destruct l.
Qed.

Lemma literal_quote s : literal 0 (json_quote s) (JStr (sanitized s)).
Proof. split; [apply reads_as_quote|by eexists _, _|apply compacts_quote|apply one_line_quote]. Qed.

Lemma literal_int z : literal 0 (json_int z) (JNum (pretty z)).
Proof.
  split; [apply reads_as_int| | |apply one_line_int]; unfold json_int.
  - destruct (decide (0 ≤ z)%Z) as [Hz|Hz]; [|rewrite pretty_negative by lia; by eexists _, _].
    destruct (pretty_natural z Hz) as [Hn _]. apply natural_all_digits in Hn as Hd. destruct (pretty z) as [|c r]; [done|].
    exists c, r. split; [done|]. cbn in Hd. apply andb_true_iff in Hd as [Hd _]. by destruct c as [[] [] [] [] [] [] [] []].
  - destruct (decide (0 ≤ z)%Z) as [Hz|Hz]; [by apply compacts_digits, natural_all_digits, pretty_natural|].
    rewrite pretty_negative by lia. apply (compacts_app (String "-"%char "")); [by apply compacts_char|].
    apply compacts_digits, natural_all_digits, pretty_natural. lia.
Qed.

Lemma literal_mono n n' p v : (n ≤ n')%Z → literal n p v → literal n' p v.
Proof. intros Hn [A B C D]. split; [by eapply reads_as_mono|done..]. Qed.

Lemma compacts_join l : Forall compacts l → compacts (join_comma l).
Proof.
  induction 1 as [|p l Hp Hl IH]; [by intros t|]. destruct l as [|q l]; [done|]. rewrite join_comma_cons by done.
  apply compacts_app; [done|]. apply compacts_app; [by apply compacts_char|done].
Qed.

Definition value_fields (fs : list (string * (string * json))) : list (string * json) := map (λ f, (fst f, snd (snd f))) fs.

Definition literal_member_ok (n : Z) (f : string * (string * json)) : Prop := utf8 (fst f) = true ∧ literal n (fst (snd f)) (snd (snd f)).

Lemma literal_obj n fs : (0 ≤ n)%Z → Forall (literal_member_ok n) fs → literal (1 + n) (obj_literal (literal_fields fs)) (JObj (value_fields fs)).
Proof.
  intros Hn Hfs. split.
  - apply reads_as_obj; [done|]. eapply List.Forall_impl; [|exact Hfs]. by intros f [? []].
  - by eexists _, _.
  - unfold obj_literal. apply (compacts_app "{"); [by apply compacts_char|]. apply compacts_app; [|by apply (compacts_char "}")].
    apply compacts_join. unfold literal_fields. clear Hn. induction Hfs as [|f fs [_ Hf] _ IH]; constructor; [|done]. cbn [fst snd].
    apply compacts_app; [apply compacts_quote|]. apply (compacts_app ":"); [by apply compacts_char|apply Hf].
  - apply one_line_obj. unfold literal_fields. clear Hn. induction Hfs as [|f fs [_ Hf] _ IH]; [done|]. cbn. by rewrite (lit_line _ _ _ Hf).
Qed.

(** The members of a sorted object are those it was made from. *)
Lemma literal_map n fs : (0 ≤ n)%Z → Forall (literal_member_ok n) fs →
  ∃ ms, ms ≡ₚ value_fields fs ∧ literal (1 + n) (marshal_map (literal_fields fs)) (JObj ms).
Proof.
  intros Hn Hfs. unfold marshal_map.
  pose proof (merge_sort_Permutation event_key_le (literal_fields fs)) as Hp.
  destruct (Permutation_map_inv _ _ Hp) as (fs' & -> & Hp').
  exists (value_fields fs'). split; [unfold value_fields; by rewrite Hp'|]. apply literal_obj; [done|]. by rewrite <-Hp'.
Qed.

Lemma literal_raw n p v : (n ≤ 9000)%Z → literal n p v → raw_ok p.
Proof.
  intros Hn [A B C D]. split; [|done| |done].
  - exists v. by eapply reads_as_mono.
  - unfold json_compact. specialize (C ""). cbn in C. by rewrite !string_app_nil_r in C.
Qed.

Lemma literal_parse n p v : (n ≤ 9000)%Z → literal n p v → parse p = Some v.
Proof. intros Hn [A _ _ _]. apply (parse_reads_as n); [done|]. unfold maxNestingDepth. lia. Qed.

(** ** Reading a field of an object *)

Definition only (k : string) (v : json) (kv : string * json) : Prop := kv = (k, v) ∨ field_match k (fst kv) = false.

Lemma map_string n fs k s : (0 ≤ n ≤ 8999)%Z → Forall (literal_member_ok n) fs →
  (k, JStr s) ∈ value_fields fs → Forall (only k (JStr s)) (value_fields fs) → field_match k k = true →
  string_field k (marshal_map (literal_fields fs)) = (s, true).
Proof.
  intros Hn Hfs Hin Hall Hk. destruct (literal_map n fs ltac:(lia) Hfs) as (ms & Hp & Hl).
  unfold string_field. rewrite (literal_parse (1 + n) _ _ ltac:(lia) Hl).
  apply (decode_unique _ _ _ k (JStr s) s); [by rewrite Hp|by rewrite Hp|done..].
Qed.

(** ** Lengths *)

Lemma len_cons c s : len (String c s) = (1 + len s)%Z.
Proof. unfold len. cbn [String.length]. lia. Qed.

Lemma quote_body_len s : ∀ copy drop, (len (quote_body copy drop s) ≤ 6 * len s)%Z.
Proof.
  induction s as [|c s IH]; intros copy drop; cbn [quote_body]; [done|]. rewrite (len_cons c s).
  assert (∀ esc copy drop, (len esc ≤ 6)%Z → (len (esc +:+ quote_body copy drop s) ≤ 6 * (1 + len s))%Z) as Hesc.
  { intros esc cp dr He. rewrite len_app. specialize (IH cp dr). lia. }
  destruct drop as [|drop]; [|specialize (IH 0 drop); lia].
  destruct copy as [|copy]; [|rewrite len_cons; specialize (IH copy 0); lia].
  pose proof (IH 0 0) as H0. case_decide.
  - case_decide; [rewrite !len_cons; lia|]. case_decide.
    + apply Hesc. destruct c as [[] [] [] [] [] [] [] []]; vm_compute; congruence.
    + destruct (html_escape c) as [esc|] eqn:He; [|rewrite len_cons; lia]. apply Hesc. unfold html_escape in He. repeat case_decide; simplify_eq; done.
  - destruct (utf8_len (String c s)) as [|n]; [by apply Hesc|]. destruct (line_separator (String c s)) as [esc|] eqn:He.
    + apply Hesc. unfold line_separator in He. repeat case_match; simplify_eq; done.
    + rewrite len_cons. specialize (IH n 0). lia.
Qed.

Lemma quote_len s : (len (json_quote s) ≤ 6 * len s + 2)%Z.
Proof. unfold json_quote. rewrite len_cons, len_app, len_cons. pose proof (quote_body_len s 0 0). change (len "") with 0%Z. lia. Qed.

Definition member_size (kv : string * string) : Z := len (json_quote (fst kv)) + len (snd kv) + 2.

Lemma join_len l : (len (join_comma l) ≤ sumZ (λ p, len p + 1) l)%Z.
Proof.
  induction l as [|p l IH]; [done|]. rewrite sumZ_cons. destruct l as [|q l]; [cbn [join_comma]; cbn; pose proof (len_nonneg p); lia|].
  rewrite join_comma_cons, !len_app by done. change (len ",") with 1%Z. lia.
Qed.

Lemma sumZ_fmap {A B} (f : B → Z) (g : A → B) l : sumZ f (g <$> l) = sumZ (λ x, f (g x)) l.
Proof. induction l as [|x l IH]; [done|]. cbn [fmap list_fmap]. rewrite !sumZ_cons. by f_equal. Qed.

Lemma obj_len fs : (len (obj_literal fs) ≤ 2 + sumZ member_size fs)%Z.
Proof.
  unfold obj_literal. rewrite !len_app. change (len "{") with 1%Z. change (len "}") with 1%Z.
  etrans; [apply Z.add_le_mono_l, Z.add_le_mono_r, join_len|].
  rewrite sumZ_fmap, (sumZ_ext _ member_size); [lia|]. intros [k v] _. unfold member_size. cbn [fst snd]. rewrite !len_app.
  change (len ":") with 1%Z. lia.
Qed.

Lemma map_len fs : (len (marshal_map fs) ≤ 2 + sumZ member_size fs)%Z.
Proof.
  unfold marshal_map. etrans; [apply obj_len|]. rewrite (sumZ_perm _ _ _ (merge_sort_Permutation event_key_le fs)). lia.
Qed.

Lemma decimal_lower s : ∀ acc n, (0 ≤ acc)%Z → decimal acc s = Some n → (acc * 10 ^ len s ≤ n)%Z.
Proof.
  induction s as [|c s IH]; intros acc n Ha; cbn [decimal]; [intros [= <-]; change (len "") with 0%Z; lia|].
  destruct (is_digit c) eqn:Hc; [|done]. unfold is_digit, between in Hc. apply bool_decide_eq_true in Hc.
  intros H%IH; [|lia]. rewrite len_cons, Z.add_comm, Z.pow_add_r by (done || apply len_nonneg).
  pose proof (len_nonneg s). assert (0 < 10 ^ len s)%Z by (apply Z.pow_pos_nonneg; lia). nia.
Qed.

Lemma int_len z : in_u64 z → (len (json_int z) ≤ 20)%Z.
Proof.
  intros [Hz Hm]. unfold json_int. destruct (pretty_natural z Hz) as [Hn Hd]. destruct (decide (20 < len (pretty z))%Z) as [Hl|]; [|lia].
  exfalso. destruct (pretty z) as [|c r]; [done|]. rewrite len_cons in Hl.
  destruct (decide (c = "0"%char)) as [->|H0]; [destruct r; [by vm_compute in Hl|done]|].
  cbn [decimal] in Hd. destruct (is_digit c) eqn:Hc; [|done].
  assert (1 ≤ code c - 48)%Z as H1 by (destruct c as [[] [] [] [] [] [] [] []]; try done; exfalso; by apply H0).
  apply decimal_lower in Hd; [|lia]. assert (10 ^ 20 ≤ 10 ^ len r)%Z by (apply Z.pow_le_mono_r; lia).
  unfold MaxUint64 in Hm. nia.
Qed.

(** Members with a literal of their own. *)
Lemma member_literal n k p v : (0 ≤ n)%Z → utf8 k = true → literal 0 p v → literal_member_ok n (k, (p, v)).
Proof. intros Hn Hk Hl. split; [done|]. by apply (literal_mono 0). Qed.

Lemma member_string n k s : (0 ≤ n)%Z → utf8 k = true → utf8 s = true → literal_member_ok n (k, (json_quote s, JStr s)).
Proof. intros Hn Hk Hs. apply member_literal; [done..|]. rewrite <-(sanitized_utf8 s Hs) at 2. apply literal_quote. Qed.

Ltac members :=
  repeat (apply List.Forall_cons || apply List.Forall_nil);
  try (first [ apply member_string; [lia|reflexivity|done]
             | apply member_literal; [lia|reflexivity|first [apply literal_quote|apply literal_int]] ]).
