(* ===== verification/Dialogue.v ===== *)
(** * A completion over the engine protocol

    The process provider on one side and a connection of the engine's server on the
    other.  Whatever the interleaving of the server's reader, writer and prompt, what
    the provider reads gives it the text and the usage that the engine's own provider
    returned. *)

From Stdlib Require Import Ascii.
From stdpp Require Import base tactics option list gmap strings numbers pretty sorting.
From S2P Require Import Prelude GoLib Json Ledger State Protocol Engine EngineProofs EngineSystem Server ServerProofs Wire Restart Sandbox Process.

(** ** What the engine sends *)

Definition sid : string := "session-1".

Definition event_message (method : string) (seq : Z) (fields : list (string * string)) : Message :=
  Rpc.mk "2.0" "" method (event_params sid 1 seq fields) "" None.

Definition greeting (name address : string) : Message :=
  result_message "1" (marshal_map (("address", json_quote address) :: initialize_fields (sanitized name))).
Definition opened : Message := result_message "2" (marshal_map [("session_id", json_quote sid)]).
Definition started : Message := event_message "session/started" 1 [].
Definition chunk (text : string) : Message := event_message "session/chunk" 2 [("text", json_quote text)].
Definition used (usage : Usage) : Message := event_message "session/usage" 3 [("usage", usage_json usage)].
Definition finished (seq : Z) : Message := event_message "session/done" seq [("stop_reason", json_quote "completed")].
Definition stopped : Message := result_message "3" (stop_json "completed").

(** The events at the end of the turn. *)
Definition closing (text : string) (usage : Usage) : list Message :=
  if decide (usage = no_usage) then [chunk text; finished 3] else [chunk text; used usage; finished 4].

Definition transcript (name address text : string) (usage : Usage) : list (bool * Message) :=
  [(false, greeting name address); (false, opened); (true, started)] ++ ((λ m, (true, m)) <$> closing text usage) ++ [(false, stopped)].

(** ** The messages can be sent *)

Lemma sendable_event method seq fs : (0 ≤ seq)%Z → method ≠ "" → utf8 method = true → Forall (literal_member_ok 100) fs →
  sendable (event_message method seq (literal_fields fs)).
Proof.
  intros Hs Hm Hu Hfs.
  destruct (literal_map 100 (fs ++ [("session_id", (json_quote sid, JStr sid)); ("turn_id", (json_int 1, JNum (pretty 1)));
    ("event_seq", (json_int seq, JNum (pretty seq)))])) as (ms & Hp & Hl); [lia| |].
  { apply Forall_app. split; [done|]. members. }
  assert (event_params sid 1 seq (literal_fields fs) = marshal_map (literal_fields (fs ++ [("session_id", (json_quote sid, JStr sid)); ("turn_id", (json_int 1, JNum (pretty 1)));
    ("event_seq", (json_int seq, JNum (pretty seq)))]))) as E by (unfold event_params, literal_fields; by rewrite map_app).
  split; cbn [event_message Rpc.ID Rpc.Params Rpc.Result Rpc.Method Rpc.Error]; [|by left| |by left|done|done].
  - unfold well_formed. cbn [Rpc.JSONRPC Rpc.ID Rpc.Params Rpc.Result Rpc.Method Rpc.Error]. rewrite decide_True by done.
    rewrite !bool_decide_true by done. cbn. by rewrite orb_true_r.
  - right. rewrite E. by apply (literal_raw (1 + 100) _ (JObj ms)); [lia|].
Qed.

Lemma sendable_result id n result v : id ∈ ["1"; "2"; "3"] → (n ≤ 9000)%Z → literal n result v → sendable (result_message id result).
Proof.
  intros Hid Hn Hl. destruct (lit_head _ _ _ Hl) as (c & t & E & _).
  split; cbn [result_message Rpc.ID Rpc.Params Rpc.Result Rpc.Method Rpc.Error]; [| |by left| |done|done].
  - unfold well_formed. cbn [Rpc.JSONRPC Rpc.ID Rpc.Params Rpc.Result Rpc.Method Rpc.Error]. rewrite decide_False by tauto.
    rewrite (bool_decide_true (result ≠ "")) by (by rewrite E).
    repeat (apply elem_of_cons in Hid as [->|Hid]; [reflexivity|]). by apply elem_of_nil in Hid.
  - right. repeat (apply elem_of_cons in Hid as [->|Hid]; [eapply (literal_raw 0); [lia|]; first [apply (literal_int 1)|apply (literal_int 2)|apply (literal_int 3)]|]).
    by apply elem_of_nil in Hid.
  - right. by eapply literal_raw.
Qed.

Definition capabilities_value : json := JArr (JStr <$> ["cancel"; "usage"; "suspend"; "resume"]).

Lemma literal_capabilities : literal 5 (arr_literal (json_quote <$> ["cancel"; "usage"; "suspend"; "resume"])) capabilities_value.
Proof.
  split; [|by eexists _, _| |reflexivity].
  - apply (reads_as_mono (nesting capabilities_value)); [vm_compute; congruence|]. by apply (reads_as_print capabilities_value).
  - intros t. reflexivity.
Qed.

Definition limits_fields : list (string * (string * json)) :=
  [("sessions", (json_int (Z.of_nat maxSessions), JNum (pretty (Z.of_nat maxSessions))));
   ("replay_requests_per_session", (json_int (Z.of_nat maxReplayRequests), JNum (pretty (Z.of_nat maxReplayRequests))));
   ("request_id_bytes", (json_int maxRequestIDBytes, JNum (pretty maxRequestIDBytes)));
   ("text_bytes", (json_int maxTextBytes, JNum (pretty maxTextBytes)))].

Lemma sendable_greeting name address : sendable (greeting name address).
Proof.
  destruct (literal_map 0 limits_fields) as (ls & _ & Hls); [lia|unfold limits_fields; members|].
  destruct (literal_map 5 [("address", (json_quote address, JStr (sanitized address)));
    ("aok_version", ("1", JNum (pretty 1%Z))); ("engine", (json_quote (sanitized name), JStr (sanitized (sanitized name))));
    ("capabilities", (arr_literal (json_quote <$> ["cancel"; "usage"; "suspend"; "resume"]), capabilities_value));
    ("limits", (marshal_map (literal_fields limits_fields), JObj ls))]) as (ms & _ & Hl); [lia| |].
  { members.
    - apply member_literal; [lia|done|apply (literal_int 1)].
    - split; [done|apply literal_capabilities].
    - split; [done|]. by apply (literal_mono (1 + 0)); [lia|]. }
  by apply (sendable_result "1" (1 + 5) _ (JObj ms)); [set_solver|lia|].
Qed.

Lemma sendable_opened : sendable opened.
Proof.
  destruct (literal_map 0 [("session_id", (json_quote sid, JStr sid))]) as (ms & _ & Hl); [lia|members|].
  by apply (sendable_result "2" (1 + 0) _ (JObj ms)); [set_solver|lia|].
Qed.

Lemma sendable_stopped : sendable stopped.
Proof.
  destruct (literal_map 0 [("stop_reason", (json_quote "completed", JStr "completed"))]) as (ms & _ & Hl); [lia|members|].
  by apply (sendable_result "3" (1 + 0) _ (JObj ms)); [set_solver|lia|].
Qed.

Definition usage_value (u : Usage) : json :=
  JObj [("input_tokens", JNum (pretty (InputTokens u))); ("output_tokens", JNum (pretty (OutputTokens u))); ("cached_tokens", JNum (pretty (CachedTokens u)))].

Lemma literal_usage u : literal 1 (usage_json u) (usage_value u).
Proof.
  apply (literal_obj 0 [("input_tokens", (json_int (InputTokens u), JNum (pretty (InputTokens u))));
    ("output_tokens", (json_int (OutputTokens u), JNum (pretty (OutputTokens u))));
    ("cached_tokens", (json_int (CachedTokens u), JNum (pretty (CachedTokens u))))]); [lia|]. members.
Qed.

Lemma sendable_closing text usage : Forall sendable (closing text usage).
Proof.
  assert (sendable (chunk text)) as H1.
  { apply (sendable_event "session/chunk" 2 [("text", (json_quote text, JStr (sanitized text)))]); [lia|done|done|members]. }
  assert (∀ seq, (0 ≤ seq)%Z → sendable (finished seq)) as H2.
  { intros seq Hs. apply (sendable_event "session/done" seq [("stop_reason", (json_quote "completed", JStr "completed"))]); [lia|done|done|members]. }
  assert (sendable (used usage)) as H3.
  { apply (sendable_event "session/usage" 3 [("usage", (usage_json usage, usage_value usage))]); [lia|done|done|].
    apply List.Forall_cons; [|apply List.Forall_nil]. split; [done|]. apply (literal_mono 1); [lia|apply literal_usage]. }
  unfold closing. case_decide; repeat (apply List.Forall_cons || apply List.Forall_nil); try done; by apply H2.
Qed.

Lemma sendable_transcript name address text usage : Forall (λ x, sendable (snd x)) (transcript name address text usage).
Proof.
  unfold transcript. pose proof (sendable_closing text usage) as Hc.
  repeat apply Forall_app_2; repeat (apply List.Forall_cons || apply List.Forall_nil); cbn [snd].
  - apply sendable_greeting.
  - apply sendable_opened.
  - apply (sendable_event "session/started" 1 []); [lia|done|done|constructor].
  - apply Forall_fmap. exact Hc.
  - apply sendable_stopped.
Qed.

(** ** Sizes *)

(** A message and the line end that follows it. *)
Definition message_size (m : Message) : Z := len (Rpc.ID m) + len (json_quote (Rpc.Method m)) + len (Rpc.Params m) + len (Rpc.Result m) + 100.

Lemma frame_size m : sendable m → Rpc.JSONRPC m = "2.0" → Rpc.Error m = None →
  ∃ data, marshal_message m = Some data ∧ Write m = Some (frame m) ∧ (len (frame m) = len data + 1)%Z ∧ (len (frame m) ≤ message_size m)%Z.
Proof.
  intros Hs Hv He. destruct (marshal_sendable m Hs) as (fs & Hd & _). destruct Hs as [_ Hi Hp Hr _ _].
  assert (∀ k p, p = "" ∨ raw_ok p → ∃ l, raw_part k p = Some l ∧ (sumZ member_size l ≤ len (json_quote k) + len p + 2)%Z) as Hpart.
  { intros k p Hp'. unfold raw_part. destruct Hp' as [->|Hp']; [exists []; split; [done|]; change (sumZ member_size []) with 0%Z; change (len "") with 0%Z; pose proof (len_nonneg (json_quote k)); lia|].
    destruct (raw_value _ Hp') as [v Hv']. destruct (raw_head _ Hp') as (c & t & -> & _). rewrite decide_False by done.
    unfold json_valid. rewrite (parse_reads_as 9000 _ v Hv') by (unfold maxNestingDepth; lia). cbn [bool_decide decide].
    exists [(k, json_compact (String c t))]. rewrite bool_decide_true by done. split; [done|]. rewrite (raw_compact _ Hp'). unfold sumZ, member_size. cbn [foldr fst snd]. lia. }
  destruct (Hpart "id" _ Hi) as (l1 & E1 & L1). destruct (Hpart "params" _ Hp) as (l2 & E2 & L2). destruct (Hpart "result" _ Hr) as (l3 & E3 & L3).
  set (d := obj_literal (literal_fields fs)) in *. assert (Write m = Some (d +:+ String newline "")) as HW by (unfold Write; by rewrite Hd).
  assert (frame m = d +:+ String newline "") as -> by (unfold frame; by rewrite HW).
  exists d. split; [done|]. split; [done|]. rewrite len_app. split; [done|].
  unfold marshal_message in Hd. rewrite E1, E2, E3, Hv, He in Hd. cbn [mbind option_bind] in Hd. cbv zeta in Hd. apply (inj Some) in Hd. clearbody d. subst d.
  etrans; [apply Z.add_le_mono_r, obj_len|]. rewrite !sumZ_app. unfold message_size.
  assert (sumZ member_size (if decide (Rpc.Method m = "") then [] else [("method", json_quote (Rpc.Method m))]) ≤ len (json_quote (Rpc.Method m)) + 10)%Z.
  { case_decide; [pose proof (len_nonneg (json_quote (Rpc.Method m))); change (sumZ member_size []) with 0%Z; lia|]. unfold sumZ, member_size. cbn [foldr fst snd]. change (len (json_quote "method")) with 8%Z. lia. }
  change (len (json_quote "id")) with 4%Z in L1. change (len (json_quote "params")) with 8%Z in L2. change (len (json_quote "result")) with 8%Z in L3.
  change (sumZ member_size [("jsonrpc", json_quote "2.0")]) with 16%Z. change (sumZ member_size []) with 0%Z. change (len (String newline "")) with 1%Z. lia.
Qed.

Lemma event_size method seq fields : in_u64 seq →
  (message_size (event_message method seq fields) ≤ len (json_quote method) + sumZ member_size fields + 250)%Z.
Proof.
  intros Hs. unfold message_size, event_message. cbn [Rpc.ID Rpc.Method Rpc.Params Rpc.Result]. unfold event_params.
  pose proof (map_len (fields ++ [("session_id", json_quote sid); ("turn_id", json_int 1); ("event_seq", json_int seq)])) as H.
  rewrite sumZ_app in H. pose proof (int_len seq Hs) as Hi. change (len "") with 0%Z.
  assert (sumZ member_size [("session_id", json_quote sid); ("turn_id", json_int 1); ("event_seq", json_int seq)] = 50 + len (json_int seq))%Z as E.
  { rewrite !sumZ_cons. change (sumZ member_size []) with 0%Z. unfold member_size. cbn [fst snd].
    change (len (json_quote "session_id")) with 12%Z. change (len (json_quote "turn_id")) with 9%Z. change (len (json_quote "event_seq")) with 11%Z.
    change (len (json_quote sid)) with 11%Z. change (len (json_int 1)) with 1%Z. lia. }
  lia.
Qed.

Lemma result_size id fields : (message_size (result_message id (marshal_map fields)) ≤ len id + sumZ member_size fields + 110)%Z.
Proof.
  unfold message_size, result_message. cbn [Rpc.ID Rpc.Method Rpc.Params Rpc.Result]. pose proof (map_len fields).
  change (len "") with 0%Z. change (len (json_quote "")) with 2%Z. lia.
Qed.

(** A message that goes through the wire. *)
Definition small (m : Message) : Prop :=
  sendable m ∧ Rpc.JSONRPC m = "2.0" ∧ Rpc.Error m = None ∧ (message_size m < maxTokenSize)%Z.

Lemma read_frame m rest : small m → Protocol.Read (frame m +:+ rest) = (Received m, rest).
Proof.
  intros (Hs & Hv & He & Hl). destruct (frame_size m Hs Hv He) as (data & Hd & HW & E & Hle).
  destruct (read_back m rest Hs) as (d & Hd' & Hr); [intros d Hd'; assert (d = data) as -> by congruence; lia|].
  assert (d = frame m) as -> by congruence. done.
Qed.

Lemma read_small m : small m → fst (Protocol.Read (frame m)) = Received m.
Proof. intros Hm. rewrite <-(string_app_nil_r (frame m)). by rewrite read_frame. Qed.

Lemma sendable_request id method n params v : id ∈ ["1"; "2"; "3"] → method ≠ "" → utf8 method = true → (n ≤ 9000)%Z →
  literal n params v → starts_with "{" params = true → sendable (request id method params).
Proof.
  intros Hid Hm Hu Hn Hl Hst. split; cbn [request Rpc.ID Rpc.Params Rpc.Result Rpc.Method Rpc.Error]; [| | |by left|done|done].
  - unfold well_formed. cbn [request Rpc.JSONRPC Rpc.ID Rpc.Params Rpc.Result Rpc.Method Rpc.Error]. rewrite decide_True, Hst, orb_true_r by done.
    repeat (apply elem_of_cons in Hid as [->|Hid]; [reflexivity|]). by apply elem_of_nil in Hid.
  - right. repeat (apply elem_of_cons in Hid as [->|Hid]; [eapply (literal_raw 0); [lia|]; first [apply (literal_int 1)|apply (literal_int 2)|apply (literal_int 3)]|]).
    by apply elem_of_nil in Hid.
  - right. by eapply literal_raw.
Qed.

Lemma literal_empty : literal 1 "{}" (JObj []).
Proof. apply (literal_obj 0 []); [lia|constructor]. Qed.

Lemma small_hello : small hello.
Proof. split; [apply (sendable_request "1" "initialize" 1 "{}" (JObj [])); [set_solver|done|done|lia|apply literal_empty|done]|by vm_compute]. Qed.

Lemma small_session : small ask_session.
Proof. split; [apply (sendable_request "2" "session/new" 1 "{}" (JObj [])); [set_solver|done|done|lia|apply literal_empty|done]|by vm_compute]. Qed.

(** Usage as providers report it. *)
Definition usage_ok (u : Usage) : Prop := in_u64 (InputTokens u) ∧ in_u64 (OutputTokens u) ∧ in_u64 (CachedTokens u).

Section sizes.
Context (name address text : string) (usage : Usage).
Hypothesis Hname : (len (sanitized name) ≤ 65536)%Z.
Hypothesis Haddress : (len address ≤ 65536)%Z.
Hypothesis Htext : (len text ≤ maxTextBytes)%Z.
Hypothesis Husage : usage_ok usage.

Lemma greeting_size : (message_size (greeting name address) ≤ 800000)%Z.
Proof using Hname Haddress.
  unfold greeting. etrans; [apply result_size|]. change (len "1") with 1%Z. rewrite sumZ_cons.
  assert (sumZ member_size (initialize_fields (sanitized name)) ≤ len (json_quote (sanitized name)) + 600)%Z as H.
  { unfold initialize_fields. rewrite !sumZ_cons. change (sumZ member_size []) with 0%Z.
    match goal with |- context [member_size ("limits", ?m)] => assert (member_size ("limits", m) ≤ 250)%Z by (vm_compute; congruence) end.
    match goal with |- context [member_size ("capabilities", ?m)] => assert (member_size ("capabilities", m) ≤ 100)%Z by (vm_compute; congruence) end.
    change (member_size ("aok_version", "1")) with 16%Z.
    assert (member_size ("engine", json_quote (sanitized name)) = 10 + len (json_quote (sanitized name)))%Z by (unfold member_size; cbn [fst snd]; change (len (json_quote "engine")) with 8%Z; lia). lia. }
  pose proof (quote_len (sanitized name)). pose proof (quote_len address).
  assert (member_size ("address", json_quote address) = 11 + len (json_quote address))%Z by (unfold member_size; cbn [fst snd]; change (len (json_quote "address")) with 9%Z; lia). lia.
Qed.

Lemma usage_size : (len (usage_json usage) ≤ 200)%Z.
Proof using Husage.
  destruct Husage as (H1 & H2 & H3). unfold usage_json. etrans; [apply obj_len|]. rewrite !sumZ_cons. change (sumZ member_size []) with 0%Z.
  unfold member_size. cbn [fst snd]. apply int_len in H1, H2, H3. change (len (json_quote "input_tokens")) with 14%Z.
  change (len (json_quote "output_tokens")) with 15%Z. change (len (json_quote "cached_tokens")) with 15%Z. lia.
Qed.

Lemma closing_size : Forall (λ m, message_size m ≤ 1600000)%Z (closing text usage) ∧ (sumZ message_size (closing text usage) ≤ 1700000)%Z.
Proof using Htext Husage.
  assert (message_size (chunk text) ≤ 1580000)%Z as H1.
  { unfold chunk. etrans; [apply event_size; by vm_compute|]. rewrite sumZ_cons. change (sumZ member_size []) with 0%Z. unfold member_size. cbn [fst snd].
    change (len (json_quote "text")) with 6%Z. change (len (json_quote "session/chunk")) with 15%Z. pose proof (quote_len text). unfold maxTextBytes in Htext. lia. }
  assert (message_size (used usage) ≤ 1000)%Z as H2.
  { unfold used. etrans; [apply event_size; by vm_compute|]. rewrite sumZ_cons. change (sumZ member_size []) with 0%Z. unfold member_size. cbn [fst snd].
    change (len (json_quote "usage")) with 7%Z. change (len (json_quote "session/usage")) with 15%Z. pose proof usage_size. lia. }
  assert (∀ seq, in_u64 seq → message_size (finished seq) ≤ 1000)%Z as H3.
  { intros seq Hs. unfold finished. etrans; [by apply event_size|]. change (sumZ member_size [("stop_reason", json_quote "completed")]) with 26%Z.
    change (len (json_quote "session/done")) with 14%Z. lia. }
  pose proof (H3 3%Z ltac:(by vm_compute)). pose proof (H3 4%Z ltac:(by vm_compute)).
  unfold closing. case_decide; (split; [repeat (apply List.Forall_cons || apply List.Forall_nil); lia|rewrite !sumZ_cons; change (sumZ message_size []) with 0%Z; lia]).
Qed.

(** The whole transcript fits into the server's queue, and each message into a line. *)
Lemma transcript_size : (sumZ (λ x, message_size (snd x)) (transcript name address text usage) ≤ maxOutboundBytes)%Z ∧
  Forall (λ x, message_size (snd x) < maxTokenSize)%Z (transcript name address text usage).
Proof using Hname Haddress Htext Husage.
  destruct closing_size as [C1 C2]. pose proof greeting_size as G.
  assert (message_size opened ≤ 200)%Z as E1 by (vm_compute; congruence). assert (message_size stopped ≤ 200)%Z as E2 by (vm_compute; congruence).
  assert (message_size started ≤ 300)%Z as E3 by (vm_compute; congruence).
  assert (sumZ (λ x, message_size (snd x)) ((λ m, (true, m)) <$> closing text usage) = sumZ message_size (closing text usage)) as E4 by (by rewrite sumZ_fmap).
  unfold transcript, maxOutboundBytes, maxTokenSize. split.
  - rewrite !sumZ_app, E4, !sumZ_cons. cbn [snd]. change (sumZ (λ x : bool * Message, message_size (snd x)) []) with 0%Z. lia.
  - repeat apply Forall_app_2; repeat (apply List.Forall_cons || apply List.Forall_nil); cbn [snd]; try lia.
    apply Forall_fmap. eapply List.Forall_impl; [|exact C1]. cbn. lia.
Qed.
End sizes.

(** ** The queue has room *)

(** The queue took [log], and holds no more than that. *)
Record room (log : list (bool * Message)) (q : Outbound) : Prop := {
  ro_log : Out.accepted q = log;
  ro_open : Out.cancelled q = false;
  ro_bytes : (Out.queuedBytes q ≤ bytes (frames log))%Z;
  ro_length : length (Out.outgoing q) ≤ length log;
}.

(** [log] and then [m] fit into a queue. *)
Record fit (log : list (bool * Message)) (x : bool * Message) : Prop := {
  fit_write : is_Some (Write (snd x));
  fit_bytes : (bytes (frames (log ++ [x])) ≤ maxOutboundBytes)%Z;
  fit_length : length log < outboundQueueSize;
}.

Lemma enqueue_room log ev m q : room log q → fit log (ev, m) →
  ∃ q', enqueue ev m q = (true, q') ∧ room (log ++ [(ev, m)]) q'.
Proof.
  intros [R1 R2 R3 R4] [[data Hd] F2 F3]. cbn in Hd. assert (frames (log ++ [(ev, m)]) = frames log ++ [data]) as E.
  { rewrite frames_app. f_equal. by apply frames_one. }
  rewrite E, bytes_app, bytes_one in F2. unfold enqueue. rewrite R2, Hd, decide_False, decide_True by lia.
  eexists. split; [reflexivity|]. split; cbn; [by rewrite R1|done| |rewrite !length_app; cbn; lia].
  rewrite E, bytes_app, bytes_one. lia.
Qed.

Lemma send_room log m q : room log q → fit log (false, m) → room (log ++ [(false, m)]) (send m q).
Proof. intros Hr Hf. destruct (enqueue_room log false m q Hr Hf) as (q' & E & Hr'). unfold send. by rewrite E. Qed.

Section stages.
Context (visit : nat → list string → list string) (name address : string).
Implicit Types e : Engine Outbound.

(** Emitting to a session that is not suspended. *)
Lemma emit_room id method fields e s q log r cl ca t n d rq l :
  Eng.sessions e !! id = Some s → core s = (r, cl, false, ca, t, n, d, rq, l) → Eng.onEvent e = Some q → room log q →
  let event := Rpc.mk "2.0" "" method (event_params id t (u64 (n + 1)) fields) "" None in
  fit log (true, event) →
  let e' := emit visit id method fields e in
  (∃ s', Eng.sessions e' !! id = Some s' ∧ core s' = (r, cl, false, ca, t, u64 (n + 1), u64 (n + 1), rq, l)) ∧
  (∃ q', Eng.onEvent e' = Some q' ∧ room (log ++ [(true, event)]) q').
Proof.
  intros Hs Hc Hq Hr event Hf e'. subst e'. unfold emit. rewrite Hs.
  assert (next_event id s method fields = event) as ->.
  { unfold core in Hc. injection Hc as _ _ _ _ Ht Hn _ _ _. unfold next_event, event. by rewrite Ht, Hn. }
  change (retain id event (update_session id _ e)) with (push id event e).
  set (e1 := reclaim visit _ _). assert (evicts (push id event e) e1) as Hv.
  { unfold e1. etrans; [apply trim_evicts|apply reclaim_evicts]. }
  pose proof (v_core _ _ Hv id) as Hcore. rewrite push_session, decide_True, Hs in Hcore by done. cbn in Hcore.
  apply fmap_Some in Hcore as (s1 & Hs1 & Hc1). unfold deliver. rewrite (v_on _ _ Hv), Hs1. change (Eng.onEvent (push id event e)) with (Eng.onEvent e). rewrite Hq.
  unfold core in Hc, Hc1. cbn in Hc1. injection Hc as C1 C2 C3 C4 C5 C6 C7 C8 C9. injection Hc1 as D1 D2 D3 D4 D5 D6 D7 D8 D9.
  assert (Sess.suspended s1 = false) as -> by congruence.
  destruct (enqueue_room log true event q Hr Hf) as (q' & Ho & Hr'). unfold offer, outbound_transport. rewrite Ho. split.
  - rewrite lookup_update, decide_True by done. cbn. rewrite Hs1. cbn. eexists. split; [reflexivity|]. unfold core. cbn. congruence.
  - eexists. split; [reflexivity|done].
Qed.
End stages.

(** ** The stages of a completion *)

Section dialogue.
Context (visit : nat → list string → list string) (name address prompt text : string) (usage : Usage).
Hypothesis Hvisit : ∀ t ids, visit t ids ≡ₚ ids.
Hypothesis Hname : (len (sanitized name) ≤ 65536)%Z.
Hypothesis Haddress : (len address ≤ 65536)%Z.
Hypothesis Hprompt : utf8 prompt = true ∧ (len prompt ≤ maxTextBytes)%Z.
Hypothesis Htext : (len text ≤ maxTextBytes)%Z.
Hypothesis Husage : usage_ok usage.

Abbreviation script := (transcript name address text usage).

Lemma script_plain : Forall (λ x, Rpc.JSONRPC (snd x) = "2.0" ∧ Rpc.Error (snd x) = None) script.
Proof. unfold transcript, closing. case_decide; repeat constructor. Qed.

Lemma script_frames : Forall (λ x, ∃ data, marshal_message (snd x) = Some data ∧ Write (snd x) = Some (frame (snd x)) ∧
  (len (frame (snd x)) = len data + 1)%Z ∧ (len (frame (snd x)) ≤ message_size (snd x))%Z) script.
Proof.
  pose proof (sendable_transcript name address text usage) as Hs. pose proof script_plain as Hp.
  induction Hs as [|x l Hx _ IH]; constructor; apply Forall_cons_1 in Hp as [[Hv He] Hp]; [by apply frame_size|by apply IH].
Qed.

Lemma fit_script log x rest : script = log ++ x :: rest → fit log x.
Proof using Hname Haddress Htext Husage.
  intros E. pose proof script_frames as Hf. destruct (transcript_size name address text usage Hname Haddress Htext Husage) as [Hb _].
  assert (length script ≤ 7) as Hl by (unfold transcript, closing; case_decide; cbn; lia).
  rewrite E in Hf, Hb, Hl. rewrite length_app in Hl. cbn in Hl. replace (log ++ x :: rest) with ((log ++ [x]) ++ rest) in Hf, Hb by (by rewrite <-app_assoc).
  apply Forall_app in Hf as [Hf _]. split.
  - apply Forall_app in Hf as [_ Hf]. apply Forall_cons_1 in Hf as [(data & _ & HW & _) _]. by eexists.
  - rewrite sumZ_app in Hb. assert (0 ≤ sumZ (λ x, message_size (snd x)) rest)%Z.
    { apply sumZ_nonneg. intros y. unfold message_size. pose proof (len_nonneg (Rpc.ID (snd y))). pose proof (len_nonneg (json_quote (Rpc.Method (snd y)))).
      pose proof (len_nonneg (Rpc.Params (snd y))). pose proof (len_nonneg (Rpc.Result (snd y))). lia. }
    assert (bytes (frames (log ++ [x])) ≤ sumZ (λ x, message_size (snd x)) (log ++ [x]))%Z; [|lia].
    clear -Hf. induction Hf as [|y l (data & _ & _ & _ & Hy) _ IH]; [done|]. unfold bytes, frames in *. cbn [fmap list_fmap]. rewrite !sumZ_cons.
    change (list_fmap _ _ ?f l) with (f <$> l). unfold compose at 1. lia.
  - unfold outboundQueueSize. lia.
Qed.

(** What the writer does not touch. *)
Definition face (c : conn) :=
  let w := Conn.world c in
  (Conn.initialized c, Conn.workers c, turns w, Eng.sessions (eng w), Eng.nextSession (eng w), Eng.closed (eng w)).

Definition took (log : list (bool * Message)) (c : conn) : Prop := ∃ q, queue_of c = Some q ∧ room log q.

Definition turn_asked : PendingTurn := Pend.mk sid "3" "turn-1" prompt.
Definition prompt_message : Message := ask_prompt sid prompt.

(** How far the completion is: the handshake, the session, the prompt, its start, the
    provider's return and the response. *)
Definition stage (k : nat) (c : conn) : Prop :=
  let '(init, ws, ts, ss, next, closed) := face c in
  match k with
  | 0 => took [] c ∧ init = false ∧ ws = [] ∧ ts = ∅ ∧ ss = ∅ ∧ next = 0%Z ∧ closed = false
  | 1 => took (take 1 script) c ∧ init = true ∧ ws = [] ∧ ts = ∅ ∧ ss = ∅ ∧ next = 0%Z ∧ closed = false
  | 2 => took (take 2 script) c ∧ init = true ∧ ws = [] ∧ ts = ∅ ∧ ss = {[sid := new_session]}
  | 3 => took (take 2 script) c ∧ ws = [Spawned prompt_message] ∧ ts = ∅ ∧ ss = {[sid := new_session]}
  | 4 => took (take 3 script) c ∧ ws = [Prompting prompt_message sid] ∧ ts = {[sid := turn_asked]} ∧
      ∃ s, ss !! sid = Some s ∧ core s = (true, false, false, false, 1%Z, 1%Z, 1%Z, ∅, mkLedger 0 0 0 0)
  | 5 => took (take (length script - 1) script) c ∧ ws = [Replying prompt_message stopped]
  | _ => took script c
  end.

Lemma face_on_queue f c : face (on_queue f c) = face c.
Proof. reflexivity. Qed.

Lemma took_on_queue log log' f c : (∀ q, room log q → room log' (f q)) → took log c → took log' (on_queue f c).
Proof. intros Hf (q & Hq & Hr). exists (f q). split; [|by apply Hf]. unfold queue_of in *. cbn. by rewrite Hq. Qed.

Lemma took_send log m c : fit log (false, m) → took log c → took (log ++ [(false, m)]) (on_queue (send m) c).
Proof. intros Hf. apply took_on_queue. intros q Hq. by apply send_room. Qed.

(** A step of the writer keeps the stage. *)
Lemma stage_quiet k c c' : face c' = face c → (∀ log, took log c → took log c') → stage k c → stage k c'.
Proof.
  intros Hf Ht. unfold stage. rewrite Hf. destruct (face c) as [[[[[init ws] ts] ss] next] cl].
  destruct k as [|[|[|[|[|[|k]]]]]]; [naive_solver..|]. apply Ht.
Qed.

Lemma stage_takes k c : stage k c → stage k (writer_takes c).
Proof.
  unfold writer_takes. destruct (queue_of c) as [q|] eqn:Hq; [|done]. destruct (Out.outgoing q) as [|data rest] eqn:Ho; [done|].
  apply stage_quiet; [done|]. intros log (q' & Hq' & [R1 R2 R3 R4]). assert (q' = q) as -> by congruence.
  eexists. split; [unfold queue_of in *; cbn; by rewrite Hq|]. split; cbn; try done. rewrite Ho in R4. cbn in R4. lia.
Qed.

Lemma stage_wrote k c : stage k c → stage k (writer_wrote true c).
Proof.
  unfold writer_wrote. destruct (Conn.inflight c) as [data|]; [|done].
  apply stage_quiet; [done|]. intros log (q & Hq & [R1 R2 R3 R4]).
  eexists. split; [unfold queue_of in *; cbn; by rewrite Hq|]. split; cbn; try done. pose proof (len_nonneg data). lia.
Qed.

Lemma serve_hello c : serve visit name address (Received hello) c =
  let c' := on_queue (send (greeting name address)) {| c with Conn.requests := Conn.requests c ++ [hello] |} in
  {| c' with Conn.initialized := true |}.
Proof.
  destruct c as [[e ts] init ws sv wr inf wi rs]. cbn [serve]. unfold serve_request. rewrite decide_False by done. cbn [Conn.initialized].
  rewrite decide_False by (by intros [_ ?]). rewrite decide_True by done. unfold handshake. rewrite decide_False by done. reflexivity.
Qed.

Lemma stage_hello c : stage 0 c → stage 1 (serve visit name address (Received hello) c).
Proof using Hname Haddress Htext Husage.
  rewrite serve_hello. unfold stage, face. cbn. intros (Ht & _ & Hrest). split; [|by split].
  apply (took_send [] (greeting name address)) in Ht; [|by eapply fit_script]. exact Ht.
Qed.

Lemma serve_new c : Conn.initialized c = true → Eng.closed (eng (Conn.world c)) = false → Eng.nextSession (eng (Conn.world c)) = 0%Z →
  Eng.sessions (eng (Conn.world c)) = ∅ →
  serve visit name address (Received ask_session) c =
  on_queue (send opened) {| c with Conn.requests := Conn.requests c ++ [ask_session];
    Conn.world := mkWorld {| (eng (Conn.world c)) with Eng.nextSession := 1%Z; Eng.sessions := {[sid := new_session]} |} (turns (Conn.world c)) |}.
Proof.
  destruct c as [[e ts] init ws sv wr inf wi rs]. cbn. intros -> Hcl Hn Hs. unfold serve_request. rewrite decide_False by done. cbn [Conn.initialized].
  rewrite decide_False by (by intros [? _]). rewrite decide_False by done. rewrite decide_True by done. unfold handle. cbn [Conn.world].
  assert (react visit name (mkWorld e ts) (Request ask_session) =
    (Some opened, mkWorld {| e with Eng.nextSession := 1%Z; Eng.sessions := {[sid := new_session]} |} ts)) as ->; [|reflexivity].
  unfold react. cbn [eng turns]. unfold start_request. rewrite !decide_False, decide_True by done. unfold new_session_request.
  rewrite Hcl, Hn, Hs, decide_False; [reflexivity|]. intros [H|H]; [|done]. rewrite map_size_empty in H. unfold maxSessions in H. lia.
Qed.

Lemma stage_new c : stage 1 c → stage 2 (serve visit name address (Received ask_session) c).
Proof using Hname Haddress Htext Husage.
  unfold stage, face. intros (Ht & Hi & Hw & Hts & Hs & Hn & Hcl). rewrite serve_new by done. cbn. split; [|by rewrite Hts].
  apply (took_send (take 1 script) opened) in Ht; [|by eapply fit_script]. exact Ht.
Qed.

Definition prompt_fields : list (string * (string * json)) :=
  [("session_id", (json_quote sid, JStr sid)); ("request_id", (json_quote "turn-1", JStr "turn-1")); ("text", (json_quote prompt, JStr prompt))].

Lemma prompt_fields_ok n : (0 ≤ n)%Z → Forall (literal_member_ok n) prompt_fields.
Proof using Hprompt. destruct Hprompt as [Hu _]. intros Hn. unfold prompt_fields. members. Qed.

Lemma prompt_decoded :
  string_field "session_id" (Rpc.Params prompt_message) = (sid, true) ∧ string_field "text" (Rpc.Params prompt_message) = (prompt, true) ∧
  string_field "request_id" (Rpc.Params prompt_message) = ("turn-1", true).
Proof using Hprompt.
  assert (∀ k v, (k, JStr v) ∈ value_fields prompt_fields → Forall (only k (JStr v)) (value_fields prompt_fields) → field_match k k = true →
    string_field k (Rpc.Params prompt_message) = (v, true)) as H.
  { intros k v Hin Hall Hk. apply (map_string 0 prompt_fields k v); [lia|by apply prompt_fields_ok|done..]. }
  unfold value_fields, prompt_fields in H. cbn [map fst snd] in H.
  split; [|split]; apply H; try reflexivity; first [repeat (apply List.Forall_cons || apply List.Forall_nil); first [by left|by right]
    |repeat first [by left|right]].
Qed.

Definition begun (s : engineSession) : Prop := core s = (true, false, false, false, 1%Z, 1%Z, 1%Z, ∅, mkLedger 0 0 0 0).

Lemma react_prompt (e : Engine Outbound) ts q : Eng.sessions e = {[sid := new_session]} → Eng.onEvent e = Some q → room (take 2 script) q →
  ∃ e', react visit name (mkWorld e ts) (Request prompt_message) = (None, mkWorld e' (<[sid := turn_asked]> ts)) ∧
    (∃ q', Eng.onEvent e' = Some q' ∧ room (take 3 script) q') ∧ (∃ s, Eng.sessions e' !! sid = Some s ∧ begun s).
Proof using Hname Haddress Htext Husage Hprompt.
  intros Hs Hq Hr. destruct prompt_decoded as (D1 & D2 & D3). unfold react. cbn [eng turns]. unfold start_request.
  change (Rpc.Method prompt_message) with "session/prompt". change (Rpc.ID prompt_message) with "3".
  rewrite (decide_False (P := "session/prompt" = "initialize")), (decide_False (P := "session/prompt" = "health")), (decide_False (P := "session/prompt" = "session/new")) by done.
  rewrite decide_False by (intros Hn; apply Hn; by left). rewrite D1, D2, D3. cbn [andb].
  rewrite decide_False by (by intros [?|?]). rewrite decide_False by (destruct Hprompt as [_ Hl]; unfold maxRequestIDBytes; change (len "turn-1") with 6%Z; lia).
  unfold session_request. rewrite Hs, lookup_singleton_eq. rewrite decide_True by done. cbn [Sess.requests new_session]. rewrite lookup_empty.
  rewrite !decide_False by (by try intros [?|?]). unfold prompt_session. cbn [Sess.closed Sess.suspended Sess.running new_session].
  rewrite decide_False by (intros [_ Hn]; change (Sess.requests new_session) with (∅ : gmap string Message) in Hn; rewrite map_size_empty in Hn; unfold maxReplayRequests in Hn; lia).
  rewrite decide_False by (cbn; unfold MaxUint64; lia).
  set (e1 := update_session sid _ e).
  assert (Eng.sessions e1 !! sid = Some (Sess.mk true false false false 1 0 0 ∅ (mkLedger 0 0 0 0) 0 0)) as Hs1.
  { unfold e1. rewrite lookup_update, decide_True, Hs, lookup_singleton_eq by done. reflexivity. }
  destruct (emit_room visit sid "session/started" [] e1 _ q (take 2 script) _ _ _ _ _ _ _ _ Hs1 eq_refl Hq Hr) as [(s' & Hs' & Hc') Hq'].
  { by eapply fit_script. }
  eexists. split; [reflexivity|]. split; [exact Hq'|]. exists s'. split; [done|exact Hc'].
Qed.

Lemma stage_prompt c : stage 2 c → stage 3 (serve visit name address (Received prompt_message) c).
Proof using Hname Haddress Htext Husage Hprompt.
  destruct c as [[e ts] init ws sv wr inf wi rs]. unfold stage, face. cbn. intros ((q & Hq & Hr) & -> & -> & -> & Hs).
  unfold serve_request. rewrite decide_False by done. cbn [Conn.initialized].
  rewrite decide_False by (by intros [? _]). rewrite decide_False by done. rewrite decide_False by (intros Hn; by apply Hn).
  rewrite decide_True by (cbn; unfold maxPendingPrompts; lia). unfold start_prompt. cbn.
  split; [by exists q|]. done.
Qed.

Lemma stage_starts c : stage 3 c → stage 4 (prompt_starts visit name 0 c).
Proof using Hname Haddress Htext Husage Hprompt.
  destruct c as [[e ts] init ws sv wr inf wi rs]. unfold stage, face. cbn [Conn.world Conn.initialized Conn.workers turns eng].
  intros ((q & Hq & Hr) & -> & -> & Hs). destruct (react_prompt e ∅ q Hs Hq Hr) as (e' & E & Hq' & Hs').
  unfold prompt_starts. cbn [Conn.workers Conn.world]. change ([Spawned prompt_message] !! 0) with (Some (Spawned prompt_message)).
  cbn iota. rewrite E, (proj1 prompt_decoded). cbn. split; [exact Hq'|]. split; [done|]. split; [done|]. exact Hs'.
Qed.

(** The events at the end of the turn are those of the script. *)
Lemma publish_room (e : Engine Outbound) s q l : Eng.sessions e !! sid = Some s → core s = (true, false, false, false, 1%Z, 1%Z, 1%Z, ∅, l) →
  Eng.onEvent e = Some q → room (take 3 script) q →
  ∃ q', Eng.onEvent (publish visit sid "completed" text usage e) = Some q' ∧ room (take (length script - 1) script) q'.
Proof using Hname Haddress Htext Husage.
  intros Hs Hc Hq Hr. unfold publish. rewrite (decide_True (P := "completed" = "completed")) by done.
  destruct (emit_room visit sid "session/chunk" [("text", json_quote text)] e s q (take 3 script) _ _ _ _ _ _ _ _ Hs Hc Hq Hr) as [(s1 & Hs1 & Hc1) (q1 & Hq1 & Hr1)].
  { apply (fit_script _ _ (drop 4 script)). unfold transcript, closing. case_decide; reflexivity. }
  change (u64 (1 + 1)) with 2%Z in *. set (e1 := emit visit sid "session/chunk" _ e) in *.
  rewrite (decide_False (P := "completed" = "failed")) by done.
  generalize fit_script. unfold transcript, closing. destruct (decide (usage = no_usage)) as [Hu|Hu]; intros Hfit.
  - destruct (emit_room visit sid "session/done" [("stop_reason", json_quote "completed")] e1 s1 q1 _ _ _ _ _ _ _ _ _ Hs1 Hc1 Hq1 Hr1) as [_ (q2 & Hq2 & Hr2)].
    { eapply Hfit. reflexivity. }
    exists q2. split; [exact Hq2|exact Hr2].
  - destruct (emit_room visit sid "session/usage" [("usage", usage_json usage)] e1 s1 q1 _ _ _ _ _ _ _ _ _ Hs1 Hc1 Hq1 Hr1) as [(s2 & Hs2 & Hc2) (q2 & Hq2 & Hr2)].
    { eapply Hfit. reflexivity. }
    destruct (emit_room visit sid "session/done" [("stop_reason", json_quote "completed")] _ s2 q2 _ _ _ _ _ _ _ _ _ Hs2 Hc2 Hq2 Hr2) as [_ (q3 & Hq3 & Hr3)].
    { eapply Hfit. reflexivity. }
    exists q3. split; [exact Hq3|exact Hr3].
Qed.

Lemma finish_room (e : Engine Outbound) s q : Eng.sessions e !! sid = Some s → begun s → Eng.onEvent e = Some q → room (take 3 script) q →
  ∃ e', finish_turn visit turn_asked text usage None e = (stopped, e') ∧
    ∃ q', Eng.onEvent e' = Some q' ∧ room (take (length script - 1) script) q'.
Proof using Hname Haddress Htext Husage.
  intros Hs Hb Hq Hr. unfold begun, core in Hb. injection Hb as B1 B2 B3 B4 B5 B6 B7 B8 B9.
  unfold finish_turn. cbn [turn_asked Pend.session Pend.rpc Pend.request]. rewrite Hs.
  assert (∃ l, (if decide (usage = no_usage) then (None, Sess.ledger s) else account s usage) = (None, l)) as [l ->].
  { case_decide; [by eexists|]. unfold account, Apply. rewrite B5, B9. cbn. rewrite decide_False by (by intros [? _]).
    rewrite decide_False by lia. rewrite decide_False by (intros [Hn _]; by apply Hn). by eexists. }
  rewrite decide_False by (intros Hn; by apply Hn).
  assert (stop_reason s text None = "completed") as ->.
  { unfold stop_reason. rewrite B4, (decide_False (P := None ≠ None ∨ _)) by (intros [Hn|Hn]; [by apply Hn|lia]).
    rewrite decide_False; [done|]. by intros [?|?]. }
  rewrite decide_False by done. set (e1 := update_session sid _ e).
  destruct (publish_room e1 {| s with Sess.ledger := l |} q l) as (q' & Hq' & Hr'); [|unfold core; cbn; congruence|done|done|].
  { unfold e1. rewrite lookup_update, decide_True, Hs by done. reflexivity. }
  eexists. split; [reflexivity|]. exists q'. split; [|exact Hr']. unfold settle_session, remember.
  match goal with |- context [Eng.sessions ?x !! sid] => destruct (Eng.sessions x !! sid) as [s'|] end; [destruct (Sess.closed s')|]; exact Hq'.
Qed.

Lemma stage_returned c : stage 4 c → stage 5 (prompt_returned visit name 0 text usage None c).
Proof using Hname Haddress Htext Husage.
  destruct c as [[e ts] init ws sv wr inf wi rs]. unfold stage, face. cbn [Conn.world Conn.initialized Conn.workers turns eng].
  intros ((q & Hq & Hr) & -> & -> & s & Hs & Hb).
  destruct (finish_room e s q Hs Hb Hq Hr) as (e' & E & Hq'). unfold prompt_returned. cbn [Conn.workers Conn.world].
  change ([Prompting prompt_message sid] !! 0) with (Some (Prompting prompt_message sid)). unfold react. cbn [turns eng]. rewrite lookup_singleton_eq, E. split; [exact Hq'|done].
Qed.

Lemma stage_replies c : stage 5 c → stage 6 (prompt_replies 0 c).
Proof using Hname Haddress Htext Husage.
  destruct c as [[e ts] init ws sv wr inf wi rs]. unfold stage, face. cbn. intros (Ht & ->).
  unfold prompt_replies. cbn [Conn.workers lookup list_lookup]. unfold reply. rewrite decide_False by done. cbn.
  apply (took_send _ stopped) in Ht.
  - destruct Ht as (q & Hq & Hr). exists q. split; [exact Hq|]. revert Hr. unfold transcript, closing. by case_decide.
  - eapply (fit_script _ _ []). unfold transcript, closing. by case_decide.
Qed.

(** ** The conversation *)

Lemma small_prompt : small prompt_message.
Proof using Hprompt.
  destruct (literal_map 0 prompt_fields) as (ms & _ & Hl); [lia|by apply prompt_fields_ok|].
  assert (marshal_map (literal_fields prompt_fields) = Rpc.Params prompt_message) as E by reflexivity. rewrite E in Hl.
  split; [by apply (sendable_request "3" "session/prompt" (1 + 0) _ (JObj ms)); [right; right; by left|done|done|lia|exact Hl|]|].
  split; [done|]. split; [done|]. unfold message_size. change (len (Rpc.ID prompt_message)) with 1%Z. change (len (json_quote (Rpc.Method prompt_message))) with 16%Z.
  change (len (Rpc.Result prompt_message)) with 0%Z. rewrite <-E. pose proof (map_len (literal_fields prompt_fields)) as H.
  unfold literal_fields, prompt_fields in H |- *. cbn [map fst snd] in *. rewrite !sumZ_cons in H. change (sumZ member_size []) with 0%Z in H.
  unfold member_size in H. cbn [fst snd] in H. change (len (json_quote "session_id")) with 12%Z in H. change (len (json_quote sid)) with 11%Z in H.
  change (len (json_quote "request_id")) with 12%Z in H. change (len (json_quote "turn-1")) with 8%Z in H. change (len (json_quote "text")) with 6%Z in H.
  pose proof (quote_len prompt). destruct Hprompt as [_ Hl']. unfold maxTextBytes in Hl'. unfold maxTokenSize. lia.
Qed.

(** The connection while the client's requests are read in turn, the provider returns and
    the response is sent, the writer writing what it has in between. *)
Inductive talk : nat → conn → Prop :=
  | talk_start : talk 0 accepted_conn
  | talk_takes k c : talk k c → Conn.writing c = true → Conn.inflight c = None → talk k (writer_takes c)
  | talk_wrote k c : talk k c → Conn.writing c = true → talk k (writer_wrote true c)
  | talk_hello c : talk 0 c → Conn.serving c = true → spawned (Conn.workers c) = [] → talk 1 (serve visit name address (fst (Protocol.Read (frame hello))) c)
  | talk_new c : talk 1 c → Conn.serving c = true → spawned (Conn.workers c) = [] → talk 2 (serve visit name address (fst (Protocol.Read (frame ask_session))) c)
  | talk_prompt c : talk 2 c → Conn.serving c = true → spawned (Conn.workers c) = [] → talk 3 (serve visit name address (fst (Protocol.Read (frame prompt_message))) c)
  | talk_starts c : talk 3 c → talk 4 (prompt_starts visit name 0 c)
  | talk_returned c : talk 4 c → talk 5 (prompt_returned visit name 0 text usage None c)
  | talk_replies c : talk 5 c → talk 6 (prompt_replies 0 c).

Lemma talk_served k c : talk k c → served visit name address c.
Proof.
  induction 1; [constructor|eapply served_step; [done|]; by constructor..].
Qed.

Lemma talk_stage k c : talk k c → stage k c.
Proof using Hname Haddress Htext Husage Hprompt.
  induction 1 as [|k c _ IH _ _|k c _ IH _|c _ IH _ _|c _ IH _ _|c _ IH _ _|c _ IH|c _ IH|c _ IH].
  - unfold stage, face. cbn. split; [|done]. eexists. split; [reflexivity|]. by split.
  - by apply stage_takes.
  - by apply stage_wrote.
  - rewrite (read_small _ small_hello). by apply stage_hello.
  - rewrite (read_small _ small_session). by apply stage_new.
  - rewrite (read_small _ small_prompt). by apply stage_prompt.
  - by apply stage_starts.
  - by apply stage_returned.
  - by apply stage_replies.
Qed.
End dialogue.
