(* ===== verification/Completion.v ===== *)
(** * A completion, end to end

    The process provider reads what the engine's connection wrote, and returns the text
    and the usage of the engine's own provider. *)

From Stdlib Require Import Ascii.
From stdpp Require Import base tactics option list gmap strings numbers pretty sorting.
From S2P Require Import Prelude GoLib Json Ledger State Protocol Engine EngineProofs EngineSystem Server ServerProofs Wire Restart Sandbox Process Dialogue.

(** ** Reading up to a response *)

Definition joined (l : list string) : string := foldr String.append "" l.

Fixpoint gather_all (ms : list Message) (g : gathered) : result error gathered :=
  match ms with
  | [] => Ok g
  | m :: ms => match gather m g with Ok g => gather_all ms g | Err e => Err e end
  end.

Lemma joined_cons p l rest : joined (p :: l) +:+ rest = p +:+ (joined l +:+ rest).
Proof. cbn. by rewrite <-string_app_assoc. Qed.

Lemma joined_app l l' : joined (l ++ l') = joined l +:+ joined l'.
Proof. induction l as [|p l IH]; [done|]. change (p +:+ joined (l ++ l') = (p +:+ joined l) +:+ joined l'). by rewrite IH, <-string_app_assoc. Qed.

Lemma await_response cut id r rest : ∀ ms fuel g g', Forall small (ms ++ [r]) → Forall (λ m, Rpc.Method m ≠ "") ms →
  Rpc.Method r = "" → Rpc.ID r = id → gather_all ms g = Ok g' → length ms < fuel →
  await fuel cut id (joined (frame <$> ms ++ [r]) +:+ rest) g = (Ok r, rest, g').
Proof.
  induction ms as [|m ms IH]; intros fuel g g' Hs Hm Hr Hid Hg Hf; (destruct fuel as [|fuel]; [lia|]);
    cbn [app fmap list_fmap] in *; apply Forall_cons_1 in Hs as [Hs Hss]; rewrite joined_cons; cbn [await]; rewrite read_frame by done.
  - cbn in Hg. injection Hg as <-. rewrite decide_False by tauto. rewrite decide_False by tauto.
    destruct Hs as (_ & _ & -> & _). done.
  - apply Forall_cons_1 in Hm as [Hm Hms]. rewrite decide_True by done. cbn [gather_all] in Hg. destruct (gather m g) as [g1|]; [|done].
    apply IH; try done. cbn in Hf. lia.
Qed.

Lemma frame_nonempty m : small m → frame m ≠ "".
Proof.
  intros (Hs & Hv & He & _). destruct (frame_size m Hs Hv He) as (data & _ & _ & E & _). intros E'. rewrite E' in E.
  change (len "") with 0%Z in E. pose proof (len_nonneg data). lia.
Qed.

Lemma joined_length ms rest : Forall small ms → length ms ≤ String.length (joined (frame <$> ms) +:+ rest).
Proof.
  induction 1 as [|m ms Hm _ IH]; [cbn; lia|]. cbn [fmap list_fmap]. rewrite joined_cons, string_length_app.
  change (list_fmap _ _ ?f ms) with (f <$> ms). apply frame_nonempty in Hm. destruct (frame m); [done|]. cbn [length String.length]. lia.
Qed.

Lemma call_response m cut r ms rest g g' : Forall small (ms ++ [r]) → Forall (λ m, Rpc.Method m ≠ "") ms →
  Rpc.Method r = "" → Rpc.ID r = Rpc.ID m → gather_all ms g = Ok g' →
  call m None cut (joined (frame <$> ms ++ [r]) +:+ rest) g = (Ok r, rest, g').
Proof.
  intros Hs Hm Hr Hid Hg. apply await_response; try done. pose proof (joined_length (ms ++ [r]) rest Hs) as Hl. rewrite length_app in Hl. cbn in Hl. lia.
Qed.

(** ** Reading the engine's events *)

Lemma ParseUint_pretty n : in_u64 n → ParseUint (pretty n) = Some n.
Proof.
  intros Hn. destruct (pretty_natural n) as [Hl Hd]; [by destruct Hn|]. unfold ParseUint.
  rewrite decide_False by (by intros E; rewrite E in Hl). rewrite Hd. cbn [mbind option_bind]. by rewrite decide_True by apply Hn.
Qed.

Lemma usage_value_read u : usage_ok u → set_usage (no_usage, true) ("usage", usage_value u) = (u, true).
Proof.
  intros (H1 & H2 & H3). destruct u as [i o c]. cbn in H1, H2, H3. unfold usage_value. cbn [InputTokens OutputTokens CachedTokens].
  apply ParseUint_pretty in H1, H2, H3.
  assert (∀ k l v n, (k, JNum l) ∈ v → Forall (only k (JNum l)) v → field_match k k = true → ParseUint l = Some n →
    decode_field as_uint64 k 0%Z (Some (JObj v)) = (n, true)) as Hd.
  { intros k l v n Hin Hall Hk Hp. by apply (decode_unique _ _ _ k (JNum l) n). }
  unfold set_usage. cbn [fst snd]. change (field_match "usage" "usage") with true. cbn iota.
  change (InputTokens no_usage) with 0%Z. change (OutputTokens no_usage) with 0%Z. change (CachedTokens no_usage) with 0%Z.
  rewrite (Hd "input_tokens" (pretty i) _ i), (Hd "output_tokens" (pretty o) _ o), (Hd "cached_tokens" (pretty c) _ c);
    first [done|reflexivity|by repeat first [by left|right]|repeat (apply List.Forall_cons || apply List.Forall_nil); first [by left|by right]].
Qed.

Lemma set_usage_only l : ∀ acc u, Forall (only "usage" (usage_value u)) l → ("usage", usage_value u) ∈ l → usage_ok u → acc = (no_usage, true) →
  NoDup l.*1 → fold_left set_usage l acc = (u, true).
Proof.
  induction l as [|kv l IH]; intros acc u Hall Hin Hu -> Hnd; [by apply elem_of_nil in Hin|].
  apply Forall_cons_1 in Hall as [Hk Hall]. cbn in Hnd. apply NoDup_cons in Hnd as [Hn Hnd]. cbn [fold_left].
  destruct Hk as [->|Hk].
  - rewrite usage_value_read by done. cbn in Hn. clear -Hall Hn. induction l as [|[k v] l IH]; [done|].
    apply Forall_cons_1 in Hall as [Hk Hall]. cbn in Hn. apply not_elem_of_cons in Hn as [Hne Hn]. cbn [fold_left].
    unfold set_usage at 2. destruct Hk as [[= -> ->]|Hk]; [done|]. cbn [fst] in *. rewrite Hk. by apply IH.
  - assert (set_usage (no_usage, true) kv = (no_usage, true)) as -> by (unfold set_usage; by rewrite Hk).
    apply elem_of_cons in Hin as [<-|Hin]; [done|]. by apply IH.
Qed.

(** The members of an event behind its own. *)
Definition event_base (seq : Z) : list (string * (string * json)) :=
  [("session_id", (json_quote sid, JStr sid)); ("turn_id", (json_int 1, JNum (pretty 1))); ("event_seq", (json_int seq, JNum (pretty seq)))].

Lemma event_literal seq fs : event_params sid 1 seq (literal_fields fs) = marshal_map (literal_fields (fs ++ event_base seq)).
Proof. unfold event_params, literal_fields. by rewrite map_app. Qed.

Lemma event_base_ok n seq : (0 ≤ n)%Z → Forall (literal_member_ok n) (event_base seq).
Proof. intros Hn. unfold event_base. members. Qed.

Lemma gather_chunk text g : gather (chunk text) g = Ok (fst g +:+ sanitized text, snd g).
Proof.
  unfold gather. rewrite decide_True by done.
  assert (string_field "text" (Rpc.Params (chunk text)) = (sanitized text, true)) as ->; [|done].
  change (Rpc.Params (chunk text)) with (event_params sid 1 2 (literal_fields [("text", (json_quote text, JStr (sanitized text)))])).
  rewrite event_literal. apply (map_string 0); [lia| |by left| |done].
  - apply Forall_app. split; [members|by apply event_base_ok].
  - repeat (apply List.Forall_cons || apply List.Forall_nil); first [by left|by right].
Qed.

Lemma gather_used usage g : usage_ok usage → gather (used usage) g = Ok (fst g, usage).
Proof.
  intros Hu. unfold gather. rewrite decide_False, decide_True by done.
  assert (usage_field (Rpc.Params (used usage)) = (usage, true)) as ->; [|done].
  change (Rpc.Params (used usage)) with (event_params sid 1 3 (literal_fields [("usage", (usage_json usage, usage_value usage))])).
  rewrite event_literal. destruct (literal_map 1 ([("usage", (usage_json usage, usage_value usage))] ++ event_base 3)) as (ms & Hp & Hl); [lia| |].
  { apply Forall_app. split; [|by apply event_base_ok]. constructor; [|constructor]. split; [done|apply literal_usage]. }
  unfold usage_field. rewrite (literal_parse (1 + 1) _ _ ltac:(lia) Hl). apply set_usage_only; [..|done|done|].
  - rewrite Hp. repeat (apply List.Forall_cons || apply List.Forall_nil); first [by left|by right].
  - rewrite Hp. by left.
  - rewrite Hp. apply (bool_decide_unpack _). by vm_compute.
Qed.

Lemma gather_closing text usage : usage_ok usage → gather_all (started :: closing text usage) ("", no_usage) = Ok (sanitized text, usage).
Proof.
  intros Hu. cbn [gather_all]. assert (gather started ("", no_usage) = Ok ("", no_usage)) as -> by reflexivity.
  unfold closing. destruct (decide (usage = no_usage)) as [->|Hne]; cbn [gather_all]; rewrite gather_chunk; [reflexivity|].
  rewrite gather_used by done. reflexivity.
Qed.

(** ** End to end *)

(** The writer has written all there is. *)
Definition drained (c : conn) : Prop := Conn.writing c = true ∧ Conn.inflight c = None ∧ ∀ q, queue_of c = Some q → Out.outgoing q = [].

Section completion.
Context (visit : nat → list string → list string) (name address prompt text : string) (usage : Usage).
Hypothesis Hvisit : ∀ t ids, visit t ids ≡ₚ ids.
Hypothesis Hname : (len (sanitized name) ≤ 65536)%Z.
Hypothesis Haddress : (len address ≤ 65536)%Z.
Hypothesis Hprompt : utf8 prompt = true ∧ (len prompt ≤ maxTextBytes)%Z.
Hypothesis Htext : (len text ≤ maxTextBytes)%Z.
Hypothesis Husage : usage_ok usage.

Lemma wire_script c : talk visit name address prompt text usage 6 c → drained c →
  Conn.wire c = frame <$> (snd <$> transcript name address text usage).
Proof using Hvisit Hname Haddress Hprompt Htext Husage.
  intros Ht (Hw & Hin & Hout). pose proof (talk_stage visit name address prompt text usage Hname Haddress Hprompt Htext Husage 6 c Ht) as Hs.
  destruct (c_queue _ _ (served_ok visit name address Hvisit c (talk_served visit name address prompt text usage 6 c Ht))) as (q & Hq & Hp & _).
  unfold stage in Hs. destruct (face c) as [[[[[init ws] ts] ss] next] cl]. destruct Hs as (q' & Hq' & [R1 _ _ _]).
  assert (q' = q) as -> by congruence. pose proof (p_fifo _ _ _ _ Hp Hw) as Hf. rewrite Hin, (Hout q Hq), R1 in Hf. cbn in Hf. rewrite app_nil_r in Hf.
  rewrite Hf. unfold frames. by rewrite <-list_fmap_compose.
Qed.

Lemma small_script : Forall small (snd <$> transcript name address text usage).
Proof using Hname Haddress Htext Husage.
  apply Forall_fmap. pose proof (sendable_transcript name address text usage) as Hs. pose proof (script_plain name address text usage) as Hp.
  destruct (transcript_size name address text usage Hname Haddress Htext Husage) as [_ Hl].
  induction Hs as [|x l Hx _ IH]; constructor; apply Forall_cons_1 in Hp as [[Hv He] Hp]; apply Forall_cons_1 in Hl as [Hlx Hl]; [by split|by apply IH].
Qed.

Lemma converse_script x : Xch.wrote1 x = None → Xch.wrote2 x = None → Xch.wrote3 x = None →
  Xch.stream x = joined (frame <$> (snd <$> transcript name address text usage)) → converse prompt x = (None, (sanitized text, usage)).
Proof using Hname Haddress Htext Husage.
  intros W1 W2 W3 Hst. pose proof small_script as Hs.
  assert (snd <$> transcript name address text usage = [greeting name address] ++ [opened] ++ ((started :: closing text usage) ++ [stopped])) as E.
  { unfold transcript. rewrite !fmap_app, <-list_fmap_compose, list_fmap_id. reflexivity. }
  rewrite E in Hst, Hs. rewrite !fmap_app, !joined_app in Hst. apply Forall_app in Hs as [S1 [S2 S3]%Forall_app].
  unfold converse. rewrite W1, W2, W3, Hst.
  rewrite (call_response hello _ (greeting name address) [] _ _ ("", no_usage)) by done.
  rewrite (call_response ask_session _ opened [] _ _ ("", no_usage)) by done.
  change (string_field "session_id" (Rpc.Result opened)) with (sid, true). cbn [negb]. rewrite decide_False by done.
  rewrite <-(string_app_nil_r (joined _ +:+ joined _)), <-joined_app, <-fmap_app.
  rewrite (call_response (ask_prompt sid prompt) _ stopped (started :: closing text usage) _ _ (sanitized text, usage)); [|done| |done|done|by apply gather_closing].
  - reflexivity.
  - constructor; [done|]. unfold closing. case_decide; repeat (apply List.Forall_cons || apply List.Forall_nil); done.
Qed.

End completion.

(** C6: A completion through an engine in a process of its own gives what the engine's
    provider gave.  Let a connection of the engine's server read the three requests of
    the process provider, its own provider return a text and a usage, and the response be
    sent, with the writer running in between at any time; then the turn that the engine
    registered, and that its provider was called for, has the caller's prompt.  Once all is
    written, the process provider that reads these bytes returns that text, with invalid
    UTF-8 replaced, and that usage, and keeps its process.  This holds for a prompt of valid
    UTF-8 and a text of at most 256 KiB each, a usage of 64-bit counters, and names and
    addresses of at most 64 KiB, when the child runs or is started, the connection is made
    and the requests are written; a longer text fails the turn. *)
Theorem completion_end_to_end visit name address prompt text usage c x p p' :
  (∀ t ids, visit t ids ≡ₚ ids) → (len (sanitized name) ≤ 65536)%Z → (len address ≤ 65536)%Z →
  utf8 prompt = true → (len prompt ≤ maxTextBytes)%Z → (len text ≤ maxTextBytes)%Z → usage_ok usage →
  talk visit name address prompt text usage 6 c → drained c → Xch.stream x = joined (Conn.wire c) →
  Xch.cancelled x = None → startLocked (Xch.now x) (Xch.world x) p = (None, p') →
  Xch.dial x = None → Xch.wrote1 x = None → Xch.wrote2 x = None → Xch.wrote3 x = None →
  Process.Complete prompt x p = ((None, sanitized text, usage), p') ∧
  ∀ c4, talk visit name address prompt text usage 4 c4 → turns (Conn.world c4) = {[sid := Pend.mk sid "3" "turn-1" prompt]}.
Proof.
  intros Hvisit Hname Haddress Hutf Hprompt Htext Husage Ht Hd Hst Hx Hs Hdial W1 W2 W3. split.
  - unfold Process.Complete. rewrite decide_False by lia. rewrite Hx, Hs, Hdial.
    rewrite (converse_script name address prompt text usage Hname Haddress Htext Husage x W1 W2 W3); [done|].
    by rewrite Hst, (wire_script visit name address prompt text usage Hvisit Hname Haddress (conj Hutf Hprompt) Htext Husage c Ht Hd).
  - intros c4 H4. pose proof (talk_stage visit name address prompt text usage Hname Haddress (conj Hutf Hprompt) Htext Husage 4 c4 H4) as H.
    unfold stage, face in H. by destruct H as (_ & _ & -> & _).
Qed.

(** ** A sample completion *)

Definition first_come (t : nat) (ids : list string) : list string := ids.
Definition sample_usage : Usage := mkUsage 3 5 0.
Definition write_one (c : conn) : conn := writer_wrote true (writer_takes c).

Abbreviation sample_serve m := (serve first_come "mock" "unix" (fst (Protocol.Read (frame m)))).
Abbreviation sample_stage := (talk first_come "mock" "unix" "hi" "hello" sample_usage).

Definition sample_greeted : conn := write_one (sample_serve hello accepted_conn).
Definition sample_opened : conn := sample_serve ask_session sample_greeted.
Definition sample_prompted : conn := sample_serve (ask_prompt sid "hi") sample_opened.
Definition sample_started : conn := write_one (prompt_starts first_come "mock" 0 sample_prompted).
Definition sample_returned : conn := prompt_returned first_come "mock" 0 "hello" sample_usage None sample_started.
Definition sample_replied : conn := prompt_replies 0 sample_returned.
Definition sample_done : conn := Nat.iter 5 write_one sample_replied.

(** The provider starts its child for this completion. *)
Definition sample_provider : ProcessProvider :=
  Proc.mk {| sample_config with Proc.MaxStarts := 5 |} [] false false (Proc.mkHeld 0 0 0 0) [].
Definition sample_running : ProcessProvider :=
  Proc.mk {| sample_config with Proc.MaxStarts := 5 |} [1%Z] true false (Proc.mkHeld 1 0 0 1) [1%Z].
Definition sample_exchange : exchange := Xch.mk None 1 launched None None None None (joined (Conn.wire sample_done)) (New "EOF") None.

Lemma talk_write k c : sample_stage k c → Conn.writing c = true → Conn.inflight c = None → sample_stage k (write_one c).
Proof.
  intros Ht Hw Hi. apply talk_wrote; [by apply talk_takes|]. unfold writer_takes.
  destruct (queue_of c) as [q|]; [|done]. by destruct (Out.outgoing q).
Qed.

Lemma talk_writes n k c : sample_stage k c → Conn.writing c = true → Conn.inflight c = None → sample_stage k (Nat.iter n write_one c).
Proof.
  intros Ht Hw Hi. assert (∀ c, Conn.writing c = true → Conn.inflight c = None → Conn.writing (write_one c) = true ∧ Conn.inflight (write_one c) = None) as Hone.
  { intros c1 Hw1 Hi1. unfold write_one, writer_takes, writer_wrote. destruct (queue_of c1) as [q|]; [destruct (Out.outgoing q)|]; cbn; rewrite ?Hi1; done. }
  assert (sample_stage k (Nat.iter n write_one c) ∧ Conn.writing (Nat.iter n write_one c) = true ∧ Conn.inflight (Nat.iter n write_one c) = None); [|tauto].
  induction n as [|n (H1 & H2 & H3)]; [done|]. cbn [Nat.iter nat_rect]. split; [by apply talk_write|by apply Hone].
Qed.

Lemma sample_talk : sample_stage 6 sample_done.
Proof.
  assert (sample_stage 1 sample_greeted) as H1.
  { apply talk_write; [|vm_compute; reflexivity..]. exact (talk_hello _ _ _ _ _ _ _ (talk_start _ _ _ _ _ _) eq_refl eq_refl). }
  assert (sample_stage 2 sample_opened) as H2 by (apply (talk_new _ _ _ _ _ _ _ H1); vm_compute; reflexivity).
  assert (sample_stage 3 sample_prompted) as H3 by (apply (talk_prompt _ _ _ _ _ _ _ H2); vm_compute; reflexivity).
  assert (sample_stage 4 sample_started) as H4.
  { apply talk_write; [|vm_compute; reflexivity..]. exact (talk_starts _ _ _ _ _ _ _ H3). }
  apply talk_writes; [|vm_compute; reflexivity..]. exact (talk_replies _ _ _ _ _ _ _ (talk_returned _ _ _ _ _ _ _ H4)).
Qed.

Lemma sample_drained : drained sample_done.
Proof. split; [vm_compute; reflexivity|]. split; [vm_compute; reflexivity|]. intros q. vm_compute. by intros [= <-]. Qed.

Lemma completion_end_to_end_witness :
  Process.Complete "hi" sample_exchange sample_provider = ((None, sanitized "hello", sample_usage), sample_running) ∧
  ∀ c4, talk first_come "mock" "unix" "hi" "hello" sample_usage 4 c4 → turns (Conn.world c4) = {[sid := Pend.mk sid "3" "turn-1" "hi"]}.
Proof.
  apply (completion_end_to_end first_come "mock" "unix" "hi" "hello" sample_usage sample_done sample_exchange sample_provider sample_running
    (λ _ ids, reflexivity ids) ltac:(vm_compute; congruence) ltac:(vm_compute; congruence) eq_refl ltac:(vm_compute; congruence)
    ltac:(vm_compute; congruence) ltac:(split; [|split]; split; vm_compute; congruence) sample_talk sample_drained);
    first [reflexivity|vm_compute; reflexivity].
Defined.
