(* ===== verification/Ainf.v ===== *)
(** * kernel/patches/0006: inference capabilities in the kernel

    The kernel hands out capabilities with rights, a taint, an export mask and a token
    budget, which can be derived into weaker ones, and sessions on them.  A session
    reserves its tokens against the budget of its capability and of every ancestor,
    and settles what was used.  One mutex serialises all of it, so that each call is a
    step.  The reference counts only decide when memory is freed and are left out:
    capabilities and sessions are numbered and never forgotten. *)

From stdpp Require Import base tactics option list sets strings numbers.
From S2P Require Import Prelude.

(** ** The interface *)

Inductive errno : Type :=
  | E_FAULT | E_INVAL | E_ACCES | E_LOOP | E_NOMEM | E_MFILE | E_NOTTY
  | E_BUSY | E_STALE | E_OVERFLOW | E_DQUOT | E_AGAIN.

Definition AOK_CAP_INFER : Z := 1.
Definition AOK_CAP_EXPORT : Z := 2.
Definition AOK_CAP_DELEGATE : Z := 4.
Definition AOK_CAP_REVOKE : Z := 8.
Definition AOK_CAP_SERVE : Z := 16.
Definition AOK_CAP_ALL : Z := 31.
Definition AOK_CORE_DATA_MAX : Z := 512.

Inductive infer_state : Type := IDLE | PENDING | RUNNING | DONE | CANCELLED.

#[export] Instance infer_state_eq_dec : EqDecision infer_state.
Proof. solve_decision. Defined.

Record core_cap := mkPolicy { rights : Z; cap_taint : Z; export_mask : Z; token_limit : Z }.

(** The data are the bytes up to [length]; the kernel clears the others. *)
Record core_io := mkIO {
  sequence : Z;
  input_tokens : Z;
  output_tokens : Z;
  tokens_used : Z;
  taint : Z;
  io_state : infer_state;
  data : string;
}.

Definition zero_io : core_io := mkIO 0 0 0 0 0 IDLE "".

(** ** State *)

Record capability := mkCapability {
  parent : option nat;
  policy : core_cap;
  used : Z;
  reserved : Z;
  depth : Z;
  revoked : bool;
}.

Record inference := mkInference {
  cap : nat;
  io : core_io;
  reservation : Z;
}.

Record core := mkCore { caps : list capability; sessions : list inference }.

(** What can go wrong in a call besides the state: memory, descriptors, the caller's pointer. *)
Record luck := mkLuck { no_memory : bool; no_descriptor : bool; fault : bool }.

(** A capability and its ancestors; a parent is older than its children. *)
Fixpoint chain (fuel : nat) (cs : list capability) (id : nat) : list nat :=
  match fuel with
  | 0 => []
  | S fuel =>
      match cs !! id with
      | None => []
      | Some c => id :: match parent c with Some p => chain fuel cs p | None => [] end
      end
  end.

Definition ancestors (cs : list capability) (id : nat) : list nat := chain (S id) cs id.

(** The loop over a capability and its ancestors. *)
Definition for_each (f : capability → capability) (ids : list nat) (cs : list capability) : list capability :=
  fold_left (λ cs id, alter f id cs) ids cs.

Definition outside (a b : Z) : Prop := Z.land a (u64_not b) ≠ 0%Z.
#[export] Instance outside_dec a b : Decision (outside a b).
Proof. unfold outside. apply _. Defined.

Definition aok_core_valid (cs : list capability) (id : nat) (wanted : Z) : bool :=
  match cs !! id with
  | None => false
  | Some c =>
      bool_decide (Z.land (rights (policy c)) wanted = wanted) &&
      forallb (λ i, match cs !! i with Some a => negb (revoked a) | None => true end) (ancestors cs id)
  end.

(** ** Capabilities *)

Definition aok_core_cap_new (l : luck) (from : option nat) (p : core_cap) (c : core) : result errno nat * core :=
  if fault l then (Err E_FAULT, c)
  else if decide (outside (rights p) AOK_CAP_ALL) then (Err E_INVAL, c)
  else
    match (match from with
           | None => Ok (0%Z)
           | Some id =>
               match caps c !! id with
               | None => Err E_ACCES
               | Some pc =>
                   let pp := policy pc in
                   if decide (aok_core_valid (caps c) id AOK_CAP_DELEGATE = false ∨ outside (rights p) (rights pp) ∨
                              outside (cap_taint pp) (cap_taint p) ∨ outside (export_mask p) (export_mask pp) ∨
                              token_limit p > token_limit pp)%Z
                   then Err E_ACCES
                   else if decide (32 ≤ depth pc)%Z then Err E_LOOP
                   else Ok (depth pc + 1)%Z
               end
           end) with
    | Err e => (Err e, c)
    | Ok d =>
        if no_memory l then (Err E_NOMEM, c)
        else if no_descriptor l then (Err E_MFILE, c)
        else (Ok (length (caps c)), mkCore (caps c ++ [mkCapability from p 0 0 d false]) (sessions c))
    end.

(** [root_rights] tells whether the root handle may manage children. *)
Definition aok_core_root_ioctl (l : luck) (root_rights : bool) (p : core_cap) (c : core) : result errno nat * core :=
  if negb root_rights then (Err E_ACCES, c) else aok_core_cap_new l None p c.

(** ** Sessions *)

Definition set_session (sid : nat) (s : inference) (c : core) : core := mkCore (caps c) (<[sid := s]> (sessions c)).

(** Give the reservation back and charge [spent] to the capability and its ancestors. *)
Definition aok_core_unreserve (sid : nat) (s : inference) (spent : Z) (c : core) : core :=
  let settle a := mkCapability (parent a) (policy a) (u64 (used a + spent)) (u64 (reserved a - reservation s)) (depth a) (revoked a) in
  mkCore (for_each settle (ancestors (caps c) (cap s)) (caps c)) (<[sid := mkInference (cap s) (io s) 0]> (sessions c)).

Definition in_flight (s : inference) : bool := bool_decide (io_state (io s) = PENDING ∨ io_state (io s) = RUNNING).

Definition with_state (x : core_io) (st : infer_state) : core_io :=
  mkIO (sequence x) (input_tokens x) (output_tokens x) (tokens_used x) (taint x) st (data x).

(** A session in flight ends without a result; a running one is charged its ceiling. *)
Definition abandon (sid : nat) (c : core) : core :=
  match sessions c !! sid with
  | None => c
  | Some s =>
      if in_flight s then
        let c := aok_core_unreserve sid s (if decide (io_state (io s) = RUNNING) then reservation s else 0) c in
        set_session sid (mkInference (cap s) (with_state (io s) CANCELLED) 0) c
      else c
  end.

(** The release of either end. *)
Definition aok_core_session_release (sid : nat) (c : core) : core := abandon sid c.

Definition aok_core_session_new (l : luck) (id : nat) (c : core) : result errno nat * core :=
  if negb (aok_core_valid (caps c) id (Z.lor AOK_CAP_INFER AOK_CAP_SERVE)) then (Err E_ACCES, c)
  else if no_memory l then (Err E_NOMEM, c)
  else if no_descriptor l then (Err E_MFILE, c)
  else if fault l then (Err E_FAULT, c)
  else
    match caps c !! id with
    | None => (Err E_ACCES, c)
    | Some a =>
        let x := mkIO 0 0 0 0 (cap_taint (policy a)) IDLE "" in
        (Ok (length (sessions c)), mkCore (caps c) (sessions c ++ [mkInference id x 0]))
    end.

Inductive cap_command : Type := CAP_DERIVE (p : core_cap) | CAP_REVOKE | CAP_CHECK | SESSION_CREATE | CAP_OTHER.

(** The number of the new capability or session, 0 for the others. *)
Definition aok_core_cap_ioctl (l : luck) (id : nat) (cmd : cap_command) (c : core) : result errno nat * core :=
  if negb (aok_core_valid (caps c) id 0) then (Err E_ACCES, c)
  else
    match cmd with
    | CAP_DERIVE p => aok_core_cap_new l (Some id) p c
    | CAP_REVOKE =>
        if aok_core_valid (caps c) id AOK_CAP_REVOKE then
          let mark a := mkCapability (parent a) (policy a) (used a) (reserved a) (depth a) true in
          (Ok 0, mkCore (alter mark id (caps c)) (sessions c))
        else (Err E_ACCES, c)
    | CAP_CHECK => (Ok 0, c)
    | SESSION_CREATE => aok_core_session_new l id c
    | CAP_OTHER => (Err E_NOTTY, c)
    end.

Inductive session_command : Type := SUBMIT (x : core_io) | TAKE | COMPLETE (x : core_io) | RESULT | CANCEL | EXPORT | SESSION_OTHER.

(** Whether the end of the session has the command. *)
Definition of_end (backend : bool) (cmd : session_command) : bool :=
  match cmd with
  | TAKE | COMPLETE _ => backend
  | SUBMIT _ | RESULT | CANCEL | EXPORT => negb backend
  | SESSION_OTHER => false
  end.

(** The checks of what the caller passes. *)
Definition check_argument (l : luck) (cmd : session_command) : option errno :=
  match cmd with
  | SUBMIT x | COMPLETE x =>
      if fault l then Some E_FAULT
      else if decide (AOK_CORE_DATA_MAX < len (data x) ∨ tokens_used x ≠ 0 ∨ io_state x ≠ IDLE)%Z then Some E_INVAL
      else None
  | _ => None
  end.

(** Some capability on the way up has not enough left. *)
Definition over_budget (cs : list capability) (id : nat) (total : Z) : bool :=
  existsb (λ i, match cs !! i with
                | Some a => bool_decide (total > u64 (u64 (token_limit (policy a) - used a) - reserved a))%Z
                | None => false
                end) (ancestors cs id).

Definition do_submit (sid : nat) (s : inference) (x : core_io) (c : core) : result errno core_io * core :=
  if in_flight s then (Err E_BUSY, c)
  else if decide (sequence (io s) = MaxUint64 ∨ sequence x ≠ u64 (sequence (io s) + 1)) then (Err E_STALE, c)
  else if decide (input_tokens x > u64 (MaxUint64 - output_tokens x))%Z then (Err E_OVERFLOW, c)
  else
    let total := u64 (input_tokens x + output_tokens x) in
    if over_budget (caps c) (cap s) total then (Err E_DQUOT, c)
    else
      let reserve a := mkCapability (parent a) (policy a) (used a) (u64 (reserved a + total)) (depth a) (revoked a) in
      let x := mkIO (sequence x) (input_tokens x) (output_tokens x) (tokens_used x) (Z.lor (taint x) (taint (io s))) PENDING (data x) in
      (Ok zero_io, set_session sid (mkInference (cap s) x total) (mkCore (for_each reserve (ancestors (caps c) (cap s)) (caps c)) (sessions c))).

Definition do_take (l : luck) (sid : nat) (s : inference) (c : core) : result errno core_io * core :=
  if decide (io_state (io s) ≠ PENDING) then (Err E_AGAIN, c)
  else if fault l then (Err E_FAULT, c)
  else
    let x := with_state (io s) RUNNING in
    (Ok x, set_session sid (mkInference (cap s) x (reservation s)) c).

Definition do_complete (sid : nat) (s : inference) (x : core_io) (c : core) : result errno core_io * core :=
  if decide (sequence x ≠ sequence (io s) ∨ io_state (io s) ≠ RUNNING) then (Err E_STALE, c)
  else if decide (input_tokens x > input_tokens (io s) ∨ output_tokens x > output_tokens (io s))%Z then (Err E_DQUOT, c)
  else
    let total := u64 (input_tokens x + output_tokens x) in
    let c := aok_core_unreserve sid s total c in
    let spent := match caps c !! cap s with Some a => used a | None => 0%Z end in
    let x := mkIO (sequence x) (input_tokens x) (output_tokens x) spent (Z.lor (taint x) (taint (io s))) DONE (data x) in
    (Ok zero_io, set_session sid (mkInference (cap s) x 0) c).

Definition do_result (l : luck) (s : inference) (c : core) : result errno core_io * core :=
  if decide (io_state (io s) ≠ DONE) then (Err E_AGAIN, c)
  else if fault l then (Err E_FAULT, c) else (Ok (io s), c).

Definition do_export (l : luck) (s : inference) (c : core) : result errno core_io * core :=
  match caps c !! cap s with
  | None => (Err E_ACCES, c)
  | Some a =>
      if decide (aok_core_valid (caps c) (cap s) AOK_CAP_EXPORT = false ∨ outside (taint (io s)) (export_mask (policy a)))
      then (Err E_ACCES, c) else do_result l s c
  end.

Definition aok_core_session_ioctl (l : luck) (backend : bool) (sid : nat) (cmd : session_command) (c : core) : result errno core_io * core :=
  if negb (of_end backend cmd) then (Err E_ACCES, c)
  else
    match check_argument l cmd with
    | Some e => (Err e, c)
    | None =>
        match sessions c !! sid with
        | None => (Err E_ACCES, c)
        | Some s =>
            if negb (aok_core_valid (caps c) (cap s) AOK_CAP_INFER) then (Err E_ACCES, c)
            else
              match cmd with
              | SUBMIT x => do_submit sid s x c
              | TAKE => do_take l sid s c
              | COMPLETE x => do_complete sid s x c
              | CANCEL => (Ok zero_io, abandon sid c)
              | EXPORT => do_export l s c
              | RESULT => do_result l s c
              | SESSION_OTHER => (Err E_NOTTY, c)
              end
        end
    end.

(** What [poll] reports of an end. *)
Inductive poll_mask : Type := POLL_NONE | POLL_READABLE | POLL_HANGUP.

Definition aok_core_session_poll (backend : bool) (sid : nat) (c : core) : poll_mask :=
  match sessions c !! sid with
  | None => POLL_NONE
  | Some s =>
      if decide (aok_core_valid (caps c) (cap s) AOK_CAP_INFER = false ∨ io_state (io s) = CANCELLED) then POLL_HANGUP
      else if decide ((backend = true ∧ io_state (io s) = PENDING) ∨ (backend = false ∧ io_state (io s) = DONE)) then POLL_READABLE
      else POLL_NONE
  end.

(** ** The system *)

Inductive kcall : Type :=
  | KRoot (l : luck) (may : bool) (p : core_cap)
  | KCap (l : luck) (id : nat) (cmd : cap_command)
  | KSession (l : luck) (backend : bool) (sid : nat) (cmd : session_command)
  | KRelease (sid : nat).

Definition kexec (k : kcall) (c : core) : core :=
  match k with
  | KRoot l may p => snd (aok_core_root_ioctl l may p c)
  | KCap l id cmd => snd (aok_core_cap_ioctl l id cmd c)
  | KSession l b sid cmd => snd (aok_core_session_ioctl l b sid cmd c)
  | KRelease sid => aok_core_session_release sid c
  end.

(** The 64-bit words of a call are in range. *)
Definition policy_word (p : core_cap) : Prop := in_u64 (rights p) ∧ in_u64 (cap_taint p) ∧ in_u64 (export_mask p) ∧ in_u64 (token_limit p).
Definition io_word (x : core_io) : Prop :=
  in_u64 (sequence x) ∧ in_u64 (input_tokens x) ∧ in_u64 (output_tokens x) ∧ in_u64 (tokens_used x) ∧ in_u64 (taint x).

Definition kcall_word (k : kcall) : Prop :=
  match k with
  | KRoot _ _ p | KCap _ _ (CAP_DERIVE p) => policy_word p
  | KSession _ _ _ (SUBMIT x) | KSession _ _ _ (COMPLETE x) => io_word x
  | _ => True
  end.

Definition boot_core : core := mkCore [] [].

Inductive core_reachable : core → Prop :=
  | core_start : core_reachable boot_core
  | core_step k c : core_reachable c → kcall_word k → core_reachable (kexec k c).

Definition krun (ks : list kcall) (c : core) : core := fold_left (λ c k, kexec k c) ks c.
