(* ===== verification/AinfProofs.v ===== *)
(** * The kernel's token budgets hold

    In every reachable state the tokens used and reserved at a capability stay within
    its budget, what is reserved is what the sessions below it have in flight, and a
    derived capability is weaker than the one it was derived from. *)

From stdpp Require Import base tactics option list sets strings numbers.
From S2P Require Import Prelude Ainf.

Local Open Scope Z_scope.

(** ** Ancestors *)

Definition tree (cs : list capability) : Prop := ∀ id a p, cs !! id = Some a → parent a = Some p → (p < id)%nat.

Lemma chain_fuel cs : tree cs → ∀ id f, (S id ≤ f)%nat → chain f cs id = chain (S id) cs id.
Proof.
  intros Ht id. induction id as [id IH] using lt_wf_ind. intros f Hf. destruct f as [|f]; [lia|]. cbn [chain].
  destruct (cs !! id) as [a|] eqn:Ha; [|done]. f_equal. destruct (parent a) as [p|] eqn:Hp; [|done].
  pose proof (Ht id a p Ha Hp). rewrite (IH p), (IH p ltac:(lia) id) by lia. done.
Qed.

Lemma ancestors_unfold cs id a : tree cs → cs !! id = Some a →
  ancestors cs id = id :: match parent a with Some p => ancestors cs p | None => [] end.
Proof.
  intros Ht Ha. unfold ancestors at 1. cbn [chain]. rewrite Ha. f_equal. destruct (parent a) as [p|] eqn:Hp; [|done].
  apply chain_fuel; [done|]. by pose proof (Ht id a p Ha Hp).
Qed.

Lemma ancestors_none cs id : cs !! id = None → ancestors cs id = [].
Proof. intros H. unfold ancestors. cbn [chain]. by rewrite H. Qed.

Lemma ancestors_le cs id i : tree cs → i ∈ ancestors cs id → (i ≤ id)%nat ∧ is_Some (cs !! i).
Proof.
  intros Ht. induction id as [id IH] using lt_wf_ind. destruct (cs !! id) as [a|] eqn:Ha; [|rewrite ancestors_none by done; by intros ?%elem_of_nil].
  rewrite (ancestors_unfold cs id a) by done. intros [->|Hi]%elem_of_cons; [by rewrite Ha|].
  destruct (parent a) as [p|] eqn:Hp; [|by apply elem_of_nil in Hi]. pose proof (Ht id a p Ha Hp). destruct (IH p ltac:(lia) Hi). split; [lia|done].
Qed.

Lemma ancestors_NoDup cs id : tree cs → NoDup (ancestors cs id).
Proof.
  intros Ht. induction id as [id IH] using lt_wf_ind. destruct (cs !! id) as [a|] eqn:Ha; [|rewrite ancestors_none by done; constructor].
  rewrite (ancestors_unfold cs id a) by done. destruct (parent a) as [p|] eqn:Hp; [|apply NoDup_singleton].
  pose proof (Ht id a p Ha Hp). constructor; [|by apply IH]. intros Hi. apply ancestors_le in Hi; [lia|done].
Qed.

(** Only the parents matter. *)
Lemma ancestors_same cs cs' : tree cs → ∀ id, (∀ i, (i ≤ id)%nat → parent <$> cs' !! i = parent <$> cs !! i) → ancestors cs' id = ancestors cs id.
Proof.
  intros Ht id H. assert (∀ f i, (i ≤ id)%nat → chain f cs' i = chain f cs i) as Hc; [|by apply Hc].
  intros f. induction f as [|f IH]; intros i Hi; [done|]. cbn [chain]. pose proof (H i Hi) as Hp.
  destruct (cs' !! i) as [a'|], (cs !! i) as [a|] eqn:Ha; try done. cbn in Hp. injection Hp as ->. f_equal.
  destruct (parent a) as [p|] eqn:Hp; [|done]. apply IH. pose proof (Ht i a p Ha Hp). lia.
Qed.

Lemma for_each_lookup f ids : NoDup ids → ∀ cs i, for_each f ids cs !! i = if decide (i ∈ ids) then f <$> cs !! i else cs !! i.
Proof.
  unfold for_each. induction 1 as [|id ids Hid _ IH]; intros cs i; [done|]. cbn [fold_left]. rewrite IH.
  destruct (decide (i ∈ id :: ids)) as [Hi|Hi].
  - apply elem_of_cons in Hi as [->|Hi]; [rewrite decide_False, list_lookup_alter_eq by done; done|].
    rewrite decide_True by done. by rewrite list_lookup_alter_ne by (intros ->; done).
  - apply not_elem_of_cons in Hi as [Hne Hi]. rewrite decide_False by done. by rewrite list_lookup_alter_ne.
Qed.

Lemma for_each_length f ids : ∀ cs, length (for_each f ids cs) = length cs.
Proof. unfold for_each. induction ids as [|id ids IH]; intros cs; [done|]. cbn [fold_left]. by rewrite IH, length_alter. Qed.

(** ** The invariant *)

Lemma outside_submask a b : in_u64 a → in_u64 b → ¬ outside a b → submask a b.
Proof. intros Ha Hb H. apply masked_submask; [done..|]. unfold outside in H. by apply dec_stable. Qed.

(** What the sessions below a capability have in flight. *)
Definition demand (cs : list capability) (ss : list inference) (id : nat) : Z :=
  sumZ (λ s, if decide (id ∈ ancestors cs (cap s)) then reservation s else 0) ss.

Record cap_ok (cs : list capability) (ss : list inference) (id : nat) (a : capability) : Prop := {
  co_word : policy_word (policy a);
  co_used : 0 ≤ used a;
  co_budget : used a + reserved a ≤ token_limit (policy a);
  co_demand : reserved a = demand cs ss id;
  co_parent p : parent a = Some p → (p < id)%nat ∧ ∃ b, cs !! p = Some b ∧ submask (rights (policy a)) (rights (policy b)) ∧
    submask (cap_taint (policy b)) (cap_taint (policy a)) ∧ submask (export_mask (policy a)) (export_mask (policy b)) ∧
    token_limit (policy a) ≤ token_limit (policy b) ∧ depth a = depth b + 1;
  co_depth : 0 ≤ depth a ≤ 32;
}.

Record session_ok (cs : list capability) (s : inference) : Prop := {
  so_word : io_word (io s);
  so_flight : in_flight s = true → reservation s = input_tokens (io s) + output_tokens (io s);
  so_still : in_flight s = false → reservation s = 0;
  so_cap : ∃ a, cs !! cap s = Some a ∧ submask (cap_taint (policy a)) (taint (io s));
}.

Record core_ok (c : core) : Prop := {
  ok_caps id a : caps c !! id = Some a → cap_ok (caps c) (sessions c) id a;
  ok_sessions sid s : sessions c !! sid = Some s → session_ok (caps c) s;
}.

Lemma core_tree c : core_ok c → tree (caps c).
Proof. intros [H _] id a p Ha Hp. by destruct (co_parent _ _ _ _ (H id a Ha) p Hp). Qed.

Lemma reservation_nonneg cs s : session_ok cs s → 0 ≤ reservation s.
Proof.
  intros [W F S _]. destruct (in_flight s); [rewrite F by done; destruct W as (_ & [? _] & [? _] & _); lia|by rewrite S].
Qed.

Lemma demand_nonneg c id : core_ok c → 0 ≤ demand (caps c) (sessions c) id.
Proof.
  intros [_ H]. apply sumZ_nonneg_Forall. apply Forall_lookup_2. intros sid s Hs.
  case_decide; [|done]. eapply reservation_nonneg. by eapply H.
Qed.

Lemma sumZ_insert {A} (f : A → Z) l i x y : l !! i = Some x → sumZ f (<[i := y]> l) = sumZ f l - f x + f y.
Proof.
  revert i. induction l as [|z l IH]; intros [|i] H; [done|done|..]; cbn in H.
  - injection H as ->. change (<[0%nat := y]> (x :: l)) with (y :: l). rewrite !sumZ_cons. lia.
  - change (<[S i := y]> (z :: l)) with (z :: <[i := y]> l). rewrite !sumZ_cons, IH by done. lia.
Qed.

Lemma sumZ_elem_le {A} (f : A → Z) l i x : (∀ y, y ∈ l → 0 ≤ f y) → l !! i = Some x → f x ≤ sumZ f l.
Proof.
  revert i. induction l as [|z l IH]; intros [|i] Hall H; [done|done|..]; cbn in H.
  - injection H as ->. rewrite sumZ_cons. assert (0 ≤ sumZ f l) by (apply sumZ_nonneg_Forall, Forall_lookup_2; intros j y Hy; apply Hall; right; by eapply list_elem_of_lookup_2). lia.
  - rewrite sumZ_cons. specialize (IH i (λ y Hy, Hall y (list_elem_of_further _ _ _ Hy)) H). assert (0 ≤ f z) by (apply Hall; by left). lia.
Qed.

Lemma sumZ_zero {A} (f : A → Z) l : (∀ x, x ∈ l → f x = 0) → sumZ f l = 0.
Proof. intros H. rewrite (sumZ_ext f (λ _, 0)) by done. induction l as [|x l IH]; [done|]. rewrite sumZ_cons, IH; [done|]. intros y Hy. apply H. by right. Qed.

(** A capability above a session has its reservation. *)
Lemma reserved_ge c id a sid s : core_ok c → caps c !! id = Some a → sessions c !! sid = Some s → id ∈ ancestors (caps c) (cap s) →
  reservation s ≤ reserved a.
Proof.
  intros Hc Ha Hs Hin. rewrite (co_demand _ _ _ _ (ok_caps _ Hc id a Ha)). unfold demand.
  pose proof (sumZ_elem_le (λ s, if decide (id ∈ ancestors (caps c) (cap s)) then reservation s else 0) (sessions c) sid s) as H.
  cbn in H. rewrite decide_True in H by done. apply H; [|done]. intros y Hy. case_decide; [|done].
  apply list_elem_of_lookup_1 in Hy as [i Hy]. eapply reservation_nonneg. by eapply ok_sessions.
Qed.

(** ** One session changes *)

(** The same capability but for what is used and reserved. *)
Definition moved (du dr : Z) (a : capability) : capability :=
  mkCapability (parent a) (policy a) (used a + du) (reserved a + dr) (depth a) (revoked a).

Lemma same_parents f ids cs i : (∀ a, parent (f a) = parent a) → NoDup ids → parent <$> for_each f ids cs !! i = parent <$> cs !! i.
Proof. intros Hf Hn. rewrite for_each_lookup by done. case_decide; [|done]. destruct (cs !! i) as [a|]; cbn; [by rewrite Hf|done]. Qed.

(** Session [sid] gives up its reservation for that of [s'], and its capability and all
    above are charged [du]. *)
Lemma settle_ok c sid s s' f du :
  core_ok c → sessions c !! sid = Some s → cap s' = cap s → session_ok (caps c) s' → 0 ≤ du →
  (∀ id a, caps c !! id = Some a → id ∈ ancestors (caps c) (cap s) →
     f a = moved du (reservation s' - reservation s) a ∧ used a + du + reserved a - reservation s + reservation s' ≤ token_limit (policy a)) →
  core_ok (mkCore (for_each f (ancestors (caps c) (cap s)) (caps c)) (<[sid := s']> (sessions c))).
Proof.
  intros Hc Hs Hcap Hs' Hdu Hf. pose proof (core_tree c Hc) as Ht. pose proof (ancestors_NoDup (caps c) (cap s) Ht) as Hn.
  set (ids := ancestors (caps c) (cap s)) in *. set (cs' := for_each f ids (caps c)).
  assert (∀ i, cs' !! i = if decide (i ∈ ids) then f <$> caps c !! i else caps c !! i) as Hlook by (intros i; by apply for_each_lookup).
  assert (∀ i b', cs' !! i = Some b' → ∃ b, caps c !! i = Some b ∧ parent b' = parent b ∧ policy b' = policy b ∧ depth b' = depth b) as Hback.
  { intros i b' Hb'. rewrite Hlook in Hb'. case_decide as Hi; [|by exists b']. destruct (caps c !! i) as [b|] eqn:Hb; [|done]. cbn in Hb'.
    injection Hb' as <-. destruct (Hf i b Hb Hi) as [-> _]. by exists b. }
  assert (∀ i b, caps c !! i = Some b → ∃ b', cs' !! i = Some b' ∧ policy b' = policy b ∧ depth b' = depth b) as Hforth.
  { intros i b Hb. rewrite Hlook, Hb. case_decide as Hi; [|by exists b]. cbn. destruct (Hf i b Hb Hi) as [-> _]. by eexists. }
  assert (∀ id, ancestors cs' id = ancestors (caps c) id) as Hanc.
  { intros id. apply ancestors_same; [done|]. intros i _. destruct (cs' !! i) as [b'|] eqn:Hb'.
    - destruct (Hback i b' Hb') as (b & -> & E & _). cbn. by rewrite E.
    - destruct (caps c !! i) as [b|] eqn:Hb; [|done]. destruct (Hforth i b Hb) as (b' & ? & _). congruence. }
  assert (∀ id, demand cs' (<[sid := s']> (sessions c)) id = demand (caps c) (sessions c) id +
    (if decide (id ∈ ids) then reservation s' - reservation s else 0)) as Hdem.
  { intros id. unfold demand. rewrite (sumZ_ext _ (λ s, if decide (id ∈ ancestors (caps c) (cap s)) then reservation s else 0)) by (intros x _; by rewrite Hanc).
    rewrite (sumZ_insert _ _ _ _ _ Hs), Hcap. fold ids. case_decide; lia. }
  split; cbn [caps sessions].
  - intros id a' Ha'. destruct (Hback id a' Ha') as (a & Ha & Ep & Epol & Edep). destruct (ok_caps _ Hc id a Ha) as [W U B D P De].
    assert (used a' = used a + (if decide (id ∈ ids) then du else 0) ∧ reserved a' = reserved a + (if decide (id ∈ ids) then reservation s' - reservation s else 0)) as [Eu Er].
    { rewrite Hlook in Ha'. case_decide as Hi; [|split; assert (a' = a) as -> by congruence; lia]. rewrite Ha in Ha'. cbn in Ha'. injection Ha' as <-.
      by destruct (Hf id a Ha Hi) as [-> _]. }
    split; rewrite ?Epol, ?Edep; [done| | | | |done].
    + rewrite Eu. case_decide; lia.
    + rewrite Eu, Er. case_decide as Hi; [|lia]. destruct (Hf id a Ha Hi) as [_ Hle]. lia.
    + by rewrite Er, Hdem, D.
    + rewrite Ep. intros p Hp. destruct (P p Hp) as (Hlt & b & Hb & Hrest). split; [done|]. destruct (Hforth p b Hb) as (b' & Hb' & Epb & Edb).
      exists b'. by rewrite Epb, Edb.
  - intros i x Hx. assert (session_ok (caps c) x) as [W1 W2 W3 (b & Hb & Htb)].
    { rewrite list_lookup_insert in Hx. case_decide as Hd; [injection Hx as <-; done|by eapply ok_sessions]. }
    split; [done..|]. destruct (Hforth _ _ Hb) as (b' & Hb' & E & _). exists b'. by rewrite E.
Qed.

Lemma moved_settle c sid s id a spent : core_ok c → sessions c !! sid = Some s → caps c !! id = Some a → id ∈ ancestors (caps c) (cap s) →
  0 ≤ spent ≤ reservation s →
  mkCapability (parent a) (policy a) (u64 (used a + spent)) (u64 (reserved a - reservation s)) (depth a) (revoked a) = moved spent (0 - reservation s) a ∧
  used a + spent + reserved a - reservation s + 0 ≤ token_limit (policy a).
Proof.
  intros Hc Hs Ha Hin Hsp. pose proof (reserved_ge c id a sid s Hc Ha Hs Hin) as Hge. destruct (ok_caps _ Hc id a Ha) as [W U B D _ _].
  destruct W as (_ & _ & _ & [Hl0 Hl]). pose proof (demand_nonneg c id Hc). split; [|lia]. unfold moved. rewrite !u64_small by lia. f_equal; lia.
Qed.

(** A session in flight settles for at most its reservation. *)
Lemma unreserve_ok c sid s x spent : core_ok c → sessions c !! sid = Some s → 0 ≤ spent ≤ reservation s →
  session_ok (caps c) (mkInference (cap s) x 0) →
  core_ok (set_session sid (mkInference (cap s) x 0) (aok_core_unreserve sid s spent c)).
Proof.
  intros Hc Hs Hsp Hx. unfold set_session, aok_core_unreserve. cbn [caps sessions]. rewrite list_insert_insert_eq.
  apply (settle_ok c sid s _ _ spent); [done..|lia|]. intros id a Ha Hin. by apply (moved_settle c sid s id a spent).
Qed.

Lemma still_ok cs s x st : session_ok cs s → st ≠ PENDING → st ≠ RUNNING → x = with_state (io s) st → session_ok cs (mkInference (cap s) x 0).
Proof.
  intros [W _ _ C] H1 H2 ->. assert (in_flight (mkInference (cap s) (with_state (io s) st) 0) = false) as E by (apply bool_decide_eq_false; cbn; tauto).
  split; cbn; [by destruct W|by rewrite E|done|done].
Qed.

Lemma abandon_ok c sid : core_ok c → core_ok (abandon sid c).
Proof.
  intros Hc. unfold abandon. destruct (sessions c !! sid) as [s|] eqn:Hs; [|done]. destruct (in_flight s) eqn:Hf; [|done].
  pose proof (ok_sessions _ Hc sid s Hs) as Hso. pose proof (reservation_nonneg _ _ Hso).
  apply unreserve_ok; [done..|case_decide; lia|]. by apply (still_ok _ _ _ CANCELLED).
Qed.

Lemma over_budget_false cs id total : over_budget cs id total = false → ∀ i a, i ∈ ancestors cs id → cs !! i = Some a →
  (total ≤ u64 (u64 (token_limit (policy a) - used a) - reserved a))%Z.
Proof.
  unfold over_budget. intros H i a Hi Ha. destruct (decide (total ≤ u64 (u64 (token_limit (policy a) - used a) - reserved a))) as [|Hn]; [done|].
  exfalso. apply not_true_iff_false in H. apply H, existsb_exists. exists i. split; [by apply list_elem_of_In|]. rewrite Ha. apply bool_decide_eq_true. lia.
Qed.

Lemma io_word_intro q i o t m st d : in_u64 q → in_u64 i → in_u64 o → in_u64 t → in_u64 m → io_word (mkIO q i o t m st d).
Proof. intros H1 H2 H3 H4 H5. exact (conj H1 (conj H2 (conj H3 (conj H4 H5)))). Qed.

Lemma submit_ok c sid s x : core_ok c → sessions c !! sid = Some s → io_word x → core_ok (snd (do_submit sid s x c)).
Proof.
  intros Hc Hs Hw. unfold do_submit. destruct (in_flight s) eqn:Hf; [done|]. case_decide; [done|]. case_decide as Ho; [done|]. cbv zeta.
  destruct Hw as (W1 & [W2 W2'] & [W3 W3'] & W4 & W5). rewrite u64_small in Ho by lia.
  rewrite (u64_small (input_tokens x + output_tokens x)) by lia. set (total := input_tokens x + output_tokens x) in *.
  destruct (over_budget (caps c) (cap s) total) eqn:Hob; [done|]. cbn [snd].
  pose proof (ok_sessions _ Hc sid s Hs) as [(_ & _ & _ & _ & T5) S2 S3 (a & Ha & Hsub)]. specialize (S3 Hf).
  unfold set_session. cbn [caps sessions]. apply (settle_ok c sid s _ _ 0); [done..| |done|].
  - split; cbn; [|done|done|].
    + by apply io_word_intro; [| | | |apply lor_u64].
    + exists a. split; [done|]. etrans; [exact Hsub|]. rewrite Z.lor_comm. apply submask_lor.
  - intros id b Hb Hin. pose proof (over_budget_false _ _ _ Hob id b Hin Hb) as Hle. destruct (ok_caps _ Hc id b Hb) as [W U B D _ _].
    destruct W as (_ & _ & _ & [Hl0 Hl]). pose proof (demand_nonneg c id Hc). rewrite !u64_small in Hle by (rewrite ?u64_small; lia).
    unfold moved. cbn [reservation]. rewrite S3, u64_small by lia. split; [f_equal; lia|lia].
Qed.

(** What a settlement leaves at a capability is a word. *)
Lemma settled_word c sid s spent : core_ok c →
  in_u64 (match caps (aok_core_unreserve sid s spent c) !! cap s with Some a => used a | None => 0 end).
Proof.
  intros Hc. unfold aok_core_unreserve. cbn [caps]. rewrite for_each_lookup by (by apply ancestors_NoDup, core_tree).
  destruct (caps c !! cap s) as [a|] eqn:Ha; [|by case_decide; vm_compute]. case_decide; cbn; [apply u64_range|].
  destruct (ok_caps _ Hc _ _ Ha) as [(_ & _ & _ & Hl) U B D _ _]. pose proof (demand_nonneg c (cap s) Hc). unfold in_u64 in *. lia.
Qed.

Lemma complete_ok c sid s x : core_ok c → sessions c !! sid = Some s → io_word x → core_ok (snd (do_complete sid s x c)).
Proof.
  intros Hc Hs Hw. unfold do_complete. case_decide as Hst; [done|]. case_decide as Hq; [done|]. cbv zeta. cbn [snd].
  destruct Hw as (W1 & [W2 W2'] & [W3 W3'] & W4 & W5).
  pose proof (ok_sessions _ Hc sid s Hs) as Hso. pose proof Hso as [(_ & [T2 _] & [T3 _] & _ & T5) S2 _ (a & Ha & Hsub)].
  assert (in_flight s = true) as Hf by (apply bool_decide_eq_true; right; apply dec_stable; tauto). specialize (S2 Hf).
  destruct (ok_caps _ Hc _ _ Ha) as [(_ & _ & _ & [_ Hl]) U B _ _ _].
  assert (cap s ∈ ancestors (caps c) (cap s)) as Hin by (rewrite (ancestors_unfold _ _ a); [by left|by apply core_tree|done]).
  pose proof (reserved_ge c (cap s) a sid s Hc Ha Hs Hin). pose proof (settled_word c sid s (u64 (input_tokens x + output_tokens x)) Hc) as Hsw.
  apply unreserve_ok; [done..|rewrite u64_small by lia; lia|]. split; cbn [io in_flight io_state reservation cap]; [|done|done|].
  - by apply io_word_intro; [| | | |apply lor_u64].
  - exists a. split; [done|]. cbn. etrans; [exact Hsub|]. rewrite Z.lor_comm. apply submask_lor.
Qed.

Lemma take_ok l c sid s : core_ok c → sessions c !! sid = Some s → core_ok (snd (do_take l sid s c)).
Proof.
  intros Hc Hs. unfold do_take. case_decide as Hst; [done|]. destruct (fault l); [done|]. cbn [snd].
  pose proof (ok_sessions _ Hc sid s Hs) as [W S2 S3 S4]. assert (in_flight s = true) as Hf by (apply bool_decide_eq_true; tauto). specialize (S2 Hf).
  assert (core_ok (mkCore (for_each id (ancestors (caps c) (cap s)) (caps c)) (<[sid := mkInference (cap s) (with_state (io s) RUNNING) (reservation s)]> (sessions c)))) as H.
  { apply (settle_ok c sid s _ _ 0); [done..| |done|].
    - split; cbn; [by destruct W|done| |done]. intros H%bool_decide_eq_false. cbn in H. tauto.
    - intros i a Ha Hin. cbn [reservation]. destruct (ok_caps _ Hc i a Ha) as [_ _ B _ _ _]. split; [|lia]. unfold moved. destruct a; cbn. f_equal; lia. }
  assert (for_each id (ancestors (caps c) (cap s)) (caps c) = caps c) as E.
  { apply list_eq. intros i. rewrite for_each_lookup by (by apply ancestors_NoDup, core_tree). case_decide; [|done]. by destruct (caps c !! i). }
  by rewrite E in H.
Qed.

Lemma result_state l s c : snd (do_result l s c) = c.
Proof. unfold do_result. case_decide; [done|]. by destruct (fault l). Qed.

Lemma session_ioctl_ok l b sid cmd c : core_ok c → kcall_word (KSession l b sid cmd) → core_ok (snd (aok_core_session_ioctl l b sid cmd c)).
Proof.
  intros Hc Hw. unfold aok_core_session_ioctl. destruct (negb _); [done|]. destruct (check_argument l cmd); [done|].
  destruct (sessions c !! sid) as [s|] eqn:Hs; [|done]. destruct (negb _); [done|]. destruct cmd as [x| |x| | | |]; cbn in Hw.
  - by apply submit_ok.
  - by apply take_ok.
  - by apply complete_ok.
  - by rewrite result_state.
  - by apply abandon_ok.
  - unfold do_export. destruct (caps c !! cap s); [|done]. case_decide; [done|]. by rewrite result_state.
  - done.
Qed.

(** ** New capabilities and sessions *)

Lemma demand_app cs ss id s : demand cs (ss ++ [s]) id = demand cs ss id + (if decide (id ∈ ancestors cs (cap s)) then reservation s else 0).
Proof. unfold demand. rewrite sumZ_app, sumZ_cons. cbn. lia. Qed.

Lemma session_new_ok l id c : core_ok c → core_ok (snd (aok_core_session_new l id c)).
Proof.
  intros Hc. unfold aok_core_session_new. destruct (negb _); [done|]. destruct (no_memory l); [done|]. destruct (no_descriptor l); [done|].
  destruct (fault l); [done|]. destruct (caps c !! id) as [a|] eqn:Ha; [|done]. cbn [snd]. split; cbn [caps sessions].
  - intros i b Hb. destruct (ok_caps _ Hc i b Hb) as [W U B D P De]. split; [done..| |done|done]. rewrite demand_app, D. cbn. case_decide; lia.
  - intros sid s [Hs|[_ Hs]]%lookup_app_Some; [by eapply ok_sessions|]. apply list_lookup_singleton_Some in Hs as [_ <-].
    pose proof (co_word _ _ _ _ (ok_caps _ Hc id a Ha)) as (_ & W & _). split; cbn; [|done|done|exists a; by split].
    by apply io_word_intro; [vm_compute; split; congruence..|].
Qed.

Lemma ancestors_app cs a id : tree cs → (id < length cs)%nat → ancestors (cs ++ [a]) id = ancestors cs id.
Proof. intros Ht Hid. apply ancestors_same; [done|]. intros i Hi. by rewrite lookup_app_l by lia. Qed.

(** A change of the capabilities that keeps what the sessions see. *)
Lemma session_ok_caps cs cs' s : (∀ a, cs !! cap s = Some a → ∃ a', cs' !! cap s = Some a' ∧ policy a' = policy a) →
  session_ok cs s → session_ok cs' s.
Proof. intros H [W F S (a & Ha & Ht)]. split; [done..|]. destruct (H a Ha) as (a' & Ha' & E). exists a'. by rewrite E. Qed.

Lemma derived_ok (c : core) p q a : policy_word p → cap_ok (caps c) (sessions c) q a →
  ¬ (aok_core_valid (caps c) q AOK_CAP_DELEGATE = false ∨ outside (rights p) (rights (policy a)) ∨
     outside (cap_taint (policy a)) (cap_taint p) ∨ outside (export_mask p) (export_mask (policy a)) ∨
     token_limit p > token_limit (policy a)) →
  submask (rights p) (rights (policy a)) ∧ submask (cap_taint (policy a)) (cap_taint p) ∧
  submask (export_mask p) (export_mask (policy a)) ∧ token_limit p ≤ token_limit (policy a).
Proof.
  intros (P1 & P2 & P3 & P4) [(A1 & A2 & A3 & A4) _ _ _ _ _] H.
  split_and!; [apply outside_submask; tauto..|]. destruct (decide (token_limit p > token_limit (policy a))); [tauto|lia].
Qed.

(** A capability that nobody uses yet. *)
Lemma fresh_ok c a : core_ok c → policy_word (policy a) → used a = 0 → reserved a = 0 →
  (∀ p, parent a = Some p → ∃ b, caps c !! p = Some b ∧ submask (rights (policy a)) (rights (policy b)) ∧
    submask (cap_taint (policy b)) (cap_taint (policy a)) ∧ submask (export_mask (policy a)) (export_mask (policy b)) ∧
    token_limit (policy a) ≤ token_limit (policy b) ∧ depth a = depth b + 1) → 0 ≤ depth a ≤ 32 →
  core_ok (mkCore (caps c ++ [a]) (sessions c)).
Proof.
  intros Hc Hw Hu Hr Hp Hde. pose proof (core_tree c Hc) as Ht.
  assert (∀ id, demand (caps c ++ [a]) (sessions c) id = demand (caps c) (sessions c) id) as Hd.
  { intros id. apply sumZ_ext. intros s (sid & Hs)%list_elem_of_lookup. destruct (so_cap _ _ (ok_sessions _ Hc sid s Hs)) as (b & Hb & _).
    rewrite ancestors_app; [done|done|by eapply lookup_lt_Some]. }
  split; cbn [caps sessions].
  - intros id b [Hb|[Hid Hb]]%lookup_app_Some.
    + destruct (ok_caps _ Hc id b Hb) as [W U B D P De]. split; [done..|by rewrite Hd| |done]. intros p Hpb.
      destruct (P p Hpb) as (Hlt & b' & Hb' & H). split; [done|]. exists b'. split; [by apply lookup_app_l_Some|done].
    + apply list_lookup_singleton_Some in Hb as [Hz <-]. assert (id = length (caps c)) as -> by lia.
      split; [done|lia|destruct Hw as (_ & _ & _ & [? _]); lia| | |done].
      * rewrite Hr, Hd. symmetry. apply sumZ_zero. intros s (sid & Hs)%list_elem_of_lookup.
        destruct (so_cap _ _ (ok_sessions _ Hc sid s Hs)) as (b & Hb%lookup_lt_Some & _). case_decide as Hin; [|done].
        apply ancestors_le in Hin; [lia|done].
      * intros p Hpa. destruct (Hp p Hpa) as (b & Hb & H). split; [by eapply lookup_lt_Some|]. exists b. split; [by apply lookup_app_l_Some|done].
  - intros sid s Hs. eapply session_ok_caps; [|by eapply ok_sessions]. intros b Hb. exists b. split; [by apply lookup_app_l_Some|done].
Qed.

Lemma cap_new_ok l from p c : core_ok c → policy_word p → core_ok (snd (aok_core_cap_new l from p c)).
Proof.
  intros Hc Hw. unfold aok_core_cap_new. destruct (fault l); [done|]. case_decide; [done|]. destruct from as [q|].
  - destruct (caps c !! q) as [b|] eqn:Hb; [|done]. case_decide as Hd; [done|]. case_decide; [done|].
    destruct (no_memory l); [done|]. destruct (no_descriptor l); [done|]. 
    pose proof (co_depth _ _ _ _ (ok_caps _ Hc q b Hb)). apply fresh_ok; cbn; [done..| |lia]. intros p' [= <-]. exists b.
    split; [done|]. edestruct derived_ok as (? & ? & ? & ?); [done|by apply ok_caps|exact Hd|by split_and!].
  - destruct (no_memory l); [done|]. destruct (no_descriptor l); [done|]. apply fresh_ok; cbn; [done..|lia].
Qed.

(** Marking a capability revoked changes no budget. *)
Lemma mark_ok c id (mark : capability → capability) :
  (∀ a, parent (mark a) = parent a ∧ policy (mark a) = policy a ∧ used (mark a) = used a ∧ reserved (mark a) = reserved a ∧ depth (mark a) = depth a) →
  core_ok c → core_ok (mkCore (alter mark id (caps c)) (sessions c)).
Proof.
  intros Hm Hc. pose proof (core_tree c Hc) as Ht.
  assert (∀ i b', alter mark id (caps c) !! i = Some b' → ∃ b, caps c !! i = Some b ∧ parent b' = parent b ∧ policy b' = policy b ∧ used b' = used b ∧ reserved b' = reserved b ∧ depth b' = depth b) as Hback.
  { intros i b'. rewrite list_lookup_alter. case_decide; subst; [|by exists b']. destruct (caps c !! i) as [b|]; cbn; [|done]. intros [= <-]. exists b. split; [done|]. apply Hm. }
  assert (∀ i b, caps c !! i = Some b → ∃ b', alter mark id (caps c) !! i = Some b' ∧ policy b' = policy b ∧ depth b' = depth b) as Hforth.
  { intros i b Hb. rewrite list_lookup_alter. case_decide; subst; rewrite Hb; [|by exists b]. eexists. split; [done|]. by destruct (Hm b) as (_ & -> & _ & _ & ->). }
  assert (∀ i, demand (alter mark id (caps c)) (sessions c) i = demand (caps c) (sessions c) i) as Hd.
  { intros i. apply sumZ_ext. intros s _. rewrite (ancestors_same (caps c)); [done|done|]. intros j _. rewrite list_lookup_alter.
    case_decide; subst; [|done]. destruct (caps c !! j) as [b|]; cbn; [|done]. f_equal. apply Hm. }
  split; cbn [caps sessions].
  - intros i b' Hb'. destruct (Hback i b' Hb') as (b & Hb & E1 & E2 & E3 & E4 & E5). destruct (ok_caps _ Hc i b Hb) as [W U B D P De].
    split; rewrite ?E1, ?E2, ?E3, ?E4, ?E5, ?Hd; try done. intros p Hp. destruct (P p Hp) as (Hlt & q & Hq & H). split; [done|].
    destruct (Hforth p q Hq) as (q' & Hq' & E & E'). exists q'. by rewrite E, E'.
  - intros sid s Hs. eapply session_ok_caps; [|by eapply ok_sessions]. intros b Hb. destruct (Hforth _ _ Hb) as (b' & ? & ? & _). by exists b'.
Qed.

Lemma kexec_ok k c : core_ok c → kcall_word k → core_ok (kexec k c).
Proof.
  intros Hc Hw. destruct k as [l may p|l id cmd|l b sid cmd|sid]; cbn [kexec].
  - unfold aok_core_root_ioctl. destruct may; [by apply cap_new_ok|done].
  - unfold aok_core_cap_ioctl. destruct (negb _); [done|]. destruct cmd; cbn in Hw.
    + by apply cap_new_ok.
    + destruct (aok_core_valid _ _ _); [|done]. by apply mark_ok.
    + done.
    + by apply session_new_ok.
    + done.
  - by apply session_ioctl_ok.
  - by apply abandon_ok.
Qed.

Lemma reachable_ok c : core_reachable c → core_ok c.
Proof. induction 1; [by split|by apply kexec_ok]. Qed.
