(* ===== verification/AinfProperties.v ===== *)
(** * What the kernel's inference capabilities promise

    Budgets are never exceeded and never wrap around, a request is admitted exactly
    when every capability above it can pay for it, exports stay within the masks, and
    a revocation is final for everything below. *)

From stdpp Require Import base tactics option list relations sets strings numbers.
From S2P Require Import Prelude Ainf AinfProofs.

Local Open Scope Z_scope.

(** ** Facts about ancestors *)

Lemma ancestors_self cs id a : tree cs → cs !! id = Some a → id ∈ ancestors cs id.
Proof. intros Ht Ha. rewrite (ancestors_unfold cs id a) by done. by left. Qed.

(** A capability is at most as strong as any above it. *)
Lemma above_weaker c id : core_ok c → ∀ a i b, caps c !! id = Some a → i ∈ ancestors (caps c) id → caps c !! i = Some b →
  submask (rights (policy a)) (rights (policy b)) ∧ submask (cap_taint (policy b)) (cap_taint (policy a)) ∧
  submask (export_mask (policy a)) (export_mask (policy b)) ∧ token_limit (policy a) ≤ token_limit (policy b).
Proof.
  intros Hc. pose proof (core_tree c Hc) as Ht. induction id as [id IH] using lt_wf_ind. intros a i b Ha.
  rewrite (ancestors_unfold _ id a) by done. intros [->|Hi]%elem_of_cons Hb.
  { assert (b = a) as -> by congruence. done. }
  destruct (parent a) as [p|] eqn:Hp; [|by apply elem_of_nil in Hi].
  destruct (co_parent _ _ _ _ (ok_caps _ Hc id a Ha) p Hp) as (Hlt & q & Hq & S1 & S2 & S3 & S4 & _).
  destruct (IH p Hlt q i b Hq Hi Hb) as (T1 & T2 & T3 & T4). split_and!; [by etrans..|lia].
Qed.


(** The walk up a chain is short. *)
Lemma ancestors_short c id a : core_ok c → caps c !! id = Some a → Z.of_nat (length (ancestors (caps c) id)) ≤ depth a + 1.
Proof.
  intros Hc. pose proof (core_tree c Hc) as Ht. revert a. induction id as [id IH] using lt_wf_ind. intros a Ha.
  pose proof (co_depth _ _ _ _ (ok_caps _ Hc id a Ha)). rewrite (ancestors_unfold _ id a) by done.
  destruct (parent a) as [p|] eqn:Hp; [|cbn; lia].
  destruct (co_parent _ _ _ _ (ok_caps _ Hc id a Ha) p Hp) as (Hlt & q & Hq & _ & _ & _ & _ & E). pose proof (IH p Hlt q Hq). cbn [length]. lia.
Qed.

Lemma valid_spec cs id wanted : aok_core_valid cs id wanted = true →
  (∃ a, cs !! id = Some a ∧ Z.land (rights (policy a)) wanted = wanted) ∧ ∀ i a, i ∈ ancestors cs id → cs !! i = Some a → revoked a = false.
Proof.
  unfold aok_core_valid. destruct (cs !! id) as [a|] eqn:Ha; [|done]. intros [H1%bool_decide_eq_true H2]%andb_true_iff. split; [by exists a|].
  intros i b Hi Hb. rewrite forallb_forall in H2. specialize (H2 i (proj1 (list_elem_of_In _ _) Hi)). rewrite Hb in H2. by apply negb_true_iff.
Qed.

Lemma revoked_invalid cs id i a wanted : i ∈ ancestors cs id → cs !! i = Some a → revoked a = true → aok_core_valid cs id wanted = false.
Proof. intros Hi Ha Hr. apply not_true_iff_false. intros [_ H]%valid_spec. rewrite (H i a) in Hr by done. done. Qed.

(** ** Later states *)

Definition kept (a a' : capability) : Prop := parent a' = parent a ∧ policy a' = policy a ∧ (revoked a = true → revoked a' = true).

#[export] Instance kept_preorder : PreOrder kept.
Proof. split; [done|]. intros a b d (E1 & E2 & H1) (E3 & E4 & H2). split_and!; [congruence..|auto]. Qed.

(** Capabilities keep their place, their parent and their policy, and stay revoked;
    sessions keep their place and their capability. *)
Record grown (c c' : core) : Prop := {
  gr_caps i a : caps c !! i = Some a → ∃ a', caps c' !! i = Some a' ∧ kept a a';
  gr_sessions sid s : sessions c !! sid = Some s → ∃ s', sessions c' !! sid = Some s' ∧ cap s' = cap s;
}.

#[export] Instance grown_preorder : PreOrder grown.
Proof.
  split; [intros c; split; [intros i a Ha; by exists a|intros i s Hs; by exists s]|]. intros c d e [H1 H2] [H3 H4]. split.
  - intros i a (a' & Ha' & K)%H1. destruct (H3 i a' Ha') as (a'' & ? & K'). exists a''. split; [done|by etrans].
  - intros sid s (s' & Hs' & E)%H2. destruct (H4 sid s' Hs') as (s'' & ? & E'). exists s''. split; [done|congruence].
Qed.

Lemma alter_kept f (id : nat) (cs : list capability) i a : (∀ a, kept a (f a)) → cs !! i = Some a → ∃ a', alter f id cs !! i = Some a' ∧ kept a a'.
Proof. intros Hf Ha. rewrite list_lookup_alter. case_decide; subst; rewrite Ha; [by exists (f a)|by exists a]. Qed.

Lemma for_each_kept f ids : (∀ a, kept a (f a)) → ∀ cs i a, cs !! i = Some a → ∃ a', for_each f ids cs !! i = Some a' ∧ kept a a'.
Proof.
  intros Hf. unfold for_each. induction ids as [|id ids IH]; intros cs i a Ha; [by exists a|]. cbn [fold_left].
  destruct (alter_kept f id cs i a Hf Ha) as (b & Hb & K). destruct (IH _ i b Hb) as (d & Hd & K'). exists d. split; [done|by etrans].
Qed.

Lemma set_kept (ss : list inference) sid x s0 : ss !! sid = Some s0 → cap x = cap s0 →
  ∀ i s, ss !! i = Some s → ∃ s', <[sid := x]> ss !! i = Some s' ∧ cap s' = cap s.
Proof.
  intros H0 E i s Hs. rewrite list_lookup_insert. case_decide as Hd; [|by exists s]. destruct Hd as [-> _]. exists x. split; [done|congruence].
Qed.

Lemma abandon_grown sid c : grown c (abandon sid c).
Proof.
  unfold abandon. destruct (sessions c !! sid) as [s|] eqn:Hs; [|done]. destruct (in_flight s); [|done].
  unfold set_session, aok_core_unreserve. cbn [caps sessions]. rewrite list_insert_insert_eq.
  split; cbn [caps sessions]; [intros i a; by apply for_each_kept|by eapply set_kept].
Qed.

Lemma session_grown l b sid cmd c : grown c (snd (aok_core_session_ioctl l b sid cmd c)).
Proof.
  unfold aok_core_session_ioctl. destruct (negb _); [done|]. destruct (check_argument l cmd); [done|].
  destruct (sessions c !! sid) as [s|] eqn:Hs; [|done]. destruct (negb _); [done|]. destruct cmd as [x| |x| | | |].
  - unfold do_submit. repeat (case_match; [done|]). cbn [snd]. unfold set_session. cbn [caps sessions].
    split; cbn [caps sessions]; [intros i a; by apply for_each_kept|by eapply set_kept].
  - unfold do_take. repeat (case_match; [done|]). cbn [snd]. split; cbn [caps sessions set_session]; [intros i a Ha; by exists a|by eapply set_kept].
  - unfold do_complete. repeat (case_match; [done|]). cbn [snd]. unfold set_session, aok_core_unreserve. cbn [caps sessions].
    rewrite list_insert_insert_eq. split; cbn [caps sessions]; [intros i a; by apply for_each_kept|by eapply set_kept].
  - by rewrite result_state.
  - apply abandon_grown.
  - unfold do_export. destruct (caps c !! cap s); [|done]. case_decide; [done|]. by rewrite result_state.
  - done.
Qed.

Lemma cap_new_grown l from p c : grown c (snd (aok_core_cap_new l from p c)).
Proof.
  unfold aok_core_cap_new. destruct (fault l); [done|]. case_decide; [done|]. case_match; [|done]. destruct (no_memory l); [done|]. destruct (no_descriptor l); [done|].
  split; cbn; [|intros i s Hs; by exists s]. intros i b Hb. exists b. split; [by apply lookup_app_l_Some|done].
Qed.

Lemma kexec_grown k c : grown c (kexec k c).
Proof.
  destruct k as [l may p|l id cmd|l b sid cmd|sid]; cbn [kexec].
  - unfold aok_core_root_ioctl. destruct may; [apply cap_new_grown|done].
  - unfold aok_core_cap_ioctl. destruct (negb _); [done|]. destruct cmd; [apply cap_new_grown| |done| |done].
    + case_match; [|done]. split; cbn; [|intros i s Hs; by exists s]. intros i a. by apply alter_kept.
    + unfold aok_core_session_new. repeat (case_match; [done|]). case_match; [|done]. split; cbn; [intros i b Hb; by exists b|].
      intros i s Hs. exists s. split; [by apply lookup_app_l_Some|done].
  - apply session_grown.
  - apply abandon_grown.
Qed.

Definition core_later : core → core → Prop := rtc (λ c c', ∃ k, kcall_word k ∧ c' = kexec k c).

Lemma later_ok c c' : core_later c c' → core_ok c → core_ok c' ∧ grown c c'.
Proof.
  induction 1 as [c|c d e (k & Hk & ->) _ IH]; intros Hc; [done|]. destruct (IH (kexec_ok k c Hc Hk)) as [H1 H2]. split; [done|].
  etrans; [apply kexec_grown|exact H2].
Qed.

Lemma grown_ancestors c c' id a : core_ok c → grown c c' → caps c !! id = Some a → ancestors (caps c') id = ancestors (caps c) id.
Proof.
  intros Hc Hg Ha. apply ancestors_same; [by apply core_tree|]. intros i Hi. apply lookup_lt_Some in Ha.
  destruct (lookup_lt_is_Some_2 (caps c) i ltac:(lia)) as [b Hb]. destruct (gr_caps _ _ Hg i b Hb) as (b' & Hb' & E & _). rewrite Hb, Hb'. cbn. by rewrite E.
Qed.

(** ** A run to evaluate the properties on *)


Lemma krun_reachable ks c : core_reachable c → Forall kcall_word ks → core_reachable (krun ks c).
Proof. intros Hc Hks. revert c Hc. induction Hks as [|k ks Hk _ IH]; intros c Hc; [done|]. apply IH. by constructor. Qed.

Lemma krun_later ks c : Forall kcall_word ks → core_later c (krun ks c).
Proof. intros Hks. revert c. induction Hks as [|k ks Hk _ IH]; intros c; [constructor|]. econstructor; [by exists k|]. apply IH. Qed.

Definition fine : luck := mkLuck false false false.
Definition parent_policy : core_cap := mkPolicy AOK_CAP_ALL 4 7 100.
Definition child_policy : core_cap := mkPolicy (AOK_CAP_INFER + AOK_CAP_SERVE + AOK_CAP_EXPORT) 6 7 50.
Definition ask (q i o : Z) (d : string) : core_io := mkIO q i o 0 0 IDLE d.

(** A capability, one derived from it, and a session on that one. *)
Definition opening : list kcall :=
  [KRoot fine true parent_policy; KCap fine 0 (CAP_DERIVE child_policy); KCap fine 1 SESSION_CREATE].
Definition served : list kcall :=
  opening ++ [KSession fine false 0 (SUBMIT (ask 1 10 20 "question")); KSession fine true 0 TAKE;
              KSession fine true 0 (COMPLETE (ask 1 10 7 "answer"))].

Ltac words := repeat (apply Forall_cons || constructor); vm_compute; intuition congruence.

Lemma opening_reachable : core_reachable (krun opening boot_core).
Proof. apply krun_reachable; [constructor|]. words. Qed.

Lemma answered_reachable : core_reachable (krun served boot_core).
Proof. apply krun_reachable; [constructor|]. words. Qed.

(** An end polls readable exactly when its read would succeed. *)
Lemma poll_exact c backend sid l : fault l = false →
  aok_core_session_poll backend sid c = POLL_READABLE ↔ is_ok (fst (aok_core_session_ioctl l backend sid (if backend then TAKE else RESULT) c)) = true.
Proof.
  intros Hf. unfold aok_core_session_poll, aok_core_session_ioctl. destruct (sessions c !! sid) as [s|]; [|by destruct backend].
  destruct backend; cbn [of_end negb check_argument]; destruct (aok_core_valid (caps c) (cap s) AOK_CAP_INFER); cbn [negb];
    unfold do_take, do_result; rewrite ?Hf; destruct (io_state (io s)); by vm_compute.
Qed.

(** ** Theorems *)

(** C10: in every state the kernel can reach, all counters of a capability are 64-bit words that never wrapped around,
    what is used and what is reserved together stay within its token limit, the reservation is exactly the sum of the
    ceilings of the requests in flight on it or on a capability derived from it, and the chain of its ancestors, which
    every check walks, has at most 33 members each at least as strong as it is. *)
Theorem kernel_budget_held c id a :
  core_reachable c → caps c !! id = Some a →
  in_u64 (used a) ∧ in_u64 (reserved a) ∧ used a + reserved a ≤ token_limit (policy a) ∧
  reserved a = sumZ (λ s, if decide (id ∈ ancestors (caps c) (cap s) ∧ in_flight s = true)
                          then input_tokens (io s) + output_tokens (io s) else 0) (sessions c) ∧
  (length (ancestors (caps c) id) ≤ 33)%nat ∧
  ∀ i b, i ∈ ancestors (caps c) id → caps c !! i = Some b →
    submask (rights (policy a)) (rights (policy b)) ∧ submask (cap_taint (policy b)) (cap_taint (policy a)) ∧
    submask (export_mask (policy a)) (export_mask (policy b)) ∧ token_limit (policy a) ≤ token_limit (policy b).
Proof.
  intros Hc%reachable_ok Ha. pose proof (ok_caps _ Hc id a Ha) as [(_ & _ & _ & [L1 L2]) U B D _ De]. pose proof (demand_nonneg c id Hc).
  pose proof (ancestors_short c id a Hc Ha). split_and!; unfold in_u64; try lia.
  - rewrite D. apply sumZ_ext. intros s (sid & Hs)%list_elem_of_lookup. destruct (ok_sessions _ Hc sid s Hs) as [_ S1 S2 _].
    destruct (in_flight s); [rewrite S1 by done|rewrite S2 by done]; repeat case_decide; naive_solver.
  - intros i b Hi Hb. by eapply above_weaker.
Qed.

Lemma kernel_budget_held_witness : ∃ c a, caps c !! 0%nat = Some a ∧ used a = 17 ∧ used a + reserved a ≤ token_limit (policy a).
Proof.
  exists (krun served boot_core). eexists. split; [vm_compute; reflexivity|]. split; [reflexivity|].
  exact (proj1 (proj2 (proj2 (kernel_budget_held (krun served boot_core) 0 _ answered_reachable ltac:(vm_compute; reflexivity))))).
Defined.

(** A well-formed request with the next sequence number on an idle session is admitted exactly when its capability
    and every ancestor can pay for its ceiling out of what is neither used nor reserved, in exact arithmetic; otherwise
    it is refused for its budget and nothing changes. *)
Theorem kernel_submit_exact c l sid s x :
  core_reachable c → sessions c !! sid = Some s → io_word x → fault l = false →
  aok_core_valid (caps c) (cap s) AOK_CAP_INFER = true → in_flight s = false →
  len (data x) ≤ AOK_CORE_DATA_MAX → tokens_used x = 0 → io_state x = IDLE →
  sequence (io s) < MaxUint64 → sequence x = sequence (io s) + 1 →
  let '(r, c') := aok_core_session_ioctl l false sid (SUBMIT x) c in
  (r = Ok zero_io ↔ ∀ i a, i ∈ ancestors (caps c) (cap s) → caps c !! i = Some a →
     used a + reserved a + (input_tokens x + output_tokens x) ≤ token_limit (policy a)) ∧
  (r = Ok zero_io ∨ r = Err E_DQUOT ∧ c' = c ∨ r = Err E_OVERFLOW ∧ c' = c).
Proof.
  intros Hc%reachable_ok Hs (_ & [W2 W2'] & [W3 W3'] & _) Hf Hv Hi Hl Ht Hst Hq Hx.
  unfold aok_core_session_ioctl. cbn [of_end negb check_argument]. rewrite Hf, decide_False by (intros [?|[?|?]]; [lia|done|done]).
  rewrite Hs, Hv. cbn [negb]. unfold do_submit. rewrite Hi. destruct (so_word _ _ (ok_sessions _ Hc sid s Hs)) as ([Q1 Q2] & _).
  rewrite decide_False by (rewrite u64_small by lia; lia). rewrite (u64_small (MaxUint64 - _)) by lia.
  destruct (so_cap _ _ (ok_sessions _ Hc sid s Hs)) as (a & Ha & _).
  pose proof (ancestors_self _ _ a (core_tree c Hc) Ha) as Hself.
  assert (∀ i b, caps c !! i = Some b → 0 ≤ used b ∧ 0 ≤ reserved b ∧ used b + reserved b ≤ token_limit (policy b) ≤ MaxUint64) as Hwb.
  { intros i b Hb. destruct (ok_caps _ Hc i b Hb) as [(_ & _ & _ & [L1 L2]) U B D _ _]. pose proof (demand_nonneg c i Hc). lia. }
  case_decide as Ho.
  { split; [|by eauto]. split; [done|]. intros H. pose proof (H _ a Hself Ha). pose proof (Hwb _ a Ha). lia. }
  rewrite (u64_small (input_tokens x + output_tokens x)) by lia. destruct (over_budget (caps c) (cap s) _) eqn:Hob.
  - split; [|by eauto]. split; [done|]. intros H. exfalso. apply existsb_exists in Hob as (i & Hin & Hbig).
    destruct (caps c !! i) as [b|] eqn:Hb; [|done]. apply bool_decide_eq_true in Hbig. pose proof (H i b (proj2 (list_elem_of_In _ _) Hin) Hb).
    pose proof (Hwb i b Hb). rewrite !u64_small in Hbig by (rewrite ?u64_small; lia). lia.
  - split; [|by left]. split; [|done]. intros _ i b Hin Hb. pose proof (over_budget_false _ _ _ Hob i b Hin Hb) as H. pose proof (Hwb i b Hb).
    rewrite !u64_small in H by (rewrite ?u64_small; lia). lia.
Qed.

Lemma kernel_submit_exact_witness : ∃ c s, sessions c !! 0%nat = Some s ∧
  fst (aok_core_session_ioctl fine false 0 (SUBMIT (ask 1 30 21 "q")) c) = Err E_DQUOT ∧
  ¬ (∀ i a, i ∈ ancestors (caps c) (cap s) → caps c !! i = Some a → used a + reserved a + (30 + 21) ≤ token_limit (policy a)).
Proof.
  exists (krun opening boot_core). eexists. split; [reflexivity|]. split; [vm_compute; reflexivity|]. intros H.
  pose proof (kernel_submit_exact (krun opening boot_core) fine 0 _ (ask 1 30 21 "q") opening_reachable eq_refl
    ltac:(vm_compute; intuition congruence) eq_refl eq_refl eq_refl ltac:(vm_compute; congruence) eq_refl eq_refl eq_refl eq_refl) as T.
  destruct (aok_core_session_ioctl _ _ _ _ _) as [r c'] eqn:E. apply (f_equal fst) in E. vm_compute in E.
  apply proj1 in T. apply T in H. cbn in E. rewrite H in E. discriminate E.
Defined.

Lemma land_submask x y : Z.land x y = y → submask y x.
Proof. intros <-. apply Z.bits_inj'. intros n _. rewrite Z.lor_spec, Z.land_spec. by destruct (Z.testbit x n), (Z.testbit y n). Qed.

(** C32: a result leaves the kernel through an export only while no capability on its chain is revoked, only if every
    capability on the chain holds the export right, and only if its taint, which contains the taint of every capability
    on the chain, lies within the export mask of each of them. *)
Theorem kernel_export_confined c l sid x c' :
  core_reachable c → aok_core_session_ioctl l false sid EXPORT c = (Ok x, c') →
  c' = c ∧ ∃ s, sessions c !! sid = Some s ∧ x = io s ∧ io_state x = DONE ∧
    ∀ i a, i ∈ ancestors (caps c) (cap s) → caps c !! i = Some a →
      revoked a = false ∧ submask AOK_CAP_EXPORT (rights (policy a)) ∧
      submask (cap_taint (policy a)) (taint x) ∧ submask (taint x) (export_mask (policy a)).
Proof.
  intros Hc%reachable_ok. unfold aok_core_session_ioctl. cbn [of_end negb check_argument]. destruct (sessions c !! sid) as [s|] eqn:Hs; [|done].
  destruct (negb _); [done|]. unfold do_export. destruct (caps c !! cap s) as [a|] eqn:Ha; [|done]. case_decide as Hd; [done|].
  unfold do_result. case_decide as Hdone; [done|]. destruct (fault l); [done|]. intros [= <- <-]. split; [done|]. exists s. split_and!; [done..|].
  assert (aok_core_valid (caps c) (cap s) AOK_CAP_EXPORT = true) as Hv by (apply not_false_iff_true; tauto).
  apply valid_spec in Hv as [(a' & Ha' & Hr) Hrev]. assert (a' = a) as -> by congruence.
  destruct (ok_sessions _ Hc sid s Hs) as [(_ & _ & _ & _ & Wt) _ _ (a' & Ha2 & Hsub)]. assert (a' = a) as -> by congruence.
  pose proof (ok_caps _ Hc _ _ Ha) as [(_ & _ & We & _) _ _ _ _ _].
  assert (submask (taint (io s)) (export_mask (policy a))) as Hout by (apply outside_submask; tauto).
  intros i b Hi Hb. destruct (above_weaker c _ Hc a i b Ha Hi Hb) as (S1 & S2 & S3 & _). split_and!.
  - by eapply Hrev.
  - etrans; [by apply land_submask|done].
  - by etrans.
  - by etrans.
Qed.

Lemma kernel_export_confined_witness : ∃ c x, fst (aok_core_session_ioctl fine false 0 EXPORT c) = Ok x ∧ data x = "answer"%string ∧
  tokens_used x = 17 ∧ ∃ a, caps c !! 0%nat = Some a ∧ submask (cap_taint (policy a)) (taint x).
Proof.
  exists (krun served boot_core). eexists. split; [vm_compute; reflexivity|]. split; [reflexivity|]. split; [reflexivity|].
  destruct (kernel_export_confined (krun served boot_core) fine 0 (mkIO 1 10 7 17 6 DONE "answer") (krun served boot_core) answered_reachable ltac:(vm_compute; reflexivity)) as (_ & s & Hs & _ & _ & H).
  eexists. split; [vm_compute; reflexivity|]. apply (H 0%nat); [|vm_compute; reflexivity]. vm_compute in Hs. injection Hs as <-. vm_compute. right. left.
Defined.

(** C31: once a capability is revoked, then in every later state, whatever calls come in between, every command on it, on
    a capability derived from it or on a session of either is refused and changes nothing; releasing a session, which
    settles what it still has in flight, is all that is left. *)
Theorem kernel_revocation_final c l id c1 c' :
  core_reachable c → aok_core_cap_ioctl l id CAP_REVOKE c = (Ok 0%nat, c1) → core_later c1 c' →
  (∀ j l' cmd, id ∈ ancestors (caps c') j → aok_core_cap_ioctl l' j cmd c' = (Err E_ACCES, c')) ∧
  (∀ sid s l' b cmd, sessions c' !! sid = Some s → id ∈ ancestors (caps c') (cap s) →
     ∃ e, aok_core_session_ioctl l' b sid cmd c' = (Err e, c')) ∧
  (∀ j a, caps c !! j = Some a → ancestors (caps c') j = ancestors (caps c) j).
Proof.
  intros Hc%reachable_ok Hrev Hlater. assert (c1 = kexec (KCap l id CAP_REVOKE) c) as E1 by (cbn; by rewrite Hrev).
  assert (core_ok c1 ∧ grown c c1) as [Hc1 Hg1] by (subst; split; [by apply kexec_ok|apply kexec_grown]).
  assert (∃ a, caps c1 !! id = Some a ∧ revoked a = true) as (a & Ha & Hr).
  { unfold aok_core_cap_ioctl in Hrev. destruct (aok_core_valid (caps c) id 0) eqn:Hv0; [|done]. cbn [negb] in Hrev.
    destruct (aok_core_valid (caps c) id AOK_CAP_REVOKE) eqn:Hv; [|done]. injection Hrev as <-.
    apply valid_spec in Hv as [(a & Ha & _) _]. cbn. rewrite list_lookup_alter_eq, Ha. by eexists. }
  destruct (later_ok c1 c' Hlater Hc1) as [Hc' Hg]. destruct (gr_caps _ _ Hg id a Ha) as (a' & Ha' & _ & _ & Hk). specialize (Hk Hr). split_and!.
  - intros j l' cmd Hj. unfold aok_core_cap_ioctl. by rewrite (revoked_invalid (caps c') j id a' 0).
  - intros sid s l' b cmd Hs Hj. unfold aok_core_session_ioctl. destruct (negb _); [by eexists|].
    destruct (check_argument l' cmd) as [e|]; [by exists e|]. rewrite Hs, (revoked_invalid (caps c') (cap s) id a') by done. by eexists.
  - intros j b Hb. destruct (gr_caps _ _ Hg1 j b Hb) as (b1 & Hb1 & _). by rewrite (grown_ancestors c1 c' j b1), (grown_ancestors c c1 j b).
Qed.

Lemma kernel_revocation_final_witness : ∃ c c1,
  aok_core_cap_ioctl fine 0 CAP_REVOKE c = (Ok 0%nat, c1) ∧
  aok_core_cap_ioctl fine 1 CAP_CHECK (krun [KRelease 0] c1) = (Err E_ACCES, krun [KRelease 0] c1).
Proof.
  exists (krun opening boot_core). eexists. split; [vm_compute; reflexivity|].
  match goal with |- aok_core_cap_ioctl _ _ _ (krun _ ?c1) = _ =>
    refine (proj1 (kernel_revocation_final (krun opening boot_core) fine 0 c1 (krun [KRelease 0] c1) opening_reachable _ _) 1%nat fine CAP_CHECK _) end.
  - vm_compute. reflexivity.
  - apply krun_later. repeat constructor.
  - vm_compute. right. left.
Defined.
