(* ===== verification/KernelInfer.v ===== *)
(** * kernel_infer_linux_arm64.go and kernelbridge: turns through the kernel device

    The provider opens a session on a capability of its own for every turn, submits the
    prompt with a reservation, lets the wrapped provider serve it, and accepts the reply
    only if the kernel's ledger agrees with its own mirror of it.  Other users of the
    device run in between its calls. *)

From stdpp Require Import base tactics option list sets strings numbers pretty.
From S2P Require Import Prelude GoLib Json Ledger State Runner Ainf.

(** The provider that serves the backend half; [CompatKey] is optional. *)
Record Inner := mkInner {
  in_name : string;
  in_compat : option string;
  in_tracked : bool;
}.

Record KernelInferProvider := mkKernelInfer {
  kcap : nat;
  inner : Inner;
  limit : Z;
  maxOutput : Z;
  slot : bool; (* whether the admission is free *)
  settled : Z;
  lastTain : Z;
}.

Definition Name (p : KernelInferProvider) : string := "kernel-infer/" +:+ in_name (inner p).

Definition CompatKey_of (p : KernelInferProvider) : string := "ainf|" +:+ default (in_name (inner p)) (in_compat (inner p)).

(** What happens around the [n]-th call of a turn: what other users of the device do
    before it, and its luck. *)
Record Weather := mkWeather { others : nat → core → list kcall; chance : nat → luck }.

Definition meanwhile (w : Weather) (n : nat) (c : core) : core := krun (others w n c) c.

Section provider.
(** A [syscall.Errno] as an error, and [Error ()] of one. *)
Context (Errno : errno → error) (error_text : error → string).

(** ** kernelbridge *)

Definition Create (l : luck) (root_rights : bool) (p : core_cap) (c : core) : result error nat * core :=
  match aok_core_root_ioctl l root_rights p c with
  | (Ok id, c) => (Ok id, c)
  | (Err e, c) => (Err (Errno e), c)
  end.

Definition Session (w : Weather) (n id : nat) (c : core) : result error nat * core :=
  match aok_core_cap_ioctl (chance w n) id SESSION_CREATE (meanwhile w n c) with
  | (Ok sid, c) => (Ok sid, c)
  | (Err e, c) => (Err (Errno e), c)
  end.

Definition ioctl (w : Weather) (n : nat) (backend : bool) (sid : nat) (cmd : session_command) (c : core) : result error core_io * core :=
  match aok_core_session_ioctl (chance w n) backend sid cmd (meanwhile w n c) with
  | (Ok x, c) => (Ok x, c)
  | (Err e, c) => (Err (Errno e), c)
  end.

Definition send (w : Weather) (n : nat) (backend : bool) (sid : nat) (cmd : core_io → session_command) (record : core_io) (c : core) :
    result error unit * core :=
  if decide (AOK_CORE_DATA_MAX < len (data record))%Z then (Err (New "AOK payload exceeds 512 bytes"), c)
  else if decide (tokens_used record ≠ 0%Z ∨ io_state record ≠ IDLE) then (Err (New "AOK send record has output-only fields"), c)
  else
    match ioctl w n backend sid (cmd record) c with
    | (Ok _, c) => (Ok (), c)
    | (Err e, c) => (Err e, c)
    end.

Definition receive (w : Weather) (n : nat) (backend : bool) (sid : nat) (cmd : session_command) (c : core) : result error core_io * core :=
  match ioctl w n backend sid cmd c with
  | (Err e, c) => (Err e, c)
  | (Ok x, c) =>
      if decide (AOK_CORE_DATA_MAX < len (data x))%Z then (Err (New "invalid AOK payload length"), c) else (Ok x, c)
  end.

Definition Submit (w : Weather) (n sid : nat) := send w n false sid SUBMIT.
Definition Take (w : Weather) (n sid : nat) := receive w n true sid TAKE.
Definition Complete (w : Weather) (n sid : nat) := send w n true sid COMPLETE.
Definition Result (w : Weather) (n sid : nat) := receive w n false sid RESULT.
Definition Cancel (w : Weather) (n sid : nat) (c : core) : core := snd (ioctl w n false sid CANCEL c).
(** The descriptor is closed: the end is released. *)
Definition Close (w : Weather) (n sid : nat) (c : core) : core := aok_core_session_release sid (meanwhile w n c).

(** ** The provider *)

Definition NewKernelInferProvider (l : luck) (root_rights : bool) (i : Inner) (tokenLimit maxOutputTokens : Z) (c : core) :
    result error KernelInferProvider * core :=
  match Create l root_rights (mkPolicy (Z.lor AOK_CAP_INFER AOK_CAP_SERVE) 0 0 tokenLimit) c with
  | (Ok id, c) => (Ok (mkKernelInfer id i tokenLimit maxOutputTokens true 0 0), c)
  | (Err e, c) => (Err e, c)
  end.

Definition refused (e : error) : Outcome := mkOutcome "" (mkUsage 0 0 0) (Some (mkRouteInfo "" "" 0)) 0 (Some e).
Definition wrapped (what : string) (e : error) : Outcome := refused (New (what +:+ ": " +:+ error_text e)).

Definition charge (p : KernelInferProvider) (spent : Z) : KernelInferProvider := {| p with settled := u64 (settled p + spent) |}.

(** The turn from the session on; [serve] is the wrapped provider. *)
Definition in_session (w : Weather) (serve : string → Outcome) (sid : nat) (prompt : string) (p : KernelInferProvider) (c : core) :
    Outcome * KernelInferProvider * core :=
  let reservation := u64 (len prompt + maxOutput p) in
  match Submit w 1 sid (mkIO 1 (len prompt) (maxOutput p) 0 0 IDLE prompt) c with
  | (Err e, c) => (wrapped "kernel submit" e, p, c)
  | (Ok _, c) =>
      match Take w 2 sid c with
      | (Err e, c) => (wrapped "kernel take" e, p, c)
      | (Ok request, c) =>
          let o := serve (data request) in
          let own := mkRouteInfo (Name p) (CompatKey_of p) 0 in
          let route := if in_tracked (inner p) then default (mkRouteInfo "" "" 0) (o_route o) else own in
          let taint_ := if in_tracked (inner p) then o_taint o else 0%Z in
          match o_err o with
          | Some e => (refused e, charge p reservation, Cancel w 3 sid c)
          | None =>
              let usage := o_usage o in
              let spent := u64 (InputTokens usage + OutputTokens usage) in
              match Complete w 3 sid (mkIO (sequence request) (InputTokens usage) (OutputTokens usage) 0 0 IDLE (o_text o)) c with
              | (Err e, c) => (wrapped "kernel complete" e, charge p reservation, c)
              | (Ok _, c) =>
                  match Result w 4 sid c with
                  | (Err e, c) => (wrapped "kernel result" e, charge p spent, c)
                  | (Ok answer, c) =>
                      let p := {| (charge p spent) with lastTain := taint answer |} in
                      if decide (tokens_used answer ≠ settled p ∨ data answer ≠ o_text o) then
                        (refused (New ("kernel reconciliation mismatch: used=" +:+ pretty (tokens_used answer) +:+
                                       " expected=" +:+ pretty (settled p))), p, c)
                      else
                        (mkOutcome (o_text o) (mkUsage (InputTokens usage) (OutputTokens usage) 0) (Some route) (Z.lor (taint answer) taint_) None, p, c)
                  end
              end
          end
      end
  end.

(** A turn; the deferred closes run in reverse order. *)
Definition runSession (w : Weather) (serve : string → Outcome) (prompt : string) (p : KernelInferProvider) (c : core) :
    Outcome * KernelInferProvider * core :=
  if decide (AOK_CORE_DATA_MAX < len prompt)%Z then (refused (New "kernel infer prompt exceeds device limit"), p, c)
  else if negb (slot p) then (refused ErrTurnBusy, p, c)
  else
    match Session w 0 (kcap p) c with
    | (Err e, c) => (refused e, p, c)
    | (Ok sid, c) =>
        let '(o, p, c) := in_session w serve sid prompt p c in
        (o, p, Close w 6 sid (Close w 5 sid c))
    end.
End provider.
