(* ===== verification/KernelInferProofs.v ===== *)
(** * The provider's mirror of the kernel's ledger is exact

    The provider's capability has no parent and no child and its descriptor is private,
    so that other users of the device cannot touch it.  Then each call of a turn has a
    definite effect on it, and after the turn the mirror agrees with the kernel again,
    whichever branch the turn took. *)

From stdpp Require Import base tactics option list sets strings numbers pretty.
From S2P Require Import Prelude GoLib Json Ledger State Runner Ainf AinfProofs AinfProperties KernelInfer.

Local Open Scope Z_scope.

(** ** A private capability *)

Definition alone (k : nat) (c : core) : Prop := ∀ j, parent <$> caps c !! j ≠ Some (Some k).

Record owns (k : nat) (a : capability) (c : core) : Prop := {
  ow_ok : core_ok c;
  ow_cap : caps c !! k = Some a;
  ow_root : parent a = None;
  ow_alone : alone k c;
  ow_live : revoked a = false;
  ow_rights : rights (policy a) = Z.lor AOK_CAP_INFER AOK_CAP_SERVE;
}.

Lemma alone_ancestors c k j : core_ok c → alone k c → k ∈ ancestors (caps c) j → j = k.
Proof.
  intros Hc Hk. pose proof (core_tree c Hc) as Ht. induction j as [j IH] using lt_wf_ind. destruct (caps c !! j) as [b|] eqn:Hb.
  - rewrite (ancestors_unfold _ j b) by done. intros [->|Hi]%elem_of_cons; [done|]. destruct (parent b) as [p|] eqn:Hp; [|by apply elem_of_nil in Hi].
    pose proof (Ht j b p Hb Hp). rewrite (IH p) in Hp by done. destruct (Hk j). rewrite Hb. cbn. by rewrite Hp.
  - rewrite ancestors_none by done. by intros ?%elem_of_nil.
Qed.

Lemma own_ancestors k a c : owns k a c → ancestors (caps c) k = [k].
Proof. intros [Hc Ha Hr _ _ _]. rewrite (ancestors_unfold _ k a) by (done || by apply core_tree). by rewrite Hr. Qed.

Lemma own_valid k a c wanted : owns k a c → wanted = 0 ∨ wanted = AOK_CAP_INFER ∨ wanted = Z.lor AOK_CAP_INFER AOK_CAP_SERVE →
  aok_core_valid (caps c) k wanted = true.
Proof.
  intros Ho Hw. unfold aok_core_valid. rewrite (own_ancestors k a c Ho), (ow_cap _ _ _ Ho), (ow_rights _ _ _ Ho). cbn [forallb].
  rewrite (ow_cap _ _ _ Ho), (ow_live _ _ _ Ho). destruct Hw as [->|[->| ->]]; reflexivity.
Qed.

(** ** Other users *)

(** A call that does not go through a descriptor of capability [k] or of its sessions. *)
Definition foreign (k : nat) (c : core) (kc : kcall) : Prop :=
  match kc with
  | KRoot _ _ _ => True
  | KCap _ id _ => id ≠ k
  | KSession _ _ sid _ | KRelease sid => ∀ s, sessions c !! sid = Some s → cap s ≠ k
  end.

Fixpoint quiet (k : nat) (c : core) (ks : list kcall) : Prop :=
  match ks with
  | [] => True
  | kc :: ks => kcall_word kc ∧ foreign k c kc ∧ quiet k (kexec kc c) ks
  end.

Definition calm (k : nat) (w : Weather) : Prop := ∀ n c, quiet k c (others w n c).

(** What a call leaves alone. *)
Record framed (k : nat) (c c' : core) : Prop := {
  fr_cap : caps c' !! k = caps c !! k;
  fr_alone : alone k c → alone k c';
  fr_sessions sid s : sessions c !! sid = Some s → cap s = k → sessions c' !! sid = Some s;
}.

#[export] Instance framed_refl k : Reflexive (framed k).
Proof. by split. Qed.

#[export] Instance framed_trans k : Transitive (framed k).
Proof. intros c d e [H1 H2 H3] [H4 H5 H6]. split; [congruence|auto|auto]. Qed.

Lemma framed_settle k c f ids sid s x : (∀ a, parent (f a) = parent a) → NoDup ids → k ∉ ids → sessions c !! sid = Some s → cap s ≠ k →
  framed k c (mkCore (for_each f ids (caps c)) (<[sid := x]> (sessions c))).
Proof.
  intros Hf Hn Hk Hs Hne. split; cbn.
  - rewrite for_each_lookup by done. by rewrite decide_False.
  - intros Ha j. cbn [caps]. rewrite same_parents by done. apply Ha.
  - intros i s' Hs' E. rewrite list_lookup_insert_ne; [done|]. intros ->. congruence.
Qed.

Lemma framed_append k c a : parent a ≠ Some k → (k < length (caps c))%nat → framed k c (mkCore (caps c ++ [a]) (sessions c)).
Proof.
  intros Hp Hk. split; cbn; [by rewrite lookup_app_l| |done]. intros Ha j E. cbn [caps] in E. rewrite lookup_app in E. destruct (caps c !! j) as [b|] eqn:Hb.
  - apply (Ha j). by rewrite Hb.
  - destruct ((_ : list capability) !! _) as [b|] eqn:Hb' in E; [|done]. apply list_lookup_singleton_Some in Hb' as [_ <-]. cbn in E. congruence.
Qed.

Lemma cap_new_framed k l from p c : from ≠ Some k → (k < length (caps c))%nat → framed k c (snd (aok_core_cap_new l from p c)).
Proof.
  intros Hp Hk. unfold aok_core_cap_new. destruct (fault l); [done|]. case_decide; [done|]. case_match; [|done].
  destruct (no_memory l); [done|]. destruct (no_descriptor l); [done|]. by apply framed_append.
Qed.

Lemma abandon_framed k sid c : core_ok c → alone k c → (∀ s, sessions c !! sid = Some s → cap s ≠ k) → framed k c (abandon sid c).
Proof.
  intros Hc Ha Hne. unfold abandon. destruct (sessions c !! sid) as [s|] eqn:Hs; [|done]. specialize (Hne s eq_refl). destruct (in_flight s); [|done].
  unfold set_session, aok_core_unreserve. cbn [caps sessions]. rewrite list_insert_insert_eq.
  eapply framed_settle; [done|by apply ancestors_NoDup, core_tree| |done|done]. intros H. by apply (alone_ancestors c) in H.
Qed.

Lemma session_framed k l b sid cmd c : core_ok c → alone k c → (∀ s, sessions c !! sid = Some s → cap s ≠ k) →
  framed k c (snd (aok_core_session_ioctl l b sid cmd c)).
Proof.
  intros Hc Ha Hne. unfold aok_core_session_ioctl. destruct (negb _); [done|]. destruct (check_argument l cmd); [done|].
  destruct (sessions c !! sid) as [s|] eqn:Hs; [|done]. pose proof (Hne s eq_refl) as Hk. destruct (negb _); [done|].
  assert (k ∉ ancestors (caps c) (cap s)) as Hni by (intros H; by apply (alone_ancestors c) in H).
  assert (NoDup (ancestors (caps c) (cap s))) as Hn by (by apply ancestors_NoDup, core_tree). destruct cmd as [x| |x| | | |].
  - unfold do_submit. repeat (case_match; [done|]). unfold set_session. cbn [snd caps sessions]. by eapply framed_settle.
  - unfold do_take. repeat (case_match; [done|]). cbn [snd]. by apply (framed_settle k c id [] sid s); [|constructor|set_solver| |].
  - unfold do_complete. repeat (case_match; [done|]). cbn [snd]. unfold set_session, aok_core_unreserve. cbn [caps sessions].
    rewrite list_insert_insert_eq. by eapply framed_settle.
  - by rewrite result_state.
  - apply abandon_framed; [done..|]. intros s' Hs'. rewrite Hs in Hs'. by injection Hs' as <-.
  - unfold do_export. destruct (caps c !! cap s); [|done]. case_decide; [done|]. by rewrite result_state.
  - done.
Qed.

Lemma foreign_framed k a c kc : owns k a c → foreign k c kc → framed k c (kexec kc c).
Proof.
  intros [Hc Hk _ Ha _ _] Hf. apply lookup_lt_Some in Hk. destruct kc as [l may p|l id cmd|l b sid cmd|sid]; cbn [kexec foreign] in *.
  - unfold aok_core_root_ioctl. destruct may; [by apply cap_new_framed|done].
  - unfold aok_core_cap_ioctl. destruct (negb _); [done|]. destruct cmd; [apply cap_new_framed; [congruence|done]| |done| |done].
    + case_match; [|done]. split; cbn; [by rewrite list_lookup_alter_ne| |done]. intros Hal j. cbn [caps]. rewrite list_lookup_alter.
      case_decide; subst; [|apply Hal]. specialize (Hal j). by destruct (caps c !! j).
    + unfold aok_core_session_new. repeat (case_match; [done|]). case_match; [|done]. split; cbn; [done|done|].
      intros i s Hs _. by apply lookup_app_l_Some.
  - by apply session_framed.
  - by apply abandon_framed.
Qed.

Lemma owns_framed k a c c' : owns k a c → core_ok c' → framed k c c' → owns k a c'.
Proof. intros [H1 H2 H3 H4 H5 H6] Hc [F1 F2 F3]. split; [done|congruence|done|auto|done|done]. Qed.

Lemma meanwhile_framed k a w n c : owns k a c → calm k w → owns k a (meanwhile w n c) ∧ framed k c (meanwhile w n c).
Proof.
  intros Ho Hw. specialize (Hw n c). unfold meanwhile. revert Ho Hw. generalize (others w n c) as ks. intros ks. revert c.
  induction ks as [|kc ks IH]; intros c Ho Hq; [done|]. destruct Hq as (Hw & Hf & Hq). pose proof (foreign_framed k a c kc Ho Hf) as Hfr.
  assert (owns k a (kexec kc c)) as Ho' by (eapply owns_framed; [done|apply kexec_ok; [apply Ho|done]|done]).
  destruct (IH _ Ho' Hq) as [H1 H2]. split; [done|]. by etrans.
Qed.

(** ** The calls of a turn *)

(** The capability with the session of the turn, the only one that may be in flight on it. *)
Record holds (k : nat) (a : capability) (sid : nat) (s : inference) (c : core) : Prop := {
  ho_owns : owns k a c;
  ho_session : sessions c !! sid = Some s;
  ho_cap : cap s = k;
  ho_flight : reserved a = reservation s;
}.

Lemma holds_meanwhile k a sid s w n c : holds k a sid s c → calm k w → holds k a sid s (meanwhile w n c).
Proof. intros [H1 H2 H3 H4] Hw. destruct (meanwhile_framed k a w n c H1 Hw) as [Ho Hf]. split; [done|by apply (fr_sessions _ _ _ Hf)|done|done]. Qed.

(** The state after the session and the capability changed together. *)
Lemma holds_settle k a sid s s' c f : holds k a sid s c →
  core_ok (mkCore (for_each f (ancestors (caps c) k) (caps c)) (<[sid := s']> (sessions c))) →
  (∀ b, parent (f b) = parent b ∧ policy (f b) = policy b ∧ revoked (f b) = revoked b) → cap s' = k → reserved (f a) = reservation s' →
  holds k (f a) sid s' (mkCore (for_each f (ancestors (caps c) k) (caps c)) (<[sid := s']> (sessions c))).
Proof.
  intros [Ho Hs Hk Hr] Hc Hf Hk' Hr'. pose proof (own_ancestors k a c Ho) as Han. destruct Ho as [Hc0 Ha Hp Hal Hl Hri].
  split; [|apply list_lookup_insert_eq; by eapply lookup_lt_Some|done|done]. destruct (Hf a) as (E1 & E2 & E3).
  split; cbn [caps]; [done| |congruence| |congruence|congruence].
  - rewrite Han. unfold for_each. cbn [fold_left]. by rewrite list_lookup_alter_eq, Ha.
  - intros j. cbn [caps]. rewrite same_parents; [apply Hal|apply Hf|apply ancestors_NoDup, core_tree, Hc0].
Qed.

Lemma own_words k a c : owns k a c → 0 ≤ used a ∧ 0 ≤ reserved a ∧ used a + reserved a ≤ token_limit (policy a) ≤ MaxUint64.
Proof.
  intros [Hc Ha _ _ _ _]. destruct (ok_caps _ Hc k a Ha) as [(_ & _ & _ & [L1 L2]) U B D _ _]. pose proof (demand_nonneg c k Hc). lia.
Qed.

Definition fresh (k : nat) (a : capability) : inference := mkInference k (mkIO 0 0 0 0 (cap_taint (policy a)) IDLE "") 0.
Definition asked (k : nat) (a : capability) (i o : Z) (st : infer_state) (d : string) : inference :=
  mkInference k (mkIO 1 i o 0 (cap_taint (policy a)) st d) (i + o).

Lemma create_effect k a l c : owns k a c → reserved a = 0 →
  match aok_core_cap_ioctl l k SESSION_CREATE c with
  | (Ok sid, c') => holds k a sid (fresh k a) c'
  | (Err _, c') => c' = c ∧ l ≠ mkLuck false false false
  end.
Proof.
  intros Ho Hr. pose proof (kexec_ok (KCap l k SESSION_CREATE) c (ow_ok _ _ _ Ho) I) as Hc. cbn [kexec] in Hc. revert Hc. unfold aok_core_cap_ioctl.
  rewrite (own_valid k a c 0 Ho) by auto. cbn [negb]. unfold aok_core_session_new. rewrite (own_valid k a c _ Ho) by auto. cbn [negb].
  destruct l as [[|] [|] [|]]; cbn [no_memory no_descriptor fault]; try done. rewrite (ow_cap _ _ _ Ho). cbn [snd]. intros Hc.
  destruct Ho as [H1 H2 H3 H4 H5 H6]. split; [by split|cbn [sessions]; by rewrite lookup_app_r, Nat.sub_diag by lia|done|done].
Qed.

Lemma submit_effect k a sid c l i o d :
  holds k a sid (fresh k a) c → in_u64 i → in_u64 o → len d ≤ AOK_CORE_DATA_MAX →
  let '(r, c') := aok_core_session_ioctl l false sid (SUBMIT (mkIO 1 i o 0 0 IDLE d)) c in
  if decide (fault l = false ∧ used a + (i + o) ≤ token_limit (policy a)) then r = Ok zero_io ∧ holds k (moved 0 (i + o) a) sid (asked k a i o PENDING d) c'
  else is_ok r = false ∧ c' = c.
Proof.
  intros Hh [I1 I2] [O1 O2] Hd. pose proof Hh as [Ho Hs _ Hr]. cbn in Hr. pose proof (own_words _ _ _ Ho) as Hw. rewrite Hr in Hw.
  assert (kcall_word (KSession l false sid (SUBMIT (mkIO 1 i o 0 0 IDLE d)))) as Hkw by (by apply io_word_intro; [vm_compute; split; congruence|split|split|..]).
  pose proof (session_ioctl_ok l false sid _ c (ow_ok _ _ _ Ho) Hkw) as Hc. revert Hc.
  unfold aok_core_session_ioctl. cbn [of_end negb check_argument]. destruct (fault l) eqn:Hf; [rewrite decide_False by naive_solver; done|].
  rewrite decide_False by (cbn; intros [?|[?|?]]; [lia|done|done]). rewrite Hs, (own_valid k a c _ Ho) by auto. cbn [negb].
  unfold do_submit. change (in_flight (fresh k a)) with false. cbn [fresh io].
  rewrite decide_False by (cbn; intros [?|?]; [discriminate|done]). cbn [input_tokens output_tokens]. rewrite (u64_small (MaxUint64 - o)) by lia.
  case_decide as Hov; [rewrite decide_False by lia; done|]. cbv zeta. rewrite (u64_small (i + o)) by lia.
  unfold over_budget. change (cap (fresh k a)) with k. rewrite (own_ancestors k a c Ho). cbn [existsb]. rewrite (ow_cap _ _ _ Ho), Hr.
  rewrite (u64_small (token_limit (policy a) - used a)), u64_small by lia. rewrite orb_false_r.
  destruct (decide (false = false ∧ used a + (i + o) ≤ token_limit (policy a))) as [[_ Hfit]|Hfit].
  2: { rewrite bool_decide_eq_true_2 by (assert (¬ used a + (i + o) ≤ token_limit (policy a)) by naive_solver; lia). done. }
  rewrite bool_decide_eq_false_2 by lia. cbn [fst snd]. unfold set_session. cbn [caps sessions]. intros Hc. split; [done|].
  rewrite <-(own_ancestors k a c Ho) in *.
  pose proof (holds_settle k a sid _ _ c _ Hh Hc ltac:(done) eq_refl) as H. cbn [reserved reservation] in H. rewrite Hr, u64_small in H by lia.
  specialize (H ltac:(lia)). unfold moved. rewrite Hr, Z.add_0_r. exact H.
Qed.

(** The words of the request in flight. *)
Lemma asked_words k a sid c b i o st d : holds k b sid (asked k a i o st d) c → st = PENDING ∨ st = RUNNING →
  in_u64 i ∧ in_u64 o ∧ reserved b = i + o ∧ used b + (i + o) ≤ token_limit (policy b) ≤ MaxUint64 ∧ 0 ≤ used b.
Proof.
  intros Hh Hst. pose proof Hh as [Ho Hs _ Hr]. cbn in Hr. pose proof (own_words _ _ _ Ho) as Hw. rewrite Hr in Hw.
  destruct (so_word _ _ (ok_sessions _ (ow_ok _ _ _ Ho) sid _ Hs)) as (_ & Hi & Hoo & _). split; [done|]. split; [done|]. lia.
Qed.

Lemma take_effect k a b sid c l i o d : holds k b sid (asked k a i o PENDING d) c →
  match aok_core_session_ioctl l true sid TAKE c with
  | (Ok x, c') => fault l = false ∧ x = io (asked k a i o RUNNING d) ∧ holds k b sid (asked k a i o RUNNING d) c'
  | (Err _, c') => fault l = true ∧ c' = c
  end.
Proof.
  intros Hh. pose proof Hh as [Ho Hs _ Hr]. pose proof (session_ioctl_ok l true sid TAKE c (ow_ok _ _ _ Ho) I) as Hc. revert Hc.
  unfold aok_core_session_ioctl. cbn [of_end negb check_argument]. rewrite Hs. change (cap (asked k a i o PENDING d)) with k.
  rewrite (own_valid k b c _ Ho) by auto. cbn [negb]. unfold do_take. rewrite decide_False by (cbn; tauto). destruct (fault l); [done|].
  cbn [snd]. intros Hc. split; [done|]. split; [done|]. destruct Ho as [H1 H2 H3 H4 H5 H6]. split; [by split| |done|done].
  apply list_lookup_insert_eq. by eapply lookup_lt_Some.
Qed.

Lemma complete_effect k a b sid c l i o d i' o' d' :
  holds k b sid (asked k a i o RUNNING d) c → in_u64 i' → in_u64 o' → len d' ≤ AOK_CORE_DATA_MAX →
  let '(r, c') := aok_core_session_ioctl l true sid (COMPLETE (mkIO 1 i' o' 0 0 IDLE d')) c in
  if decide (fault l = false ∧ i' ≤ i ∧ o' ≤ o) then
    r = Ok zero_io ∧ holds k (moved (i' + o') (- (i + o)) b) sid
      (mkInference k (mkIO 1 i' o' (used b + (i' + o')) (cap_taint (policy a)) DONE d') 0) c'
  else is_ok r = false ∧ c' = c.
Proof.
  intros Hh [I1 I2] [O1 O2] Hd. pose proof Hh as [Ho Hs _ Hr]. destruct (asked_words _ _ _ _ _ _ _ _ _ Hh (or_intror eq_refl)) as ([Wi Wi'] & [Wo Wo'] & Er & Hle & Hu).
  assert (kcall_word (KSession l true sid (COMPLETE (mkIO 1 i' o' 0 0 IDLE d')))) as Hkw by (by apply io_word_intro; [vm_compute; split; congruence|split|split|..]).
  pose proof (session_ioctl_ok l true sid _ c (ow_ok _ _ _ Ho) Hkw) as Hc. revert Hc.
  unfold aok_core_session_ioctl. cbn [of_end negb check_argument]. destruct (fault l) eqn:Hf; [rewrite decide_False by naive_solver; done|].
  rewrite decide_False by (cbn; intros [?|[?|?]]; [lia|done|done]). rewrite Hs. change (cap (asked k a i o RUNNING d)) with k.
  rewrite (own_valid k b c _ Ho) by auto. cbn [negb]. unfold do_complete. rewrite decide_False by (cbn; tauto).
  change (input_tokens (io (asked k a i o RUNNING d))) with i. change (output_tokens (io (asked k a i o RUNNING d))) with o. cbn [input_tokens output_tokens].
  destruct (decide (false = false ∧ i' ≤ i ∧ o' ≤ o)) as [(_ & Hi & Hoo)|Hn]; [|rewrite decide_True by lia; done].
  rewrite decide_False by lia. cbv zeta. rewrite (u64_small (i' + o')) by lia. unfold set_session, aok_core_unreserve. cbn [caps sessions fst snd].
  rewrite list_insert_insert_eq. change (cap (asked k a i o RUNNING d)) with k. change (reservation (asked k a i o RUNNING d)) with (i + o).
  set (f := λ b0, mkCapability _ _ _ _ _ _).
  assert (f b = moved (i' + o') (- (i + o)) b) as Efb by (unfold f, moved; rewrite Er, !u64_small by lia; f_equal; lia).
  assert (for_each f (ancestors (caps c) k) (caps c) !! k = Some (f b)) as ->.
  { rewrite (own_ancestors k b c Ho). unfold for_each. cbn [fold_left]. by rewrite list_lookup_alter_eq, (ow_cap _ _ _ Ho). }
  rewrite Efb. intros Hc. split; [done|]. pose proof (holds_settle k b sid _ _ c f Hh Hc ltac:(done) eq_refl) as H. rewrite Efb in H.
  apply H. cbn. lia.
Qed.

Lemma result_effect k b sid c l s : holds k b sid s c → io_state (io s) = DONE →
  aok_core_session_ioctl l false sid RESULT c = (if fault l then Err E_FAULT else Ok (io s), c).
Proof.
  intros [Ho Hs Hk _] Hst. unfold aok_core_session_ioctl. cbn [of_end negb check_argument]. rewrite Hs, Hk, (own_valid k b c _ Ho) by auto. cbn [negb].
  unfold do_result. rewrite decide_False by tauto. by destruct (fault l).
Qed.

(** What the session will cost when it is closed. *)
Definition closing (s : inference) : Z := if decide (io_state (io s) = RUNNING) then reservation s else 0.

Lemma abandon_effect k b sid c s : holds k b sid s c →
  ∃ s', holds k (moved (closing s) (- reserved b) b) sid s' (abandon sid c) ∧ closing s' = 0 ∧ reservation s' = 0.
Proof.
  intros Hh. pose proof Hh as [Ho Hs Hk Hr]. pose proof (abandon_ok c sid (ow_ok _ _ _ Ho)) as Hc. unfold abandon in *. rewrite Hs in *.
  pose proof (ok_sessions _ (ow_ok _ _ _ Ho) sid s Hs) as Hso. pose proof (reservation_nonneg _ _ Hso) as Hn. pose proof (own_words _ _ _ Ho) as Hw.
  destruct (in_flight s) eqn:Hf.
  - exists (mkInference (cap s) (with_state (io s) CANCELLED) 0). split; [|done]. revert Hc. unfold set_session, aok_core_unreserve. cbn [caps sessions].
    rewrite list_insert_insert_eq, Hk. intros Hc. fold (closing s) in *. set (f := λ b0, mkCapability _ _ _ _ _ _) in *.
    pose proof (holds_settle k b sid s (mkInference k (with_state (io s) CANCELLED) 0) c f Hh Hc ltac:(done) eq_refl) as H.
    assert (0 ≤ closing s ≤ reservation s) by (unfold closing; case_decide; lia).
    assert (f b = moved (closing s) (- reserved b) b) as Efb by (unfold f, moved; rewrite !u64_small by lia; f_equal; lia).
    rewrite Efb in H. apply H. cbn. lia.
  - exists s. pose proof (so_still _ _ Hso Hf) as Hz. assert (closing s = 0) as Hcl by (unfold closing; case_decide; done). split; [|done].
    replace (moved (closing s) (- reserved b) b) with b; [done|]. unfold moved. rewrite Hr, Hz, Hcl. destruct b; cbn in *. f_equal; lia.
Qed.

(** ** A turn *)

Section turns.
Context (Errno : errno → error) (error_text : error → string).

Definition spoilt (w : Weather) (n : nat) : Prop := chance w n ≠ mkLuck false false false.
Definition ceiling (p : KernelInferProvider) (prompt : string) : Z := len prompt + maxOutput p.
Definition room (p : KernelInferProvider) (prompt : string) : Prop := settled p + ceiling p prompt ≤ limit p.
Definition cost (o : Outcome) : Z := InputTokens (o_usage o) + OutputTokens (o_usage o).
Definition fits (p : KernelInferProvider) (prompt : string) (o : Outcome) : Prop :=
  InputTokens (o_usage o) ≤ len prompt ∧ OutputTokens (o_usage o) ≤ maxOutput p ∧ len (o_text o) ≤ AOK_CORE_DATA_MAX.

Definition reply (p : KernelInferProvider) (o : Outcome) : Outcome :=
  mkOutcome (o_text o) (mkUsage (InputTokens (o_usage o)) (OutputTokens (o_usage o)) 0)
    (Some (if in_tracked (inner p) then default (mkRouteInfo "" "" 0) (o_route o) else mkRouteInfo (Name p) (CompatKey_of p) 0))
    (if in_tracked (inner p) then o_taint o else 0) None.

(** How a turn that was admitted ends when the wrapped provider answers [o], and what it costs. *)
Inductive turn (w : Weather) (p : KernelInferProvider) (prompt : string) (o : Outcome) : Outcome → Z → Prop :=
  | turn_refused e : ¬ room p prompt ∨ spoilt w 0 ∨ spoilt w 1 ∨ spoilt w 2 → turn w p prompt o (refused e) 0
  | turn_failed e : room p prompt → o_err o = Some e → turn w p prompt o (refused e) (ceiling p prompt)
  | turn_rejected e : room p prompt → o_err o = None → ¬ fits p prompt o ∨ spoilt w 3 → turn w p prompt o (refused e) (ceiling p prompt)
  | turn_unread : room p prompt → o_err o = None → fits p prompt o → spoilt w 4 →
      turn w p prompt o (wrapped error_text "kernel result" (Errno E_FAULT)) (cost o)
  | turn_served : room p prompt → o_err o = None → fits p prompt o → turn w p prompt o (reply p o) (cost o).

Lemma faulty w n : fault (chance w n) = true → spoilt w n.
Proof. unfold spoilt. intros H E. by rewrite E in H. Qed.

Lemma submit_call k a sid c w i o d :
  holds k a sid (fresh k a) c → calm k w → in_u64 i → in_u64 o → len d ≤ AOK_CORE_DATA_MAX →
  let '(r, c') := Submit Errno w 1 sid (mkIO 1 i o 0 0 IDLE d) c in
  (r = Ok () ∧ used a + (i + o) ≤ token_limit (policy a) ∧ holds k (moved 0 (i + o) a) sid (asked k a i o PENDING d) c') ∨
  (is_ok r = false ∧ (spoilt w 1 ∨ ¬ used a + (i + o) ≤ token_limit (policy a)) ∧ holds k a sid (fresh k a) c').
Proof.
  intros Hh Hw Hi Ho Hd. pose proof (holds_meanwhile _ _ _ _ w 1 _ Hh Hw) as Hm. unfold Submit, send, ioctl. cbn [data tokens_used io_state].
  rewrite decide_False by lia. rewrite decide_False by tauto. pose proof (submit_effect k a sid _ (chance w 1) i o d Hm Hi Ho Hd) as H.
  destruct (aok_core_session_ioctl _ _ _ _ _) as [r c']. case_decide as Hc.
  - destruct H as [-> H]. left. tauto.
  - destruct H as [Hr ->]. destruct r; [done|]. right. split_and!; [done| |done]. destruct (fault (chance w 1)) eqn:Hf; [left; by apply faulty|right; tauto].
Qed.

Lemma take_call k a b sid c w i o d : holds k b sid (asked k a i o PENDING d) c → calm k w → len d ≤ AOK_CORE_DATA_MAX →
  let '(r, c') := Take Errno w 2 sid c in
  (r = Ok (io (asked k a i o RUNNING d)) ∧ holds k b sid (asked k a i o RUNNING d) c') ∨
  (is_ok r = false ∧ spoilt w 2 ∧ holds k b sid (asked k a i o PENDING d) c').
Proof.
  intros Hh Hw Hd. pose proof (holds_meanwhile _ _ _ _ w 2 _ Hh Hw) as Hm. unfold Take, receive, ioctl.
  pose proof (take_effect k a b sid _ (chance w 2) i o d Hm) as H. destruct (aok_core_session_ioctl _ _ _ _ _) as [[x|e] c'].
  - destruct H as (_ & -> & H). rewrite decide_False by (cbn; lia). by left.
  - destruct H as [Hf ->]. right. split_and!; [done|by apply faulty|done].
Qed.

Lemma complete_call k a b sid c w i o d i' o' d' :
  holds k b sid (asked k a i o RUNNING d) c → calm k w → in_u64 i' → in_u64 o' →
  let '(r, c') := Complete Errno w 3 sid (mkIO 1 i' o' 0 0 IDLE d') c in
  (r = Ok () ∧ (i' ≤ i ∧ o' ≤ o ∧ len d' ≤ AOK_CORE_DATA_MAX) ∧ holds k (moved (i' + o') (- (i + o)) b) sid
      (mkInference k (mkIO 1 i' o' (used b + (i' + o')) (cap_taint (policy a)) DONE d') 0) c') ∨
  (is_ok r = false ∧ (¬ (i' ≤ i ∧ o' ≤ o ∧ len d' ≤ AOK_CORE_DATA_MAX) ∨ spoilt w 3) ∧ holds k b sid (asked k a i o RUNNING d) c').
Proof.
  intros Hh Hw Hi Ho. pose proof (holds_meanwhile _ _ _ _ w 3 _ Hh Hw) as Hm. unfold Complete, send, ioctl. cbn [data tokens_used io_state].
  case_decide as Hd; [right; split_and!; [done|left; lia|done]|]. rewrite decide_False by tauto.
  pose proof (complete_effect k a b sid _ (chance w 3) i o d i' o' d' Hm Hi Ho ltac:(lia)) as H. destruct (aok_core_session_ioctl _ _ _ _ _) as [r c'].
  case_decide as Hc.
  - destruct H as [-> H]. left. split_and!; [done|lia|lia|lia|done].
  - destruct H as [Hr ->]. destruct r; [done|]. right. split_and!; [done| |done]. destruct (fault (chance w 3)) eqn:Hf; [right; by apply faulty|left; tauto].
Qed.

Lemma cancel_call k b sid c w s : holds k b sid s c → calm k w →
  ∃ s', holds k (moved (closing s) (- reserved b) b) sid s' (Cancel Errno w 3 sid c) ∧ closing s' = 0 ∧ reservation s' = 0.
Proof.
  intros Hh Hw. pose proof (holds_meanwhile _ _ _ _ w 3 _ Hh Hw) as Hm. pose proof Hm as [Ho Hs Hk _].
  unfold Cancel, ioctl, aok_core_session_ioctl. cbn [of_end negb check_argument]. rewrite Hs, Hk, (own_valid k b _ _ Ho) by auto. by apply abandon_effect.
Qed.

Lemma close_call k b sid c w n s : holds k b sid s c → calm k w →
  ∃ s', holds k (moved (closing s) (- reserved b) b) sid s' (Close w n sid c) ∧ closing s' = 0 ∧ reservation s' = 0.
Proof. intros Hh Hw. by apply abandon_effect, holds_meanwhile. Qed.

Lemma result_call k b sid c w s : holds k b sid s c → calm k w → io_state (io s) = DONE → len (data (io s)) ≤ AOK_CORE_DATA_MAX →
  let '(r, c') := Result Errno w 4 sid c in
  holds k b sid s c' ∧ (r = Ok (io s) ∨ r = Err (Errno E_FAULT) ∧ spoilt w 4).
Proof.
  intros Hh Hw Hst Hd. pose proof (holds_meanwhile _ _ _ _ w 4 _ Hh Hw) as Hm. unfold Result, receive, ioctl. rewrite (result_effect k b sid _ _ s Hm Hst).
  destruct (fault (chance w 4)) eqn:Hf; [split; [done|right; split; [done|by apply faulty]]|]. rewrite decide_False by lia. split; [done|by left].
Qed.

(** The mirror agrees with the kernel. *)
Definition mirrors (p : KernelInferProvider) (c : core) : Prop := ∃ a,
  owns (kcap p) a c ∧ policy a = mkPolicy (Z.lor AOK_CAP_INFER AOK_CAP_SERVE) 0 0 (limit p) ∧ used a = settled p ∧ reserved a = 0.

Definition same_device (p p' : KernelInferProvider) : Prop :=
  kcap p' = kcap p ∧ inner p' = inner p ∧ limit p' = limit p ∧ maxOutput p' = maxOutput p ∧ slot p' = slot p.

(** A session was opened for the turn, and it will cost [spent] once it is closed. *)
Definition ending (p : KernelInferProvider) (sid : nat) (spent : Z) (p' : KernelInferProvider) (c' : core) : Prop :=
  ∃ b s, holds (kcap p) b sid s c' ∧ policy b = mkPolicy (Z.lor AOK_CAP_INFER AOK_CAP_SERVE) 0 0 (limit p) ∧
    used b + closing s = settled p + spent ∧ settled p' = settled p + spent ∧ same_device p p'.

Lemma charge_small p spent : 0 ≤ settled p + spent ≤ MaxUint64 → settled (charge p spent) = settled p + spent ∧ same_device p (charge p spent).
Proof. intros H. unfold charge. cbn. by rewrite u64_small by lia. Qed.

Lemma in_session_spec w serve sid prompt p c a :
  holds (kcap p) a sid (fresh (kcap p) a) c → calm (kcap p) w → policy a = mkPolicy (Z.lor AOK_CAP_INFER AOK_CAP_SERVE) 0 0 (limit p) →
  used a = settled p → len prompt ≤ AOK_CORE_DATA_MAX → in_u64 (maxOutput p) →
  in_u64 (InputTokens (o_usage (serve prompt))) → in_u64 (OutputTokens (o_usage (serve prompt))) →
  let '(o', p', c') := in_session Errno error_text w serve sid prompt p c in
  ∃ spent, turn w p prompt (serve prompt) o' spent ∧ ending p sid spent p' c'.
Proof.
  intros Hh Hw Hpol Hu Hl Hm Hi Ho. set (k := kcap p) in *. pose proof (len_nonneg prompt). assert (in_u64 (len prompt)) as Hlp by (unfold AOK_CORE_DATA_MAX in Hl; split; [done|change MaxUint64 with 18446744073709551615; lia]).
  pose proof (own_words _ _ _ (ho_owns _ _ _ _ _ Hh)) as Hwd. rewrite Hpol in Hwd. cbn [token_limit] in Hwd. rewrite (ho_flight _ _ _ _ _ Hh) in Hwd. cbn in Hwd.
  unfold in_session. pose proof (submit_call k a sid c w _ _ prompt Hh Hw Hlp Hm Hl) as Hsub.
  rewrite Hpol, Hu in Hsub. cbn [token_limit] in Hsub. fold (ceiling p prompt) in Hsub. fold (room p prompt) in Hsub.
  destruct (Submit _ _ _ _ _ _) as [r c1]. destruct Hsub as [(-> & Hroom & Hh1)|(Hr & Hbad & Hh1)].
  2: { destruct r as [|e]; [done|]. exists 0. split; [constructor; tauto|]. exists a, (fresh k a). change (closing (fresh k a)) with 0. split_and!; [done|done|lia|lia|done]. }
  pose proof (take_call k a _ sid c1 w _ _ prompt Hh1 Hw Hl) as Htake. destruct (Take _ _ _ _ _) as [r c2].
  destruct Htake as [(-> & Hh2)|(Hr & Hbad & Hh2)].
  2: { destruct r as [|e]; [done|]. exists 0. split; [constructor; tauto|]. eexists _, _. split_and!; [exact Hh2|done| |lia|done]. change (closing _) with 0. cbn [used moved]. lia. }
  cbn [asked io data sequence]. assert (0 ≤ ceiling p prompt) as Hcl by (unfold ceiling; destruct Hm; lia). unfold room in Hroom.
  rewrite (u64_small (len prompt + maxOutput p)) by (fold (ceiling p prompt); lia). fold (ceiling p prompt).
  destruct (o_err (serve prompt)) as [e|] eqn:He.
  { destruct (cancel_call k _ sid c2 w _ Hh2 Hw) as (s' & Hh3 & Hcl3 & _). destruct (charge_small p (ceiling p prompt) ltac:(lia)) as [Hch Hsd].
    exists (ceiling p prompt). split; [by constructor|]. eexists _, s'. split_and!; [exact Hh3|done| |done|done]. rewrite Hcl3.
    change (closing _) with (ceiling p prompt). cbn [used moved]. lia. }
  pose proof (complete_call k a _ sid c2 w _ _ prompt _ _ (o_text (serve prompt)) Hh2 Hw Hi Ho) as Hcomp. fold (fits p prompt (serve prompt)) in Hcomp.
  destruct (Complete _ _ _ _ _ _) as [r c3]. destruct Hcomp as [(-> & Hfits & Hh3)|(Hr & Hbad & Hh3)].
  2: { destruct r as [|e]; [done|]. destruct (charge_small p (ceiling p prompt) ltac:(lia)) as [Hch Hsd]. exists (ceiling p prompt).
       split; [by constructor|]. eexists _, _. split_and!; [exact Hh3|done| |done|done].
       change (closing _) with (ceiling p prompt). cbn [used moved]. lia. }
  fold (cost (serve prompt)) in *. pose proof Hfits as (F1 & F2 & F3).
  assert (0 ≤ cost (serve prompt) ≤ ceiling p prompt) as Hcost by (unfold cost, ceiling; destruct Hi, Ho; lia).
  rewrite (u64_small (cost _)) by lia. destruct (charge_small p (cost (serve prompt)) ltac:(lia)) as [Hch Hsd].
  pose proof (result_call k _ sid c3 w _ Hh3 Hw eq_refl F3) as Hres. destruct (Result _ _ _ _ _) as [r c4]. destruct Hres as [Hh4 Hr].
  assert (∀ p', settled p' = settled p + cost (serve prompt) → same_device p p' → ending p sid (cost (serve prompt)) p' c4) as Hend.
  { intros p' E S. eexists _, _. split_and!; [exact Hh4|done| |done|done]. change (closing _) with 0. cbn [used moved]. lia. }
  destruct Hr as [->|[-> Hbad]]; [|exists (cost (serve prompt)); split; [by constructor|by apply Hend]].
  cbn [io tokens_used data]. rewrite decide_False by (rewrite <-Hu in Hch; cbn in Hch |- *; intros [?|?]; [lia|done]).
  exists (cost (serve prompt)). split; [|by apply Hend]. cbn [taint]. rewrite Hpol. cbn [cap_taint]. rewrite Z.lor_0_l. by apply turn_served.
Qed.

Lemma run_session_spec w serve prompt p c :
  mirrors p c → slot p = true → calm (kcap p) w → len prompt ≤ AOK_CORE_DATA_MAX → in_u64 (maxOutput p) →
  in_u64 (InputTokens (o_usage (serve prompt))) → in_u64 (OutputTokens (o_usage (serve prompt))) →
  let '(o', p', c') := runSession Errno error_text w serve prompt p c in
  ∃ spent, turn w p prompt (serve prompt) o' spent ∧ settled p' = settled p + spent ∧ mirrors p' c' ∧ same_device p p'.
Proof.
  intros (a & Ho & Hpol & Hu & Hr) Hslot Hw Hl Hm Hi Hoo. unfold runSession. rewrite decide_False, Hslot by lia. cbn [negb]. unfold Session.
  destruct (meanwhile_framed _ a w 0 c Ho Hw) as [Ho0 _]. pose proof (create_effect _ a (chance w 0) _ Ho0 Hr) as Hc.
  destruct (aok_core_cap_ioctl _ _ _ _) as [[sid|e] c1].
  - pose proof (in_session_spec w serve sid prompt p c1 a Hc Hw Hpol Hu Hl Hm Hi Hoo) as H.
    destruct (in_session _ _ _ _ _ _ _ _) as [[o' p'] c2]. destruct H as (spent & Ht & b & s & Hh & Hb & Hsum & Hset & Hsd).
    exists spent. split_and!; [done|done| |done]. destruct Hsd as (E1 & _ & E3 & _).
    destruct (close_call (kcap p) b sid c2 w 5 s Hh Hw) as (s1 & Hh1 & C1 & R1).
    destruct (close_call (kcap p) _ sid _ w 6 s1 Hh1 Hw) as (s2 & Hh2 & C2 & R2). eexists. rewrite E1, E3.
    split_and!; [exact (ho_owns _ _ _ _ _ Hh2)|done|rewrite Hset; cbn [used moved]; lia|]. rewrite (ho_flight _ _ _ _ _ Hh2). done.
  - destruct Hc as [-> Hbad]. exists 0. split_and!; [constructor; tauto|lia| |done]. by exists a.
Qed.

Lemma new_mirrors l may i tokenLimit maxOutputTokens c p c0 : core_ok c → in_u64 tokenLimit →
  NewKernelInferProvider Errno l may i tokenLimit maxOutputTokens c = (Ok p, c0) →
  mirrors p c0 ∧ p = mkKernelInfer (kcap p) i tokenLimit maxOutputTokens true 0 0.
Proof.
  intros Hc Hl. unfold NewKernelInferProvider, Create. set (pol := mkPolicy _ 0 0 tokenLimit).
  assert (policy_word pol) as Hpw by (split_and!; [vm_compute; split; congruence..|done]).
  pose proof (kexec_ok (KRoot l may pol) c Hc Hpw) as Hc0. cbn [kexec] in Hc0. revert Hc0. unfold aok_core_root_ioctl. destruct may; [|done]. cbn [negb].
  unfold aok_core_cap_new. destruct (fault l); [done|]. case_decide; [done|]. destruct (no_memory l); [done|]. destruct (no_descriptor l); [done|].
  cbn [snd]. intros Hc0 [= <- <-]. split; [|done]. eexists. cbn [kcap limit settled]. split_and!; [split; cbn [caps]|..].
  - done.
  - by rewrite lookup_app_r, Nat.sub_diag by lia.
  - done.
  - intros j. cbn [caps]. intros (b & Hb & Hp)%fmap_Some. apply lookup_app_Some in Hb as [Hb|[_ Hb]].
    + pose proof (core_tree c Hc j b _ Hb (eq_sym Hp)). apply lookup_lt_Some in Hb. lia.
    + by apply list_lookup_singleton_Some in Hb as [_ <-].
  - done.
  - done.
  - done.
  - done.
  - done.
Qed.

(** ** Many turns *)

Record request := mkRequest { r_weather : Weather; r_serve : string → Outcome; r_prompt : string }.

Fixpoint turns (rs : list request) (p : KernelInferProvider) (c : core) : list Outcome * KernelInferProvider * core :=
  match rs with
  | [] => ([], p, c)
  | r :: rs =>
      let '(o, p, c) := runSession Errno error_text (r_weather r) (r_serve r) (r_prompt r) p c in
      let '(os, p, c) := turns rs p c in (o :: os, p, c)
  end.

(** Other users stay off the capability and the wrapped provider reports 64-bit counts. *)
Definition orderly (k : nat) (r : request) : Prop :=
  calm k (r_weather r) ∧ in_u64 (InputTokens (o_usage (r_serve r (r_prompt r)))) ∧ in_u64 (OutputTokens (o_usage (r_serve r (r_prompt r)))).

Lemma turn_cost w p prompt o o' spent : in_u64 (maxOutput p) → in_u64 (InputTokens (o_usage o)) → in_u64 (OutputTokens (o_usage o)) →
  turn w p prompt o o' spent → cost o' ≤ spent.
Proof.
  intros [Hm _] [Hi _] [Ho _] Ht. pose proof (len_nonneg prompt). destruct Ht; cbn; unfold ceiling, cost; cbn; lia.
Qed.

Lemma turns_spec rs : ∀ p c, mirrors p c → slot p = true → in_u64 (maxOutput p) → Forall (orderly (kcap p)) rs →
  let '(os, p', c') := turns rs p c in mirrors p' c' ∧ same_device p p' ∧ sumZ cost os ≤ settled p' - settled p.
Proof.
  induction rs as [|r rs IH]; intros p c Hmi Hs Hm Hrs; cbn [turns]; [split_and!; [done|done|cbn; lia]|].
  apply Forall_cons_1 in Hrs as [(Hw & Hi & Ho) Hrs]. destruct (runSession _ _ _ _ _ _ _) as [[o p1] c1] eqn:E.
  assert (mirrors p1 c1 ∧ same_device p p1 ∧ cost o ≤ settled p1 - settled p) as (Hmi1 & Hsd & Hc1).
  { destruct (decide (AOK_CORE_DATA_MAX < len (r_prompt r))) as [Hlong|Hl].
    - unfold runSession in E. rewrite decide_True in E by done. injection E as <- <- <-. split_and!; [done|done|]. change (cost (refused _)) with 0. lia.
    - pose proof (run_session_spec (r_weather r) (r_serve r) (r_prompt r) p c Hmi Hs Hw ltac:(lia) Hm Hi Ho) as H. rewrite E in H.
      destruct H as (spent & Ht & Hset & Hmi1 & Hsd). split_and!; [done|done|]. apply turn_cost in Ht; [lia|done..]. }
  pose proof Hsd as (E1 & _ & _ & E4 & E5). specialize (IH p1 c1 Hmi1). rewrite E1, E4, E5 in IH. specialize (IH Hs Hm Hrs).
  destruct (turns rs p1 c1) as [[os p2] c2]. destruct IH as (Hmi2 & Hsd2 & Hc2). split_and!; [done| |rewrite sumZ_cons; lia].
  destruct Hsd as (? & ? & ? & ? & ?), Hsd2 as (? & ? & ? & ? & ?). split_and!; congruence.
Qed.
End turns.

(** ** Theorems *)

(** C9: a turn through the kernel device has exactly one of five ends, whatever other users of the device do between its
    calls.  It is refused for free when the budget left does not cover the prompt and the output ceiling (or a call was
    spoilt by the system before the provider ran); it costs the whole ceiling when the wrapped provider fails or reports
    more than was reserved; it delivers the wrapped provider's text at its reported cost otherwise, unless reading the
    result back is spoilt.  In every case the provider's mirror agrees with the kernel's ledger afterwards, so that the
    reconciliation never fails. *)
Theorem kernel_infer_turn Errno error_text w serve prompt p c :
  mirrors p c → slot p = true → calm (kcap p) w → len prompt ≤ AOK_CORE_DATA_MAX → in_u64 (maxOutput p) →
  in_u64 (InputTokens (o_usage (serve prompt))) → in_u64 (OutputTokens (o_usage (serve prompt))) →
  let '(o', p', c') := runSession Errno error_text w serve prompt p c in
  ∃ spent, turn Errno error_text w p prompt (serve prompt) o' spent ∧ settled p' = settled p + spent ∧ mirrors p' c'.
Proof.
  intros H1 H2 H3 H4 H5 H6 H7. pose proof (run_session_spec Errno error_text w serve prompt p c H1 H2 H3 H4 H5 H6 H7) as H.
  destruct (runSession _ _ _ _ _ _ _) as [[o' p'] c']. destruct H as (spent & Ht & Hs & Hm & _). by exists spent.
Qed.

(** Over any sequence of turns of a new provider, with faults and other users in between, the provider's count of
    settled tokens is the kernel's, nothing stays reserved, the usage reported for all served turns together is at most
    what was settled, and that never exceeds the token limit of the provider. *)
Theorem kernel_infer_budget Errno error_text l may i tokenLimit maxOutputTokens c p c0 rs :
  core_reachable c → in_u64 tokenLimit → in_u64 maxOutputTokens →
  NewKernelInferProvider Errno l may i tokenLimit maxOutputTokens c = (Ok p, c0) → Forall (orderly (kcap p)) rs →
  let '(os, p', c') := turns Errno error_text rs p c0 in
  sumZ cost os ≤ settled p' ≤ tokenLimit ∧ ∃ a, caps c' !! kcap p = Some a ∧ used a = settled p' ∧ reserved a = 0.
Proof.
  intros Hc%reachable_ok Hl Hm Hnew Hrs. destruct (new_mirrors Errno l may i tokenLimit maxOutputTokens c p c0 Hc Hl Hnew) as [Hmi Hp].
  assert (settled p = 0 ∧ limit p = tokenLimit) as [E0 El] by (by rewrite Hp).
  pose proof (turns_spec Errno error_text rs p c0 Hmi ltac:(by rewrite Hp) ltac:(by rewrite Hp) Hrs) as H.
  destruct (turns _ _ _ _ _) as [[os p'] c']. destruct H as ((a & Ho & Hpol & Hu & Hr) & (Ek & _ & Elim & _) & Hsum).
  pose proof (own_words _ _ _ Ho) as Hw. rewrite Hpol in Hw. cbn [token_limit] in Hw. rewrite Elim in Hw. split; [lia|].
  exists a. rewrite <-Ek. split; [apply Ho|done].
Qed.

(** A provider that answers a prompt, next to another user of the device. *)
Definition answering (d : string) : Outcome := mkOutcome ("re: " +:+ d) (mkUsage (len d) 5 0) None 0 None.
Definition neighbour (n : nat) (c : core) : list kcall := [KRoot fine true parent_policy].
Definition ordinary : Weather := mkWeather neighbour (λ _, fine).
Definition some_inner : Inner := mkInner "echo" None false.
Definition the_provider : KernelInferProvider := mkKernelInfer 0 some_inner 40 12 true 0 0.
Definition the_core : core := snd (NewKernelInferProvider (λ _, ErrIO) fine true some_inner 40 12 boot_core).

Lemma ordinary_calm k : calm k ordinary.
Proof. intros n c. cbn. split_and!; try done; vm_compute; congruence. Qed.

Lemma hello_orderly k n : Forall (orderly k) (replicate n (mkRequest ordinary answering "hello")).
Proof. apply Forall_replicate. split; [apply ordinary_calm|]. split; vm_compute; split; congruence. Qed.

Lemma the_mirrors : mirrors the_provider the_core.
Proof.
  apply (new_mirrors (λ _, ErrIO) fine true some_inner 40 12 boot_core the_provider the_core); [by split|vm_compute; split; congruence|].
  vm_compute. reflexivity.
Qed.

Lemma kernel_infer_turn_witness :
  let '(o', p', c') := runSession (λ _, ErrIO) (λ _, "io") ordinary answering "hello" the_provider the_core in
  o_text o' = "re: hello" ∧ settled p' = 10 ∧ mirrors p' c'.
Proof.
  pose proof (kernel_infer_turn (λ _, ErrIO) (λ _, "io") ordinary answering "hello" the_provider the_core the_mirrors eq_refl (ordinary_calm _)
    ltac:(vm_compute; congruence) ltac:(vm_compute; split; congruence) ltac:(vm_compute; split; congruence) ltac:(vm_compute; split; congruence)) as H.
  set (out := runSession _ _ _ _ _ _ _) in *. assert (o_text (fst (fst out)) = "re: hello" ∧ settled (snd (fst out)) = 10) as [E1 E2] by (vm_compute; done).
  destruct out as [[o' p'] c']. destruct H as (_ & _ & _ & Hm). exact (conj E1 (conj E2 Hm)).
Defined.

Lemma kernel_infer_budget_witness :
  let '(os, p', c') := turns (λ _, ErrIO) (λ _, "io") (replicate 5 (mkRequest ordinary answering "hello")) the_provider the_core in
  (o_err <$> os) = [None; None; None; Some (New "kernel submit: io"); Some (New "kernel submit: io")] ∧ settled p' = 30 ∧ sumZ cost os ≤ settled p' ≤ 40.
Proof.
  pose proof (kernel_infer_budget (λ _, ErrIO) (λ _, "io") fine true some_inner 40 12 boot_core the_provider the_core
    (replicate 5 (mkRequest ordinary answering "hello")) core_start ltac:(vm_compute; split; congruence) ltac:(vm_compute; split; congruence)
    ltac:(vm_compute; reflexivity)
    (hello_orderly _ 5)) as H.
  set (out := turns _ _ _ _ _) in *.
  assert ((o_err <$> fst (fst out)) = [None; None; None; Some (New "kernel submit: io"); Some (New "kernel submit: io")] ∧ settled (snd (fst out)) = 30) as [E1 E2] by (split; vm_compute; reflexivity).
  destruct out as [[os p'] c']. destruct H as [H _]. exact (conj E1 (conj E2 H)).
Defined.
