(* ===== verification/Providers.v ===== *)
(** * provider.go, provider_llama.go, provider_metal.go, provider_anthropic.go

    The providers that answer a turn.  An HTTP backend is a function from the request
    to what came of it; a provider returns the requests it made along with its result,
    so that where a prompt or a credential goes can be stated. *)

From Stdlib Require Import Ascii.
From stdpp Require Import base tactics option list strings numbers pretty.
From S2P Require Import Prelude GoLib Json Ledger State Taint Mailbox Runner Token Control Url Net.

(** ** HTTP *)

Record Request := mkRequest { r_Method : string; r_URL : string; r_Header : list (string * string); r_Body : string }.

(** An answer: its status, its [Location] header, its body, and whether reading the body fails. *)
Record Answer := mkAnswer { an_Status : Z; an_Location : string; an_Body : string; an_Broken : bool }.

(** The network.  [new_request] is [http.NewRequestWithContext]; [perform] is one exchange,
    without redirects; [locate] is the URL of a [Location] seen from the URL it came from;
    [ctx_err] is [ctx.Err ()] once one of them has failed. *)
Record Http := mkHttp {
  new_request : string → bool;
  perform : Request → option Answer;
  locate : string → string → option string;
  ctx_err : option error;
}.

(** An [http.Client].  [CheckRedirect] gets the request that would be made next and those
    made so far, the oldest first; without it ten requests are the most. *)
Record Client := mkClient { ct_Timeout : Z; CheckRedirect : option (Request → list Request → option error) }.

Definition checkRedirect (c : Client) (req : Request) (via : list Request) : option error :=
  match CheckRedirect c with
  | Some check => check req via
  | None => if decide (10 ≤ length via) then Some (New "stopped after 10 redirects") else None
  end.

(** The method of the request a redirect asks for, and whether the body goes along. *)
Definition redirectBehavior (method : string) (status : Z) : option (string * bool) :=
  if decide (status ∈ [301; 302; 303]%Z) then
    Some (if decide (method = "GET" ∨ method = "HEAD") then method else "GET", false)
  else if decide (status ∈ [307; 308]%Z) then Some (method, true)
  else None.

(** The loop of [client.Do]: the requests it made, and the answer it returns.  A request
    that follows a redirect has the headers of the one before it: [net/http] keeps back
    cookies and the like for another host, and none of those set here. *)
Fixpoint do_loop (fuel : nat) (h : Http) (c : Client) (via : list Request) (req : Request) : list Request * option Answer :=
  match fuel with
  | O => (via, None)
  | S fuel =>
      let sent := via ++ [req] in
      match perform h req with
      | None => (sent, None)
      | Some a =>
          match redirectBehavior (r_Method req) (an_Status a) with
          | None => (sent, Some a)
          | Some (method, body) =>
              if decide (an_Location a = "") then (sent, Some a)
              else match locate h (r_URL req) (an_Location a) with
                   | None => (sent, None)
                   | Some url =>
                       let next := mkRequest method url (r_Header req) (if body : bool then r_Body req else "") in
                       match checkRedirect c next sent with
                       | Some _ => (sent, None)
                       | None => do_loop fuel h c sent next
                       end
                   end
          end
      end
  end.

(** Ten rounds are enough for a client without a [CheckRedirect], one for one that refuses. *)
Definition client_Do (h : Http) (c : Client) (req : Request) : list Request * option Answer := do_loop 10 h c [] req.

(** What a call returns, and the requests it made. *)
Definition call (A : Type) : Type := list Request * result error A.

Definition fail {A} (e : error) : call A := ([], Err e).

(** The error of a failed exchange: that of the context, if there is one. *)
Definition or_ctx (h : Http) (text : string) : error := default (New text) (ctx_err h).

(** [io.ReadAll (io.LimitReader (body, limit+1))]; the limits are far below overflow. *)
Definition read_limited (limit : Z) (body : string) : string := String.substring 0 (Z.to_nat (limit + 1)) body.

(** ** JSON members *)

(** A pointer field is [nil] until a member sets it, and again after a [null]. *)
Definition pointer_field {A} (set : json → option A) (name : string) (v : option json) : option A * bool :=
  slice_field (λ j, Some <$> set j) name None v.

(** A nested struct: each member with its name decodes into what is there already. *)
Definition nested_member {A} (set : A → json → A * bool) (name : string) (acc : A * bool) (kv : string * json) : A * bool :=
  if field_match name (fst kv) then
    match snd kv with
    | JNull => acc
    | JObj _ => let '(x, ok) := set (fst acc) (snd kv) in (x, snd acc && ok)
    | _ => (fst acc, false)
    end
  else acc.

Definition nested_field {A} (set : A → json → A * bool) (name : string) (zero : A) (v : option json) : A * bool :=
  match v with
  | Some (JObj ms) => fold_left (nested_member set name) ms (zero, true)
  | Some JNull => (zero, true)
  | _ => (zero, false)
  end.

(** A pointer field of a nested struct, decoded into what is there already. *)
Definition pointer_into {A} (set : json → option A) (name : string) (old : option A) (v : json) : option A * bool :=
  match v with
  | JObj ms => fold_left (slice_member (λ j, Some <$> set j) None name) ms (old, true)
  | _ => (old, false)
  end.

(** ** llama.cpp *)

Record LlamaConfig := mkLlamaConfig {
  lc_Endpoint : string;
  lc_MaxTokens : Z;
  lc_MaxResponseBytes : Z;
  lc_Timeout : Z;
  CachePrompt : bool;
}.

Record LlamaProvider := mkLlamaProvider { ll_config : LlamaConfig; ll_client : Client; endpoint : string }.

Record KVSnapshot := mkKVSnapshot { Slot : Z; Filename : string }.

(** An [http] or [https] base URL with a host and nothing but a path after it. *)
Definition bare_http (u : URL) : Prop :=
  Host u ≠ "" ∧ (Scheme u = "http" ∨ Scheme u = "https") ∧ User u = false ∧ RawQuery u = "" ∧ Fragment u = "".

Global Instance bare_http_dec u : Decision (bare_http u).
Proof. unfold bare_http. apply _. Defined.

(** Go's zero value stands for the default. *)
Definition or_default (z d : Z) : Z := if decide (z = 0)%Z then d else z.

Definition NewLlamaProvider (config : LlamaConfig) : result error LlamaProvider :=
  match Parse (lc_Endpoint config) with
  | None => Err (New "llama endpoint must be an HTTP(S) base URL without credentials, query or fragment")
  | Some u =>
      if decide (¬ bare_http u) then
        Err (New "llama endpoint must be an HTTP(S) base URL without credentials, query or fragment")
      else
        let tokens := or_default (lc_MaxTokens config) 128 in
        let bytes := or_default (lc_MaxResponseBytes config) 1048576 in
        let timeout := or_default (lc_Timeout config) 120000000000 in
        if decide (tokens < 1 ∨ tokens > 32768 ∨ bytes < 1 ∨ bytes > 8388608 ∨ timeout < 0)%Z
        then Err (New "invalid llama generation limits")
        else
          let base := TrimRight "/" (lc_Endpoint config) in
          Ok (mkLlamaProvider (mkLlamaConfig (base +:+ "/completion") tokens bytes timeout (CachePrompt config))
                (mkClient timeout (Some (λ _ _, Some (New "llama redirects are disabled")))) base)
  end.

Definition slotURL (p : LlamaProvider) (slot : Z) (action : string) : result error string :=
  if decide (slot < 0 ∨ slot > 1023 ∨ action = "")%Z then Err (New "invalid llama KV slot")
  else Ok (endpoint p +:+ "/slots/" +:+ pretty slot +:+ "?action=" +:+ QueryEscape action).

Definition validateKVFilename (filename : string) : option error :=
  if decide (filename = "" ∨ (len filename > 512)%Z ∨ IsAbs filename = true ∨ Base filename ≠ filename
             ∨ filename = "." ∨ filename = "..")
  then Some (New "invalid llama KV filename") else None.

Definition post (url : string) (header : list (string * string)) (body : string) : Request :=
  mkRequest "POST" url (("Content-Type", "application/json") :: header) body.

(** The name in the answer, if it has one; an [error] member is of any type. *)
Definition slot_answer (data : string) : option (option string) :=
  if decide (data = "") then Some None
  else
    let v := parse data in
    let '(name, ok) := pointer_field as_string "filename" v in
    if ok : bool then Some name else None.

Definition slotAction (h : Http) (p : LlamaProvider) (url : string) (slot : Z) (filename : string) : call KVSnapshot :=
  let body := obj_literal [("filename", json_quote filename)] in
  if negb (new_request h url) then fail (New "create llama KV request")
  else
    let '(sent, resp) := client_Do h (ll_client p) (post url [] body) in
    (sent,
     match resp with
     | None => Err (or_ctx h "llama KV request failed")
     | Some a =>
         let data := read_limited (lc_MaxResponseBytes (ll_config p)) (an_Body a) in
         if an_Broken a then Err (New "read llama KV response")
         else if decide (len data > lc_MaxResponseBytes (ll_config p))%Z then Err (New "llama KV response exceeds size limit")
         else if decide (an_Status a ≠ 200)%Z then Err (New ("llama KV HTTP status " +:+ pretty (an_Status a)))
         else match slot_answer data with
              | None => Err (New "invalid llama KV response")
              | Some None => Ok (mkKVSnapshot slot filename)
              | Some (Some name) =>
                  match validateKVFilename name with
                  | Some e => Err e
                  | None => Ok (mkKVSnapshot slot name)
                  end
              end
     end).

Definition SaveKV (h : Http) (p : LlamaProvider) (slot : Z) (filename : string) : call KVSnapshot :=
  match validateKVFilename filename with
  | Some e => fail e
  | None => match slotURL p slot "save" with
            | Err e => fail e
            | Ok url => slotAction h p url slot filename
            end
  end.

Definition RestoreKV (h : Http) (p : LlamaProvider) (snapshot : KVSnapshot) : call unit :=
  match validateKVFilename (Filename snapshot) with
  | Some e => fail e
  | None => match slotURL p (Slot snapshot) "restore" with
            | Err e => fail e
            | Ok url =>
                let '(reqs, r) := slotAction h p url (Slot snapshot) (Filename snapshot) in
                (reqs, match r with Ok _ => Ok () | Err e => Err e end)
            end
  end.

(** The result of a completion. *)
Record LlamaResult := mkLlamaResult {
  Content : option string;
  TokensEvaluated : option Z;
  TokensPredicted : option Z;
  Truncated : bool;
  RawError : string;
  CacheN : option Z;
  PromptN : option Z;
}.

Definition set_timings (old : option Z * option Z) (v : json) : option Z * option Z * bool :=
  let '(c, ok1) := pointer_into as_uint64 "cache_n" (fst old) v in
  let '(n, ok2) := pointer_into as_uint64 "prompt_n" (snd old) v in
  (c, n, ok1 && ok2).

Definition decode_llama (data : string) : option LlamaResult :=
  let v := parse data in
  let '(content, ok1) := pointer_field as_string "content" v in
  let '(evaluated, ok2) := pointer_field as_uint64 "tokens_evaluated" v in
  let '(predicted, ok3) := pointer_field as_uint64 "tokens_predicted" v in
  let '(truncated, ok4) := decode_field as_bool "truncated" false v in
  let '(timings, ok5) := nested_field set_timings "timings" (None, None) v in
  if ok1 && ok2 && ok3 && ok4 && ok5
  then Some (mkLlamaResult content evaluated predicted truncated (raw_field "error" data) (fst timings) (snd timings))
  else None.

(** The accounting of an answer. *)
Definition account_llama (config : LlamaConfig) (r : LlamaResult) : result error (string * Usage) :=
  match Content r, TokensEvaluated r, TokensPredicted r with
  | Some content, Some input, Some output =>
      if decide (RawError r ≠ "" ∧ RawError r ≠ "null") then Err (New "invalid llama completion or usage")
      else if Truncated r then Err (New "llama backend truncated the input context")
      else if decide (CacheN r = None ∧ CachePrompt config = true) then
        Err (New "llama backend omitted input cache accounting")
      else
        let cached := default 0%Z (CacheN r) in
        if decide (output > lc_MaxTokens config ∨ cached > input)%Z then Err (New "invalid llama token accounting")
        else if decide (is_Some (PromptN r) ∧ PromptN r ≠ Some (u64 (input - cached))) then
          Err (New "inconsistent llama input token accounting")
        else Ok (content, mkUsage input output cached)
  | _, _, _ => Err (New "invalid llama completion or usage")
  end.

Definition json_bool (b : bool) : string := if b then "true" else "false".

Definition llama_body (config : LlamaConfig) (prompt : string) : string :=
  obj_literal [("prompt", json_quote prompt); ("n_predict", json_int (lc_MaxTokens config)); ("temperature", "0");
               ("stream", "false"); ("cache_prompt", json_bool (CachePrompt config))].

Definition llama_Complete (h : Http) (p : LlamaProvider) (prompt : string) : call (string * Usage) :=
  let config := ll_config p in
  if decide (len prompt > maxTextBytes)%Z then fail (New "llama prompt exceeds engine limit")
  else if negb (new_request h (lc_Endpoint config)) then fail (New "create llama request")
  else
    let '(sent, resp) := client_Do h (ll_client p) (post (lc_Endpoint config) [] (llama_body config prompt)) in
    (sent,
     match resp with
     | None => Err (or_ctx h "llama backend request failed")
     | Some a =>
         if decide (an_Status a ≠ 200)%Z then Err (New ("llama backend HTTP status " +:+ pretty (an_Status a)))
         else if an_Broken a then Err (or_ctx h "read llama response")
         else
           let data := read_limited (lc_MaxResponseBytes config) (an_Body a) in
           if decide (len data > lc_MaxResponseBytes config)%Z then Err (New "llama response exceeds size limit")
           else match decode_llama data with
                | None => Err (New "invalid llama completion or usage")
                | Some r => account_llama config r
                end
     end).

Definition llama_CompatKey (p : LlamaProvider) : string := "llama.cpp|" +:+ endpoint p.

(** ** Loopback hosts, the Metal adapter *)

Definition isLoopbackHost (host : string) : bool :=
  bool_decide (host = "localhost") || match ParseIP host with Some ip => IsLoopback ip | None => false end.

Record MetalConfig := mkMetalConfig { mc_Endpoint : string; mc_MaxTokens : Z; mc_MaxResponseBytes : Z }.

Definition NewMetalProvider (config : MetalConfig) : result error LlamaProvider :=
  match Parse (mc_Endpoint config) with
  | None => Err (New "metal endpoint must be an HTTP(S) base URL")
  | Some u =>
      if decide (¬ bare_http u) then Err (New "metal endpoint must be an HTTP(S) base URL")
      else if negb (isLoopbackHost (Hostname u)) then Err (New "metal endpoint must be loopback")
      else NewLlamaProvider (mkLlamaConfig (TrimRight "/" (mc_Endpoint config)) (mc_MaxTokens config)
                               (mc_MaxResponseBytes config) 0 true)
  end.

Definition metal_Complete (h : Http) (p : option LlamaProvider) (prompt : string) : call (string * Usage) :=
  match p with
  | None => fail (New "metal provider is unavailable")
  | Some p => llama_Complete h p prompt
  end.

(** ** The Messages API *)

Record AnthropicConfig := mkAnthropicConfig {
  APIKey : string;
  ac_Endpoint : string;
  Model : string;
  ac_MaxTokens : Z;
  ac_MaxResponseBytes : Z;
  ac_Timeout : Z;
}.

Record AnthropicProvider := mkAnthropicProvider { an_config : AnthropicConfig; an_client : Client }.

Definition or_text (s d : string) : string := if decide (s = "") then d else s.

(** An endpoint a credential may be sent to. *)
Definition cloud_endpoint (u : URL) : Prop :=
  Host u ≠ "" ∧ User u = false ∧ RawQuery u = "" ∧ Fragment u = "" ∧
  (Scheme u = "https" ∨ isLoopbackHost (Hostname u) = true).

Global Instance cloud_endpoint_dec u : Decision (cloud_endpoint u).
Proof. unfold cloud_endpoint. apply _. Defined.

(** [getenv] is the environment's [ANTHROPIC_API_KEY]. *)
Definition NewAnthropicProvider (getenv : string) (config : AnthropicConfig) : result error AnthropicProvider :=
  let key := or_text (APIKey config) getenv in
  if decide (key = "") then Err (New "anthropic API key is not configured")
  else
    let url := or_text (ac_Endpoint config) "https://api.anthropic.com/v1/messages" in
    match Parse url with
    | None => Err (New "anthropic endpoint must be HTTPS without credentials, query or fragment")
    | Some u =>
        if decide (¬ cloud_endpoint u) then Err (New "anthropic endpoint must be HTTPS without credentials, query or fragment")
        else
          let tokens := or_default (ac_MaxTokens config) 1024 in
          let bytes := or_default (ac_MaxResponseBytes config) 2097152 in
          let timeout := or_default (ac_Timeout config) 120000000000 in
          if decide (tokens < 1 ∨ tokens > 32768 ∨ bytes < 1 ∨ bytes > 16777216 ∨ timeout < 0)%Z
          then Err (New "invalid anthropic generation limits")
          else Ok (mkAnthropicProvider
                     (mkAnthropicConfig key url (or_text (Model config) "claude-3-5-sonnet-latest") tokens bytes timeout)
                     (mkClient timeout (Some (λ _ _, Some (New "anthropic redirects are disabled")))))
    end.

Definition anthropic_CompatKey (p : AnthropicProvider) : string := "anthropic|" +:+ Model (an_config p) +:+ "|messages".

Definition anthropic_body (p : AnthropicConfig) (prompt : string) : string :=
  obj_literal [("model", json_quote (Model p)); ("max_tokens", json_int (ac_MaxTokens p));
               ("messages", arr_literal [obj_literal [("role", json_quote "user"); ("content", json_quote prompt)]])].

(** A block of the answer, its type and its text, decoded into what is there already. *)
Definition block_into (old : string * string) (v : json) : (string * string) * bool :=
  let '(kind, ok1) := decode_field as_string "type" (fst old) (Some v) in
  let '(text, ok2) := decode_field as_string "text" (snd old) (Some v) in
  ((kind, text), ok1 && ok2).

(** An array is decoded over the cells of the slice that is there. *)
Fixpoint decode_over (cells : list (string * string)) (vs : list json) : list (string * string) * bool :=
  match vs with
  | [] => (cells, true)
  | v :: vs =>
      let '(old, later) := match cells with c :: cs => (c, cs) | [] => (("", ""), []) end in
      let '(b, ok1) := block_into old v in
      let '(rest, ok2) := decode_over later vs in
      (b :: rest, ok1 && ok2)
  end.

(** The cells of the slice and how many of them it has. *)
Definition content_member (acc : list (string * string) * nat * bool) (kv : string * json) : list (string * string) * nat * bool :=
  if field_match "content" (fst kv) then
    match snd kv with
    | JNull => ([], 0, snd acc)
    | JArr [] => ([], 0, snd acc)
    | JArr vs => let '(cells, ok) := decode_over (fst (fst acc)) vs in (cells, length vs, snd acc && ok)
    | _ => (fst acc, false)
    end
  else acc.

Definition content_field (v : option json) : list (string * string) * bool :=
  match v with
  | Some (JObj ms) => let '(cells, n, ok) := fold_left content_member ms ([], 0, true) in (take n cells, ok)
  | Some JNull => ([], true)
  | _ => ([], false)
  end.

Record CloudUsage := mkCloudUsage {
  cu_Input : option Z;
  cu_Output : option Z;
  CacheCreation : Z;
  CacheRead : Z;
}.

Definition set_cloud_usage (old : CloudUsage) (v : json) : CloudUsage * bool :=
  let '(i, ok1) := pointer_into as_uint64 "input_tokens" (cu_Input old) v in
  let '(o, ok2) := pointer_into as_uint64 "output_tokens" (cu_Output old) v in
  let '(c, ok3) := decode_field as_uint64 "cache_creation_input_tokens" (CacheCreation old) (Some v) in
  let '(r, ok4) := decode_field as_uint64 "cache_read_input_tokens" (CacheRead old) (Some v) in
  (mkCloudUsage i o c r, ok1 && ok2 && ok3 && ok4).

Definition decode_cloud (data : string) : option (list (string * string) * CloudUsage) :=
  let v := parse data in
  let '(content, ok1) := content_field v in
  let '(usage, ok2) := nested_field set_cloud_usage "usage" (mkCloudUsage None None 0 0) v in
  if ok1 && ok2 then Some (content, usage) else None.

(** The text blocks, joined. *)
Fixpoint block_text (blocks : list (string * string)) : string :=
  match blocks with
  | [] => ""
  | (kind, text) :: blocks => (if decide (kind = "text") then text else "") +:+ block_text blocks
  end.

Definition account_cloud (p : AnthropicConfig) (r : list (string * string) * CloudUsage) : result error (string * Usage) :=
  match cu_Input (snd r), cu_Output (snd r) with
  | Some input, Some output =>
      if decide (output > ac_MaxTokens p)%Z then Err (New "invalid anthropic output token accounting")
      else
        let text := block_text (fst r) in
        if decide (text = "") then Err (New "anthropic response has no text content")
        else Ok (text, mkUsage input output (u64 (CacheCreation (snd r) + CacheRead (snd r))))
  | _, _ => Err (New "invalid anthropic completion or usage")
  end.

Definition anthropic_Complete (h : Http) (provider : AnthropicProvider) (prompt : string) : call (string * Usage) :=
  let p := an_config provider in
  if decide (len prompt > maxTextBytes)%Z then fail (New "anthropic prompt exceeds engine limit")
  else if negb (new_request h (ac_Endpoint p)) then fail (New "create anthropic request")
  else
    let req := post (ac_Endpoint p) [("x-api-key", APIKey p); ("anthropic-version", "2023-06-01")] (anthropic_body p prompt) in
    let '(sent, resp) := client_Do h (an_client provider) req in
    (sent,
     match resp with
     | None => Err (or_ctx h "anthropic backend request failed")
     | Some a =>
         let data := read_limited (ac_MaxResponseBytes p) (an_Body a) in
         if an_Broken a then Err (or_ctx h "read anthropic response")
         else if decide (len data > ac_MaxResponseBytes p)%Z then Err (New "anthropic response exceeds size limit")
         else if decide (an_Status a ≠ 200)%Z then Err (New ("anthropic backend HTTP status " +:+ pretty (an_Status a)))
         else match decode_cloud data with
              | None => Err (New "invalid anthropic completion or usage")
              | Some r => account_cloud p r
              end
     end).

(** ** The echo provider *)

Definition echo_Complete (ctx : option error) (prompt : string) : call (string * Usage) :=
  match ctx with
  | Some e => fail e
  | None => ([], Ok (prompt, mkUsage (u64 (len prompt)) (u64 (len prompt)) 0))
  end.

(** What the runner makes of a provider that tracks nothing of its own. *)
Definition plain_provider (name compat : string) (complete : string → call (string * Usage)) : ProviderInfo :=
  mkProviderInfo name compat false (λ _ prompt,
    match snd (complete prompt) with
    | Ok (text, usage) => mkOutcome text usage None 0 None
    | Err e => mkOutcome "" (mkUsage 0 0 0) None 0 (Some e)
    end).

Definition llama_provider (h : Http) (p : LlamaProvider) : ProviderInfo :=
  plain_provider "llama.cpp" (llama_CompatKey p) (llama_Complete h p).
Definition metal_provider (h : Http) (p : LlamaProvider) : ProviderInfo :=
  plain_provider "metal" (llama_CompatKey p) (metal_Complete h (Some p)).
Definition anthropic_provider (h : Http) (p : AnthropicProvider) : ProviderInfo :=
  plain_provider "anthropic" (anthropic_CompatKey p) (anthropic_Complete h p).
Definition echo_provider (ctx : option error) : ProviderInfo :=
  plain_provider "echo" "echo|std|plain|f32|1|cpu" (echo_Complete ctx).
