(* ===== verification/ProviderProperties.v ===== *)
(** * Providers: what they count, and where prompts and credentials go *)

From Stdlib Require Import Ascii.
From stdpp Require Import base tactics option list strings numbers pretty.
From S2P Require Import Prelude GoLib Json Crypto Ledger State Taint Mailbox Runner Invariant RunnerProofs Token Control.
From S2P Require Import Url Net UrlProofs Providers.

(** ** Numbers from the network *)

Lemma as_uint64_range v n : as_uint64 v = Some n → in_u64 n.
Proof. destruct v; try done. apply ParseUint_range. Qed.

Definition some_u64 (o : option Z) : Prop := ∀ n, o = Some n → in_u64 n.

Lemma pointers_range name ms acc :
  some_u64 (fst acc) → some_u64 (fst (fold_left (slice_member (λ j, Some <$> as_uint64 j) None name) ms acc)).
Proof.
  revert acc. induction ms as [|[k v] ms IH]; intros acc Hacc; [done|]. cbn [fold_left]. apply IH.
  unfold slice_member. cbn [fst snd]. destruct (field_match name k); [|done].
  destruct v; try (intros n [=]; done); try done; cbn [fst];
    destruct (as_uint64 _) eqn:E; try done; cbn; intros n' [= <-]; by eapply as_uint64_range.
Qed.

Lemma pointer_field_range name v x ok : pointer_field as_uint64 name v = (x, ok) → some_u64 x.
Proof.
  unfold pointer_field, slice_field. intros H.
  destruct v as [[| | | | |ms]|]; try (injection H as <- _; intros n [=]).
  apply (f_equal fst) in H. cbn in H. rewrite <-H. by apply pointers_range.
Qed.

Lemma pointer_into_range name old v x ok : some_u64 old → pointer_into as_uint64 name old v = (x, ok) → some_u64 x.
Proof.
  unfold pointer_into. intros Hold H. destruct v; try (by injection H as <- _).
  apply (f_equal fst) in H. cbn in H. rewrite <-H. by apply pointers_range.
Qed.

Lemma nested_range {A} (P : A → Prop) (set : A → json → A * bool) name zero v x ok :
  (∀ a j, P a → P (fst (set a j))) → P zero → nested_field set name zero v = (x, ok) → P x.
Proof.
  intros Hset Hz H. apply (f_equal fst) in H. cbn in H. rewrite <-H. unfold nested_field.
  destruct v as [[| | | | |ms]|]; try done. assert (∀ acc, P (fst acc) → P (fst (fold_left (nested_member set name) ms acc))) as Hf;
    [|by apply Hf].
  clear H. induction ms as [|[k j] ms IH]; intros acc Hacc; [done|]. cbn [fold_left]. apply IH. unfold nested_member. cbn [fst snd].
  destruct (field_match name k); [|done]. destruct j; try done.
  destruct (set (fst acc) (JObj members)) as [y ok'] eqn:E. change y with (fst (y, ok')). rewrite <-E. by apply Hset.
Qed.

Lemma decode_llama_range data r :
  decode_llama data = Some r →
  some_u64 (TokensEvaluated r) ∧ some_u64 (TokensPredicted r) ∧ some_u64 (CacheN r) ∧ some_u64 (PromptN r).
Proof.
  unfold decode_llama. intros H.
  destruct (pointer_field as_string _ _) as [content ok1]. destruct (pointer_field as_uint64 "tokens_evaluated" _) as [e ok2] eqn:E2.
  destruct (pointer_field as_uint64 "tokens_predicted" _) as [p ok3] eqn:E3. destruct (decode_field as_bool _ _ _) as [t ok4].
  destruct (nested_field set_timings _ _ _) as [[c n] ok5] eqn:E5.
  destruct (ok1 && ok2 && ok3 && ok4 && ok5); [|done]. injection H as <-. cbn.
  apply (nested_range (λ cn, some_u64 (fst cn) ∧ some_u64 (snd cn))) in E5 as [Hc Hn].
  - split_and!; try done; by eapply pointer_field_range.
  - intros [c0 n0] j [H1 H2]. cbn in *. unfold set_timings. cbn [fst snd].
    destruct (pointer_into as_uint64 "cache_n" c0 j) as [c1 k1] eqn:Ec. destruct (pointer_into as_uint64 "prompt_n" n0 j) as [n1 k2] eqn:En.
    split; [exact (pointer_into_range _ _ _ _ _ H1 Ec)|exact (pointer_into_range _ _ _ _ _ H2 En)].
  - by split.
Qed.

Lemma decode_cloud_range data blocks u :
  decode_cloud data = Some (blocks, u) → some_u64 (cu_Input u) ∧ some_u64 (cu_Output u).
Proof.
  unfold decode_cloud. destruct (content_field _) as [bs ok1]. destruct (nested_field set_cloud_usage _ _ _) as [x ok2] eqn:E.
  destruct (ok1 && ok2); [|done]. intros [= <- <-].
  apply (nested_range (λ u, some_u64 (cu_Input u) ∧ some_u64 (cu_Output u))) in E; [done| |by split].
  intros [i o c r] j [H1 H2]. cbn in H1, H2. unfold set_cloud_usage. cbn [cu_Input cu_Output CacheCreation CacheRead].
  destruct (pointer_into as_uint64 "input_tokens" i j) as [i1 k1] eqn:Ei. destruct (pointer_into as_uint64 "output_tokens" o j) as [o1 k2] eqn:Eo.
  destruct (decode_field as_uint64 "cache_creation_input_tokens" c (Some j)), (decode_field as_uint64 "cache_read_input_tokens" r (Some j)).
  split; [exact (pointer_into_range _ _ _ _ _ H1 Ei)|exact (pointer_into_range _ _ _ _ _ H2 Eo)].
Qed.

(** ** Redirects *)

(** A client that follows no redirect. *)
Definition refuses (c : Client) : Prop := ∀ req via, checkRedirect c req via ≠ None.

(** What becomes of an answer when redirects are refused. *)
Definition unredirected (method : string) (a : Answer) : option Answer :=
  match redirectBehavior method (an_Status a) with
  | Some _ => if decide (an_Location a = "") then Some a else None
  | None => Some a
  end.

Lemma client_Do_refusing h c req :
  refuses c → client_Do h c req = ([req], perform h req ≫= unredirected (r_Method req)).
Proof.
  intros Hc. unfold client_Do. cbn [do_loop app]. destruct (perform h req) as [a|]; [|done]. cbn. unfold unredirected.
  destruct (redirectBehavior _ _) as [[method body]|]; [|done]. case_decide; [done|].
  destruct (locate h _ _) as [url|]; [|done]. cbn zeta.
  destruct (checkRedirect c _ [req]) eqn:E; [done|]. by apply Hc in E.
Qed.

(** ** Constructors *)

Record llama_ok (config : LlamaConfig) (p : LlamaProvider) (u : URL) : Prop := {
  lo_parsed : Parse (lc_Endpoint config) = Some u;
  lo_bare : bare_http u;
  lo_base : endpoint p = TrimRight "/" (lc_Endpoint config);
  lo_completion : lc_Endpoint (ll_config p) = endpoint p +:+ "/completion";
  lo_refuses : refuses (ll_client p);
  lo_max_tokens : lc_MaxTokens (ll_config p) = or_default (lc_MaxTokens config) 128;
  lo_max_bytes : lc_MaxResponseBytes (ll_config p) = or_default (lc_MaxResponseBytes config) 1048576;
  lo_tokens : (1 ≤ lc_MaxTokens (ll_config p) ≤ 32768)%Z;
  lo_bytes : (1 ≤ lc_MaxResponseBytes (ll_config p) ≤ 8388608)%Z;
  lo_cache : CachePrompt (ll_config p) = CachePrompt config;
}.

Lemma NewLlama_ok config p : NewLlamaProvider config = Ok p → ∃ u, llama_ok config p u.
Proof.
  unfold NewLlamaProvider. destruct (Parse (lc_Endpoint config)) as [u|] eqn:Ep; [|done].
  case_decide as Hb; [done|]. case_decide; [done|]. intros [= <-]. exists u. split; cbn; try done; lia.
Qed.

Lemma NewMetal_ok config p :
  NewMetalProvider config = Ok p → ∃ u, Parse (mc_Endpoint config) = Some u ∧ bare_http u ∧ isLoopbackHost (Hostname u) = true ∧
    refuses (ll_client p) ∧ lc_Endpoint (ll_config p) = TrimRight "/" (mc_Endpoint config) +:+ "/" +:+ "completion".
Proof.
  unfold NewMetalProvider. destruct (Parse (mc_Endpoint config)) as [u|]; [|done]. case_decide as Hb; [done|].
  destruct (isLoopbackHost (Hostname u)) eqn:El; cbn [negb]; [|done].
  intros (u' & Hok)%NewLlama_ok. exists u. split_and!; try done; [apply Hok|].
  rewrite (lo_completion _ _ _ Hok), (lo_base _ _ _ Hok). cbn. by rewrite TrimRight_idem.
Qed.

Lemma bare_scheme u : bare_http u → Scheme u ≠ "".
Proof. by intros (_ & [-> | ->] & _). Qed.

Lemma llama_requests h p prompt reqs r :
  refuses (ll_client p) → llama_Complete h p prompt = (reqs, r) → length reqs ≤ 1 ∧ Forall (λ req, r_URL req = lc_Endpoint (ll_config p)) reqs.
Proof.
  intros Hc. unfold llama_Complete, fail. case_decide; [intros [= <- _]; split; [cbn; lia|done]|].
  destruct (negb _); [intros [= <- _]; split; [cbn; lia|done]|].
  rewrite client_Do_refusing by done. intros [= <- _]. split; [done|]. by apply Forall_singleton.
Qed.

(** ** The theorems *)

(** A request goes to this origin, if it goes anywhere. *)
Definition goes_to (u : URL) (req : Request) : Prop :=
  ∀ u', Parse (r_URL req) = Some u' → Scheme u' = Scheme u ∧ Host u' = Host u ∧ User u' = User u.

Lemma account_llama_ok config r text usage :
  account_llama config r = Ok (text, usage) →
  Content r = Some text ∧ TokensEvaluated r = Some (InputTokens usage) ∧ TokensPredicted r = Some (OutputTokens usage) ∧
  (OutputTokens usage ≤ lc_MaxTokens config)%Z ∧ (CachedTokens usage ≤ InputTokens usage)%Z ∧
  CachedTokens usage = default 0%Z (CacheN r) ∧ (CachePrompt config = true → is_Some (CacheN r)) ∧
  (∀ n, PromptN r = Some n → n = u64 (InputTokens usage - CachedTokens usage)) ∧
  Truncated r = false ∧ (RawError r = "" ∨ RawError r = "null").
Proof.
  unfold account_llama. destruct (Content r), (TokensEvaluated r), (TokensPredicted r); try done.
  case_decide as He; [done|]. destruct (Truncated r); [done|]. case_decide as Hc; [done|].
  case_decide as Ha; [done|]. case_decide as Hn; [done|]. intros [= <- <-]. cbn.
  split_and!; try done; try lia.
  - intros Hp. destruct (CacheN r); [done|]. exfalso. by apply Hc.
  - intros n Hp. rewrite Hp in Hn. destruct (decide (Some n = Some (u64 (z - default 0%Z (CacheN r))))) as [[= ->]|]; [done|].
    exfalso. apply Hn. by split.
  - destruct (decide (RawError r = "")); [by left|]. right. apply dec_stable. tauto.
Qed.

(** What a completion is held to: one request, to the configured origin, an answer
    within the limit, and counts that add up. *)
Record llama_turn (h : Http) (config : LlamaConfig) (p : LlamaProvider) (u : URL) (prompt : string) (reqs : list Request) (text : string) (usage : Usage) :
    Prop := {
  lt_prompt : (len prompt ≤ maxTextBytes)%Z;
  lt_answer : ∃ req a r, reqs = [req] ∧ goes_to u req ∧ r_Body req = llama_body (ll_config p) prompt ∧
    perform h req = Some a ∧ an_Status a = 200%Z ∧ an_Broken a = false ∧
    (len (an_Body a) ≤ or_default (lc_MaxResponseBytes config) 1048576)%Z ∧ decode_llama (an_Body a) = Some r ∧
    Content r = Some text ∧ Truncated r = false ∧ (RawError r = "" ∨ RawError r = "null") ∧
    TokensEvaluated r = Some (InputTokens usage) ∧ TokensPredicted r = Some (OutputTokens usage) ∧
    (∀ n, PromptN r = Some n → (n + CachedTokens usage = InputTokens usage)%Z) ∧
    (CachePrompt config = true → CacheN r = Some (CachedTokens usage));
  lt_input : in_u64 (InputTokens usage);
  lt_output : (0 ≤ OutputTokens usage ≤ or_default (lc_MaxTokens config) 128)%Z;
  lt_limit : (or_default (lc_MaxTokens config) 128 ≤ 32768)%Z;
  lt_cached : (0 ≤ CachedTokens usage ≤ InputTokens usage)%Z;
}.

Lemma read_limited_whole n s : (0 ≤ n)%Z → ¬ (len (read_limited n s) > n)%Z → read_limited n s = s ∧ (len s ≤ n)%Z.
Proof.
  intros Hn. unfold read_limited, len. destruct (decide (Z.to_nat (n + 1) ≤ String.length s)) as [Hl|Hl].
  - rewrite substring_length by done. lia.
  - intros _. rewrite substring_all by lia. split; [done|lia].
Qed.

Lemma llama_Complete_ok config h p u prompt reqs text usage :
  llama_ok config p u → llama_Complete h p prompt = (reqs, Ok (text, usage)) → llama_turn h config p u prompt reqs text usage.
Proof.
  intros Hok. unfold llama_Complete. case_decide as Hlen; [done|]. destruct (negb _); [done|].
  rewrite client_Do_refusing by apply Hok. set (req := post _ _ _). intros [= <- H].
  destruct (perform h req) as [a|] eqn:Ea; [|done]. cbn [mbind option_bind] in H.
  destruct (unredirected _ a) as [a'|] eqn:Eu; [|done].
  assert (a' = a) as -> by (unfold unredirected in Eu; repeat case_match; congruence).
  case_decide as Hs; [done|]. destruct (an_Broken a) eqn:Hb; [done|]. case_decide as Hd; [done|].
  pose proof (lo_bytes _ _ _ Hok). apply read_limited_whole in Hd as [Hw Hle]; [|lia]. rewrite Hw in H.
  destruct (decode_llama (an_Body a)) as [r|] eqn:Er; [|done].
  apply account_llama_ok in H as (Hc & Hi & Ho & Hmax & Hcache & Hcn & Hcp & Hpn & Ht & He).
  destruct (decode_llama_range _ _ Er) as (Ri & Ro & Rc & _). pose proof (Ri _ Hi) as [? ?]. pose proof (Ro _ Ho) as [? ?].
  pose proof (lo_tokens _ _ _ Hok). rewrite (lo_max_tokens _ _ _ Hok) in *. rewrite (lo_max_bytes _ _ _ Hok) in Hle.
  rewrite (lo_cache _ _ _ Hok) in Hcp.
  assert (0 ≤ CachedTokens usage)%Z. { rewrite Hcn. destruct (CacheN r) as [c|]; [|done]. by destruct (Rc c eq_refl). }
  split; [lia| |done|lia|lia|lia]. exists req, a, r. split_and!; try done.
  - intros u' Hu'. subst req. cbn in Hu'. rewrite (lo_completion _ _ _ Hok), (lo_base _ _ _ Hok) in Hu'.
    eapply same_origin; [apply (lo_parsed _ _ _ Hok)|apply bare_scheme, (lo_bare _ _ _ Hok)|apply (lo_bare _ _ _ Hok)|exact Hu'].
  - intros n Hn. rewrite (Hpn n Hn), u64_small by lia. lia.
  - intros Hp. destruct (Hcp Hp) as [c Hc']. by rewrite Hc' in Hcn |- *; cbn in Hcn; rewrite Hcn.
Qed.

Lemma llama_no_usage h p prompt reqs r : llama_Complete h p prompt = (reqs, r) →
  ∀ text usage, r = Ok (text, usage) → usage_ok usage.
Proof.
  unfold llama_Complete. case_decide; [by intros [= _ <-]|]. destruct (negb _); [by intros [= _ <-]|].
  destruct (client_Do _ _ _) as [sent [a|]]; intros [= _ Hr] text usage ->; [|done].
  case_decide; [done|]. destruct (an_Broken a); [done|]. case_decide; [done|].
  destruct (decode_llama _) as [r'|] eqn:Er; [|done]. destruct (decode_llama_range _ _ Er) as (Ri & Ro & Rc & _).
  apply account_llama_ok in Hr as (_ & Hi & Ho & _ & _ & Hcn & _). split_and!; [by apply Ri|by apply Ro|].
  rewrite Hcn. destruct (CacheN r') as [c|]; [by apply Rc|done].
Qed.

Lemma account_cloud_ok p r text usage :
  account_cloud p r = Ok (text, usage) →
  text = block_text (fst r) ∧ text ≠ "" ∧ cu_Input (snd r) = Some (InputTokens usage) ∧
  cu_Output (snd r) = Some (OutputTokens usage) ∧ (OutputTokens usage ≤ ac_MaxTokens p)%Z ∧
  CachedTokens usage = u64 (CacheCreation (snd r) + CacheRead (snd r)).
Proof.
  unfold account_cloud. destruct (cu_Input (snd r)), (cu_Output (snd r)); try done. case_decide; [done|].
  case_decide; [done|]. intros [= <- <-]. cbn. by split_and!.
Qed.

Lemma cloud_usage h p prompt reqs r : anthropic_Complete h p prompt = (reqs, r) →
  ∀ text usage, r = Ok (text, usage) → usage_ok usage ∧ (OutputTokens usage ≤ ac_MaxTokens (an_config p))%Z ∧ text ≠ "".
Proof.
  unfold anthropic_Complete. case_decide; [by intros [= _ <-]|]. destruct (negb _); [by intros [= _ <-]|].
  destruct (client_Do _ _ _) as [sent [a|]]; intros [= _ Hr] text usage ->; [|done].
  destruct (an_Broken a); [done|]. case_decide; [done|]. case_decide; [done|].
  destruct (decode_cloud _) as [[blocks u]|] eqn:Er; [|done]. destruct (decode_cloud_range _ _ _ Er) as [Ri Ro].
  apply account_cloud_ok in Hr as (_ & Ht & Hi & Ho & Hmax & Hc). split; [|done].
  split_and!; [by apply Ri|by apply Ro|]. rewrite Hc. apply u64_range.
Qed.

Lemma NewAnthropic_ok getenv config p :
  NewAnthropicProvider getenv config = Ok p → (1 ≤ ac_MaxTokens (an_config p) ≤ 32768)%Z ∧ APIKey (an_config p) ≠ "" ∧
    refuses (an_client p) ∧ ac_Endpoint (an_config p) = or_text (ac_Endpoint config) "https://api.anthropic.com/v1/messages" ∧
    ∃ u, Parse (ac_Endpoint (an_config p)) = Some u ∧ cloud_endpoint u.
Proof.
  unfold NewAnthropicProvider. case_decide; [done|]. destruct (Parse _) as [u|] eqn:Ep; [|done].
  case_decide; [done|]. case_decide; [done|]. intros [= <-]. cbn. split_and!; try done; try lia. by exists u.
Qed.

(** Two networks that answer alike, one seeing another key. *)
Definition blind_to_key (h h' : Http) (p : AnthropicConfig) (key : string) : Prop :=
  (∀ url, new_request h' url = new_request h url) ∧ ctx_err h' = ctx_err h ∧
  ∀ body, perform h' (post (ac_Endpoint p) [("x-api-key", key); ("anthropic-version", "2023-06-01")] body) =
          perform h (post (ac_Endpoint p) [("x-api-key", APIKey p); ("anthropic-version", "2023-06-01")] body).

Lemma plain_ok name compat complete :
  (∀ prompt text usage, snd (complete prompt) = Ok (text, usage) → usage_ok usage) →
  provider_ok (plain_provider name compat complete).
Proof.
  intros H backends prompt. cbn. destruct (snd (complete prompt)) as [[text usage]|e] eqn:E; cbn; [|by repeat split].
  split; [by eapply H|done].
Qed.

Lemma valid_name_exact f :
  validateKVFilename f = None ↔ f ≠ "" ∧ (len f ≤ 512)%Z ∧ has_byte "/" f = false ∧ f ≠ "." ∧ f ≠ "..".
Proof.
  unfold validateKVFilename. split.
  - case_decide as Hd; [done|]. intros _. repeat apply Decidable.not_or in Hd as [? Hd].
    assert (IsAbs f = false) as Ha by (by destruct (IsAbs f)).
    split_and!; try done; try lia. apply Base_exact; try done. by apply dec_stable.
  - intros (Hne & Hl & Hs & Hd & Hdd). rewrite decide_False; [done|].
    assert (IsAbs f = false) as Ha.
    { unfold IsAbs. destruct (HasPrefix f "/") eqn:Hp; [|done]. apply HasPrefix_true in Hp as [r ->].
      by rewrite has_byte_app in Hs. }
    apply (Base_exact f Hne Ha) in Hs. intros [?|[?|[?|[?|[?|?]]]]]; congruence || lia.
Qed.

Lemma slotAction_named h p url slot name reqs snap :
  validateKVFilename name = None → slotAction h p url slot name = (reqs, Ok snap) →
  Slot snap = slot ∧ validateKVFilename (Filename snap) = None.
Proof.
  intros Hv. unfold slotAction. destruct (negb _); [done|].
  destruct (client_Do _ _ _) as [sent [a|]]; [|done]. intros [= _ H]. destruct (an_Broken a); [done|]. case_decide; [done|]. case_decide; [done|].
  destruct (slot_answer _) as [[n|]|]; [|by injection H as <-|done].
  destruct (validateKVFilename n) eqn:Hn; [done|]. by injection H as <-.
Qed.

Section theorems.
Context (h : Http).

(** C16: What a llama.cpp turn reports adds up.  When a completion succeeds, exactly one
    request was made, to the scheme and host of the configured endpoint, with the prompt
    in its body; the answer had status 200, was read whole within the size limit, and says
    neither that the input was truncated nor that there was an error; the text and the
    counts are the answer's; at most the configured number of tokens (128 if none is
    configured) was generated, and that number is at most 32768; and the cached part of the
    input is measured by the backend when caching is on, is within the input, and with the
    newly evaluated part, if the backend reports it, makes up the input exactly. *)
Theorem llama_accounting config p prompt reqs text usage :
  NewLlamaProvider config = Ok p → llama_Complete h p prompt = (reqs, Ok (text, usage)) →
  ∃ u, Parse (lc_Endpoint config) = Some u ∧ bare_http u ∧ llama_turn h config p u prompt reqs text usage.
Proof.
  intros (u & Hok)%NewLlama_ok H. exists u. split_and!; [apply Hok|apply Hok|]. by eapply llama_Complete_ok.
Qed.

(** C17: Prompts and credentials go where they may, whatever the servers answer.  A Metal
    provider makes at most one request, to a loopback host.  An Anthropic provider makes at
    most one request, to its configured endpoint, which is HTTPS or a loopback host.  The
    requests are all that the HTTP client makes, so a redirect to another host is answered
    with no request.  The result of the Anthropic provider, every error included, does not
    depend on the key: a network that answers alike for another key gives the same result. *)
Theorem credentials_confined getenv aconfig a mconfig m prompt :
  NewAnthropicProvider getenv aconfig = Ok a → NewMetalProvider mconfig = Ok m →
  (length (fst (anthropic_Complete h a prompt)) ≤ 1 ∧
   Forall (λ req, r_URL req = or_text (ac_Endpoint aconfig) "https://api.anthropic.com/v1/messages" ∧
     ∃ u, Parse (r_URL req) = Some u ∧ cloud_endpoint u) (fst (anthropic_Complete h a prompt))) ∧
  (∀ h' key, blind_to_key h h' (an_config a) key →
     snd (anthropic_Complete h' {| a with an_config := {| (an_config a) with APIKey := key |} |} prompt) =
     snd (anthropic_Complete h a prompt)) ∧
  length (fst (metal_Complete h (Some m) prompt)) ≤ 1 ∧
  Forall (λ req, ∀ u, Parse (r_URL req) = Some u → isLoopbackHost (Hostname u) = true ∧ (Scheme u = "http" ∨ Scheme u = "https"))
    (fst (metal_Complete h (Some m) prompt)).
Proof.
  intros (_ & _ & Hc & Hend' & u & Hu & Hcloud)%NewAnthropic_ok (v & Hv & Hbare & Hloop & Hm & Hend)%NewMetal_ok.
  split_and!; try (unfold anthropic_Complete; rewrite client_Do_refusing by done).
  - unfold fail. case_decide; [cbn; lia|]. destruct (negb _); cbn; lia.
  - unfold fail. case_decide; [done|]. destruct (negb _); [done|]. apply Forall_singleton. cbn. rewrite <-Hend'. eauto.
  - intros h' key (Hnew & Hctx & Hperf). rewrite client_Do_refusing by done. unfold or_ctx. cbn. rewrite Hnew, Hctx.
    case_decide; [done|]. destruct (negb _); [done|]. cbn. unfold anthropic_body. cbn. by rewrite Hperf.
  - destruct (llama_Complete h m prompt) as [reqs r] eqn:E. cbn [metal_Complete]. rewrite E. apply llama_requests in E as [Hone _]; [exact Hone|done].
  - destruct (llama_Complete h m prompt) as [reqs r] eqn:E. cbn [metal_Complete]. rewrite E. cbn.
    apply llama_requests in E as [_ Hreqs]; [|done]. eapply Forall_impl; [exact Hreqs|]. intros req Hreq u' Hu'. rewrite Hreq, Hend in Hu'.
    destruct (same_origin _ _ _ _ Hv (bare_scheme _ Hbare) (proj1 Hbare) Hu') as (Hs & Hh & _).
    unfold Hostname in *. rewrite Hh, Hs. split; [done|]. apply Hbare.
Qed.

(** A snapshot of a slot names a file of the server's own directory, and can be restored:
    the name has no slash and is not [.] or [..], and a restore gets as far as its request. *)
Theorem kv_snapshot_confined config p slot name reqs snap :
  NewLlamaProvider config = Ok p → SaveKV h p slot name = (reqs, Ok snap) →
  Slot snap = slot ∧ (0 ≤ slot ≤ 1023)%Z ∧ has_byte "/" (Filename snap) = false ∧ Filename snap ≠ "." ∧ Filename snap ≠ ".." ∧
  ∀ h', (∀ url, new_request h' url = true) → length (fst (RestoreKV h' p snap)) = 1.
Proof.
  intros [u Hok]%NewLlama_ok. unfold SaveKV. destruct (validateKVFilename name) eqn:Hv; [done|]. destruct (slotURL p slot "save") as [url|] eqn:Hu; [|done].
  intros [<- Hn]%slotAction_named; [|done]. unfold slotURL in Hu. case_decide as Hd; [done|].
  pose proof (proj1 (valid_name_exact _) Hn) as (_ & _ & Hs & ? & ?). split_and!; try done; [lia..|].
  intros h' Hnew. unfold RestoreKV, slotURL, slotAction. rewrite Hn, decide_False by (intros [?|[?|?]]; [lia|lia|done]).
  rewrite Hnew, client_Do_refusing by apply Hok. done.
Qed.

(** The providers report what the supervisor may count on in every state it reaches. *)
Lemma llama_usage_ok p prompt text usage : snd (llama_Complete h p prompt) = Ok (text, usage) → usage_ok usage.
Proof. intros H. destruct (llama_Complete h p prompt) as [reqs r] eqn:E. by eapply llama_no_usage. Qed.

Lemma anthropic_usage_ok p prompt text usage : snd (anthropic_Complete h p prompt) = Ok (text, usage) → usage_ok usage.
Proof. intros H. destruct (anthropic_Complete h p prompt) as [reqs r] eqn:E. by eapply cloud_usage. Qed.

Lemma llama_provider_ok p : provider_ok (llama_provider h p) ∧ provider_ok (metal_provider h p).
Proof. split; apply plain_ok, llama_usage_ok. Qed.

Lemma anthropic_provider_ok p : provider_ok (anthropic_provider h p).
Proof. apply plain_ok, anthropic_usage_ok. Qed.

Lemma echo_provider_ok ctx : provider_ok (echo_provider ctx).
Proof.
  apply plain_ok. intros prompt text usage H. destruct ctx; [done|]. injection H as <- <-. split_and!; try apply u64_range. done.
Qed.
End theorems.

(** ** Sample providers *)

Definition llama_config : LlamaConfig := mkLlamaConfig "http://127.0.0.1:8080/" 0 0 0 true.

Definition llama_sample : LlamaProvider :=
  mkLlamaProvider (mkLlamaConfig "http://127.0.0.1:8080/completion" 128 1048576 120000000000 true)
    (mkClient 120000000000 (Some (λ _ _, Some (New "llama redirects are disabled")))) "http://127.0.0.1:8080".

Definition cloud_sample : AnthropicProvider :=
  mkAnthropicProvider
    (mkAnthropicConfig "sk-1" "https://api.anthropic.com/v1/messages" "claude-3-5-sonnet-latest" 1024 2097152 120000000000)
    (mkClient 120000000000 (Some (λ _ _, Some (New "anthropic redirects are disabled")))).

(** A network where every request is answered with this body. *)
Definition answering (fields : list (string * string)) : Http :=
  mkHttp (λ _, true) (λ _, Some (mkAnswer 200 "" (obj_literal fields) false)) (λ _ loc, Some loc) None.

(** A network whose servers send every request on to another host. *)
Definition redirecting : Http :=
  mkHttp (λ _, true) (λ _, Some (mkAnswer 307 "https://elsewhere.example/" "" false)) (λ _ loc, Some loc) None.

Definition llama_net : Http :=
  answering [("content", json_quote "hi"); ("tokens_evaluated", "10"); ("tokens_predicted", "2");
             ("timings", obj_literal [("cache_n", "6"); ("prompt_n", "4")])].

Lemma llama_accounting_witness : ∃ u reqs, bare_http u ∧
  llama_turn llama_net llama_config llama_sample u "hello" reqs "hi" (mkUsage 10 2 6).
Proof.
  destruct (llama_accounting llama_net llama_config llama_sample "hello" (fst (llama_Complete llama_net llama_sample "hello"))
    "hi" (mkUsage 10 2 6)) as (u & _ & Hb & Ht).
  - vm_compute. reflexivity.
  - vm_compute. reflexivity.
  - exact (ex_intro _ u (ex_intro _ _ (conj Hb Ht))).
Defined.

Lemma credentials_confined_witness :
  snd (anthropic_Complete redirecting cloud_sample "hello") = Err (New "anthropic backend request failed") ∧
  length (fst (anthropic_Complete redirecting cloud_sample "hello")) ≤ 1 ∧
  snd (anthropic_Complete redirecting {| cloud_sample with an_config := {| (an_config cloud_sample) with APIKey := "sk-2" |} |} "hello") =
    snd (anthropic_Complete redirecting cloud_sample "hello") ∧
  Forall (λ req, ∀ u, Parse (r_URL req) = Some u → isLoopbackHost (Hostname u) = true ∧ (Scheme u = "http" ∨ Scheme u = "https"))
    (fst (metal_Complete redirecting (Some llama_sample) "hello")).
Proof.
  destruct (credentials_confined redirecting "sk-1" (mkAnthropicConfig "" "" "" 0 0 0) cloud_sample
    (mkMetalConfig "http://127.0.0.1:8080/" 0 0) llama_sample "hello") as ((Hone & _) & Hkey & _ & Hlocal).
  - vm_compute. reflexivity.
  - vm_compute. reflexivity.
  - split_and!; [vm_compute; reflexivity|exact Hone| |exact Hlocal]. apply Hkey. split_and!; done.
Defined.

(** A client with the default policy sends the key on to the host it is redirected to. *)
Example default_policy_sends_key :
  ∃ req, fst (anthropic_Complete redirecting {| cloud_sample with an_client := mkClient 0 None |} "hello") !! 1 = Some req ∧
    r_URL req = "https://elsewhere.example/" ∧ ("x-api-key", "sk-1") ∈ r_Header req.
Proof. eexists. split; [by vm_compute|]. split; [done|]. cbn. right. left. Qed.

(** ** Where the code does less than it says *)

(** An endpoint that ends in an empty query passes the check for one, and the path of the
    completion becomes its query. *)
Example empty_query_admitted :
  match NewLlamaProvider {| llama_config with lc_Endpoint := "http://127.0.0.1:8080?" |} with
  | Ok p => (λ u, (Path u, RawQuery u)) <$> Parse (lc_Endpoint (ll_config p)) = Some ("", "/completion")
  | Err _ => False
  end.
Proof. vm_compute. reflexivity. Qed.

(** An error that the server reports in its answer to a save is decoded and not looked at. *)
Example kv_error_ignored :
  snd (SaveKV (answering [("error", json_quote "slot is busy")]) llama_sample 0 "s.bin") = Ok (mkKVSnapshot 0 "s.bin").
Proof. vm_compute. reflexivity. Qed.

(** The two cache counts are added without a check, and wrap around. *)
Example cache_counts_wrap :
  snd (anthropic_Complete (answering [("content", arr_literal [obj_literal [("type", json_quote "text"); ("text", json_quote "hi")]]);
    ("usage", obj_literal [("input_tokens", "1"); ("output_tokens", "1"); ("cache_creation_input_tokens", "18446744073709551615");
                           ("cache_read_input_tokens", "2")])]) cloud_sample "hello") = Ok ("hi", mkUsage 1 1 1).
Proof. vm_compute. reflexivity. Qed.
