(* ===== verification/Resource.v ===== *)
(** * resource_controller.go, resource_monitor.go: a cgroup of its own

    The controller writes limits into the files of a cgroup and reads its counters.  The
    kernel's files are an argument; a call returns the writes it made along with its
    result. *)

From Stdlib Require Import Ascii.
From stdpp Require Import base tactics option list strings numbers pretty.
From S2P Require Import Prelude GoLib Json State Url Net Web UrlProofs.

Record ResourceLimits := mkResourceLimits { CPUs : Z; MemoryBytes : Z; PeriodUS : Z }.

Record ResourceSnapshot := mkResourceSnapshot { CPUUsageUS : Z; RSSBytes : Z }.

(** The file system: what happens to a new directory, a write, a read and a removal. *)
Record Files := mkFiles {
  mkdir : string → option error;
  write_file : string → string → option error;
  read_file : string → result error string;
  remove : string → option error;
}.

(** A controller is its path; [None] is the nil pointer. *)
Abbreviation CgroupController := (option string).

(** The writes of a call, and its error. *)
Definition writes : Type := list (string * string) * option error.

Definition refuse (text : string) : writes := ([], Some (New text)).

(** [filepath.Join] of a directory and a name. *)
Definition Join (dir name : string) : string := if decide (dir = "") then Clean name else Clean (dir +:+ "/" +:+ name).

Definition line (s : string) : string := s +:+ String "010" "".

(** ** Limits *)

Definition NewCgroupController (fs : Files) (root name : string) : result error CgroupController :=
  if decide (root = "" ∨ name = "" ∨ Base name ≠ name ∨ contains_byte (one_of "/\") name = true)
  then Err (New "invalid cgroup root or name")
  else match mkdir fs (Join root name) with
       | Some e => Err e
       | None => Ok (Some (Join root name))
       end.

(** [cpu.max]: the quota for a period, none when there is no limit; [None] on overflow. *)
Definition cpu_max (cpus period : Z) : option string :=
  if decide (cpus > 0)%Z then
    let quota := u64 (cpus * period) in
    if decide (quota `div` period ≠ cpus)%Z then None else Some (pretty quota +:+ " " +:+ pretty period)
  else Some ("max " +:+ pretty period).

Definition memory_max (bytes : Z) : string := if decide (bytes > 0)%Z then pretty bytes else "max".

Definition Configure (fs : Files) (c : CgroupController) (limits : ResourceLimits) : writes :=
  match c with
  | None | Some "" => refuse "resource controller is nil"
  | Some path =>
      let period := if decide (PeriodUS limits = 0)%Z then 100000%Z else PeriodUS limits in
      if decide (period < 1000 ∨ period > 1000000)%Z then refuse "cgroup cpu period is out of range"
      else match cpu_max (CPUs limits) period with
           | None => refuse "cgroup cpu quota overflow"
           | Some cpu =>
               let w1 := (Join path "cpu.max", line cpu) in
               let w2 := (Join path "memory.max", line (memory_max (MemoryBytes limits))) in
               match write_file fs (fst w1) (snd w1) with
               | Some e => ([w1], Some e)
               | None => ([w1; w2], write_file fs (fst w2) (snd w2))
               end
           end
  end.

Definition AttachPID (fs : Files) (c : CgroupController) (pid : Z) : writes :=
  match c with
  | None => refuse "invalid cgroup pid"
  | Some path =>
      if decide (pid ≤ 0)%Z then refuse "invalid cgroup pid"
      else let w := (Join path "cgroup.procs", line (pretty pid)) in ([w], write_file fs (fst w) (snd w))
  end.

(** [ctx] is [ctx.Err ()]. *)
Definition Reclaim (fs : Files) (ctx : option error) (c : CgroupController) (bytes : Z) : writes :=
  match c with
  | None => ([], None)
  | Some path =>
      if decide (bytes = 0)%Z then ([], None)
      else match ctx with
           | Some e => ([], Some e)
           | None => let w := (Join path "memory.reclaim", line (pretty bytes)) in ([w], write_file fs (fst w) (snd w))
           end
  end.

(** The controller afterwards, and the error. *)
Definition Close (fs : Files) (c : CgroupController) : CgroupController * option error :=
  match c with
  | None | Some "" => (c, None)
  | Some path => (Some "", remove fs path)
  end.

(** ** Counters *)

(** [strings.TrimSpace]: white space is left out at both ends.  [pending] is white space
    that counts when more text follows. *)
Fixpoint trim_from (skip : nat) (pending s : string) : string :=
  match s with
  | EmptyString => ""
  | String c r =>
      match skip with
      | S skip => trim_from skip (pending +:+ String c "") r
      | 0 =>
          match space_len s with
          | 0 => pending +:+ String c (trim_from 0 "" r)
          | S skip => trim_from skip (pending +:+ String c "") r
          end
      end
  end.

Fixpoint trim_left (skip : nat) (s : string) : string :=
  match s with
  | EmptyString => ""
  | String c r =>
      match skip with
      | S skip => trim_left skip r
      | 0 => match space_len s with 0 => s | S skip => trim_left skip r end
      end
  end.

Definition TrimSpace (s : string) : string := trim_from 0 "" (trim_left 0 s).

(** The first line [usage_usec n]; 0 when there is none. *)
Fixpoint cpu_usage (lines : list string) : option Z :=
  match lines with
  | [] => Some 0%Z
  | l :: lines =>
      match fields_from 0 "" l with
      | [name; value] => if decide (name = "usage_usec") then ParseUint value else cpu_usage lines
      | _ => cpu_usage lines
      end
  end.

Definition Snapshot (fs : Files) (c : CgroupController) : result error ResourceSnapshot :=
  match c with
  | None | Some "" => Err (New "resource controller is nil")
  | Some path =>
      match read_file fs (Join path "memory.current") with
      | Err e => Err e
      | Ok data =>
          match ParseUint (TrimSpace data) with
          | None => Err (New "invalid cgroup memory.current")
          | Some rss =>
              match read_file fs (Join path "cpu.stat") with
              | Err e => Err e
              | Ok data =>
                  match cpu_usage (split_on "010" data) with
                  | None => Err (New "invalid cgroup cpu.stat")
                  | Some cpu => Ok (mkResourceSnapshot cpu rss)
                  end
              end
          end
      end
  end.

(** ** The monitor *)

(** One sample: the snapshot handed to the observer, the writes, the error. *)
Definition sample (fs : Files) (ctx : option error) (c : CgroupController) (limits : ResourceLimits) :
    list ResourceSnapshot * writes :=
  match Snapshot fs c with
  | Err e => ([], ([], Some e))
  | Ok current =>
      ([current],
       if decide (MemoryBytes limits > 0 ∧ RSSBytes current > MemoryBytes limits)%Z
       then Reclaim fs ctx c (u64 (RSSBytes current - MemoryBytes limits))
       else ([], None))
  end.

(** What the loop meets: a tick, with the files and the context at that time, or the end
    of the context. *)
Inductive tick_event : Type :=
  | Ticked (fs : Files) (ctx : option error)
  | Done (e : error).

(** The samples after the first; [None] while the loop goes on. *)
Fixpoint monitor_loop (c : CgroupController) (limits : ResourceLimits) (events : list tick_event) :
    list ResourceSnapshot * writes :=
  match events with
  | [] => ([], ([], None))
  | Done e :: _ => ([], ([], Some e))
  | Ticked fs ctx :: events =>
      let '(seen, (ws, err)) := sample fs ctx c limits in
      match err with
      | Some e => (seen, (ws, Some e))
      | None => let '(seen', (ws', err')) := monitor_loop c limits events in (seen ++ seen', (ws ++ ws', err'))
      end
  end.

Definition Monitor (fs : Files) (ctx : option error) (c : CgroupController) (limits : ResourceLimits)
    (events : list tick_event) : list ResourceSnapshot * writes :=
  match c with
  | None | Some "" => ([], refuse "resource controller is nil")
  | Some _ => monitor_loop c limits (Ticked fs ctx :: events)
  end.

(** ** Theorems *)

Lemma quota_exact cpus period :
  (0 < cpus)%Z → (0 < period)%Z → (u64 (cpus * period) `div` period = cpus ↔ cpus * period ≤ MaxUint64)%Z.
Proof.
  intros Hc Hp. split.
  - intros E. assert (0 ≤ u64 (cpus * period) ≤ MaxUint64)%Z as [H0 H1] by apply u64_range.
    assert (cpus * period ≤ u64 (cpus * period))%Z; [|lia].
    rewrite <-E at 1. rewrite Z.mul_comm. by apply Z.mul_div_le.
  - intros H. rewrite u64_small by nia. by apply Z.div_mul; lia.
Qed.

(** What a controller writes for these limits. *)
Definition limit_files (path : string) (limits : ResourceLimits) (period : Z) : list (string * string) :=
  [(Join path "cpu.max", line (if decide (CPUs limits > 0)%Z then pretty (CPUs limits * period)%Z +:+ " " +:+ pretty period
                               else "max " +:+ pretty period));
   (Join path "memory.max", line (memory_max (MemoryBytes limits)))].

(** Limits are set exactly or refused: a quota that does not fit 64 bits is an error with
    nothing written, and no other product is changed by the check. *)
Theorem configure_exact fs path limits ws err :
  in_u64 (CPUs limits) → in_u64 (PeriodUS limits) → path ≠ "" →
  Configure fs (Some path) limits = (ws, err) →
  let period := if decide (PeriodUS limits = 0)%Z then 100000%Z else PeriodUS limits in
  (ws `prefix_of` limit_files path limits period) ∧
  (err = None → ws = limit_files path limits period) ∧
  (ws = [] ↔ (period < 1000 ∨ period > 1000000 ∨ CPUs limits * period > MaxUint64)%Z).
Proof.
  intros [Hc0 Hc1] [Hp0 Hp1] Hne H period.
  unfold Configure in H. destruct path as [|ch path]; [done|]. set (p := String ch path) in *.
  change (if decide (PeriodUS limits = 0)%Z then 100000%Z else PeriodUS limits) with period in H.
  case_decide as Hper.
  { injection H as <- <-. split_and!; [apply prefix_nil|done|]. split; [|done]. intros _. lia. }
  assert (cpu_max (CPUs limits) period = None ∧ (CPUs limits * period > MaxUint64)%Z ∨
    (CPUs limits * period ≤ MaxUint64)%Z ∧ cpu_max (CPUs limits) period =
      Some (if decide (CPUs limits > 0)%Z then pretty (CPUs limits * period)%Z +:+ " " +:+ pretty period else "max " +:+ pretty period))
    as [[Hq Hover]|[Hfit Hq]].
  { unfold cpu_max. case_decide; [|right; split; [unfold MaxUint64; nia|done]]. case_decide as Hd.
    - left. split; [done|]. rewrite quota_exact in Hd by lia. lia.
    - right. apply quota_exact in Hd; [|lia..]. split; [done|]. by rewrite u64_small by nia. }
  - rewrite Hq in H. injection H as <- <-. split_and!; [apply prefix_nil|done|]. split; [lia|done].
  - rewrite Hq in H. destruct (write_file fs _ _); injection H as <- <-; split_and!; try done; try (split; [done|lia]).
    by apply (prefix_cons _ []), prefix_nil.
Qed.

Lemma Snapshot_range fs c s : Snapshot fs c = Ok s → in_u64 (RSSBytes s).
Proof.
  unfold Snapshot. destruct c as [[|ch path]|]; try done. destruct (read_file fs _); [|done].
  destruct (ParseUint _) as [rss|] eqn:E; [|done]. destruct (read_file fs _); [|done]. destruct (cpu_usage _); [|done].
  intros [= <-]. by eapply ParseUint_range.
Qed.

(** What is asked for a sample: its memory over the limit, if any. *)
Definition excess (path : string) (limits : ResourceLimits) (s : ResourceSnapshot) : option (string * string) :=
  if decide (MemoryBytes limits > 0 ∧ RSSBytes s > MemoryBytes limits)%Z
  then Some (Join path "memory.reclaim", line (pretty (RSSBytes s - MemoryBytes limits)%Z)) else None.

Lemma sample_exact fs ctx path limits seen ws err :
  (0 ≤ MemoryBytes limits)%Z → sample fs ctx (Some path) limits = (seen, (ws, err)) →
  ws `prefix_of` omap (excess path limits) seen ∧ (err = None → ws = omap (excess path limits) seen).
Proof.
  intros Hm. unfold sample. destruct (Snapshot fs (Some path)) as [s|e] eqn:E; [|by intros [= <- <- <-]].
  apply Snapshot_range in E as [Hr0 Hr1]. case_decide as Hd.
  - unfold Reclaim. rewrite u64_small by lia. rewrite decide_False by lia.
    destruct ctx; intros [= <- <- <-]; cbn; unfold excess; rewrite decide_True by done; (split; [|done]); [apply prefix_nil|done].
  - intros [= <- <- <-]. cbn. unfold excess. by rewrite decide_False.
Qed.

(** The monitor asks the kernel for exactly the memory over the limit, once for every
    sample that has some and for no other, until a sample or the context ends it. *)
Theorem monitor_exact fs ctx path limits events seen ws err :
  (0 ≤ MemoryBytes limits)%Z → path ≠ "" → Monitor fs ctx (Some path) limits events = (seen, (ws, err)) →
  ws `prefix_of` omap (excess path limits) seen ∧ (err = None → ws = omap (excess path limits) seen).
Proof.
  intros Hm Hne. unfold Monitor. destruct path as [|ch path]; [done|]. set (p := String ch path) in *.
  generalize (Ticked fs ctx :: events) as evs. intros evs. revert seen ws err.
  induction evs as [|[fs' ctx'|e] evs IH]; intros seen ws err; cbn [monitor_loop]; [by intros [= <- <- <-]| |by intros [= <- <- <-]].
  destruct (sample fs' ctx' (Some p) limits) as [seen1 [ws1 err1]] eqn:Es. apply sample_exact in Es as [Hp He]; [|done].
  destruct err1 as [e|]; [by intros [= <- <- <-]|]. rewrite (He eq_refl) in *.
  destruct (monitor_loop (Some p) limits evs) as [seen2 [ws2 err2]] eqn:El. intros [= <- <- <-].
  destruct (IH _ _ _ eq_refl) as [Hp2 He2]. rewrite omap_app. split; [by apply prefix_app|]. intros Hn. by rewrite (He2 Hn).
Qed.

(** Only a nil controller is refused: once it is closed, its path is empty and the file
    names are relative to the working directory. *)
Example attach_after_close fs :
  fst (AttachPID fs (fst (Close fs (Some "/sys/fs/cgroup/aok"))) 42) = [("cgroup.procs", line "42")].
Proof. reflexivity. Qed.
