(* ===== verification/Launch.v ===== *)
(** * cmd/aok-init, cmd/aok-supervisor: what the programs start with

    How the kernel command line reaches the supervisor, which provider the manifest's
    engine stands for, and what the boot probe accepts. *)

From Stdlib Require Import Ascii.
From stdpp Require Import base tactics option list sets gmap strings numbers pretty.
From S2P Require Import Prelude GoLib Json Crypto Policy State Taint Mailbox Runner Invariant RunnerProofs Url Net UrlProofs Web.
From S2P Require Import System SystemProperties Router Providers ProviderProperties.

(** ** The kernel command line *)

(** Whether the tokens ask for kernel inference, and for the boot probe. *)
Fixpoint scan_tokens (kernelInfer bootProbe : bool) (tokens : list string) : bool * bool :=
  match tokens with
  | [] => (kernelInfer, bootProbe)
  | t :: tokens =>
      if decide (t = "aok_kernel_infer=1") then scan_tokens true bootProbe tokens
      else if decide (t = "aok_boot_probe=turn") then scan_tokens kernelInfer true tokens
      else scan_tokens kernelInfer bootProbe tokens
  end.

Definition bootOverrides (cmdline : result error string) : bool * bool :=
  match cmdline with
  | Ok data => scan_tokens false false (fields_from 0 "" data)
  | Err _ => (false, false)
  end.

(** The arguments and the environment of the supervisor. *)
Definition supervisor_command (args : list string) (cmdline : result error string) : list string * list string :=
  let args := if decide (args = []) then ["--state"; "/var/lib/aok"; "--manifest"; "/etc/aok/manifest.yaml"] else args in
  let '(kernelInfer, bootProbe) := bootOverrides cmdline in
  (if kernelInfer then args ++ ["-kernel-infer"] else args, if bootProbe then ["AOK_BOOT_PROBE=turn"] else []).

(** ** The provider *)

Record EngineFlags := mkEngineFlags {
  llamaEndpoint : string;
  metalEndpoint : string;
  anthropicEndpoint : string;
  anthropicModel : string;
  maxTokens : Z;
  routerEngines : list string;
}.

Section launch.
(** The network, the environment's key, and what the router needs. *)
Context (h : Http) (getenv : string) (error_text : error → string) (ctx : nat → option error).

Definition start_llama (f : EngineFlags) : result error LlamaProvider :=
  NewLlamaProvider (mkLlamaConfig (llamaEndpoint f) (maxTokens f) 0 0 true).
Definition start_metal (f : EngineFlags) : result error LlamaProvider :=
  NewMetalProvider (mkMetalConfig (metalEndpoint f) (maxTokens f) 0).
Definition start_anthropic (f : EngineFlags) : result error AnthropicProvider :=
  NewAnthropicProvider getenv (mkAnthropicConfig "" (anthropicEndpoint f) (anthropicModel f) (maxTokens f) 0 0).

Definition backend (name compat : string) (complete : string → call (string * Usage)) : Backend :=
  mkBackend name (Some compat) (λ prompt, snd (complete prompt)).

(** One provider of the router. *)
Definition router_backend (f : EngineFlags) (name : string) : result error Backend :=
  if decide (name = "llama") then
    if decide (llamaEndpoint f = "") then Err (New "router llama provider requires --llama-endpoint")
    else match start_llama f with
         | Err e => Err e
         | Ok p => Ok (backend "llama.cpp" (llama_CompatKey p) (llama_Complete h p))
         end
  else if decide (name = "anthropic") then
    match start_anthropic f with
    | Err e => Err e
    | Ok p => Ok (backend "anthropic" (anthropic_CompatKey p) (anthropic_Complete h p))
    end
  else if decide (name = "metal") then
    match start_metal f with
    | Err e => Err e
    | Ok p => Ok (backend "metal" (llama_CompatKey p) (metal_Complete h (Some p)))
    end
  else Err (New ("unsupported router provider " +:+ json_quote name)).

Fixpoint router_backends (f : EngineFlags) (order : list string) : result error (list Backend) :=
  match order with
  | [] => Ok []
  | name :: order =>
      match router_backend f name with
      | Err e => Err e
      | Ok b => match router_backends f order with Err e => Err e | Ok bs => Ok (b :: bs) end
      end
  end.

Definition newRouter (f : EngineFlags) : result error (list Backend) :=
  let order := if decide (routerEngines f = []) then ["llama"; "anthropic"] else routerEngines f in
  match router_backends f order with
  | Err e => Err e
  | Ok bs => NewRouterProvider (Some <$> bs)
  end.

(** The provider of the manifest's engine, when no engine command is given. *)
Definition engine_provider (engine : string) (f : EngineFlags) : result error ProviderInfo :=
  if decide (engine = "echo") then Ok (echo_provider (ctx 0))
  else if decide (engine = "llama") then
    match start_llama f with Ok p => Ok (llama_provider h p) | Err e => Err e end
  else if decide (engine = "metal") then
    match start_metal f with Ok p => Ok (metal_provider h p) | Err e => Err e end
  else if decide (engine = "anthropic") then
    match start_anthropic f with Ok p => Ok (anthropic_provider h p) | Err e => Err e end
  else if decide (engine = "router") then
    match newRouter f with Ok bs => Ok (router_provider error_text ctx bs) | Err e => Err e end
  else Err (New ("unsupported engine " +:+ json_quote engine)).
End launch.

(** ** The boot probe *)

Definition probe_prompt : string := "AOK boot probe turn".

(** What the probe makes of the turn's result and the audit log. *)
Definition probe_verdict (provider : string) (r : TurnResult) (audit : list AuditRecord) : bool :=
  if decide (Turn.Status r ≠ completed ∨ Turn.Text r = "" ∨ InputTokens (Turn.TurnUsage r) = 0%Z ∨ Turn.Checkpoint r = "")
  then false
  else if decide (is_Some (find_sub "echo" provider) ∧
                  (Turn.Text r ≠ probe_prompt ∨ InputTokens (Turn.TurnUsage r) ≠ len probe_prompt
                   ∨ HasPrefix (Turn.Provider r) provider = false)) then false
  else if decide (Turn.Provider r = "") then false
  else forallb (λ a, bool_decide (Aud.Decision a ≠ "deny")) audit.

(** ** Theorems *)

Lemma scan_tokens_exact tokens : ∀ k b,
  scan_tokens k b tokens = (k || bool_decide ("aok_kernel_infer=1" ∈ tokens), b || bool_decide ("aok_boot_probe=turn" ∈ tokens)).
Proof.
  induction tokens as [|t tokens IH]; intros k b; cbn [scan_tokens].
  { rewrite !bool_decide_false by set_solver. by rewrite !orb_false_r. }
  repeat case_decide; subst; rewrite IH; f_equal.
  all: repeat case_bool_decide; rewrite ?orb_true_r, ?orb_true_l; try done; exfalso; set_solver.
Qed.

(** Only two tokens of the command line matter: with the same two present or absent, the
    supervisor is started alike. *)
Theorem command_line_exact args data :
  supervisor_command args (Ok data) =
    (let base := if decide (args = []) then ["--state"; "/var/lib/aok"; "--manifest"; "/etc/aok/manifest.yaml"] else args in
     if decide ("aok_kernel_infer=1" ∈ fields_from 0 "" data) then base ++ ["-kernel-infer"] else base,
     if decide ("aok_boot_probe=turn" ∈ fields_from 0 "" data) then ["AOK_BOOT_PROBE=turn"] else []).
Proof.
  unfold supervisor_command, bootOverrides. rewrite scan_tokens_exact. cbn [orb]. by repeat case_bool_decide; repeat case_decide.
Qed.

Section theorems.
Context (h : Http) (getenv : string) (error_text : error → string) (ctx : nat → option error).

Definition backend_ok (b : Backend) : Prop := ∀ prompt text usage, b_complete b prompt = Ok (text, usage) → usage_ok usage.

Lemma router_backend_ok f name b : router_backend h getenv f name = Ok b → backend_ok b ∧ b_name b ∈ ["llama.cpp"; "anthropic"; "metal"].
Proof.
  unfold router_backend. repeat case_decide; try done.
  - destruct (start_llama f) as [p|]; [|done]. intros [= <-]. split; [intros prompt; apply llama_usage_ok|cbn; set_solver].
  - destruct (start_anthropic getenv f) as [p|]; [|done]. intros [= <-].
    split; [intros prompt; apply anthropic_usage_ok|cbn; set_solver].
  - destruct (start_metal f) as [p|]; [|done]. intros [= <-]. split; [intros prompt; apply llama_usage_ok|cbn; set_solver].
Qed.

Lemma router_backends_ok f order bs :
  router_backends h getenv f order = Ok bs → Forall (λ b, backend_ok b ∧ b_name b ∈ ["llama.cpp"; "anthropic"; "metal"]) bs.
Proof.
  revert bs. induction order as [|name order IH]; intros bs; cbn; [by intros [= <-]|].
  destruct (router_backend h getenv f name) as [b|] eqn:Eb; [|done]. destruct (router_backends h getenv f order) as [bs'|]; [|done].
  intros [= <-]. apply Forall_cons. split; [by eapply router_backend_ok|by apply IH].
Qed.

Lemma check_names_same seen bs bs' : check_names seen (Some <$> bs) = Ok bs' → bs' = bs ∧ NoDup (b_name <$> bs) ∧ Forall (λ b, b_name b ∉ seen) bs.
Proof.
  revert seen bs'. induction bs as [|b bs IH]; intros seen bs'; cbn; [intros [= <-]; split_and!; [done|apply NoDup_nil_2|done]|].
  case_decide; [done|]. case_decide as Hs; [done|]. destruct (check_names (b_name b :: seen) (Some <$> bs)) as [bs2|] eqn:E; [|done].
  intros [= <-]. destruct (IH _ _ E) as (-> & Hnd & Hall). split_and!; [done| |].
  - apply NoDup_cons. split; [|done]. intros (b' & Hb & Hin)%list_elem_of_fmap. rewrite Forall_forall in Hall.
    apply (Hall b' Hin). rewrite <-Hb. by left.
  - apply Forall_cons. split; [done|]. eapply Forall_impl; [exact Hall|]. cbn. set_solver.
Qed.

(** The router that is started has each backend once, and each of them counts within range. *)
Lemma newRouter_ok f bs :
  newRouter h getenv f = Ok bs → bs ≠ [] ∧ NoDup (b_name <$> bs) ∧ Forall (λ b, backend_ok b ∧ b_name b ∈ ["llama.cpp"; "anthropic"; "metal"]) bs.
Proof.
  unfold newRouter. destruct (router_backends h getenv f _) as [bs'|] eqn:E; [|done]. apply router_backends_ok in E.
  unfold NewRouterProvider. case_decide as Hn; [done|]. intros (-> & Hnd & _)%check_names_same.
  split_and!; [by intros ->|done|done].
Qed.

Lemma try_candidates_usage asked failures bs prompt :
  Forall backend_ok bs → usage_ok (o_usage (try_candidates error_text ctx asked failures bs prompt)) ∧
    in_u64 (o_taint (try_candidates error_text ctx asked failures bs prompt)).
Proof.
  revert asked failures. induction bs as [|b bs IH]; intros asked failures Hbs; cbn; [by repeat split|].
  apply Forall_cons in Hbs as [Hb Hbs]. destruct (ctx asked); [by repeat split|].
  destruct (b_complete b prompt) as [[text usage]|e] eqn:E; [split; [by eapply Hb|done]|].
  destruct (ctx (S asked)); [by repeat split|]. by apply IH.
Qed.

(** Whatever engine the manifest names, the provider it starts satisfies what the
    supervisor's invariants ask of one. *)
Theorem started_provider_ok engine f p : engine_provider h getenv error_text ctx engine f = Ok p → provider_ok p.
Proof.
  unfold engine_provider. repeat case_decide; try done.
  - intros [= <-]. apply echo_provider_ok.
  - destruct (start_llama f); [|done]. intros [= <-]. apply llama_provider_ok.
  - destruct (start_metal f); [|done]. intros [= <-]. apply llama_provider_ok.
  - destruct (start_anthropic getenv f); [|done]. intros [= <-]. apply anthropic_provider_ok.
  - destruct (newRouter h getenv f) as [bs|] eqn:E; [|done]. intros [= <-] backends prompt.
    apply newRouter_ok in E as (_ & _ & Hbs). apply try_candidates_usage. apply Forall_forall. intros b Hb.
    apply (proj1 (candidates_spec _ _)) in Hb.
    rewrite Forall_forall in Hbs. by apply Hbs.
Qed.
End theorems.

(** ** The probe on the echo engine *)

(** The probe's calls, and the turn in between. *)
Definition probed : Supervisor :=
  let s := Sample.run [OCreate "root" "boot-probe" "on_event";
                       OEnqueue "root" Sample.app "boot-probe" (obj_literal [("text", json_quote probe_prompt)]);
                       OClaimTurn [Sample.app]] in
  match messages_of (state s) Sample.app with
  | m :: _ => snd (exec Sample.env Sample.kenv (OExecute (echo_provider None) false Sample.app m) s)
  | [] => s
  end.

(** On the echo engine the probe's turn passes. *)
Example echo_probe_passes :
  match map_to_list (Results (state probed)) with
  | [(_, r)] => probe_verdict "echo" r (Audit (state probed)) = true
  | _ => False
  end.
Proof. vm_compute. reflexivity. Qed.
