(* ===== verification/AppQueue.v ===== *)
(** * kernel/patches/0005, 0009, 0010: event sources and the application registry

    An event source fires into its own queue, or into the durable queue of the
    application it is attached to.  A queue has a fixed number of nodes; a timer that
    fires while all are in use is counted, and the count becomes one event when an
    acknowledgement frees a node.  Each operation holds the queue's lock, so that it is a
    step.  Reference counts, wait queues and wake targets are left out. *)

From stdpp Require Import base tactics option list sets strings numbers pretty.
From S2P Require Import Prelude Ainf.

Local Open Scope Z_scope.

(** ** Queues *)

Definition AOK_APP_QUEUE_DEPTH : nat := 128.
Definition AOK_EVENT_SOURCE_DEPTH : nat := 64.
Definition AOK_EVENT_KIND_TIMER : Z := 1.
Definition AOK_EVENT_KIND_PORT : Z := 2.
Definition AOK_EVENT_KIND_LSFS : Z := 3.

Definition AOK_RIGHT_INSPECT : Z := 1.
Definition AOK_RIGHT_READ : Z := 256.
Definition AOK_RIGHT_WRITE : Z := 512.

Definition u32 (z : Z) : Z := z `mod` 4294967296.

Record app_node := mkNode {
  in_use : bool;
  n_id : Z;
  n_seq : Z;
  n_koid : Z;
  n_kind : Z;
  n_coalesced : Z;
  n_data : Z;
}.

Definition free_node : app_node := mkNode false 0 0 0 0 0 0.

(** [pending] lists the nodes in use, by their index, in the order of the linked list. *)
Record queue := mkQueue {
  q_seq : Z;
  q_id : Z;
  live : Z;
  coalesced : Z;
  pending : list nat;
  nodes : list app_node;
}.

Definition empty_queue (depth : nat) : queue := mkQueue 0 0 0 0 [] (replicate depth free_node).

(** The loop for an unused node. *)
Fixpoint first_free (i : nat) (ns : list app_node) : option nat :=
  match ns with
  | [] => None
  | n :: ns => if in_use n then first_free (S i) ns else Some i
  end.

(** A node is taken, numbered and put at the end; without one the kernel warns. *)
Definition take_node (kind data koid count : Z) (q : queue) : queue :=
  match first_free 0 (nodes q) with
  | None => q
  | Some i =>
      let id := u64 (q_id q + 1) in
      let seq := u64 (q_seq q + 1) in
      mkQueue seq id (live q + 1) (coalesced q) (pending q ++ [i])
        (<[i := mkNode true id seq koid kind (u32 count) data]> (nodes q))
  end.

Definition fire (depth : nat) (kind data koid : Z) (q : queue) : queue :=
  if decide (Z.of_nat depth ≤ live q) then {| q with coalesced := u64 (coalesced q + 1) |}
  else take_node kind data koid 1 q.

(** The count of the merged events becomes an event. *)
Definition flush (depth : nat) (kind koid : Z) (q : queue) : queue :=
  if decide (coalesced q = 0 ∨ Z.of_nat depth ≤ live q) then q
  else match first_free 0 (nodes q) with
       | None => q
       | Some _ => {| (take_node kind 0 koid (coalesced q) q) with coalesced := 0 |}
       end.

(** A node leaves the queue. *)
Definition release (i : nat) (q : queue) : queue :=
  mkQueue (q_seq q) (q_id q) (live q - 1) (coalesced q) (filter (λ j, j ≠ i) (pending q))
    (alter (λ n, {| n with in_use := false |}) i (nodes q)).

(** The first pending node with this property. *)
Fixpoint find_node (P : app_node → bool) (ns : list app_node) (order : list nat) : option (nat * app_node) :=
  match order with
  | [] => None
  | i :: order =>
      match ns !! i with
      | Some n => if P n then Some (i, n) else find_node P ns order
      | None => find_node P ns order
      end
  end.

Definition find_id (id : Z) (q : queue) : option (nat * app_node) :=
  find_node (λ n, bool_decide (n_id n = id)) (nodes q) (pending q).

Definition find_after (seq : Z) (q : queue) : option (nat * app_node) :=
  find_node (λ n, bool_decide (n_seq n > seq)) (nodes q) (pending q).

(** ** Applications *)

Record application := mkApplication { app_koid : Z; application_id : Z; app_queue : queue }.

Definition aok_app_fire_locked (kind data koid : Z) : queue → queue := fire AOK_APP_QUEUE_DEPTH kind data koid.

Definition aok_app_flush_locked : queue → queue := flush AOK_APP_QUEUE_DEPTH AOK_EVENT_KIND_TIMER 0.

(** Whether a merged count waits for the freed node. *)
Definition aok_app_ack_locked (event_id : Z) (q : queue) : result errno bool * queue :=
  if decide (event_id > q_id q) then (Err E_INVAL, q)
  else match find_id event_id q with
       | Some (i, _) => (Ok (bool_decide (coalesced q ≠ 0)), release i q)
       | None => (Ok false, q)
       end.

(** [AOK_APP_ACK] on an application descriptor. *)
Definition aok_app_ack (rights event_id : Z) (q : queue) : result errno unit * queue :=
  if decide (Z.land rights AOK_RIGHT_WRITE = 0) then (Err E_ACCES, q)
  else match aok_app_ack_locked event_id q with
       | (Err e, q) => (Err e, q)
       | (Ok true, q) => (Ok (), aok_app_flush_locked q)
       | (Ok false, q) => (Ok (), q)
       end.

Record event_record := mkRecord {
  rec_size : Z;
  rec_koid : Z;
  rec_app : Z;
  rec_id : Z;
  rec_seq : Z;
  rec_kind : Z;
  rec_coalesced : Z;
  rec_data : Z;
}.

Definition record_of (app : Z) (n : app_node) : event_record :=
  mkRecord 72 (n_koid n) app (n_id n) (n_seq n) (n_kind n) (n_coalesced n) (n_data n).

Record app_file := mkAppFile { af_rights : Z; af_read_seq : Z }.

(** One record from the descriptor's cursor; [None] when there is no other. *)
Definition aok_app_read (count : Z) (a : application) (h : app_file) : result errno (option event_record) * app_file :=
  if decide (Z.land (af_rights h) AOK_RIGHT_READ = 0) then (Err E_ACCES, h)
  else if decide (count < 72) then (Err E_INVAL, h)
  else match find_after (af_read_seq h) (app_queue a) with
       | None => (Ok None, h)
       | Some (_, n) => (Ok (Some (record_of (application_id a) n)), mkAppFile (af_rights h) (n_seq n))
       end.

(** Whether the descriptor is readable; [None] is [EPOLLERR]. *)
Definition aok_app_poll (a : application) (h : app_file) : option bool :=
  if decide (Z.land (af_rights h) AOK_RIGHT_READ = 0) then None
  else Some (bool_decide (is_Some (find_after (af_read_seq h) (app_queue a)))).

(** The pending nodes in their order. *)
Definition pending_nodes (q : queue) : list app_node := omap (λ i, nodes q !! i) (pending q).

(** The number of pending events, and the records copied to the caller's buffer. *)
Definition aok_application_snapshot (rights count : Z) (a : application) : result errno (Z * list event_record) :=
  if decide (Z.land rights AOK_RIGHT_INSPECT = 0) then Err E_ACCES
  else
    let records := record_of (application_id a) <$> pending_nodes (app_queue a) in
    Ok (Z.of_nat (length records), take (Z.to_nat (Z.min count (Z.of_nat (length records)))) records).

(** Records are of this application, of a known kind, numbered, and in order. *)
Definition record_ok (app : Z) (r : event_record) : Prop :=
  rec_size r = 72 ∧ rec_app r = app ∧ rec_kind r ≠ 0 ∧ rec_kind r ≤ AOK_EVENT_KIND_LSFS ∧
  rec_id r ≠ 0 ∧ rec_id r ≠ MaxUint64 ∧ rec_seq r ≠ 0 ∧ rec_seq r ≠ MaxUint64.

#[export] Instance record_ok_dec app r : Decision (record_ok app r).
Proof. unfold record_ok. apply _. Defined.

Fixpoint records_ok (app : Z) (previous : option event_record) (rs : list event_record) : bool :=
  match rs with
  | [] => true
  | r :: rs =>
      bool_decide (record_ok app r) &&
      match previous with
      | Some p => bool_decide (rec_id r > rec_id p ∧ rec_seq r > rec_seq p)
      | None => true
      end && records_ok app (Some r) rs
  end.

Definition node_of (r : event_record) : app_node :=
  mkNode true (rec_id r) (rec_seq r) (rec_koid r) (rec_kind r) (rec_coalesced r) (rec_data r).

(** The records take the first nodes. *)
Fixpoint put_nodes (i : nat) (rs : list event_record) (ns : list app_node) : list app_node :=
  match rs with
  | [] => ns
  | r :: rs => put_nodes (S i) rs (<[i := node_of r]> ns)
  end.

Definition aok_application_restore (rights : Z) (records : list event_record) (a : application) : result errno unit * application :=
  let q := app_queue a in
  if decide (AOK_APP_QUEUE_DEPTH < length records)%nat then (Err E_INVAL, a)
  else if decide (Z.land rights AOK_RIGHT_WRITE = 0) then (Err E_ACCES, a)
  else match list.last records with
       | None => (Ok (), a)
       | Some final =>
           if negb (records_ok (application_id a) None records) then (Err E_INVAL, a)
           else if decide (live q ≠ 0 ∨ coalesced q ≠ 0) then (Err E_BUSY, a)
           else
             (Ok (), mkApplication (app_koid a) (application_id a)
                (mkQueue (Z.max (rec_seq final) (q_seq q)) (Z.max (rec_id final) (q_id q)) (Z.of_nat (length records))
                   (coalesced q) (pending q ++ seq 0 (length records)) (put_nodes 0 records (nodes q))))
       end.

(** ** The registry and the event sources *)

(** [src_app] is the application the source is attached to. *)
Record event_source := mkSource {
  src_koid : Z;
  src_kind : Z;
  src_label : Z;
  src_app : option nat;
  src_queue : queue;
}.

(** Applications and sources are known by their places; an application stays for good. *)
Record registry := mkRegistry { apps : list application; sources : list event_source }.

Definition on_app (f : queue → queue) (i : nat) (k : registry) : registry :=
  {| k with apps := alter (λ a, {| a with app_queue := f (app_queue a) |}) i (apps k) |}.

Definition on_source (f : event_source → event_source) (i : nat) (k : registry) : registry :=
  {| k with sources := alter f i (sources k) |}.

(** The application with this id. *)
Fixpoint find_app (id : Z) (i : nat) (l : list application) : option nat :=
  match l with
  | [] => None
  | a :: l => if decide (application_id a = id) then Some i else find_app id (S i) l
  end.

(** [may_manage]: the parent descriptor has the right to manage children; [koid] is a
    fresh object id.  The result is the application's place. *)
Definition aok_application_create (may_manage : bool) (id koid : Z) (k : registry) : result errno nat * registry :=
  if decide (id = 0) then (Err E_INVAL, k)
  else if negb may_manage then (Err E_ACCES, k)
  else match find_app id 0 (apps k) with
       | Some i => (Ok i, k)
       | None =>
           (Ok (length (apps k)),
            {| k with apps := apps k ++ [mkApplication koid id (empty_queue AOK_APP_QUEUE_DEPTH)] |})
       end.

Definition aok_source_fire_locked (data : Z) (s : event_source) : event_source :=
  {| s with src_queue := fire AOK_EVENT_SOURCE_DEPTH (src_kind s) data (src_koid s) (src_queue s) |}.

Definition aok_source_flush_locked (s : event_source) : event_source :=
  {| s with src_queue := flush AOK_EVENT_SOURCE_DEPTH (src_kind s) (src_koid s) (src_queue s) |}.

(** [aok_copy_source_attr] and [aok_event_source_create]; the result is the source's place. *)
Definition source_attr_ok (kind flags first_ns interval_ns : Z) : bool :=
  if decide (kind = AOK_EVENT_KIND_PORT ∨ kind = AOK_EVENT_KIND_LSFS) then bool_decide (flags = 0 ∧ first_ns = 0 ∧ interval_ns = 0)
  else if decide (kind ≠ AOK_EVENT_KIND_TIMER) then false
  else bool_decide (flags = 0 ∧ interval_ns = 0 ∨ flags = 1 ∧ interval_ns ≠ 0).

Definition aok_event_source_create (may_manage : bool) (kind flags first_ns interval_ns koid : Z) (k : registry) :
    result errno nat * registry :=
  if negb (source_attr_ok kind flags first_ns interval_ns) then (Err E_INVAL, k)
  else if negb may_manage then (Err E_ACCES, k)
  else (Ok (length (sources k)),
        {| k with sources := sources k ++ [mkSource koid kind 0 None (empty_queue AOK_EVENT_SOURCE_DEPTH)] |}).

(** A timer expired: the event goes to the application, or to the source's own queue. *)
Definition aok_source_deliver_locked (data : Z) (i : nat) (k : registry) : registry :=
  match sources k !! i with
  | None => k
  | Some s =>
      match src_app s with
      | Some a => on_app (aok_app_fire_locked (src_kind s) data (src_koid s)) a k
      | None => on_source (aok_source_fire_locked data) i k
      end
  end.

Definition app_live (k : registry) (a : nat) : Z := default 0 ((λ a, live (app_queue a)) <$> apps k !! a).

(** [AOK_EVENT_POST] on a descriptor of source [i] with these rights. *)
Definition aok_event_post (rights arg : Z) (i : nat) (k : registry) : result errno unit * registry :=
  match sources k !! i with
  | None => (Err E_INVAL, k)
  | Some s =>
      if decide (Z.land rights AOK_RIGHT_WRITE = 0) then (Err E_ACCES, k)
      else if decide (src_kind s = AOK_EVENT_KIND_TIMER ∨ src_kind s = AOK_EVENT_KIND_PORT ∧ arg ≠ 0) then (Err E_INVAL, k)
      else match src_app s with
           | Some a =>
               if decide (app_live k a = Z.of_nat AOK_APP_QUEUE_DEPTH) then (Err E_AGAIN, k)
               else (Ok (), on_app (aok_app_fire_locked (src_kind s) arg (src_koid s)) a k)
           | None =>
               if decide (live (src_queue s) = Z.of_nat AOK_EVENT_SOURCE_DEPTH) then (Err E_AGAIN, k)
               else (Ok (), on_source (aok_source_fire_locked arg) i k)
           end
  end.

Definition aok_source_attach (app : option nat) (id : Z) (s : event_source) : result errno unit * event_source :=
  if decide (app = None ∧ id ≠ 0) then (Err E_INVAL, s)
  else if decide (live (src_queue s) ≠ 0 ∨ coalesced (src_queue s) ≠ 0) then (Err E_BUSY, s)
  else (Ok (), {| s with src_app := app; src_label := match app with Some _ => id | None => 0 end |}).

(** [AOK_EVENT_ATTACH_APP] with an application and the rights of its descriptor, or
    [None] for the descriptor -1. *)
Definition aok_event_attach (rights : Z) (target : option (nat * Z)) (id : Z) (i : nat) (k : registry) :
    result errno unit * registry :=
  match sources k !! i with
  | None => (Err E_INVAL, k)
  | Some s =>
      if decide (Z.land rights AOK_RIGHT_WRITE = 0) then (Err E_ACCES, k)
      else
        let attach app id := let '(r, s') := aok_source_attach app id s in (r, on_source (λ _, s') i k) in
        match target with
        | None => if decide (id ≠ 0) then (Err E_INVAL, k) else attach None 0
        | Some (a, app_rights) =>
            if decide (Z.land app_rights (Z.lor AOK_RIGHT_READ AOK_RIGHT_WRITE) ≠ Z.lor AOK_RIGHT_READ AOK_RIGHT_WRITE)
            then (Err E_ACCES, k)
            else if decide (application_id <$> apps k !! a ≠ Some id) then (Err E_INVAL, k)
            else attach (Some a) id
        end
  end.

(** [aok_event_ack] on a source descriptor. *)
Definition aok_event_ack (rights event_id : Z) (i : nat) (k : registry) : result errno unit * registry :=
  match sources k !! i with
  | None => (Err E_INVAL, k)
  | Some s =>
      if decide (Z.land rights AOK_RIGHT_WRITE = 0) then (Err E_ACCES, k)
      else
        let app := a ← src_app s; '(a, x) ← (λ x, (a, x)) <$> apps k !! a; Some (a, app_queue x) in
        match app with
        | Some (a, q) =>
            if decide (event_id > q_id q) then (Err E_INVAL, k)
            else match find_id event_id q with
                 | Some (n, _) => (Ok (), on_app (λ q, aok_app_flush_locked (release n q)) a k)
                 | None => (Ok (), k)
                 end
        | None =>
            if decide (event_id > q_id (src_queue s)) then (Err E_INVAL, k)
            else match find_id event_id (src_queue s) with
                 | Some (n, _) =>
                     (Ok (), on_source (λ s, aok_source_flush_locked {| s with src_queue := release n (src_queue s) |}) i k)
                 | None => (Ok (), k)
                 end
        end
  end.

(** A source descriptor's cursor, and the application it is about, if any. *)
Record event_file := mkEventFile { ef_rights : Z; ef_read_seq : Z; cursor_app : option nat }.

(** The queue the source's descriptors read, and the label of its records. *)
Definition source_view (k : registry) (s : event_source) : queue * Z :=
  match (a ← src_app s; apps k !! a) with
  | Some a => (app_queue a, application_id a)
  | None => (src_queue s, src_label s)
  end.

Definition aok_event_read (count : Z) (k : registry) (s : event_source) (h : event_file) :
    result errno (option event_record) * event_file :=
  if decide (Z.land (ef_rights h) AOK_RIGHT_READ = 0) then (Err E_ACCES, h)
  else if decide (count < 72) then (Err E_INVAL, h)
  else
    let h := if decide (cursor_app h ≠ src_app s) then mkEventFile (ef_rights h) 0 (src_app s) else h in
    let '(q, label) := source_view k s in
    match find_after (ef_read_seq h) q with
    | None => (Ok None, h)
    | Some (_, n) => (Ok (Some (record_of label n)), mkEventFile (ef_rights h) (n_seq n) (cursor_app h))
    end.

(** ** The runtime's side: kernelbridge/event_linux_arm64.go *)

Record EventRecord := mkEventRecord {
  ev_ApplicationID : Z;
  ev_EventID : Z;
  ev_EventSeq : Z;
  ev_Kind : Z;
  ev_Coalesced : Z;
  ev_Data : Z;
}.

Definition go_record (r : event_record) : EventRecord :=
  mkEventRecord (rec_app r) (rec_id r) (rec_seq r) (rec_kind r) (rec_coalesced r) (rec_data r).

Definition raw_record (e : EventRecord) : event_record :=
  mkRecord 72 0 (ev_ApplicationID e) (ev_EventID e) (ev_EventSeq e) (ev_Kind e) (ev_Coalesced e) (ev_Data e).

Section bridge.
(** A system call's error as the runtime sees it. *)
Context (Errno : errno → error).

Definition of_errno {A} (r : result errno A) : result error A := match r with Ok x => Ok x | Err e => Err (Errno e) end.

(** [Application.Read], [Ack], [Snapshot] and [Restore] on a descriptor with these rights. *)
Definition bridge_Read (a : application) (h : app_file) : result error (option EventRecord) * app_file :=
  let '(r, h) := aok_app_read 72 a h in
  (match r with Ok o => Ok (go_record <$> o) | Err e => Err (Errno e) end, h).

Definition bridge_Ack (rights id : Z) (a : application) : result error unit * application :=
  let '(r, q) := aok_app_ack rights id (app_queue a) in (of_errno r, {| a with app_queue := q |}).

Definition bridge_Snapshot (rights : Z) (a : application) : result error (list EventRecord) :=
  match aok_application_snapshot rights (Z.of_nat AOK_APP_QUEUE_DEPTH) a with
  | Err e => Err (Errno e)
  | Ok (n, records) =>
      if decide (n < 0 ∨ n > Z.of_nat AOK_APP_QUEUE_DEPTH) then Err (New ("invalid AOK snapshot count " +:+ pretty n))
      else Ok (go_record <$> take (Z.to_nat n) records)
  end.

Definition bridge_Restore (rights : Z) (events : list EventRecord) (a : application) : result error unit * application :=
  if decide (AOK_APP_QUEUE_DEPTH < length events)%nat then (Err (New "restore batch exceeds AOK queue depth"), a)
  else if decide (events = []) then (Ok (), a)
  else let '(r, a) := aok_application_restore rights (raw_record <$> events) a in (of_errno r, a).
End bridge.
