(* ===== verification/AppQueueProofs.v ===== *)
(** * The kernel's event queues keep every event

    A queue's nodes and its list agree, its numbers grow, a merged count waits only while
    every node is in use, and what an operation adds or takes away is exactly the event
    it is about. *)

From stdpp Require Import base tactics option list sets strings numbers pretty sorting relations.
From S2P Require Import Prelude Ainf AppQueue.

Local Open Scope Z_scope.

(** ** The invariant *)

Definition increasing (l : list Z) (hi : Z) : Prop := StronglySorted Z.lt l ∧ Forall (λ x, 0 < x ≤ hi) l.

Record qcore (depth : nat) (q : queue) : Prop := {
  qi_nodes : length (nodes q) = depth;
  qi_live : live q = Z.of_nat (length (pending q));
  qi_nodup : NoDup (pending q);
  qi_used : ∀ i, i ∈ pending q ↔ ∃ n, nodes q !! i = Some n ∧ in_use n = true;
  qi_seqs : increasing (n_seq <$> pending_nodes q) (q_seq q);
  qi_ids : increasing (n_id <$> pending_nodes q) (q_id q);
  qi_kinds : Forall (λ n, 1 ≤ n_kind n ≤ 3) (pending_nodes q);
  qi_count : 0 ≤ coalesced q;
  qi_range : 0 ≤ q_seq q ∧ 0 ≤ q_id q;
}.

(** A merged count waits only while the queue is full. *)
Definition qinv (depth : nat) (q : queue) : Prop := qcore depth q ∧ (coalesced q ≠ 0 → live q = Z.of_nat depth).

(** The numbers are not used up. *)
Definition room (q : queue) : Prop := q_seq q < MaxUint64 ∧ q_id q < MaxUint64 ∧ coalesced q < 4294967295.

Lemma increasing_snoc l hi x : increasing l hi → hi < x → 0 ≤ hi → increasing (l ++ [x]) x.
Proof.
  intros [Hs Hb] Hx H0. split.
  - clear H0. induction Hs as [|y l Hs IH Hy]; cbn; [by repeat constructor|].
    apply Forall_cons in Hb as [Hb1 Hb]. constructor; [by apply IH|]. apply Forall_app. split; [done|]. constructor; [lia|done].
  - apply Forall_app. split; [|constructor; [lia|done]]. eapply Forall_impl; [exact Hb|]. cbn. lia.
Qed.

Lemma increasing_remove l1 x l2 hi : increasing (l1 ++ x :: l2) hi → increasing (l1 ++ l2) hi.
Proof.
  intros [Hs Hb]. split.
  - clear Hb. induction l1 as [|y l1 IH]; cbn in *; [by inversion Hs|]. apply StronglySorted_inv in Hs as [Hs Hy].
    constructor; [by apply IH|]. apply Forall_app in Hy as [Hy1 [_ Hy2]%Forall_cons]. apply Forall_app. by split.
  - apply Forall_app in Hb as [? [_ ?]%Forall_cons]. apply Forall_app. by split.
Qed.

Lemma first_free_Some i ns k : first_free i ns = Some k → ∃ n, ns !! (k - i)%nat = Some n ∧ in_use n = false ∧ (i ≤ k)%nat.
Proof.
  revert i. induction ns as [|n ns IH]; intros i; cbn; [done|]. destruct (in_use n) eqn:Hn.
  - intros (m & Hm & Hu & Hle)%IH. exists m. replace (k - i)%nat with (S (k - S i)) by lia. split_and!; [done|done|lia].
  - intros [= <-]. exists n. rewrite Nat.sub_diag. split_and!; [done|done|lia].
Qed.

Lemma first_free_None i ns : first_free i ns = None → Forall (λ n, in_use n = true) ns.
Proof.
  revert i. induction ns as [|n ns IH]; intros i; cbn; [by constructor|]. destruct (in_use n) eqn:Hn; [|done].
  intros ?%IH. by constructor.
Qed.

(** While a queue is not full it has a free node: the kernel never warns. *)
Lemma free_node_found depth q :
  qcore depth q → live q < Z.of_nat depth → ∃ i n, first_free 0 (nodes q) = Some i ∧ nodes q !! i = Some n ∧ in_use n = false ∧ i ∉ pending q.
Proof.
  intros Hq Hl. destruct (first_free 0 (nodes q)) as [i|] eqn:E.
  - destruct (first_free_Some _ _ _ E) as (n & Hn & Hu & _). rewrite Nat.sub_0_r in Hn. exists i, n. split_and!; try done.
    intros (n' & Hn' & Hu')%(qi_used _ _ Hq). congruence.
  - exfalso. apply first_free_None in E. assert (depth ≤ length (pending q))%nat; [|pose proof (qi_live _ _ Hq); lia].
    rewrite <-(qi_nodes _ _ Hq), <-(length_seq (length (nodes q)) 0). apply submseteq_length, NoDup_submseteq; [apply NoDup_seq|].
    intros i [_ Hi]%elem_of_seq. apply (qi_used _ _ Hq). destruct (lookup_lt_is_Some_2 (nodes q) i) as [n Hn]; [lia|].
    exists n. split; [done|]. exact (Forall_lookup_1 _ _ _ _ E Hn).
Qed.

Lemma pending_bound depth q : qcore depth q → (length (pending q) ≤ depth)%nat.
Proof.
  intros Hq. rewrite <-(qi_nodes _ _ Hq), <-(length_seq (length (nodes q)) 0). apply submseteq_length, NoDup_submseteq; [apply Hq|].
  intros i (n & Hn & _)%(qi_used _ _ Hq). apply elem_of_seq. apply lookup_lt_Some in Hn. lia.
Qed.

(** ** Taking and releasing a node *)

Definition new_node (kind data koid count : Z) (q : queue) : app_node :=
  mkNode true (u64 (q_id q + 1)) (u64 (q_seq q + 1)) koid kind (u32 count) data.

Lemma pending_insert_other i n (ns : list app_node) (l : list nat) : i ∉ l → omap (λ j, <[i := n]> ns !! j) l = omap (λ j, ns !! j) l.
Proof.
  induction l as [|j l IH]; intros Hi; [done|]. apply not_elem_of_cons in Hi as [Hij Hi]. cbn.
  rewrite list_lookup_insert_ne by done. by rewrite IH.
Qed.

Lemma pending_alter i f (ns : list app_node) (l : list nat) : i ∉ l → omap (λ j, alter f i ns !! j) l = omap (λ j, ns !! j) l.
Proof.
  induction l as [|j l IH]; intros Hi; [done|]. apply not_elem_of_cons in Hi as [Hij Hi]. cbn.
  rewrite list_lookup_alter_ne by done. by rewrite IH.
Qed.

Lemma take_node_exact depth kind data koid count q :
  qcore depth q → live q < Z.of_nat depth →
  pending_nodes (take_node kind data koid count q) = pending_nodes q ++ [new_node kind data koid count q] ∧
  coalesced (take_node kind data koid count q) = coalesced q ∧ live (take_node kind data koid count q) = live q + 1.
Proof.
  intros Hq Hl. destruct (free_node_found _ _ Hq Hl) as (i & n & Ef & Hn & _ & Hi). unfold take_node. rewrite Ef. cbn.
  split_and!; [|done|done]. unfold pending_nodes. cbn. rewrite omap_app, pending_insert_other by done. cbn.
  by rewrite list_lookup_insert_eq by (by eapply lookup_lt_Some).
Qed.

Lemma take_node_core depth kind data koid count q :
  qcore depth q → room q → live q < Z.of_nat depth → 1 ≤ kind ≤ 3 → qcore depth (take_node kind data koid count q).
Proof.
  intros Hq (Hr1 & Hr2 & _) Hl Hk. destruct (take_node_exact depth kind data koid count q Hq Hl) as (Ep & Ec & El).
  destruct (free_node_found _ _ Hq Hl) as (i & n & Ef & Hn & Hu & Hi). destruct (qi_range _ _ Hq) as [R1 R2].
  assert (u64 (q_seq q + 1) = q_seq q + 1 ∧ u64 (q_id q + 1) = q_id q + 1) as [Es Ei] by (split; apply u64_small; lia).
  split.
  - unfold take_node. rewrite Ef. cbn. rewrite length_insert. apply Hq.
  - rewrite El. unfold take_node. rewrite Ef. cbn. rewrite length_app, (qi_live _ _ Hq). cbn. lia.
  - unfold take_node. rewrite Ef. cbn. apply NoDup_app. split_and!; [apply Hq| |apply NoDup_singleton]. set_solver.
  - intros j. unfold take_node. rewrite Ef. cbn. rewrite elem_of_app, list_elem_of_singleton, (qi_used _ _ Hq).
    destruct (decide (j = i)) as [->|Hj].
    + rewrite list_lookup_insert_eq by (by eapply lookup_lt_Some). split; [eauto|by right].
    + rewrite list_lookup_insert_ne by done. split; [by intros [?|?]|by left].
  - rewrite Ep, fmap_app. cbn. rewrite Es. unfold take_node. rewrite Ef. cbn. rewrite Es.
    eapply increasing_snoc; [apply Hq|lia|done].
  - rewrite Ep, fmap_app. cbn. rewrite Ei. unfold take_node. rewrite Ef. cbn. rewrite Ei.
    eapply increasing_snoc; [apply Hq|lia|done].
  - rewrite Ep. apply Forall_app. split; [apply Hq|]. by constructor.
  - rewrite Ec. apply Hq.
  - unfold take_node. rewrite Ef. cbn. lia.
Qed.

Lemma find_node_Some P ns order i n :
  find_node P ns order = Some (i, n) → i ∈ order ∧ ns !! i = Some n ∧ P n = true.
Proof.
  induction order as [|j order IH]; cbn; [done|]. destruct (ns !! j) as [m|] eqn:Hj.
  - destruct (P m) eqn:Hp; [intros [= <- <-]; split_and!; [by left|done|done]|]. intros (? & ? & ?)%IH. split_and!; [by right|done|done].
  - intros (? & ? & ?)%IH. split_and!; [by right|done|done].
Qed.

Lemma filter_other (l : list nat) i : i ∉ l → filter (λ j, j ≠ i) l = l.
Proof.
  induction l as [|j l IH]; intros Hi; [done|]. apply not_elem_of_cons in Hi as [Hij Hi].
  rewrite filter_cons_True by (by intros ->). by rewrite IH.
Qed.

Lemma filter_ne_split (l1 l2 : list nat) i : NoDup (l1 ++ i :: l2) → filter (λ j, j ≠ i) (l1 ++ i :: l2) = l1 ++ l2.
Proof.
  intros (H1 & H2 & [H3 H4]%NoDup_cons)%NoDup_app. rewrite filter_app, filter_cons_False by (by intros ?).
  rewrite !filter_other; [done|done|]. intros Hi. apply (H2 i Hi). by left.
Qed.

(** A released node leaves the list at its place. *)
Lemma release_exact depth i n q :
  qcore depth q → i ∈ pending q → nodes q !! i = Some n →
  ∃ l1 l2, pending q = l1 ++ i :: l2 ∧ pending (release i q) = l1 ++ l2 ∧
    pending_nodes q = omap (λ j, nodes q !! j) l1 ++ n :: omap (λ j, nodes q !! j) l2 ∧
    pending_nodes (release i q) = omap (λ j, nodes q !! j) l1 ++ omap (λ j, nodes q !! j) l2.
Proof.
  intros Hq (l1 & l2 & Hp)%list_elem_of_split Hn. exists l1, l2.
  pose proof (qi_nodup _ _ Hq) as Hnd. rewrite Hp in Hnd. pose proof (filter_ne_split _ _ _ Hnd) as Hf.
  apply NoDup_app in Hnd as (_ & Hd & [Hi2 _]%NoDup_cons).
  assert (i ∉ l1) as Hi1 by (intros H; apply (Hd i H); by left).
  unfold pending_nodes, release. cbn. rewrite Hp, Hf. split_and!; try done.
  - rewrite omap_app. cbn. by rewrite Hn.
  - by rewrite omap_app, !pending_alter.
Qed.

Lemma release_core depth i n q :
  qcore depth q → i ∈ pending q → nodes q !! i = Some n → qcore depth (release i q) ∧ live (release i q) = live q - 1.
Proof.
  intros Hq Hi Hn. destruct (release_exact _ _ _ _ Hq Hi Hn) as (l1 & l2 & Hp & Hp' & Hns & Hns'). split; [|done].
  pose proof (qi_nodup _ _ Hq) as Hnd. rewrite Hp in Hnd. split.
  - cbn. rewrite length_alter. apply Hq.
  - rewrite Hp'. cbn. rewrite (qi_live _ _ Hq), Hp, !length_app. cbn. lia.
  - rewrite Hp'. apply NoDup_app in Hnd as (H1 & H2 & [H3 H4]%NoDup_cons). apply NoDup_app. split_and!; [done| |done].
    intros j Hj Hj2. apply (H2 j Hj). by right.
  - intros j. cbn. rewrite list_elem_of_filter, (qi_used _ _ Hq). destruct (decide (j = i)) as [->|Hj].
    + rewrite list_lookup_alter_eq, Hn. cbn. split; [by intros [? _]|]. by intros (m & [= <-] & ?).
    + rewrite list_lookup_alter_ne by done. split; [by intros [_ ?]|by intros ?].
  - pose proof (qi_seqs _ _ Hq) as H. rewrite Hns, fmap_app in H. rewrite Hns', fmap_app. by eapply increasing_remove.
  - pose proof (qi_ids _ _ Hq) as H. rewrite Hns, fmap_app in H. rewrite Hns', fmap_app. by eapply increasing_remove.
  - pose proof (qi_kinds _ _ Hq) as H. rewrite Hns in H. rewrite Hns'. apply Forall_app in H as [? [_ ?]%Forall_cons].
    apply Forall_app. by split.
  - apply Hq.
  - apply Hq.
Qed.

(** ** What the queue holds *)

Definition counts (ns : list app_node) : Z := foldr (λ n z, n_coalesced n + z) 0 ns.

(** The events a queue stands for: those in its nodes, and those merged. *)
Definition weight (q : queue) : Z := counts (pending_nodes q) + coalesced q.

Lemma counts_app l1 l2 : counts (l1 ++ l2) = counts l1 + counts l2.
Proof. unfold counts in *. induction l1 as [|n l1 IH]; cbn [app foldr]; [lia|]. rewrite IH. lia. Qed.

Lemma weight_merged q c : weight {| q with coalesced := c |} = counts (pending_nodes q) + c.
Proof. done. Qed.

Lemma counts_snoc l n : counts (l ++ [n]) = counts l + n_coalesced n.
Proof. rewrite counts_app. cbn. lia. Qed.

Lemma fire_exact depth kind data koid q :
  qinv depth q → room q → 1 ≤ kind ≤ 3 →
  qinv depth (fire depth kind data koid q) ∧ weight (fire depth kind data koid q) = weight q + 1 ∧
  pending_nodes (fire depth kind data koid q) =
    pending_nodes q ++ (if decide (live q = Z.of_nat depth) then [] else [new_node kind data koid 1 q]).
Proof.
  intros [Hq Hf] Hr Hk. pose proof Hr as (_ & _ & Hc). pose proof (qi_count _ _ Hq) as H0. unfold fire. case_decide as Hd.
  - assert (live q = Z.of_nat depth) as El.
    { pose proof (qi_live _ _ Hq). pose proof (pending_bound _ _ Hq). lia. }
    assert (u64 (coalesced q + 1) = coalesced q + 1) as Eu by (apply u64_small; unfold MaxUint64; lia).
    rewrite decide_True by done. split_and!; [|rewrite weight_merged, Eu; unfold weight; lia|by rewrite app_nil_r].
    split; [|done]. destruct Hq. split; try done. cbn. rewrite Eu. lia.
  - assert (live q < Z.of_nat depth) as Hl by lia. destruct (take_node_exact depth kind data koid 1 q Hq Hl) as (Ep & Ec & El).
    rewrite decide_False by lia. split_and!; [|unfold weight; rewrite Ep, Ec, counts_snoc; change (n_coalesced _) with 1; lia|done].
    split; [by apply take_node_core|]. rewrite Ec. intros Hz. specialize (Hf Hz). lia.
Qed.

Lemma flush_exact depth kind koid q :
  qcore depth q → room q → 1 ≤ kind ≤ 3 → live q < Z.of_nat depth →
  qinv depth (flush depth kind koid q) ∧ weight (flush depth kind koid q) = weight q ∧
  pending_nodes (flush depth kind koid q) =
    pending_nodes q ++ (if decide (coalesced q = 0) then [] else [new_node kind 0 koid (coalesced q) q]).
Proof.
  intros Hq Hr Hk Hl. unfold flush. destruct (decide (coalesced q = 0)) as [Hz|Hz].
  - rewrite decide_True by (by left). split_and!; [split; [done|]; by rewrite Hz|done|by rewrite app_nil_r].
  - rewrite decide_False by (intros [?|?]; [done|lia]).
    destruct (free_node_found _ _ Hq Hl) as (i & n & Ef & _). rewrite Ef.
    destruct (take_node_exact depth kind 0 koid (coalesced q) q Hq Hl) as (Ep & Ec & El).
    pose proof (take_node_core depth kind 0 koid (coalesced q) q Hq Hr Hl Hk) as Hc.
    pose proof (qi_count _ _ Hq). destruct Hr as (_ & _ & Hr).
    split_and!; [split; [|done]; destruct Hc; split; done| |done].
    rewrite weight_merged, Ep, counts_snoc. unfold weight. change (n_coalesced _) with (u32 (coalesced q)).
    unfold u32. rewrite Z.mod_small by lia. lia.
Qed.

(** ** Acknowledging *)

Lemma flush_none depth kind koid q : coalesced q = 0 → flush depth kind koid q = q.
Proof. intros Hz. unfold flush. rewrite decide_True; [done|by left]. Qed.

(** What an acknowledgement takes out is the event with that id, and nothing else; a
    merged count takes its place at the end. *)
Lemma ack_exact depth kind koid id i n q :
  qinv depth q → room q → 1 ≤ kind ≤ 3 → find_id id q = Some (i, n) →
  let q' := flush depth kind koid (release i q) in
  qinv depth q' ∧ n_id n = id ∧ weight q' + n_coalesced n = weight q ∧
  ∃ l1 l2, pending_nodes q = l1 ++ n :: l2 ∧
    pending_nodes q' = l1 ++ l2 ++ (if decide (coalesced q = 0) then [] else [new_node kind 0 koid (coalesced q) q]).
Proof.
  intros [Hq Hfull] Hr Hk (Hi & Hn & Hid%bool_decide_eq_true)%find_node_Some. cbv zeta.
  destruct (release_core _ _ _ _ Hq Hi Hn) as [Hc Hl]. destruct (release_exact _ _ _ _ Hq Hi Hn) as (l1 & l2 & Hp & _ & Hns & Hns').
  assert (live q ≤ Z.of_nat depth) as Hle.
  { rewrite (qi_live _ _ Hq). apply inj_le. by apply pending_bound. }
  destruct (flush_exact depth kind koid (release i q) Hc Hr Hk ltac:(lia)) as (Hinv & Hw & Hpn). split_and!; try done.
  - rewrite Hw. unfold weight. rewrite Hns, Hns', !counts_app. change (counts (n :: ?l)) with (n_coalesced n + counts l).
    change (coalesced (release i q)) with (coalesced q). cbn. lia.
  - eexists _, _. split; [exact Hns|]. by rewrite Hpn, Hns', <-app_assoc.
Qed.

Lemma find_node_None P ns order : find_node P ns order = None → Forall (λ n, P n = false) (omap (λ j, ns !! j) order).
Proof.
  induction order as [|j order IH]; cbn; [by constructor|]. destruct (ns !! j) as [m|]; [|done].
  destruct (P m) eqn:Hp; [done|]. intros H%IH. by constructor.
Qed.

(** [AOK_APP_ACK] on every branch. *)
Lemma app_ack_exact rights id q r q' :
  qinv AOK_APP_QUEUE_DEPTH q → room q → aok_app_ack rights id q = (r, q') →
  qinv AOK_APP_QUEUE_DEPTH q' ∧
  match find_id id q with
  | Some (i, n) => match r with
                   | Ok _ => q' = aok_app_flush_locked (release i q)
                   | Err _ => q' = q
                   end
  | None => q' = q
  end.
Proof.
  intros Hq Hr H. unfold aok_app_ack in H. case_decide; [injection H as <- <-; split; [done|]; by destruct (find_id id q) as [[]|]|].
  unfold aok_app_ack_locked in H. case_decide; [injection H as <- <-; split; [done|]; by destruct (find_id id q) as [[]|]|].
  destruct (find_id id q) as [[i n]|] eqn:Hf; [|by injection H as <- <-].
  destruct (ack_exact AOK_APP_QUEUE_DEPTH AOK_EVENT_KIND_TIMER 0 id i n q Hq Hr ltac:(unfold AOK_EVENT_KIND_TIMER; lia) Hf) as (Hinv & _).
  case_bool_decide as Hz; injection H as <- <-; [done|].
  assert (aok_app_flush_locked (release i q) = release i q) as E by (by apply flush_none).
  unfold aok_app_flush_locked in *. rewrite E in *. done.
Qed.

(** ** Restoring *)

Lemma put_nodes_length i rs ns : length (put_nodes i rs ns) = length ns.
Proof. revert i ns. induction rs as [|r rs IH]; intros i ns; cbn; [done|]. by rewrite IH, length_insert. Qed.

Lemma put_nodes_lookup rs : ∀ i ns j, (i + length rs ≤ length ns)%nat →
  put_nodes i rs ns !! j = if decide (i ≤ j < i + length rs)%nat then node_of <$> rs !! (j - i)%nat else ns !! j.
Proof.
  induction rs as [|r rs IH]; intros i ns j Hl; cbn [put_nodes length] in *.
  - rewrite decide_False by lia. done.
  - rewrite IH by (rewrite length_insert; lia). destruct (decide (j = i)) as [->|Hj].
    + rewrite decide_False, decide_True by lia. by rewrite list_lookup_insert_eq, Nat.sub_diag by lia.
    + rewrite list_lookup_insert_ne by done. repeat case_decide; try lia; try done.
      by replace (j - i)%nat with (S (j - S i)) by lia.
Qed.

(** The fields of a record are unsigned. *)
Definition raw_u64 (r : event_record) : Prop := in_u64 (rec_id r) ∧ in_u64 (rec_seq r) ∧ 0 ≤ rec_kind r.

Lemma records_ok_exact app rs : ∀ previous,
  records_ok app previous rs = true ↔ Forall (record_ok app) rs ∧
    match previous, head rs with Some p, Some r => rec_id p < rec_id r ∧ rec_seq p < rec_seq r | _, _ => True end ∧
    Sorted Z.lt (rec_id <$> rs) ∧ Sorted Z.lt (rec_seq <$> rs).
Proof.
  induction rs as [|r rs IH]; intros previous; cbn [records_ok].
  { split; [intros _|done]. split_and!; [done|by destruct previous|constructor|constructor]. }
  rewrite !andb_true_iff, bool_decide_eq_true, IH, Forall_cons. cbn [head fmap list_fmap].
  assert ((match previous with Some p => bool_decide (rec_id r > rec_id p ∧ rec_seq r > rec_seq p) | None => true end) = true ↔
    match previous with Some p => rec_id p < rec_id r ∧ rec_seq p < rec_seq r | None => True end) as ->.
  { destruct previous; [rewrite bool_decide_eq_true|]; [lia|done]. }
  split.
  - intros [[Hr Hp] (Hrs & Hn & H1 & H2)]. split_and!; [done|done|by destruct previous|..]; (constructor; [done|]);
      destruct rs; cbn; constructor; apply Hn.
  - intros ([Hr Hrs] & Hp & H1 & H2). apply Sorted_inv in H1 as [H1 H1']. apply Sorted_inv in H2 as [H2 H2'].
    split_and!; [done|by destruct previous|done| |done|done]. destruct rs; [done|]. cbn in H1', H2'.
    apply HdRel_inv in H1', H2'. done.
Qed.

Lemma omap_put_nodes rs ns : (length rs ≤ length ns)%nat → omap (λ j, put_nodes 0 rs ns !! j) (seq 0 (length rs)) = node_of <$> rs.
Proof.
  intros Hl. assert (∀ k, (k ≤ length rs)%nat → omap (λ j, put_nodes 0 rs ns !! j) (seq 0 k) = take k (node_of <$> rs)) as H.
  - induction k as [|k IH]; intros Hk; [done|]. rewrite seq_S, omap_app, IH by lia. cbn.
    rewrite put_nodes_lookup, decide_True, Nat.sub_0_r by lia.
    destruct (lookup_lt_is_Some_2 rs k) as [r Hr]; [lia|]. rewrite Hr. cbn.
    symmetry. apply take_S_r. by rewrite list_lookup_fmap, Hr.
  - rewrite H by lia. rewrite take_ge; [done|]. by rewrite length_fmap.
Qed.

Lemma sorted_increasing (l : list Z) hi x :
  Sorted Z.lt l → Forall (λ y, 0 < y) l → list.last l = Some x → x ≤ hi → increasing l hi.
Proof.
  intros Hs%Sorted_StronglySorted Hpos Hx Hhi; [|intros ???; lia]. split; [done|].
  apply Forall_forall. intros y Hy. rewrite Forall_forall in Hpos. split; [by apply Hpos|].
  apply last_Some in Hx as [l' ->]. apply elem_of_app in Hy as [Hy|Hy%list_elem_of_singleton]; [|lia].
  apply StronglySorted_app_1_elem_of with (x1 := y) (x2 := x) in Hs; [lia|done|by left].
Qed.

(** What a restore makes of an application, or that it changes nothing. *)
Lemma restore_exact rights rs a r a' :
  qinv AOK_APP_QUEUE_DEPTH (app_queue a) → Forall raw_u64 rs → aok_application_restore rights rs a = (r, a') →
  (a' = a ∧ (r = Ok () → rs = [])) ∨
  (r = Ok () ∧ rs ≠ [] ∧ qinv AOK_APP_QUEUE_DEPTH (app_queue a') ∧ pending_nodes (app_queue a) = [] ∧ application_id a' = application_id a ∧
   pending_nodes (app_queue a') = node_of <$> rs ∧ coalesced (app_queue a') = 0 ∧
   q_id (app_queue a) ≤ q_id (app_queue a') ∧ q_seq (app_queue a) ≤ q_seq (app_queue a')).
Proof.
  intros [Hq Hfull] Hraw H. unfold aok_application_restore in H. case_decide as Hlen; [injection H as <- <-; by left|].
  case_decide; [injection H as <- <-; by left|]. destruct (list.last rs) as [final|] eqn:Hlast;
    [|injection H as <- <-; left; split; [done|]; intros _; by apply last_None].
  destruct (records_ok (application_id a) None rs) eqn:Hrs; cbn [negb] in H; [|injection H as <- <-; by left].
  case_decide as Hbusy; [injection H as <- <-; by left|]. injection H as <- <-. right.
  apply Decidable.not_or in Hbusy as [Hl%dec_stable Hc%dec_stable].
  assert (pending (app_queue a) = []) as Hp. { pose proof (qi_live _ _ Hq) as El. rewrite Hl in El. destruct (pending (app_queue a)); [done|]. cbn in El. lia. }
  apply records_ok_exact in Hrs as (Hok & _ & Hids & Hseqs).
  assert (length rs ≤ length (nodes (app_queue a)))%nat as Hfit by (rewrite (qi_nodes _ _ Hq); lia).
  assert (∀ q0, pending q0 = pending (app_queue a) ++ seq 0 (length rs) → nodes q0 = put_nodes 0 rs (nodes (app_queue a)) →
    pending_nodes q0 = node_of <$> rs) as Hpn.
  { intros q0 E1 E2. unfold pending_nodes. rewrite E1, E2, Hp. by apply omap_put_nodes. }
  assert (rs ≠ []) as Hne by (by intros ->). split_and!; try done; cbn; try lia; [|unfold pending_nodes; by rewrite Hp|rewrite Hp; by apply omap_put_nodes].
  split; [|by rewrite Hc]. split; cbn [nodes live pending coalesced q_seq q_id].
  - rewrite put_nodes_length. apply Hq.
  - rewrite Hp. cbn. by rewrite length_seq.
  - rewrite Hp. apply NoDup_seq.
  - intros j. rewrite Hp. cbn [app]. rewrite elem_of_seq, put_nodes_lookup by lia. case_decide as Hj.
    + split; [|lia]. intros _. destruct (lookup_lt_is_Some_2 rs (j - 0)) as [x Hx]; [lia|]. rewrite Hx. cbn. eauto.
    + split; [lia|]. intros (n & Hn & Hu). exfalso. assert (j ∈ pending (app_queue a)) as Hin by (apply (qi_used _ _ Hq); eauto).
      rewrite Hp in Hin. by apply elem_of_nil in Hin.
  - rewrite Hpn by done. rewrite <-list_fmap_compose. eapply (sorted_increasing _ _ (rec_seq final)); [done| |by rewrite fmap_last, Hlast|lia].
    apply Forall_fmap. eapply Forall_impl; [apply Forall_and; split; [exact Hok|exact Hraw]|].
    intros x [(_ & _ & _ & _ & _ & _ & Hz & _) (_ & [? ?] & _)]. cbn. lia.
  - rewrite Hpn by done. rewrite <-list_fmap_compose. eapply (sorted_increasing _ _ (rec_id final)); [done| |by rewrite fmap_last, Hlast|lia].
    apply Forall_fmap. eapply Forall_impl; [apply Forall_and; split; [exact Hok|exact Hraw]|].
    intros x [(_ & _ & _ & _ & Hz & _) ([? ?] & _)]. cbn. lia.
  - rewrite Hpn by done. apply Forall_fmap. eapply Forall_impl; [apply Forall_and; split; [exact Hok|exact Hraw]|].
    intros x [(_ & _ & Hz & Hk & _) (_ & _ & ?)]. cbn. unfold AOK_EVENT_KIND_LSFS in Hk. lia.
  - rewrite Hc. done.
  - destruct (qi_range _ _ Hq). lia.
Qed.

(** ** Reading *)

Lemma find_node_first P ns order l1 n l2 :
  omap (λ j, ns !! j) order = l1 ++ n :: l2 → Forall (λ m, P m = false) l1 → P n = true → ∃ i, find_node P ns order = Some (i, n).
Proof.
  revert l1. induction order as [|j order IH]; intros l1; cbn; [by destruct l1|]. destruct (ns !! j) as [m|] eqn:Hj; [|apply IH].
  destruct l1 as [|x l1]; cbn; intros [= -> E] Hl Hn; [rewrite Hn; by exists j|].
  apply Forall_cons in Hl as [-> Hl]. by eapply IH.
Qed.

Lemma find_node_nothing P ns order : Forall (λ m, P m = false) (omap (λ j, ns !! j) order) → find_node P ns order = None.
Proof.
  induction order as [|j order IH]; cbn; [done|]. destruct (ns !! j) as [m|]; [|done]. intros [-> H]%Forall_cons. by apply IH.
Qed.

(** A descriptor's reads until there is nothing more. *)
Fixpoint read_all (fuel : nat) (a : application) (h : app_file) : list event_record :=
  match fuel with
  | 0%nat => []
  | S fuel => match aok_app_read 72 a h with
              | (Ok (Some r), h') => r :: read_all fuel a h'
              | _ => []
              end
  end.

(** What is pending after the cursor is read in order, each event once. *)
Lemma read_all_exact a rights l1 l2 c fuel :
  Z.land rights AOK_RIGHT_READ ≠ 0 → pending_nodes (app_queue a) = l1 ++ l2 → StronglySorted Z.lt (n_seq <$> l2) →
  Forall (λ n, n_seq n ≤ c) l1 → Forall (λ n, c < n_seq n) l2 → (length l2 < fuel)%nat →
  read_all fuel a (mkAppFile rights c) = record_of (application_id a) <$> l2.
Proof.
  intros Hr. revert l1 l2 c. induction fuel as [|fuel IH]; intros l1 l2 c Hp Hs H1 H2 Hf; [lia|].
  assert (∀ n, n_seq n ≤ c → bool_decide (n_seq n > c) = false) as Hno by (intros n Hn; apply bool_decide_false; lia).
  cbn [read_all]. unfold aok_app_read, find_after. cbn [af_rights af_read_seq]. rewrite !decide_False by (done || lia).
  destruct l2 as [|n l2].
  - rewrite find_node_nothing; [done|]. unfold pending_nodes in Hp. rewrite Hp, app_nil_r. eapply Forall_impl; [exact H1|]. apply Hno.
  - apply Forall_cons in H2 as [Hn H2]. apply StronglySorted_inv in Hs as [Hs Hlt].
    destruct (find_node_first (λ n, bool_decide (n_seq n > c)) (nodes (app_queue a)) (pending (app_queue a)) l1 n l2) as [i ->].
    + exact Hp.
    + eapply Forall_impl; [exact H1|]. apply Hno.
    + apply bool_decide_true. lia.
    + cbn. f_equal. apply (IH (l1 ++ [n])); [by rewrite Hp, <-app_assoc|done| |exact (proj1 (Forall_fmap _ _ _) Hlt)|cbn in Hf; lia].
      apply Forall_app. split; [eapply Forall_impl; [exact H1|]; cbn; lia|constructor; [lia|done]].
Qed.

Lemma omap_bound {A B} (f : A → option B) (l : list A) : (length (omap f l) ≤ length l)%nat.
Proof. induction l as [|x l IH]; cbn; [done|]. destruct (f x); cbn; lia. Qed.

(** A fresh descriptor replays the whole queue. *)
Lemma replay_exact depth a rights :
  qcore depth (app_queue a) → Z.land rights AOK_RIGHT_READ ≠ 0 →
  read_all (S depth) a (mkAppFile rights 0) = record_of (application_id a) <$> pending_nodes (app_queue a).
Proof.
  intros Hq Hr. destruct (qi_seqs _ _ Hq) as [Hs Hb]. apply (read_all_exact _ _ [] _ 0); [done|done|done|done| |].
  - apply Forall_fmap in Hb. eapply Forall_impl; [exact Hb|]. cbn. lia.
  - pose proof (omap_bound (λ i, nodes (app_queue a) !! i) (pending (app_queue a))). unfold pending_nodes.
    pose proof (pending_bound _ _ Hq). lia.
Qed.

(** ** The registry *)

Inductive kop : Type :=
  | KCreateApp (may_manage : bool) (id koid : Z)
  | KCreateSource (may_manage : bool) (kind flags first_ns interval_ns koid : Z)
  | KExpire (source : nat)
  | KPost (rights arg : Z) (source : nat)
  | KAttach (rights : Z) (target : option (nat * Z)) (id : Z) (source : nat)
  | KSourceAck (rights event_id : Z) (source : nat)
  | KAppAck (rights event_id : Z) (app : nat)
  | KRestore (rights : Z) (records : list event_record) (app : nat).

Definition update_application (i : nat) (a : application) (k : registry) : registry := {| k with apps := <[i := a]> (apps k) |}.

Definition rexec (o : kop) (k : registry) : registry :=
  match o with
  | KCreateApp m id koid => snd (aok_application_create m id koid k)
  | KCreateSource m kind flags first interval koid => snd (aok_event_source_create m kind flags first interval koid k)
  | KExpire i => aok_source_deliver_locked 0 i k
  | KPost rights arg i => snd (aok_event_post rights arg i k)
  | KAttach rights target id i => snd (aok_event_attach rights target id i k)
  | KSourceAck rights id i => snd (aok_event_ack rights id i k)
  | KAppAck rights id i => on_app (λ q, snd (aok_app_ack rights id q)) i k
  | KRestore rights rs i => match apps k !! i with
                            | Some a => update_application i (snd (aok_application_restore rights rs a)) k
                            | None => k
                            end
  end.

(** What the types give, and that the numbers are not used up. *)
Definition kadmissible (k : registry) (o : kop) : Prop :=
  Forall (λ a, room (app_queue a)) (apps k) ∧ Forall (λ s, room (src_queue s)) (sources k) ∧
  match o with KRestore _ rs _ => Forall raw_u64 rs | _ => True end.

Record rinv (k : registry) : Prop := {
  ri_apps : Forall (λ a, qinv AOK_APP_QUEUE_DEPTH (app_queue a) ∧ application_id a ≠ 0) (apps k);
  ri_sources : Forall (λ s, qinv AOK_EVENT_SOURCE_DEPTH (src_queue s) ∧ 1 ≤ src_kind s ≤ 3) (sources k);
  ri_attached : Forall (λ s, ∀ a, src_app s = Some a → (a < length (apps k))%nat) (sources k);
  ri_ids : NoDup (application_id <$> apps k);
}.

(** The events that are not acknowledged stay. *)
Definition keeps (acks : Z → Prop) (q q' : queue) : Prop :=
  ∀ n, n ∈ pending_nodes q → ¬ acks (n_id n) → n ∈ pending_nodes q'.

Lemma keeps_refl acks q : keeps acks q q.
Proof. by intros n. Qed.

(** The acknowledgements an operation makes at the application in this place. *)
Definition acks_of (k : registry) (o : kop) (i : nat) (id : Z) : Prop :=
  match o with
  | KAppAck _ id' i' => id' = id ∧ i' = i
  | KSourceAck _ id' s => id' = id ∧ ∃ src, sources k !! s = Some src ∧ src_app src = Some i
  | _ => False
  end.

Lemma empty_qinv depth : qinv depth (empty_queue depth).
Proof.
  split; [|done]. split; cbn; try done; try lia.
  - apply length_replicate.
  - apply NoDup_nil_2.
  - intros i. split; [by intros ?%elem_of_nil|]. intros (n & Hn & Hu). apply lookup_replicate in Hn as [-> _]. done.
  - split; [constructor|done].
  - split; [constructor|done].
Qed.

Lemma fire_keeps acks kind data koid q :
  qinv AOK_APP_QUEUE_DEPTH q → room q → 1 ≤ kind ≤ 3 →
  qinv AOK_APP_QUEUE_DEPTH (aok_app_fire_locked kind data koid q) ∧ keeps acks q (aok_app_fire_locked kind data koid q).
Proof.
  intros Hq Hr Hk. unfold aok_app_fire_locked.
  destruct (fire_exact AOK_APP_QUEUE_DEPTH kind data koid q Hq Hr Hk) as (Hinv & _ & Hp). split; [done|].
  intros n Hn _. rewrite Hp. apply elem_of_app. by left.
Qed.

Lemma ack_keeps acks id i n q :
  qinv AOK_APP_QUEUE_DEPTH q → room q → find_id id q = Some (i, n) → acks id →
  qinv AOK_APP_QUEUE_DEPTH (aok_app_flush_locked (release i q)) ∧ keeps acks q (aok_app_flush_locked (release i q)).
Proof.
  intros Hq Hr Hf Ha. unfold aok_app_flush_locked.
  destruct (ack_exact AOK_APP_QUEUE_DEPTH AOK_EVENT_KIND_TIMER 0 id i n q Hq Hr ltac:(unfold AOK_EVENT_KIND_TIMER; lia) Hf)
    as (Hinv & <- & _ & l1 & l2 & Hp & Hp'). split; [done|]. intros m Hm Hno. rewrite Hp'.
  rewrite Hp in Hm. apply elem_of_app in Hm as [Hm|[->|Hm]%elem_of_cons]; [|done|]; rewrite !elem_of_app; auto.
Qed.

(** The effect of a step on the registry. *)
Definition steps_well (k : registry) (acks : nat → Z → Prop) (k' : registry) : Prop :=
  rinv k' ∧ ∀ i a, apps k !! i = Some a → ∃ a', apps k' !! i = Some a' ∧ application_id a' = application_id a ∧
    keeps (acks i) (app_queue a) (app_queue a').

Lemma stays k acks : rinv k → steps_well k acks k.
Proof. intros Hk. split; [done|]. intros i a Ha. exists a. split_and!; [done|done|apply keeps_refl]. Qed.

Lemma replace_app k acks i a a' :
  rinv k → apps k !! i = Some a → application_id a' = application_id a → qinv AOK_APP_QUEUE_DEPTH (app_queue a') →
  keeps (acks i) (app_queue a) (app_queue a') → steps_well k acks (update_application i a' k).
Proof.
  intros Hk Ha Hid Hq Hc. split.
  - destruct Hk as [H1 H2 H3 H4]. split; cbn; [|done|by rewrite length_insert|].
    + apply Forall_insert; [done|]. split; [done|]. rewrite Hid. by apply (Forall_lookup_1 _ _ _ _ H1 Ha).
    + rewrite list_fmap_insert, Hid, list_insert_id; [done|]. by rewrite list_lookup_fmap, Ha.
  - intros j b Hb. cbn. destruct (decide (j = i)) as [->|Hj].
    + rewrite list_lookup_insert_eq by (by eapply lookup_lt_Some). rewrite Ha in Hb. injection Hb as <-. by exists a'.
    + rewrite list_lookup_insert_ne by done. exists b. split_and!; [done|done|apply keeps_refl].
Qed.

Lemma on_app_well k acks f i :
  rinv k → (∀ a, apps k !! i = Some a → qinv AOK_APP_QUEUE_DEPTH (f (app_queue a)) ∧ keeps (acks i) (app_queue a) (f (app_queue a))) →
  steps_well k acks (on_app f i k).
Proof.
  intros Hk Hf. unfold on_app. destruct (apps k !! i) as [a|] eqn:Ha.
  - destruct (Hf a eq_refl) as [Hq Hc].
    assert (alter (λ a, {| a with app_queue := f (app_queue a) |}) i (apps k) = <[i := {| a with app_queue := f (app_queue a) |}]> (apps k)) as ->.
    { apply list_eq. intros j. destruct (decide (j = i)) as [->|Hj].
      - rewrite list_lookup_alter_eq, list_lookup_insert_eq by (by eapply lookup_lt_Some). by rewrite Ha.
      - by rewrite list_lookup_alter_ne, list_lookup_insert_ne. }
    by apply (replace_app k acks i a).
  - assert (alter (λ a, {| a with app_queue := f (app_queue a) |}) i (apps k) = apps k) as ->.
    { apply list_eq. intros j. destruct (decide (j = i)) as [->|Hj]; [by rewrite list_lookup_alter_eq, Ha|by rewrite list_lookup_alter_ne]. }
    destruct k. by apply stays.
Qed.

Lemma on_source_well k acks f i :
  rinv k → (∀ s, sources k !! i = Some s → qinv AOK_EVENT_SOURCE_DEPTH (src_queue (f s)) ∧ src_kind (f s) = src_kind s ∧
    ∀ a, src_app (f s) = Some a → (a < length (apps k))%nat) →
  steps_well k acks (on_source f i k).
Proof.
  intros Hk Hf. split; [|intros j a Ha; exists a; split_and!; [done|done|apply keeps_refl]].
  destruct Hk as [H1 H2 H3 H4]. split; cbn; [done| | |done].
  - apply Forall_alter; [done|]. intros s Hs [_ Hkind]. destruct (Hf s Hs) as (Hq & -> & _). done.
  - apply Forall_alter; [done|]. intros s Hs _. by apply Hf.
Qed.

Lemma find_app_None id i l : find_app id i l = None → id ∉ application_id <$> l.
Proof.
  revert i. induction l as [|a l IH]; intros i; cbn; [intros _; by apply not_elem_of_nil|]. case_decide as Ha; [done|].
  intros Hl%IH. apply not_elem_of_cons. split; [congruence|done].
Qed.

Lemma rinv_lookups k i a : rinv k → apps k !! i = Some a → qinv AOK_APP_QUEUE_DEPTH (app_queue a).
Proof. intros Hk Ha. by apply (Forall_lookup_1 _ _ _ _ (ri_apps _ Hk) Ha). Qed.

Lemma rinv_source k i s :
  rinv k → sources k !! i = Some s → qinv AOK_EVENT_SOURCE_DEPTH (src_queue s) ∧ 1 ≤ src_kind s ≤ 3 ∧
    ∀ a, src_app s = Some a → (a < length (apps k))%nat.
Proof.
  intros Hk Hs. destruct (Forall_lookup_1 _ _ _ _ (ri_sources _ Hk) Hs) as [? ?]. split_and!; [done|lia|lia|].
  apply (Forall_lookup_1 _ _ _ _ (ri_attached _ Hk) Hs).
Qed.

Lemma create_app_well m id koid k acks : rinv k → steps_well k acks (snd (aok_application_create m id koid k)).
Proof.
  intros Hk. unfold aok_application_create. case_decide as Hid; [by apply stays|]. destruct (negb m); [by apply stays|].
  destruct (find_app id 0 (apps k)) eqn:Hf; [by apply stays|]. split.
  - destruct Hk as [H1 H2 H3 H4]. split; cbn; [|done| |].
    + apply Forall_app. split; [done|]. constructor; [|done]. split; [apply empty_qinv|done].
    + eapply Forall_impl; [exact H3|]. cbn. intros s Hs a Ha. rewrite length_app. specialize (Hs a Ha). cbn. lia.
    + rewrite fmap_app. apply NoDup_app. split_and!; [done| |apply NoDup_singleton].
      intros x Hx ->%list_elem_of_singleton. by apply find_app_None in Hf.
  - intros i a Ha. exists a. split_and!; [by apply lookup_app_l_Some|done|apply keeps_refl].
Qed.

Lemma create_source_well m kind flags first interval koid k acks :
  rinv k → steps_well k acks (snd (aok_event_source_create m kind flags first interval koid k)).
Proof.
  intros Hk. unfold aok_event_source_create. destruct (source_attr_ok kind flags first interval) eqn:Hok; cbn [negb]; [|by apply stays].
  destruct (negb m); [by apply stays|]. split; [|intros i a Ha; exists a; split_and!; [done|done|apply keeps_refl]].
  destruct Hk as [H1 H2 H3 H4]. split; cbn; [done| | |done].
  - apply Forall_app. split; [done|]. constructor; [|done]. split; [apply empty_qinv|]. unfold source_attr_ok in Hok.
    unfold AOK_EVENT_KIND_PORT, AOK_EVENT_KIND_LSFS, AOK_EVENT_KIND_TIMER in Hok. repeat case_decide; try done; cbn; lia.
  - apply Forall_app. split; [done|]. by constructor.
Qed.

Lemma source_fire_well k acks data i s :
  rinv k → sources k !! i = Some s → room (src_queue s) → steps_well k acks (on_source (aok_source_fire_locked data) i k).
Proof.
  intros Hk Hs Hr. apply on_source_well; [done|]. intros s' Hs'. rewrite Hs in Hs'. injection Hs' as <-.
  destruct (rinv_source _ _ _ Hk Hs) as (Hq & Hkind & Ha). split_and!; [|done|done]. by apply fire_exact.
Qed.

Lemma app_fire_well k acks kind data koid i :
  rinv k → Forall (λ a, room (app_queue a)) (apps k) → 1 ≤ kind ≤ 3 → steps_well k acks (on_app (aok_app_fire_locked kind data koid) i k).
Proof.
  intros Hk Hr Hkind. apply on_app_well; [done|]. intros a Ha. apply fire_keeps; [by eapply rinv_lookups| |done].
  exact (Forall_lookup_1 _ _ _ _ Hr Ha).
Qed.

Lemma source_ack_well rights id i k :
  rinv k → kadmissible k (KSourceAck rights id i) → steps_well k (acks_of k (KSourceAck rights id i)) (snd (aok_event_ack rights id i k)).
Proof.
  intros Hk (Hra & Hrs & _). unfold aok_event_ack. destruct (sources k !! i) as [s|] eqn:Hs; [|by apply stays].
  case_decide; [by apply stays|]. destruct (rinv_source _ _ _ Hk Hs) as (Hq & Hkind & Hatt).
  destruct (src_app s) as [a|] eqn:Hsa; cbn.
  - destruct (lookup_lt_is_Some_2 (apps k) a) as [x Hx]; [by apply Hatt|]. rewrite Hx. cbn. case_decide; [by apply stays|].
    destruct (find_id id (app_queue x)) as [[n node]|] eqn:Hf; [|by apply stays]. cbn. apply on_app_well; [done|].
    intros x' Hx'. rewrite Hx in Hx'. injection Hx' as <-. eapply ack_keeps; [by eapply rinv_lookups| |done|].
    + exact (Forall_lookup_1 _ _ _ _ Hra Hx).
    + split; [done|]. by exists s.
  - case_decide; [by apply stays|]. destruct (find_id id (src_queue s)) as [[n node]|] eqn:Hf; [|by apply stays]. cbn.
    apply on_source_well; [done|]. intros s' Hs'. rewrite Hs in Hs'. injection Hs' as <-. split_and!; [|done|by rewrite Hsa].
    apply (ack_exact _ _ _ id n node); [done| |done|done]. exact (Forall_lookup_1 _ _ _ _ Hrs Hs).
Qed.

Lemma step_well o k : rinv k → kadmissible k o → steps_well k (acks_of k o) (rexec o k).
Proof.
  intros Hk Hadm. pose proof Hadm as (Hra & Hrs & Hraw). destruct o as [m id koid|m kind flags first interval koid|i|rights arg i|rights target id i|rights id i|rights id i|rights rs i]; cbn [rexec].
  - by apply create_app_well.
  - by apply create_source_well.
  - unfold aok_source_deliver_locked. destruct (sources k !! i) as [s|] eqn:Hs; [|by apply stays].
    destruct (rinv_source _ _ _ Hk Hs) as (Hq & Hkind & _). destruct (src_app s); [by apply app_fire_well|].
    eapply source_fire_well; [done|done|]. exact (Forall_lookup_1 _ _ _ _ Hrs Hs).
  - unfold aok_event_post. destruct (sources k !! i) as [s|] eqn:Hs; [|by apply stays]. case_decide; [by apply stays|].
    case_decide; [by apply stays|]. destruct (rinv_source _ _ _ Hk Hs) as (Hq & Hkind & _). destruct (src_app s).
    + case_decide; [by apply stays|]. by apply app_fire_well.
    + case_decide; [by apply stays|]. eapply source_fire_well; [done|done|]. exact (Forall_lookup_1 _ _ _ _ Hrs Hs).
  - unfold aok_event_attach. destruct (sources k !! i) as [s|] eqn:Hs; [|by apply stays]. case_decide; [by apply stays|].
    destruct (rinv_source _ _ _ Hk Hs) as (Hq & Hkind & Hatt).
    assert (∀ app id', (∀ a, app = Some a → (a < length (apps k))%nat) →
      steps_well k (acks_of k (KAttach rights target id i)) (snd (let '(r, s') := aok_source_attach app id' s in (r, on_source (λ _, s') i k)))) as Hattach.
    { intros app id' Happ. unfold aok_source_attach. repeat case_decide; cbn; (apply on_source_well; [done|]);
        intros s' Hs'; rewrite Hs in Hs'; injection Hs' as <-; done. }
    destruct target as [[a r]|]; [|case_decide; [by apply stays|by apply Hattach]].
    case_decide; [by apply stays|]. case_decide as Hid; [by apply stays|]. apply Hattach. intros a' [= <-].
    destruct (apps k !! a) eqn:Ha; [by eapply lookup_lt_Some|]. by cbn in Hid.
  - by apply source_ack_well.
  - apply on_app_well; [done|]. intros a Ha. pose proof (rinv_lookups _ _ _ Hk Ha) as Hq. pose proof (Forall_lookup_1 _ _ _ _ Hra Ha) as Hr.
    destruct (aok_app_ack rights id (app_queue a)) as [r q'] eqn:E. cbn. destruct (app_ack_exact _ _ _ _ _ Hq Hr E) as [Hinv Hcase].
    split; [done|]. destruct (find_id id (app_queue a)) as [[n node]|] eqn:Hf; [|rewrite Hcase; apply keeps_refl].
    destruct r; [|rewrite Hcase; apply keeps_refl]. rewrite Hcase. by eapply ack_keeps.
  - destruct (apps k !! i) as [a|] eqn:Ha; [|by apply stays]. pose proof (rinv_lookups _ _ _ Hk Ha) as Hq.
    destruct (aok_application_restore rights rs a) as [r a'] eqn:E. cbn.
    destruct (restore_exact _ _ _ _ _ Hq Hraw E) as [[-> _]|(_ & _ & Hinv & Hp & Hid & _ & Hc & _)]; apply (replace_app k _ i a); try done; [apply keeps_refl|].
    intros n Hn. rewrite Hp in Hn. by apply elem_of_nil in Hn.
Qed.
