(* ===== verification/AppQueueSpec.v ===== *)
(** * The kernel's event queues as lists, and that the node arrays implement them

    What the event sources and the applications promise, without nodes, links and
    counters: a queue is the list of its events, the number of those that were merged for
    want of room, and the last numbers it gave.  Every operation of the registry, its
    error included, is the operation of this specification on what the registry stands for. *)

From stdpp Require Import base tactics option list sets strings numbers pretty sorting.
From S2P Require Import Prelude Ainf AppQueue AppQueueProofs.

Local Open Scope Z_scope.

(** ** The specification *)

Record aqueue := mkAQueue { aq_events : list app_node; aq_merged : Z; aq_id : Z; aq_seq : Z }.
Record aapp := mkAApp { aa_koid : Z; aa_id : Z; aa_queue : aqueue }.
Record asource := mkASource { as_koid : Z; as_kind : Z; as_label : Z; as_app : option nat; as_queue : aqueue }.
Record aregistry := mkARegistry { a_apps : list aapp; a_sources : list asource }.

Definition no_events : aqueue := mkAQueue [] 0 0 0.

(** One more event, with the next numbers. *)
Definition append_event (kind data koid count : Z) (q : aqueue) : aqueue :=
  mkAQueue (aq_events q ++ [mkNode true (aq_id q + 1) (aq_seq q + 1) koid kind count data]) (aq_merged q) (aq_id q + 1) (aq_seq q + 1).

(** An event comes: it is appended, or counted when the queue is full. *)
Definition spec_fire (depth : nat) (kind data koid : Z) (q : aqueue) : aqueue :=
  if decide (length (aq_events q) < depth)%nat then append_event kind data koid 1 q
  else {| q with aq_merged := aq_merged q + 1 |}.

(** An event is acknowledged: it is taken out, and what was merged becomes the last event.
    A number that was never given is an error; one that is gone is not. *)
Definition spec_ack (kind koid id : Z) (q : aqueue) : result errno unit * aqueue :=
  if decide (aq_id q < id) then (Err E_INVAL, q)
  else if decide (id ∉ n_id <$> aq_events q) then (Ok (), q)
  else
    let q := {| q with aq_events := filter (λ n, n_id n ≠ id) (aq_events q) |} in
    (Ok (), if decide (aq_merged q = 0) then q else {| (append_event kind 0 koid (aq_merged q) q) with aq_merged := 0 |}).

(** Saved events are put back into a queue that has none. *)
Definition spec_restore (app : Z) (rs : list event_record) (q : aqueue) : result errno unit * aqueue :=
  match list.last rs with
  | None => (Ok (), q)
  | Some final =>
      if negb (records_ok app None rs) then (Err E_INVAL, q)
      else if decide (aq_events q ≠ [] ∨ aq_merged q ≠ 0) then (Err E_BUSY, q)
      else (Ok (), mkAQueue (node_of <$> rs) 0 (Z.max (rec_id final) (aq_id q)) (Z.max (rec_seq final) (aq_seq q)))
  end.

Definition a_on_app (f : aqueue → aqueue) (i : nat) (k : aregistry) : aregistry :=
  {| k with a_apps := alter (λ a, {| a with aa_queue := f (aa_queue a) |}) i (a_apps k) |}.

Definition a_on_source (f : asource → asource) (i : nat) (k : aregistry) : aregistry :=
  {| k with a_sources := alter f i (a_sources k) |}.

Definition on_own_queue (f : aqueue → aqueue) (s : asource) : asource := {| s with as_queue := f (as_queue s) |}.

(** The event of a source goes to its application, or to its own queue. *)
Definition spec_deliver (data : Z) (i : nat) (s : asource) (k : aregistry) : aregistry :=
  match as_app s with
  | Some a => a_on_app (spec_fire 128 (as_kind s) data (as_koid s)) a k
  | None => a_on_source (on_own_queue (spec_fire 64 (as_kind s) data (as_koid s))) i k
  end.

Definition spec_full (s : asource) (k : aregistry) : Prop :=
  match as_app s with
  | Some a => (λ a, length (aq_events (aa_queue a))) <$> a_apps k !! a = Some 128%nat
  | None => length (aq_events (as_queue s)) = 64%nat
  end.

#[export] Instance spec_full_dec s k : Decision (spec_full s k).
Proof. unfold spec_full. destruct (as_app s); apply _. Defined.

(** The attributes of a source: a port or an LSFS source has no time, a timer is one-shot
    or has an interval. *)
Definition spec_attr (kind flags first_ns interval_ns : Z) : Prop :=
  (kind = 2 ∨ kind = 3) ∧ flags = 0 ∧ first_ns = 0 ∧ interval_ns = 0 ∨
  kind = 1 ∧ (flags = 0 ∧ interval_ns = 0 ∨ flags = 1 ∧ interval_ns ≠ 0).

#[export] Instance spec_attr_dec kind flags first interval : Decision (spec_attr kind flags first interval).
Proof. unfold spec_attr. apply _. Defined.

Definition may_write (rights : Z) : Prop := Z.testbit rights 9 = true.
Definition may_read (rights : Z) : Prop := Z.testbit rights 8 = true.

#[export] Instance may_write_dec rights : Decision (may_write rights).
Proof. unfold may_write. apply _. Defined.
#[export] Instance may_read_dec rights : Decision (may_read rights).
Proof. unfold may_read. apply _. Defined.

Definition spec_attach (app : option nat) (label : Z) (i : nat) (s : asource) (k : aregistry) : result errno nat * aregistry :=
  if decide (aq_events (as_queue s) ≠ [] ∨ aq_merged (as_queue s) ≠ 0) then (Err E_BUSY, k)
  else (Ok 0%nat, a_on_source (λ s, {| s with as_app := app; as_label := label |}) i k).

Definition unit_result (r : result errno unit) : result errno nat := match r with Ok _ => Ok 0%nat | Err e => Err e end.

(** The operations of the registry. *)
Definition kspec (o : kop) (k : aregistry) : result errno nat * aregistry :=
  match o with
  | KCreateApp m id koid =>
      if decide (id = 0) then (Err E_INVAL, k)
      else if negb m then (Err E_ACCES, k)
      else match list_find (λ a, aa_id a = id) (a_apps k) with
           | Some (i, _) => (Ok i, k)
           | None => (Ok (length (a_apps k)), {| k with a_apps := a_apps k ++ [mkAApp koid id no_events] |})
           end
  | KCreateSource m kind flags first interval koid =>
      if decide (¬ spec_attr kind flags first interval) then (Err E_INVAL, k)
      else if negb m then (Err E_ACCES, k)
      else (Ok (length (a_sources k)), {| k with a_sources := a_sources k ++ [mkASource koid kind 0 None no_events] |})
  | KExpire i =>
      match a_sources k !! i with
      | None => (Ok 0%nat, k)
      | Some s => (Ok 0%nat, spec_deliver 0 i s k)
      end
  | KPost rights arg i =>
      match a_sources k !! i with
      | None => (Err E_INVAL, k)
      | Some s =>
          if decide (¬ may_write rights) then (Err E_ACCES, k)
          else if decide (as_kind s = 1 ∨ as_kind s = 2 ∧ arg ≠ 0) then (Err E_INVAL, k)
          else if decide (spec_full s k) then (Err E_AGAIN, k)
          else (Ok 0%nat, spec_deliver arg i s k)
      end
  | KAttach rights target id i =>
      match a_sources k !! i with
      | None => (Err E_INVAL, k)
      | Some s =>
          if decide (¬ may_write rights) then (Err E_ACCES, k)
          else match target with
               | None => if decide (id ≠ 0) then (Err E_INVAL, k) else spec_attach None 0 i s k
               | Some (a, app_rights) =>
                   if decide (¬ (may_read app_rights ∧ may_write app_rights)) then (Err E_ACCES, k)
                   else if decide (aa_id <$> a_apps k !! a ≠ Some id) then (Err E_INVAL, k)
                   else spec_attach (Some a) id i s k
               end
      end
  | KSourceAck rights id i =>
      match a_sources k !! i with
      | None => (Err E_INVAL, k)
      | Some s =>
          if decide (¬ may_write rights) then (Err E_ACCES, k)
          else match (a ← as_app s; (λ x, (a, aa_queue x)) <$> a_apps k !! a) with
               | Some (a, q) => (unit_result (fst (spec_ack 1 0 id q)), a_on_app (λ q, snd (spec_ack 1 0 id q)) a k)
               | None =>
                   (unit_result (fst (spec_ack (as_kind s) (as_koid s) id (as_queue s))),
                    a_on_source (on_own_queue (λ q, snd (spec_ack (as_kind s) (as_koid s) id q))) i k)
               end
      end
  | KAppAck rights id i =>
      match a_apps k !! i with
      | None => (Err E_INVAL, k)
      | Some a =>
          if decide (¬ may_write rights) then (Err E_ACCES, k)
          else (unit_result (fst (spec_ack 1 0 id (aa_queue a))), a_on_app (λ q, snd (spec_ack 1 0 id q)) i k)
      end
  | KRestore rights rs i =>
      match a_apps k !! i with
      | None => (Err E_INVAL, k)
      | Some a =>
          if decide (128 < length rs)%nat then (Err E_INVAL, k)
          else if decide (¬ may_write rights) then (Err E_ACCES, k)
          else (unit_result (fst (spec_restore (aa_id a) rs (aa_queue a))),
                a_on_app (λ q, snd (spec_restore (aa_id a) rs q)) i k)
      end
  end.

(** ** What a registry stands for *)

Definition abs_queue (q : queue) : aqueue := mkAQueue (pending_nodes q) (coalesced q) (q_id q) (q_seq q).
Definition abs_app (a : application) : aapp := mkAApp (app_koid a) (application_id a) (abs_queue (app_queue a)).
Definition abs_source (s : event_source) : asource :=
  mkASource (src_koid s) (src_kind s) (src_label s) (src_app s) (abs_queue (src_queue s)).
Definition abs (k : registry) : aregistry := mkARegistry (abs_app <$> apps k) (abs_source <$> sources k).

(** What an operation returns; an operation on a descriptor that is not there is refused. *)
Definition rresult (o : kop) (k : registry) : result errno nat :=
  match o with
  | KCreateApp m id koid => fst (aok_application_create m id koid k)
  | KCreateSource m kind flags first interval koid => fst (aok_event_source_create m kind flags first interval koid k)
  | KExpire i => Ok 0%nat
  | KPost rights arg i => unit_result (fst (aok_event_post rights arg i k))
  | KAttach rights target id i => unit_result (fst (aok_event_attach rights target id i k))
  | KSourceAck rights id i => unit_result (fst (aok_event_ack rights id i k))
  | KAppAck rights id i => match apps k !! i with
                           | Some a => unit_result (fst (aok_app_ack rights id (app_queue a)))
                           | None => Err E_INVAL
                           end
  | KRestore rights rs i => match apps k !! i with
                            | Some a => unit_result (fst (aok_application_restore rights rs a))
                            | None => Err E_INVAL
                            end
  end.

(** ** One queue *)

Lemma pending_nodes_length depth q : qcore depth q → length (pending_nodes q) = length (pending q).
Proof.
  intros Hq. unfold pending_nodes. pose proof (qi_used _ _ Hq) as Hu.
  assert (∀ i, i ∈ pending q → is_Some (nodes q !! i)) as H by (intros i (n & -> & _)%Hu; eauto). clear Hu Hq.
  induction (pending q) as [|i l IH]; [done|]. cbn. destruct (H i) as [n ->]; [by left|]. cbn. f_equal. apply IH.
  intros j Hj. apply H. by right.
Qed.

Lemma live_length depth q : qcore depth q → live q = Z.of_nat (length (pending_nodes q)).
Proof. intros Hq. by rewrite (pending_nodes_length depth q Hq), (qi_live _ _ Hq). Qed.

Lemma abs_take depth kind data koid count q :
  qcore depth q → room q → live q < Z.of_nat depth → 0 ≤ count ≤ 4294967295 →
  abs_queue (take_node kind data koid count q) = append_event kind data koid count (abs_queue q).
Proof.
  intros Hq (H1 & H2 & _) Hl Hc. destruct (take_node_exact depth kind data koid count q Hq Hl) as (Ep & Ec & _).
  destruct (free_node_found _ _ Hq Hl) as (i & n & Ef & _). destruct (qi_range _ _ Hq).
  assert (u64 (q_id q + 1) = q_id q + 1) as E1 by (apply u64_small; lia).
  assert (u64 (q_seq q + 1) = q_seq q + 1) as E2 by (apply u64_small; lia).
  assert (u32 count = count) as E3 by (unfold u32; rewrite Z.mod_small; lia).
  unfold abs_queue, append_event. rewrite Ep, Ec. unfold new_node. rewrite E1, E2, E3. cbn. unfold take_node. rewrite Ef. cbn. by rewrite E1, E2.
Qed.

Lemma abs_fire depth kind data koid q :
  qinv depth q → room q → abs_queue (fire depth kind data koid q) = spec_fire depth kind data koid (abs_queue q).
Proof.
  intros [Hq _] Hr. unfold fire, spec_fire. pose proof (live_length _ _ Hq) as Hl. cbn [abs_queue aq_events]. case_decide; case_decide; try lia.
  - unfold abs_queue. cbn. destruct Hr as (_ & _ & Hr). pose proof (qi_count _ _ Hq).
    rewrite u64_small by (unfold MaxUint64; lia). done.
  - apply (abs_take depth); [done|done|lia|lia].
Qed.

Lemma sorted_filter (l1 l2 : list app_node) n :
  StronglySorted Z.lt (n_id <$> l1 ++ n :: l2) → filter (λ m, n_id m ≠ n_id n) (l1 ++ n :: l2) = l1 ++ l2.
Proof.
  intros Hs. rewrite filter_app, filter_cons_False by (intros H; by apply H). f_equal.
  - induction l1 as [|m l1 IH]; [done|]. cbn in Hs. apply StronglySorted_inv in Hs as [Hs Hm].
    rewrite fmap_app in Hm. apply Forall_app in Hm as [_ Hm]. cbn in Hm. apply Forall_cons in Hm as [Hm _].
    rewrite filter_cons_True by lia. by rewrite IH.
  - assert (StronglySorted Z.lt (n_id n :: (n_id <$> l2))) as Hs2.
    { clear -Hs. induction l1 as [|m l1 IH]; [done|]. cbn in Hs. apply StronglySorted_inv in Hs as [Hs _]. by apply IH. }
    apply StronglySorted_inv in Hs2 as [_ Hl]. clear Hs. induction l2 as [|m l2 IH]; [done|]. cbn in Hl. apply Forall_cons in Hl as [Hm Hl].
    rewrite filter_cons_True by lia. by rewrite IH.
Qed.

Lemma abs_flush depth kind koid q :
  qcore depth q → room q → live q < Z.of_nat depth →
  abs_queue (flush depth kind koid q) =
    if decide (coalesced q = 0) then abs_queue q else {| (append_event kind 0 koid (coalesced q) (abs_queue q)) with aq_merged := 0 |}.
Proof.
  intros Hq Hr Hl. unfold flush. destruct (decide (coalesced q = 0)) as [Hz|Hz]; [rewrite decide_True by (by left); done|].
  rewrite decide_False by (intros [?|?]; [done|lia]). destruct (free_node_found _ _ Hq Hl) as (i & n & Ef & _). rewrite Ef.
  pose proof (qi_count _ _ Hq). rewrite <-(abs_take depth kind 0 koid (coalesced q) q Hq Hr Hl); [done|]. destruct Hr as (_ & _ & ?). lia.
Qed.

(** What the two acknowledgements have in common. *)
Lemma abs_ack depth kind koid id q :
  qinv depth q → room q →
  spec_ack kind koid id (abs_queue q) =
    if decide (q_id q < id) then (Err E_INVAL, abs_queue q)
    else match find_id id q with
         | Some (i, _) => (Ok (), abs_queue (flush depth kind koid (release i q)))
         | None => (Ok (), abs_queue q)
         end.
Proof.
  intros [Hq Hfull] Hr. unfold spec_ack. cbn [abs_queue aq_id aq_events]. case_decide; [done|].
  destruct (find_id id q) as [[i n]|] eqn:Hf.
  - apply find_node_Some in Hf as (Hi & Hn & Hid%bool_decide_eq_true).
    destruct (release_core _ _ _ _ Hq Hi Hn) as [Hc Hl]. destruct (release_exact _ _ _ _ Hq Hi Hn) as (l1 & l2 & _ & _ & Hns & Hns').
    rewrite decide_False.
    2: { intros Hno. apply Hno. rewrite <-Hid. apply list_elem_of_fmap_2. rewrite Hns. apply elem_of_app. right. left. }
    assert (live q ≤ Z.of_nat depth) as Hle by (rewrite (qi_live _ _ Hq); apply inj_le; by apply pending_bound).
    rewrite (abs_flush depth kind koid (release i q) Hc Hr ltac:(lia)). change (coalesced (release i q)) with (coalesced q).
    assert (filter (λ n, n_id n ≠ id) (pending_nodes q) = pending_nodes (release i q)) as ->.
    { rewrite Hns', <-Hid, Hns. apply sorted_filter. rewrite <-Hns. apply (qi_ids _ _ Hq). }
    done.
  - rewrite decide_True; [done|]. intros (m & Em & Hm)%list_elem_of_fmap. apply find_node_None in Hf.
    rewrite Forall_forall in Hf. specialize (Hf m Hm). cbn in Hf. apply bool_decide_eq_false in Hf. by subst.
Qed.

Lemma abs_app_ack rights id q :
  qinv AOK_APP_QUEUE_DEPTH q → room q → Z.land rights AOK_RIGHT_WRITE ≠ 0 →
  fst (aok_app_ack rights id q) = fst (spec_ack 1 0 id (abs_queue q)) ∧
  abs_queue (snd (aok_app_ack rights id q)) = snd (spec_ack 1 0 id (abs_queue q)).
Proof.
  intros Hq Hr Hw. rewrite (abs_ack AOK_APP_QUEUE_DEPTH 1 0 id q Hq Hr).
  unfold aok_app_ack, aok_app_ack_locked. rewrite decide_False by done.
  destruct (decide (q_id q < id)); [by rewrite decide_True by lia|]. rewrite decide_False by lia.
  destruct (find_id id q) as [[i x]|]; [|done]. case_bool_decide as Hz; [done|]. cbn [fst snd].
  by rewrite (flush_none _ _ _ (release i q) Hz).
Qed.

Lemma abs_restore rights rs a :
  qinv AOK_APP_QUEUE_DEPTH (app_queue a) → Forall raw_u64 rs → (length rs ≤ 128)%nat → Z.land rights AOK_RIGHT_WRITE ≠ 0 →
  fst (aok_application_restore rights rs a) = fst (spec_restore (application_id a) rs (abs_queue (app_queue a))) ∧
  abs_app (snd (aok_application_restore rights rs a)) =
    {| (abs_app a) with aa_queue := snd (spec_restore (application_id a) rs (abs_queue (app_queue a))) |}.
Proof.
  intros Hq Hraw Hl Hw. destruct (aok_application_restore rights rs a) as [r a'] eqn:E.
  pose proof (restore_exact _ _ _ _ _ Hq Hraw E) as Hres. unfold aok_application_restore in E.
  rewrite decide_False in E by (unfold AOK_APP_QUEUE_DEPTH; lia). rewrite decide_False in E by done. unfold spec_restore.
  destruct (list.last rs) as [final|] eqn:Hlast; [|by injection E as <- <-].
  destruct (negb (records_ok (application_id a) None rs)); [by injection E as <- <-|].
  cbn [abs_queue aq_events aq_merged]. destruct Hq as [Hq _]. pose proof (live_length _ _ Hq) as Hlive.
  assert (live (app_queue a) = 0 ↔ pending_nodes (app_queue a) = []) as Hnil.
  { rewrite Hlive. destruct (pending_nodes (app_queue a)); cbn; [done|]. split; [lia|done]. }
  case_decide as Hb.
  - injection E as <- <-. rewrite decide_True by (by rewrite <-Hnil). done.
  - injection E as <- <-. rewrite decide_False by (by rewrite <-Hnil). split; [done|].
    destruct Hres as [[_ Hn]|(_ & _ & _ & _ & _ & Hp & Hc & _)]; [by rewrite (Hn eq_refl) in Hlast|].
    cbn [app_queue coalesced] in Hp, Hc. unfold abs_app, abs_queue. cbn [snd app_koid application_id app_queue coalesced q_id q_seq].
    rewrite Hp, Hc. done.
Qed.

(** ** The registry *)

Lemma write_right rights : Z.land rights AOK_RIGHT_WRITE = 0 ↔ ¬ may_write rights.
Proof.
  unfold may_write. change AOK_RIGHT_WRITE with (2 ^ 9). split.
  - intros H Hb. apply (f_equal (λ z, Z.testbit z 9)) in H. rewrite Z.land_spec, Hb, Z.testbit_0_l in H. done.
  - intros H. apply Z.bits_inj_0. intros j. rewrite Z.land_spec. destruct (decide (j = 9)) as [->|Hn].
    + destruct (Z.testbit rights 9); [done|done].
    + by rewrite (Z.pow2_bits_false 9 j) by done; rewrite andb_false_r.
Qed.

Lemma both_rights rights :
  Z.land rights (Z.lor AOK_RIGHT_READ AOK_RIGHT_WRITE) = Z.lor AOK_RIGHT_READ AOK_RIGHT_WRITE ↔ may_read rights ∧ may_write rights.
Proof.
  unfold may_read, may_write. change (Z.lor AOK_RIGHT_READ AOK_RIGHT_WRITE) with (Z.lor (2 ^ 8) (2 ^ 9)). split.
  - intros H. split; [apply (f_equal (λ z, Z.testbit z 8)) in H|apply (f_equal (λ z, Z.testbit z 9)) in H];
      rewrite Z.land_spec in H; cbn in H; by rewrite andb_true_r in H.
  - intros [H8 H9]. apply Z.bits_inj'. intros n Hn. rewrite Z.land_spec, Z.lor_spec.
    destruct (decide (n = 8)) as [->|N8]; [by rewrite H8|]. destruct (decide (n = 9)) as [->|N9]; [by rewrite H9|].
    rewrite !Z.pow2_bits_false by done. by rewrite andb_false_r.
Qed.

(** An entry is changed, and so is what it stands for. *)
Lemma abs_alter {A B} (h : A → B) (f : A → A) (g : B → B) i (l : list A) :
  (∀ x, l !! i = Some x → h (f x) = g (h x)) → h <$> alter f i l = alter g i (h <$> l).
Proof.
  intros H. apply list_eq. intros j. rewrite list_lookup_fmap. destruct (decide (j = i)) as [->|Hj].
  - rewrite !list_lookup_alter_eq, list_lookup_fmap. destruct (l !! i) as [x|]; [|done]. cbn. by rewrite H.
  - rewrite !list_lookup_alter_ne, list_lookup_fmap by done. done.
Qed.

Lemma alter_same {B} (g : B → B) i (l : list B) : (∀ x, l !! i = Some x → g x = x) → alter g i l = l.
Proof.
  intros H. apply list_eq. intros j. destruct (decide (j = i)) as [->|Hj].
  - rewrite list_lookup_alter_eq. destruct (l !! i) as [x|]; [|done]. cbn. by rewrite H.
  - by rewrite list_lookup_alter_ne.
Qed.

Lemma abs_on_app f g i k :
  (∀ a, apps k !! i = Some a → abs_queue (f (app_queue a)) = g (abs_queue (app_queue a))) →
  abs (on_app f i k) = a_on_app g i (abs k).
Proof.
  intros H. unfold abs, on_app, a_on_app. cbn. f_equal. apply abs_alter. intros a Ha. unfold abs_app. cbn. by rewrite H.
Qed.

Lemma abs_on_source f g i k :
  (∀ s, sources k !! i = Some s → abs_source (f s) = g (abs_source s)) → abs (on_source f i k) = a_on_source g i (abs k).
Proof. intros H. unfold abs, on_source, a_on_source. cbn. f_equal. by apply abs_alter. Qed.

Lemma app_unchanged g i k : (∀ a, apps k !! i = Some a → g (abs_queue (app_queue a)) = abs_queue (app_queue a)) →
  a_on_app g i (abs k) = abs k.
Proof.
  intros H. unfold a_on_app. destruct (abs k) as [la ls] eqn:E. injection E as <- <-. cbn. f_equal. apply alter_same.
  intros x Hx. rewrite list_lookup_fmap in Hx. destruct (apps k !! i) as [a|]; [|done]. injection Hx as <-. unfold abs_app. cbn. by rewrite H.
Qed.

Lemma source_unchanged g i k : (∀ s, sources k !! i = Some s → g (abs_source s) = abs_source s) → a_on_source g i (abs k) = abs k.
Proof.
  intros H. unfold a_on_source. destruct (abs k) as [la ls] eqn:E. injection E as <- <-. cbn. f_equal. apply alter_same.
  intros x Hx. rewrite list_lookup_fmap in Hx. destruct (sources k !! i) as [s|]; [|done]. injection Hx as <-. by apply H.
Qed.

Lemma find_app_list id l : ∀ i, find_app id i l = (λ p, i + fst p)%nat <$> list_find (λ a, aa_id a = id) (abs_app <$> l).
Proof.
  induction l as [|a l IH]; intros i; cbn; [done|]. change (aa_id (abs_app a)) with (application_id a).
  case_decide; cbn; [f_equal; lia|]. rewrite IH. destruct (list_find _ (abs_app <$> l)) as [[j x]|]; cbn; [f_equal; lia|done].
Qed.

Lemma spec_attr_exact kind flags first interval : source_attr_ok kind flags first interval = true ↔ spec_attr kind flags first interval.
Proof.
  unfold source_attr_ok, spec_attr, AOK_EVENT_KIND_PORT, AOK_EVENT_KIND_LSFS, AOK_EVENT_KIND_TIMER.
  case_decide; [rewrite bool_decide_eq_true; lia|]. case_decide; [split; [done|lia]|]. rewrite bool_decide_eq_true. lia.
Qed.

Section refine.
Context (k : registry) (Hk : rinv k).
Context (Hra : Forall (λ a, room (app_queue a)) (apps k)) (Hrs : Forall (λ s, room (src_queue s)) (sources k)).

Lemma abs_lookup_app i : a_apps (abs k) !! i = abs_app <$> apps k !! i.
Proof. apply list_lookup_fmap. Qed.

Lemma abs_lookup_source i : a_sources (abs k) !! i = abs_source <$> sources k !! i.
Proof. apply list_lookup_fmap. Qed.

Lemma app_ready i a : apps k !! i = Some a → qinv AOK_APP_QUEUE_DEPTH (app_queue a) ∧ room (app_queue a).
Proof. intros Ha. split; [by eapply rinv_lookups|exact (Forall_lookup_1 _ _ _ _ Hra Ha)]. Qed.

Lemma source_ready i s : sources k !! i = Some s → qinv AOK_EVENT_SOURCE_DEPTH (src_queue s) ∧ room (src_queue s).
Proof. intros Hs. split; [apply (rinv_source _ _ _ Hk Hs)|exact (Forall_lookup_1 _ _ _ _ Hrs Hs)]. Qed.

Lemma deliver_refines data i s : sources k !! i = Some s →
  abs (aok_source_deliver_locked data i k) = spec_deliver data i (abs_source s) (abs k).
Proof.
  intros Hs. unfold aok_source_deliver_locked, spec_deliver. rewrite Hs. cbn [abs_source as_app as_kind as_koid].
  destruct (src_app s) as [a|].
  - apply abs_on_app. intros x Hx. by apply abs_fire; apply (app_ready a x).
  - apply abs_on_source. intros s' Hs'. rewrite Hs in Hs'. injection Hs' as <-. unfold abs_source, on_own_queue. cbn.
    by rewrite (abs_fire AOK_EVENT_SOURCE_DEPTH) by apply (source_ready i s Hs).
Qed.

Lemma full_refines s i : sources k !! i = Some s →
  spec_full (abs_source s) (abs k) ↔
    match src_app s with
    | Some a => app_live k a = Z.of_nat AOK_APP_QUEUE_DEPTH
    | None => live (src_queue s) = Z.of_nat AOK_EVENT_SOURCE_DEPTH
    end.
Proof.
  intros Hs. unfold spec_full. cbn [abs_source as_app as_queue]. destruct (src_app s) as [a|] eqn:Ea.
  - rewrite abs_lookup_app. unfold app_live. destruct (apps k !! a) as [x|] eqn:Hx.
    + destruct (app_ready a x Hx) as [[Hq _] _]. pose proof (live_length _ _ Hq) as Hl. cbn. rewrite Hl.
      unfold AOK_APP_QUEUE_DEPTH. split; [intros [= E]; lia|intros E; f_equal; lia].
    + cbn. split; [done|]. unfold AOK_APP_QUEUE_DEPTH. lia.
  - destruct (source_ready i s Hs) as [[Hq _] _]. rewrite (live_length _ _ Hq). cbn. unfold AOK_EVENT_SOURCE_DEPTH. lia.
Qed.

Lemma post_refines rights arg i : kspec (KPost rights arg i) (abs k) = (rresult (KPost rights arg i) k, abs (rexec (KPost rights arg i) k)).
Proof.
  cbn [kspec rresult rexec]. unfold aok_event_post. rewrite abs_lookup_source. destruct (sources k !! i) as [s|] eqn:Hs; [|done]. cbn [fmap option_fmap option_map].
  rewrite (decide_ext _ _ _ _ (iff_sym (write_right rights))). case_decide; [done|].
  change (as_kind (abs_source s)) with (src_kind s). unfold AOK_EVENT_KIND_TIMER, AOK_EVENT_KIND_PORT. case_decide; [done|].
  pose proof (deliver_refines arg i s Hs) as Hd. unfold aok_source_deliver_locked in Hd. rewrite Hs in Hd.
  pose proof (full_refines s i Hs) as Hf. destruct (src_app s) as [a|]; rewrite (decide_ext _ _ _ _ Hf); case_decide; try done; cbn; by rewrite Hd.
Qed.

Lemma attach_refines rights target id i :
  kspec (KAttach rights target id i) (abs k) = (rresult (KAttach rights target id i) k, abs (rexec (KAttach rights target id i) k)).
Proof.
  cbn [kspec rresult rexec]. unfold aok_event_attach. rewrite abs_lookup_source. destruct (sources k !! i) as [s|] eqn:Hs; [|done]. cbn [fmap option_fmap option_map].
  rewrite (decide_ext _ _ _ _ (iff_sym (write_right rights))). case_decide; [done|].
  assert (∀ app label, (app = None → label = 0) → let r := (let '(r, s') := aok_source_attach app label s in (r, on_source (λ _, s') i k)) in
    spec_attach app label i (abs_source s) (abs k) = (unit_result (fst r), abs (snd r))) as Hattach.
  { intros app label Hlabel. unfold aok_source_attach, spec_attach. rewrite (decide_False (P := app = None ∧ label ≠ 0)) by (intros [E1 E2]; by apply E2, Hlabel).
    destruct (source_ready i s Hs) as [[Hq _] _]. pose proof (live_length _ _ Hq) as Hl. cbn [abs_source as_queue abs_queue aq_events aq_merged].
    assert (live (src_queue s) = 0 ↔ pending_nodes (src_queue s) = []) as Hnil.
    { rewrite Hl. destruct (pending_nodes (src_queue s)); cbn; [done|]. split; [lia|done]. }
    case_decide as Hb.
    - rewrite decide_True by (by rewrite Hnil). cbn. f_equal. rewrite (abs_on_source _ (λ s, s)); [by rewrite source_unchanged|].
      intros s' Hs'. rewrite Hs in Hs'. injection Hs' as <-. done.
    - rewrite decide_False by (by rewrite Hnil). cbn. f_equal. symmetry. apply abs_on_source.
      intros s' Hs'. rewrite Hs in Hs'. injection Hs' as <-. destruct app; [done|]. by rewrite (Hlabel eq_refl). }
  destruct target as [[a r]|]; [|case_decide; [done|by apply Hattach]].
  rewrite (decide_ext _ _ _ _ (not_iff_compat (iff_sym (both_rights r)))). case_decide; [done|].
  rewrite abs_lookup_app, <-option_fmap_compose. change (aa_id ∘ abs_app) with application_id. case_decide; [done|]. by apply Hattach.
Qed.
End refine.

Section refine_more.
Context (k : registry) (Hk : rinv k).
Context (Hra : Forall (λ a, room (app_queue a)) (apps k)) (Hrs : Forall (λ s, room (src_queue s)) (sources k)).

Lemma source_ack_refines rights id i :
  kspec (KSourceAck rights id i) (abs k) = (rresult (KSourceAck rights id i) k, abs (rexec (KSourceAck rights id i) k)).
Proof.
  cbn [kspec rresult rexec]. unfold aok_event_ack. rewrite abs_lookup_source. destruct (sources k !! i) as [s|] eqn:Hs; [|done]. cbn [fmap option_fmap option_map].
  rewrite (decide_ext _ _ _ _ (iff_sym (write_right rights))). case_decide; [done|]. destruct (rinv_source _ _ _ Hk Hs) as (_ & _ & Hatt).
  destruct (source_ready k Hk Hrs i s Hs) as [Hq Hr]. change (as_app (abs_source s)) with (src_app s). destruct (src_app s) as [a|]; cbn [mbind option_bind].
  - destruct (lookup_lt_is_Some_2 (apps k) a) as [x Hx]; [by apply Hatt|]. rewrite abs_lookup_app, Hx. cbn [fmap option_fmap option_map mbind option_bind].
    destruct (app_ready k Hk Hra a x Hx) as [Hqa Hrx]. pose proof (abs_ack AOK_APP_QUEUE_DEPTH 1 0 id (app_queue x) Hqa Hrx) as E.
    cbn [abs_app aa_queue]. rewrite E.
    destruct (decide (q_id (app_queue x) < id)).
    + rewrite decide_True by lia. cbn. f_equal. apply app_unchanged. intros x' Hx'. rewrite Hx in Hx'. injection Hx' as <-. by rewrite E.
    + rewrite decide_False by lia. destruct (find_id id (app_queue x)) as [[j node]|]; cbn; f_equal.
      * symmetry. apply abs_on_app. intros x' Hx'. rewrite Hx in Hx'. injection Hx' as <-. by rewrite E.
      * apply app_unchanged. intros x' Hx'. rewrite Hx in Hx'. injection Hx' as <-. by rewrite E.
  - cbn [abs_source as_kind as_koid as_queue].
    pose proof (abs_ack AOK_EVENT_SOURCE_DEPTH (src_kind s) (src_koid s) id (src_queue s) Hq Hr) as E. rewrite E.
    destruct (decide (q_id (src_queue s) < id)).
    + rewrite decide_True by lia. cbn. f_equal. apply source_unchanged. intros s' Hs'. rewrite Hs in Hs'. injection Hs' as <-. unfold on_own_queue. cbn. by rewrite E.
    + rewrite decide_False by lia. destruct (find_id id (src_queue s)) as [[j node]|]; cbn; f_equal.
      * symmetry. apply abs_on_source. intros s' Hs'. rewrite Hs in Hs'. injection Hs' as <-. unfold on_own_queue. cbn. by rewrite E.
      * apply source_unchanged. intros s' Hs'. rewrite Hs in Hs'. injection Hs' as <-. unfold on_own_queue. cbn. by rewrite E.
Qed.

Lemma app_ack_refines rights id i :
  kspec (KAppAck rights id i) (abs k) = (rresult (KAppAck rights id i) k, abs (rexec (KAppAck rights id i) k)).
Proof.
  cbn [kspec rresult rexec]. rewrite abs_lookup_app. destruct (apps k !! i) as [a|] eqn:Ha; cbn [fmap option_fmap option_map].
  - destruct (app_ready k Hk Hra i a Ha) as [Hq Hr]. rewrite (decide_ext _ _ _ _ (iff_sym (write_right rights))). case_decide as Hw.
    + unfold aok_app_ack. rewrite decide_True by done. cbn. f_equal. rewrite (abs_on_app _ (λ q, q)); [by rewrite app_unchanged|].
      intros x _. by rewrite decide_True.
    + destruct (abs_app_ack rights id (app_queue a) Hq Hr Hw) as [E1 E2]. cbn [abs_app aa_queue]. rewrite E1. f_equal.
      symmetry. apply abs_on_app. intros x Hx. rewrite Ha in Hx. by injection Hx as <-.
  - f_equal. rewrite (abs_on_app _ (λ q, q)); [by rewrite app_unchanged|]. intros x Hx. by rewrite Ha in Hx.
Qed.

Lemma restore_refines rights rs i : Forall raw_u64 rs →
  kspec (KRestore rights rs i) (abs k) = (rresult (KRestore rights rs i) k, abs (rexec (KRestore rights rs i) k)).
Proof.
  intros Hraw. cbn [kspec rresult rexec]. rewrite abs_lookup_app. destruct (apps k !! i) as [a|] eqn:Ha; cbn [fmap option_fmap option_map]; [|done].
  destruct (app_ready k Hk Hra i a Ha) as [Hq Hr].
  assert (update_application i a k = k) as Hsame by (unfold update_application; rewrite list_insert_id by done; by destruct k).
  destruct (decide (128 < length rs)%nat); [unfold aok_application_restore; rewrite decide_True by (unfold AOK_APP_QUEUE_DEPTH; lia); cbn; by rewrite Hsame|].
  rewrite (decide_ext _ _ _ _ (iff_sym (write_right rights))). case_decide as Hw.
  { unfold aok_application_restore. rewrite decide_False by (unfold AOK_APP_QUEUE_DEPTH; lia). rewrite decide_True by done. cbn. by rewrite Hsame. }
  destruct (abs_restore rights rs a Hq Hraw ltac:(lia) Hw) as [E1 E2]. cbn [abs_app aa_queue aa_id]. rewrite E1. f_equal.
  unfold a_on_app, abs, update_application. cbn. f_equal. rewrite list_fmap_insert, E2. apply list_eq. intros j.
  destruct (decide (j = i)) as [->|Hj].
  - rewrite list_lookup_alter_eq, list_lookup_fmap, Ha. cbn. rewrite list_lookup_insert_eq; [done|]. rewrite length_fmap. by eapply lookup_lt_Some.
  - by rewrite list_lookup_alter_ne, list_lookup_insert_ne.
Qed.
End refine_more.

(** The registry does what the specification says, and returns what it says. *)
Lemma kspec_refines o k : rinv k → kadmissible k o → kspec o (abs k) = (rresult o k, abs (rexec o k)).
Proof.
  intros Hk (Hra & Hrs & Hraw).
  destruct o as [m id koid|m kind flags first interval koid|i|rights arg i|rights target id i|rights id i|rights id i|rights rs i].
  - cbn [kspec rresult rexec]. unfold aok_application_create. case_decide; [done|]. destruct m; cbn [negb]; [|done].
    rewrite find_app_list. cbn [abs a_apps]. destruct (list_find _ (abs_app <$> apps k)) as [[i x]|]; cbn; [done|].
    rewrite length_fmap. f_equal. unfold abs. cbn. by rewrite fmap_app.
  - cbn [kspec rresult rexec]. unfold aok_event_source_create. pose proof (spec_attr_exact kind flags first interval) as Ha.
    destruct (source_attr_ok kind flags first interval); cbn [negb].
    + rewrite decide_False by (intros H; by apply H, Ha). destruct m; cbn [negb]; [|done]. cbn. rewrite length_fmap. f_equal. unfold abs. cbn. by rewrite fmap_app.
    + rewrite decide_True; [done|]. intros H%Ha. done.
  - cbn [kspec rresult rexec]. rewrite abs_lookup_source. destruct (sources k !! i) as [s|] eqn:Hs; cbn [fmap option_fmap option_map].
    + by rewrite (deliver_refines k Hk Hra Hrs 0 i s Hs).
    + unfold aok_source_deliver_locked. by rewrite Hs.
  - by apply post_refines.
  - by apply attach_refines.
  - by apply source_ack_refines.
  - by apply app_ack_refines.
  - by apply restore_refines.
Qed.
