(* ===== verification/AppQueueProperties.v ===== *)
(** * The kernel's durable events: until acknowledged, and across a reboot *)

From stdpp Require Import base tactics option list sets strings numbers pretty sorting relations.
From S2P Require Import Prelude Ainf AppQueue AppQueueProofs AppQueueSpec.

Local Open Scope Z_scope.

(** ** Reachable registries *)

Inductive kreachable : registry → Prop :=
  | kreachable_boot : kreachable (mkRegistry [] [])
  | kreachable_step k o : kreachable k → kadmissible k o → kreachable (rexec o k).

(** Steps none of which acknowledges this event at this application. *)
Inductive unacked (i : nat) (id : Z) : registry → registry → Prop :=
  | unacked_here k : unacked i id k k
  | unacked_step k o k' : kadmissible k o → ¬ acks_of k o i id → unacked i id (rexec o k) k' → unacked i id k k'.

Lemma kreachable_inv k : kreachable k → rinv k.
Proof.
  induction 1 as [|k o _ IH Ho]; [|by apply (step_well o k)].
  split; cbn; [constructor|constructor|constructor|apply NoDup_nil_2].
Qed.

Lemma unacked_keeps i id k k' :
  unacked i id k k' → rinv k → ∀ a n, apps k !! i = Some a → n ∈ pending_nodes (app_queue a) → n_id n = id →
  ∃ a', apps k' !! i = Some a' ∧ application_id a' = application_id a ∧ n ∈ pending_nodes (app_queue a').
Proof.
  induction 1 as [k|k o k' Ho Hno _ IH]; intros Hk a n Ha Hn Hid; [by exists a|].
  destruct (step_well o k Hk Ho) as [Hk' Hstep]. destruct (Hstep i a Ha) as (a1 & Ha1 & Hid1 & Hc).
  rewrite <-Hid in Hno. destruct (IH Hk' a1 n Ha1 (Hc n Hn Hno) Hid) as (a' & Ha' & Hid' & Hn').
  exists a'. split_and!; [done|congruence|done].
Qed.

(** ** Snapshots *)

Definition app_records (a : application) : list event_record := record_of (application_id a) <$> pending_nodes (app_queue a).

Lemma records_bound depth a : qcore depth (app_queue a) → (length (app_records a) ≤ depth)%nat.
Proof.
  intros Hq. unfold app_records. rewrite length_fmap. pose proof (pending_bound _ _ Hq).
  pose proof (omap_bound (λ i, nodes (app_queue a) !! i) (pending (app_queue a))). unfold pending_nodes. lia.
Qed.

Section bridge.
Context (Errno : errno → error).

Lemma snapshot_exact rights a :
  qcore AOK_APP_QUEUE_DEPTH (app_queue a) → Z.land rights AOK_RIGHT_INSPECT ≠ 0 →
  bridge_Snapshot Errno rights a = Ok (go_record <$> app_records a).
Proof.
  intros Hq Hr. pose proof (records_bound _ _ Hq) as Hb. unfold bridge_Snapshot, aok_application_snapshot.
  rewrite decide_False by done. fold (app_records a). rewrite decide_False by lia.
  rewrite Z.min_r, !take_ge; [done|..]; rewrite ?length_take; lia.
Qed.

(** The runtime's copy of a record, written back, is the record without its source. *)
Lemma raw_go r : rec_size r = 72 → raw_record (go_record r) = {| r with rec_koid := 0 |}.
Proof. destruct r. cbn. by intros ->. Qed.

Lemma snapshot_admitted a :
  qcore AOK_APP_QUEUE_DEPTH (app_queue a) → room (app_queue a) → application_id a ≠ 0 →
  let rs := raw_record <$> (go_record <$> app_records a) in
  records_ok (application_id a) None rs = true ∧ Forall raw_u64 rs.
Proof.
  intros Hq (Hr1 & Hr2 & _) Hid. cbv zeta. destruct (qi_ids _ _ Hq) as [Hi Hib]. destruct (qi_seqs _ _ Hq) as [Hs Hsb].
  pose proof (qi_kinds _ _ Hq) as Hk. apply Forall_fmap in Hib, Hsb.
  assert (Forall (λ n, (0 < n_id n ≤ q_id (app_queue a)) ∧ (0 < n_seq n ≤ q_seq (app_queue a)) ∧ 1 ≤ n_kind n ≤ 3) (pending_nodes (app_queue a))) as Hall.
  { rewrite !Forall_forall in *. intros n Hn. split_and!; [apply (Hib n Hn)|apply (Hib n Hn)|apply (Hsb n Hn)|apply (Hsb n Hn)|apply (Hk n Hn)|apply (Hk n Hn)]. }
  unfold app_records. rewrite <-!list_fmap_compose. split.
  - apply records_ok_exact. split_and!.
    + apply Forall_fmap. eapply Forall_impl; [exact Hall|]. intros n (? & ? & ?). unfold record_ok. cbn. unfold AOK_EVENT_KIND_LSFS. lia.
    + done.
    + rewrite <-list_fmap_compose. by apply StronglySorted_Sorted.
    + rewrite <-list_fmap_compose. by apply StronglySorted_Sorted.
  - apply Forall_fmap. eapply Forall_impl; [exact Hall|]. intros n (? & ? & ?). unfold raw_u64, in_u64. cbn. lia.
Qed.
End bridge.

Section theorems.
Context (Errno : errno → error).

(** C14: The kernel keeps an event until it is acknowledged.  In every reachable registry,
    whatever sources fired, attached, were posted to and acknowledged: the node array, the
    list and the counter of a queue agree, so that there is a node for every event that is
    to be appended; the ids of pending events grow along the queue; a descriptor opened
    afresh reads all of them in order, each once.  Every operation whose numbers are not
    used up returns what the specification on lists returns and leaves what it leaves: an
    event that fires is appended with the next numbers or, in a full queue, added to the
    merged count; an acknowledgement takes out the event with that id, and the merged count
    becomes the last event; a restore puts the saved events into an empty queue; a refused
    operation changes nothing.  And an event is pending as long as no operation
    acknowledges its id. *)
Theorem kernel_events_durable k i a :
  kreachable k → apps k !! i = Some a →
  qinv AOK_APP_QUEUE_DEPTH (app_queue a) ∧
  (∀ rights, Z.land rights AOK_RIGHT_READ ≠ 0 → read_all (S AOK_APP_QUEUE_DEPTH) a (mkAppFile rights 0) = app_records a) ∧
  (∀ o, kadmissible k o → kspec o (abs k) = (rresult o k, abs (rexec o k))) ∧
  (∀ n k', n ∈ pending_nodes (app_queue a) → unacked i (n_id n) k k' →
     ∃ a', apps k' !! i = Some a' ∧ application_id a' = application_id a ∧ n ∈ pending_nodes (app_queue a')).
Proof.
  intros Hk%kreachable_inv Ha. pose proof (rinv_lookups _ _ _ Hk Ha) as Hq. split_and!; [done|..].
  - intros rights Hr. apply replay_exact; [apply Hq|done].
  - intros o Ho. by apply kspec_refines.
  - intros n k' Hn Hu. by eapply unacked_keeps.
Qed.

(** C18: The queue survives a reboot.  What the runtime's bridge takes as the snapshot of
    an application, with no merged count waiting, is accepted by the restore into the
    fresh entry of the same application after a reboot; then the snapshot of that entry is
    the same, reading it yields the same events in the same order, and the next event gets
    an id that none of them has. *)
Theorem queue_survives_reboot k i a rights koid :
  kreachable k → apps k !! i = Some a → room (app_queue a) → coalesced (app_queue a) = 0 →
  Z.land rights AOK_RIGHT_INSPECT ≠ 0 → Z.land rights AOK_RIGHT_READ ≠ 0 → Z.land rights AOK_RIGHT_WRITE ≠ 0 →
  let b := mkApplication koid (application_id a) (empty_queue AOK_APP_QUEUE_DEPTH) in
  ∃ events b', bridge_Snapshot Errno rights a = Ok events ∧
    bridge_Restore Errno rights events b = (Ok (), b') ∧
    bridge_Snapshot Errno rights b' = Ok events ∧
    go_record <$> read_all (S AOK_APP_QUEUE_DEPTH) b' (mkAppFile rights 0) = events ∧
    Forall (λ e, ev_EventID e < q_id (app_queue b') + 1) events ∧
    weight (app_queue b') = weight (app_queue a).
Proof.
  intros Hk%kreachable_inv Ha Hroom Hz Hins Hread Hwrite b. destruct (Forall_lookup_1 _ _ _ _ (ri_apps _ Hk) Ha) as [[Hq _] Hid].
  set (events := go_record <$> app_records a). exists events.
  assert (qinv AOK_APP_QUEUE_DEPTH (app_queue b)) as Hb by apply empty_qinv.
  destruct (snapshot_admitted a Hq Hroom Hid) as [Hok Hraw].
  assert (length events ≤ AOK_APP_QUEUE_DEPTH)%nat as Hlen by (unfold events; rewrite length_fmap; by apply records_bound).
  destruct (decide (events = [])) as [Hnil|Hne].
  { assert (pending_nodes (app_queue a) = []) as Hp by (unfold events, app_records in Hnil; by apply fmap_nil_inv, fmap_nil_inv in Hnil).
    exists b. rewrite snapshot_exact by done. fold events. rewrite Hnil.
    split_and!; [done|done| |rewrite (replay_exact AOK_APP_QUEUE_DEPTH); [done|apply Hb|done]|done|].
    - rewrite snapshot_exact; [done|apply Hb|done].
    - unfold weight. by rewrite Hp, Hz. }
  unfold bridge_Restore. rewrite decide_False, decide_False by (done || lia).
  destruct (aok_application_restore rights (raw_record <$> events) b) as [r b'] eqn:E.
  pose proof (restore_exact _ _ _ _ _ Hb Hraw E) as Hres.
  assert (r = Ok ()) as ->.
  { unfold aok_application_restore in E. rewrite decide_False in E by (rewrite length_fmap; lia). rewrite decide_False in E by done.
    destruct (list.last (raw_record <$> events)); [|by injection E as <- <-]. change (application_id b) with (application_id a) in E.
    unfold events in E. rewrite Hok in E. cbn [negb] in E. rewrite decide_False in E; [by injection E as <- <-|]. cbn. tauto. }
  destruct Hres as [[_ Hnil]|(_ & _ & Hb' & _ & Hid' & Hp' & Hc' & _)].
  { specialize (Hnil eq_refl). by apply fmap_nil_inv in Hnil. }
  assert (go_record <$> app_records b' = events) as Hsame.
  { unfold app_records. rewrite Hp', Hid'. unfold events. rewrite <-!list_fmap_compose. unfold app_records. rewrite <-!list_fmap_compose.
    apply list_fmap_ext. intros ? n _. done. }
  exists b'. split_and!; [by apply snapshot_exact|done| | | |].
  - rewrite snapshot_exact; [by rewrite Hsame|apply Hb'|done].
  - rewrite (replay_exact AOK_APP_QUEUE_DEPTH); [done|apply Hb'|done].
  - rewrite <-Hsame. destruct Hb' as [Hb' _]. destruct (qi_ids _ _ Hb') as [_ Hids]. unfold app_records. apply Forall_fmap, Forall_fmap.
    apply Forall_fmap in Hids. eapply Forall_impl; [exact Hids|]. cbn. lia.
  - unfold weight. rewrite Hc', Hz, Hp'. f_equal. unfold events, app_records. clear.
    induction (pending_nodes (app_queue a)) as [|n l IH]; [done|]. cbn [fmap list_fmap counts foldr]. unfold counts in IH. cbn in IH |- *. by rewrite IH.
Qed.
End theorems.

(** ** Sample runs *)

Definition all_rights : Z := Z.lor AOK_RIGHT_INSPECT (Z.lor AOK_RIGHT_READ AOK_RIGHT_WRITE).

(** An application with an LSFS source that posted twice. *)
Definition sample_kops : list kop :=
  [KCreateApp true 7 1; KCreateSource true 3 0 0 0 2; KAttach all_rights (Some (0%nat, all_rights)) 7 0; KPost all_rights 5 0;
   KPost all_rights 6 0].

Definition run_kops (ops : list kop) : registry := fold_left (λ k o, rexec o k) ops (mkRegistry [] []).

Fixpoint roomy (ops : list kop) (k : registry) : bool :=
  match ops with
  | [] => true
  | o :: ops =>
      let fits q := bool_decide (q_seq q < MaxUint64) && bool_decide (q_id q < MaxUint64) && bool_decide (coalesced q < 4294967295) in
      forallb (λ a, fits (app_queue a)) (apps k) && forallb (λ s, fits (src_queue s)) (sources k) &&
      match o with KRestore _ _ _ => false | _ => true end && roomy ops (rexec o k)
  end.

Lemma roomy_reachable ops k : kreachable k → roomy ops k = true → kreachable (fold_left (λ k o, rexec o k) ops k).
Proof.
  revert k. induction ops as [|o ops IH]; intros k Hk; [done|]. cbn [roomy fold_left].
  rewrite !andb_true_iff. intros [[[Ha Hs] Ho] Hrest]. apply IH; [|done]. constructor; [done|].
  split_and!; [| |by destruct o].
  - apply Forall_forall. intros a Hin%list_elem_of_In. rewrite forallb_forall in Ha. apply Ha in Hin.
    rewrite !andb_true_iff, !bool_decide_eq_true in Hin. unfold room. tauto.
  - apply Forall_forall. intros s Hin%list_elem_of_In. rewrite forallb_forall in Hs. apply Hs in Hin.
    rewrite !andb_true_iff, !bool_decide_eq_true in Hin. unfold room. tauto.
Qed.

Lemma sample_reachable : kreachable (run_kops sample_kops).
Proof. apply roomy_reachable; [constructor|]. vm_compute. reflexivity. Qed.

Definition sample_application : application := default (mkApplication 0 0 (empty_queue 0)) (apps (run_kops sample_kops) !! 0%nat).

Lemma sample_found : apps (run_kops sample_kops) !! 0%nat = Some sample_application.
Proof. vm_compute. reflexivity. Qed.

Lemma kernel_events_durable_witness :
  go_record <$> read_all (S AOK_APP_QUEUE_DEPTH) sample_application (mkAppFile all_rights 0) = [mkEventRecord 7 1 1 3 1 5; mkEventRecord 7 2 2 3 1 6].
Proof.
  destruct (kernel_events_durable _ 0 _ sample_reachable sample_found) as (_ & Hread & _).
  rewrite (Hread all_rights ltac:(vm_compute; discriminate)). vm_compute. reflexivity.
Defined.

Lemma queue_survives_reboot_witness : ∃ b',
  bridge_Restore (λ _, ErrQuota) all_rights [mkEventRecord 7 1 1 3 1 5; mkEventRecord 7 2 2 3 1 6]
    (mkApplication 9 7 (empty_queue AOK_APP_QUEUE_DEPTH)) = (Ok (), b') ∧
  go_record <$> read_all (S AOK_APP_QUEUE_DEPTH) b' (mkAppFile all_rights 0) = [mkEventRecord 7 1 1 3 1 5; mkEventRecord 7 2 2 3 1 6].
Proof.
  destruct (queue_survives_reboot (λ _, ErrQuota) _ 0 _ all_rights 9 sample_reachable sample_found) as (events & b' & Hs & Hr & _ & Hread & _).
  - vm_compute. split_and!; reflexivity.
  - vm_compute. reflexivity.
  - vm_compute. discriminate.
  - vm_compute. discriminate.
  - vm_compute. discriminate.
  - vm_compute in Hs. injection Hs as <-. exists b'. split; [exact Hr|exact Hread].
Defined.

(** ** What a snapshot leaves out, and where numbers run out *)

(** 129 expiries of a timer: the queue is full, and one is merged. *)
Definition full_kops : list kop :=
  [KCreateApp true 7 1; KCreateSource true 1 1 1 1 2; KAttach all_rights (Some (0%nat, all_rights)) 7 0] ++ replicate 129 (KExpire 0).

Definition full_application : application := default (mkApplication 0 0 (empty_queue 0)) (apps (run_kops full_kops) !! 0%nat).

(** The merged expiry is not in the snapshot, and is gone after a restore. *)
Example merged_count_lost :
  match bridge_Snapshot (λ _, ErrQuota) all_rights full_application with
  | Ok events =>
      let '(_, b) := bridge_Restore (λ _, ErrQuota) all_rights events (mkApplication 9 7 (empty_queue AOK_APP_QUEUE_DEPTH)) in
      weight (app_queue full_application) = 129 ∧ weight (app_queue b) = 128
  | Err _ => False
  end.
Proof. vm_compute. done. Qed.

(** A restore accepts the id before the last; the second event after it has the id 0. *)
Example ids_wrap_after_restore :
  let k := fold_left (λ k o, rexec o k)
    [KCreateApp true 7 1; KCreateSource true 3 0 0 0 2; KAttach all_rights (Some (0%nat, all_rights)) 7 0;
     KRestore all_rights [mkRecord 72 0 7 (MaxUint64 - 1) 1 3 1 5] 0; KPost all_rights 6 0; KPost all_rights 7 0] (mkRegistry [] []) in
  (λ a, n_id <$> pending_nodes (app_queue a)) <$> apps k = [[MaxUint64 - 1; MaxUint64; 0]].
Proof. vm_compute. reflexivity. Qed.
