(* ===== verification/EventPath.v ===== *)
(** * The path of an event: kernel queue, bridge, adapter, mailbox

    kernel_adapter_linux_arm64.go and the rest of kernelbridge/event_linux_arm64.go, and
    the loop of [deliverKernel] run against the kernel's queue itself: each round reads
    the descriptor, commits the message and acknowledges the event. *)

From Stdlib Require Import Ascii.
From stdpp Require Import base tactics option list gmap sets strings numbers pretty sorting relations.
From S2P Require Import Prelude Monad GoLib Json Crypto Ledger Policy ContextStore State Taint Mailbox.
From S2P Require Import Lifecycle Revocation Runner Gateway Hostfs Wake KernelWake Invariant Safety MailboxProofs.
From S2P Require Import WakeProofs KernelWakeProofs System Durability SystemProperties MailProperties WakeProperties.
From S2P Require Import Ainf AppQueue AppQueueProofs AppQueueProperties.

Local Open Scope Z_scope.

(** ** The bridge *)

(** The rights of a descriptor that the kernel opens: inspect, duplicate, read, write. *)
Definition opened_rights : Z := Z.lor (Z.lor AOK_RIGHT_INSPECT 2) (Z.lor AOK_RIGHT_READ AOK_RIGHT_WRITE).

Section bridge.
Context (Errno : errno → error).

(** The root capability may manage children; [koid] is the kernel's next object id. *)
Definition OpenApplication (may_manage : bool) (koid applicationID : Z) (k : registry) : result error nat * registry :=
  let '(r, k) := aok_application_create may_manage applicationID koid k in (of_errno Errno r, k).

Definition OpenEventSource (may_manage : bool) (koid kind firstNs intervalNs : Z) (k : registry) : result error nat * registry :=
  let '(r, k) := aok_event_source_create may_manage kind 0 firstNs intervalNs koid k in (of_errno Errno r, k).

Definition Attach (source app : nat) (applicationID : Z) (k : registry) : result error unit * registry :=
  let '(r, k) := aok_event_attach opened_rights (Some (app, opened_rights)) applicationID source k in (of_errno Errno r, k).

Definition PostLSFS (source : nat) (cursor : Z) (k : registry) : result error unit * registry :=
  let '(r, k) := aok_event_post opened_rights cursor source k in (of_errno Errno r, k).

Definition source_Ack (source : nat) (eventID : Z) (k : registry) : result error unit * registry :=
  let '(r, k) := aok_event_ack opened_rights eventID source k in (of_errno Errno r, k).

(** ** The adapter *)

Definition adapt (e : EventRecord) : KernelEvent :=
  KEv.mk "" "" false (ev_ApplicationID e) (ev_EventID e) (ev_EventSeq e) (ev_Kind e) (ev_Coalesced e) (ev_Data e).

Definition unadapt (e : KernelEvent) : EventRecord :=
  mkEventRecord (KEv.ApplicationID e) (KEv.EventID e) (KEv.EventSeq e) (KEv.Kind e) (KEv.Coalesced e) (KEv.Data e).

Definition adapter_OpenSource (may_manage : bool) (koid kind : Z) (k : registry) : result error nat * registry :=
  OpenEventSource may_manage koid kind 0 0 k.

Definition adapter_Read (a : application) (h : app_file) : result error (option KernelEvent) * app_file :=
  let '(r, h) := bridge_Read Errno a h in
  (match r with Ok o => Ok (adapt <$> o) | Err e => Err e end, h).

Definition adapter_Snapshot (a : application) : result error (list KernelEvent) :=
  match bridge_Snapshot Errno opened_rights a with Ok events => Ok (adapt <$> events) | Err e => Err e end.

Definition adapter_Restore (events : list KernelEvent) (a : application) : result error unit * application :=
  bridge_Restore Errno opened_rights (unadapt <$> events) a.
End bridge.

Lemma unadapt_adapt e : unadapt (adapt e) = e.
Proof. by destruct e. Qed.

Lemma find_app_Some id l : ∀ i j, find_app id i l = Some j → (i ≤ j)%nat ∧ application_id <$> l !! (j - i)%nat = Some id.
Proof.
  induction l as [|a l IH]; intros i j; cbn; [done|]. case_decide as Ha; [intros [= <-]; rewrite Nat.sub_diag; cbn; by rewrite Ha|].
  intros [Hle Hl]%IH. split; [lia|]. by replace (j - i)%nat with (S (j - S i)) by lia.
Qed.

Lemma find_app_snoc id a l : ∀ i, find_app id i l = None → application_id a = id → find_app id i (l ++ [a]) = Some (i + length l)%nat.
Proof.
  induction l as [|x l IH]; intros i; cbn; [intros _ ->; rewrite decide_True by done; by rewrite Nat.add_0_r|].
  case_decide; [done|]. intros Hf Ha. rewrite (IH _ Hf Ha). f_equal. lia.
Qed.

(** Opening is idempotent: the second descriptor is for the same queue. *)
Lemma open_again Errno m koid koid' id k i k' :
  OpenApplication Errno m koid id k = (Ok i, k') → OpenApplication Errno true koid' id k' = (Ok i, k') ∧ application_id <$> apps k' !! i = Some id.
Proof.
  unfold OpenApplication, aok_application_create. case_decide as Hid; [done|]. destruct m; [|done]. cbn [negb].
  destruct (find_app id 0 (apps k)) as [j|] eqn:Hf; cbn.
  - intros [= <- <-]. rewrite Hf. split; [done|]. apply find_app_Some in Hf as [_ Hf]. by rewrite Nat.sub_0_r in Hf.
  - intros [= <- <-]. cbn. rewrite find_app_snoc by done. split; [done|]. by rewrite lookup_app_r, Nat.sub_diag by done.
Qed.

(** An LSFS commit posted to an attached source becomes the newest event of the queue, or
    the queue is full and the caller is told to try again. *)
Lemma post_exact Errno j s i a cursor k r k' :
  sources k !! j = Some s → src_kind s = AOK_EVENT_KIND_LSFS → src_app s = Some i → apps k !! i = Some a →
  qinv AOK_APP_QUEUE_DEPTH (app_queue a) → room (app_queue a) → PostLSFS Errno j cursor k = (r, k') →
  (r = Err (Errno E_AGAIN) ∧ k' = k ∧ live (app_queue a) = Z.of_nat AOK_APP_QUEUE_DEPTH) ∨
  (r = Ok () ∧ ∃ a', apps k' !! i = Some a' ∧ application_id a' = application_id a ∧
     pending_nodes (app_queue a') = pending_nodes (app_queue a) ++ [new_node AOK_EVENT_KIND_LSFS cursor (src_koid s) 1 (app_queue a)]).
Proof.
  intros Hs Hkind Happ Ha Hq Hr. unfold PostLSFS, aok_event_post. rewrite Hs, Hkind, Happ, !decide_False by (done || by intros [?|[? _]]).
  unfold app_live. rewrite Ha. cbn. case_decide as Hl; intros [= <- <-]; [by left|]. right. split; [done|].
  destruct (fire_exact AOK_APP_QUEUE_DEPTH AOK_EVENT_KIND_LSFS cursor (src_koid s) _ Hq Hr ltac:(unfold AOK_EVENT_KIND_LSFS; lia)) as (_ & _ & Hp).
  rewrite decide_False in Hp by done. unfold on_app. cbn. rewrite list_lookup_alter_eq, Ha. cbn. eexists. by split_and!.
Qed.

(** ** The drain of one queue *)

Section drain.
Context (env : Env) (kenv : KernelEnv) (Errno : errno → error).

(** The kernel that answers an acknowledgement from this queue. *)
Definition acknowledging (a : application) : KernelEnv :=
  {| kenv with k_ack := λ _ _ ev, match fst (bridge_Ack Errno opened_rights ev a) with Ok _ => None | Err e => Some e end |}.

(** The loop as it is written, on the supervisor and the queue.  [calls] grows when the
    kernel granted an acknowledgement, which then has changed the queue.  [None] means
    that [fuel] rounds were not enough. *)
Fixpoint live_drain (fuel : nat) (id boot : string) (h : app_file) (a : application) (s : Supervisor) :
    result error (option bool) * Supervisor * application :=
  match fuel with
  | 0%nat => (Ok None, s, a)
  | S fuel =>
      match adapter_Read Errno a h with
      | (Err e, _) => (Err e, s, a)
      | (Ok None, _) => (Ok (Some true), s, a)
      | (Ok (Some e), h) =>
          let '(r, s') := deliver_event env (acknowledging a) id boot 0 e s in
          let a' := if decide (length (calls s') = length (calls s)) then a
                    else snd (bridge_Ack Errno opened_rights (KEv.EventID e) a) in
          match r with
          | Err err => (Err err, s', a')
          | Ok false => (Ok (Some false), s', a')
          | Ok true => live_drain fuel id boot h a' s'
          end
      end
  end.
End drain.

(** ** One acknowledgement at the head *)

(** The numbers are not used up, also when a merged count becomes an event. *)
Definition spare (q : queue) : Prop :=
  room q ∧ (coalesced q ≠ 0 → q_seq q + 1 < MaxUint64 ∧ q_id q + 1 < MaxUint64).

Lemma flush_numbers depth kind koid q :
  qcore depth q → spare q → live q < Z.of_nat depth →
  room (flush depth kind koid q) ∧ coalesced (flush depth kind koid q) = 0.
Proof.
  intros Hq [Hr Hs] Hl. unfold flush. destruct (decide (coalesced q = 0)) as [Hz|Hz].
  { by rewrite decide_True by (by left). }
  rewrite decide_False by (intros [?|?]; [done|lia]). destruct (free_node_found _ _ Hq Hl) as (i & n & Ef & _).
  unfold take_node. rewrite Ef. destruct (Hs Hz), (qi_range _ _ Hq). unfold room. cbn.
  rewrite !u64_small by lia. split_and!; [done|done|lia|done].
Qed.

Lemma sorted_head (f : app_node → Z) n l : StronglySorted Z.lt (f <$> n :: l) → Forall (λ m, f n < f m) l.
Proof. intros [_ H]%StronglySorted_inv. exact (proj1 (Forall_fmap _ _ _) H). Qed.

(** Acknowledging the oldest event takes it out and leaves the later ones; a merged
    count becomes the last event. *)
Lemma head_acked q n l :
  qinv AOK_APP_QUEUE_DEPTH q → spare q → pending_nodes q = n :: l →
  ∃ q' more, aok_app_ack opened_rights (n_id n) q = (Ok (), q') ∧ qinv AOK_APP_QUEUE_DEPTH q' ∧ spare q' ∧
    pending_nodes q' = l ++ more ∧ weight q' + n_coalesced n = weight q ∧ coalesced q' = 0 ∧
    length more = (if decide (coalesced q = 0) then 0%nat else 1%nat) ∧
    Forall (λ m, n_seq n < n_seq m ∧ n_id n < n_id m) (l ++ more).
Proof.
  intros Hinv Hs Hp. pose proof Hinv as [Hq Hfull]. pose proof Hs as [Hr Hsp].
  destruct (find_node_first (λ m, bool_decide (n_id m = n_id n)) (nodes q) (pending q) [] n l) as [i Hf]; [done..|by apply bool_decide_true|].
  change (find_id (n_id n) q = Some (i, n)) in Hf. pose proof (find_node_Some _ _ _ _ _ Hf) as (Hi & Hn & _).
  destruct (aok_app_ack opened_rights (n_id n) q) as [r q'] eqn:Hack.
  destruct (qi_ids _ _ Hq) as [Hids Hidb]. destruct (qi_seqs _ _ Hq) as [Hseqs Hseqb]. rewrite Hp in *.
  apply Forall_cons in Hidb as [Hid _], Hseqb as [Hseq _]. apply sorted_head in Hids, Hseqs.
  assert (r = Ok ()) as ->.
  { unfold aok_app_ack, aok_app_ack_locked in Hack. rewrite !decide_False, Hf in Hack by (done || lia). by case_bool_decide; injection Hack as <- _. }
  destruct (app_ack_exact _ _ _ _ _ Hinv Hr Hack) as [Hinv' Hq']. rewrite Hf in Hq'.
  destruct (ack_exact AOK_APP_QUEUE_DEPTH AOK_EVENT_KIND_TIMER 0 _ i n q Hinv Hr ltac:(unfold AOK_EVENT_KIND_TIMER; lia) Hf)
    as (_ & _ & Hw & l1 & l2 & E1 & E2). unfold aok_app_flush_locked in Hq'. rewrite <-Hq' in Hw, E2.
  assert (l1 = []) as ->.
  { destruct l1 as [|x l1]; [done|]. rewrite Hp in E1. injection E1 as <- E1. rewrite E1 in Hids.
    apply Forall_app in Hids as [_ [Hlt _]%Forall_cons]. lia. }
  rewrite Hp in E1. injection E1 as <-. destruct (release_core _ _ _ _ Hq Hi Hn) as [Hc Hl].
  assert (live q ≤ Z.of_nat AOK_APP_QUEUE_DEPTH) as Hle by (rewrite (qi_live _ _ Hq); apply inj_le; by apply pending_bound).
  destruct (flush_numbers _ AOK_EVENT_KIND_TIMER 0 _ Hc Hs ltac:(lia)) as [Hr' Hz']. rewrite <-Hq' in Hr', Hz'.
  eexists q', _. split_and!; [done|done|by split|exact E2|done|done|by case_decide|].
  apply Forall_app. split; [apply Forall_and; by split|].
  case_decide as Hz; constructor; [|done]. destruct (Hsp Hz), (qi_range _ _ Hq). cbn. rewrite !u64_small by lia. lia.
Qed.

(** ** The whole drain *)

Definition event_of (app : Z) (n : app_node) : KernelEvent := adapt (go_record (record_of app n)).

(** The event's message, with its content and under its key, is in this mailbox. *)
Definition moved_to (id : string) (app : Z) (st : supervisorState) (n : app_node) : Prop :=
  ∃ b mid, delivered st id (kernelMessageKey id {| (event_of app n) with KEv.BootID := b |}) mid
    (json_compact (kernelWakePayload id (event_of app n))).

(** What a drain did: these events moved, the others stayed. *)
Record drained (id : string) (a : application) (s : Supervisor) (a' : application) (s' : Supervisor) (moved : list app_node) : Prop := {
  dr_acks : calls s' = calls s ++ ((λ n, Acked id (n_id n)) <$> moved);
  dr_mail : Forall (moved_to id (application_id a) (committed s')) moved;
  dr_once : StronglySorted Z.lt (n_id <$> moved);
  dr_count : counts moved + weight (app_queue a') = weight (app_queue a);
  dr_kept : ∀ n, n ∈ pending_nodes (app_queue a) → n ∈ moved ∨ n ∈ pending_nodes (app_queue a');
  dr_inv : qinv AOK_APP_QUEUE_DEPTH (app_queue a') ∧ application_id a' = application_id a;
}.

Lemma drained_nothing id a s s' :
  qinv AOK_APP_QUEUE_DEPTH (app_queue a) → calls s' = calls s → drained id a s a s' [].
Proof. intros Hq Hc. split; cbn; [by rewrite app_nil_r|constructor|constructor|lia|by right|done]. Qed.

Lemma drained_more id a s a1 s1 a' s' n l more moved :
  pending_nodes (app_queue a) = n :: l → pending_nodes (app_queue a1) = l ++ more → application_id a1 = application_id a →
  weight (app_queue a1) + n_coalesced n = weight (app_queue a) →
  calls s1 = calls s ++ [Acked id (n_id n)] → moved_to id (application_id a) (committed s') n →
  Forall (λ m, n_id n < n_id m) moved →
  drained id a1 s1 a' s' moved → drained id a s a' s' (n :: moved).
Proof.
  intros Hp Hp1 Hid Hw Hc Hn Hlt []. split.
  - by rewrite dr_acks0, Hc, <-app_assoc.
  - constructor; [done|]. by rewrite <-Hid.
  - cbn. constructor; [done|]. by apply Forall_fmap.
  - change (counts (n :: moved)) with (n_coalesced n + counts moved). lia.
  - intros m. rewrite Hp. intros [->|Hm]%elem_of_cons; [left; by left|]. destruct (dr_kept0 m) as [?|?]; [|left; by right|by right].
    rewrite Hp1. apply elem_of_app. by left.
  - split; [apply dr_inv0|]. rewrite <-Hid. apply dr_inv0.
Qed.

Lemma queue_empty depth q : qinv depth q → (0 < depth)%nat → pending_nodes q = [] → weight q = 0.
Proof.
  intros [Hq Hf] Hd Hp. unfold weight. rewrite Hp. cbn. destruct (decide (coalesced q = 0)) as [|Hz]; [done|].
  specialize (Hf Hz). rewrite (qi_live _ _ Hq) in Hf. destruct (pending q) as [|i l] eqn:E; [cbn in Hf; lia|].
  assert (i ∈ pending q) as (n & Hn & _)%(qi_used _ _ Hq) by (rewrite E; by left).
  unfold pending_nodes in Hp. rewrite E in Hp. cbn in Hp. by rewrite Hn in Hp.
Qed.

Section path.
Context (env : Env) (kenv : KernelEnv) (Errno : errno → error).

(** What is read with all of the queue ahead: its oldest event. *)
Lemma adapter_read_head a c :
  Forall (λ n, c < n_seq n) (pending_nodes (app_queue a)) →
  adapter_Read Errno a (mkAppFile opened_rights c) =
    match pending_nodes (app_queue a) with
    | [] => (Ok None, mkAppFile opened_rights c)
    | n :: _ => (Ok (Some (event_of (application_id a) n)), mkAppFile opened_rights (n_seq n))
    end.
Proof.
  intros Hall. unfold adapter_Read, bridge_Read, aok_app_read, find_after. cbn [af_rights af_read_seq].
  rewrite !decide_False by done. destruct (pending_nodes (app_queue a)) as [|n l] eqn:Hp.
  - rewrite find_node_nothing; [done|]. unfold pending_nodes in Hp. by rewrite Hp.
  - apply Forall_cons in Hall as [Hn _].
    destruct (find_node_first (λ n, bool_decide (n_seq n > c)) (nodes (app_queue a)) (pending (app_queue a)) [] n l) as [i ->]; [done..| |done].
    apply bool_decide_true. lia.
Qed.

(** One round: nothing happened to the queue and the loop ends, or the oldest event moved. *)
Lemma round_exact id boot e s r s' :
  Good empty_state empty_store s → deliver_event env kenv id boot 0 e s = (r, s') →
  Good empty_state empty_store s' ∧ evolves (committed s) (committed s') ∧
  ((calls s' = calls s ∧ r ≠ Ok true) ∨
   (calls s' = calls s ++ [Acked id (KEv.EventID e)] ∧ r ≠ Ok false ∧ ∃ b mid,
      delivered (committed s') id (kernelMessageKey id {| e with KEv.BootID := b |}) mid (json_compact (kernelWakePayload id e)))).
Proof.
  intros Hg H. pose proof (safe_deliver_event env kenv id boot 0 e) as Hs.
  split_and!; [exact (wp_run _ _ _ _ _ (Hs _ _ _ Hg) H)| |exact (wp_run _ _ _ _ _ (deliver_event_exact env kenv boot id 0 e s) H)].
  apply (wp_run _ _ _ _ _ (Hs _ _ _ (good_self _ _ _ Hg)) H).
Qed.

Lemma moved_evolves id app st st' n : evolves st st' → moved_to id app st n → moved_to id app st' n.
Proof. intros Hev (b & mid & Hd). exists b, mid. by eapply delivered_evolves. Qed.
End path.

Section theorems.
Context (env : Env) (kenv : KernelEnv) (Errno : errno → error).

(** Rounds that are enough: one for each event, one for a merged count. *)
Definition rounds (q : queue) : nat := length (pending_nodes q) + (if decide (coalesced q = 0) then 0 else 1).

Lemma live_drain_exact id boot fuel : ∀ c a s r s' a',
  Good empty_state empty_store s → qinv AOK_APP_QUEUE_DEPTH (app_queue a) → spare (app_queue a) →
  Forall (λ n, c < n_seq n) (pending_nodes (app_queue a)) → (rounds (app_queue a) < fuel)%nat →
  live_drain env kenv Errno fuel id boot (mkAppFile opened_rights c) a s = (r, s', a') →
  r ≠ Ok None ∧ evolves (committed s) (committed s') ∧ (r = Ok (Some true) → pending_nodes (app_queue a') = [] ∧ weight (app_queue a') = 0) ∧
  ∃ moved, drained id a s a' s' moved ∧ ∀ d, Forall (λ n, d < n_id n) (pending_nodes (app_queue a)) → Forall (λ n, d < n_id n) moved.
Proof.
  induction fuel as [|fuel IH]; intros c a s r s' a' Hg Hq Hs Hall Hfuel H; [lia|]. cbn [live_drain] in H.
  rewrite adapter_read_head in H by done. destruct (pending_nodes (app_queue a)) as [|n l] eqn:Hp.
  { injection H as <- <- <-. split_and!; [done|by apply reflexivity| |].
    - intros _. split; [done|]. eapply queue_empty; [done|unfold AOK_APP_QUEUE_DEPTH; lia|done].
    - exists []. split; [by apply drained_nothing|done]. }
  destruct (deliver_event _ _ _ _ _ _ _) as [r1 s1] eqn:Hd.
  destruct (round_exact _ _ _ _ _ _ _ _ Hg Hd) as (Hg1 & Hev & Hr).
  destruct Hr as [[Hc Hr]|(Hc & Hr & Hm)].
  { rewrite decide_True in H by (by rewrite Hc). destruct r1 as [[]|err]; [done|..]; injection H as <- <- <-;
      (split_and!; [done|done|done|]; exists []; split; [by apply drained_nothing|done]). }
  rewrite decide_False in H by (rewrite Hc, length_app; cbn; lia).
  destruct (head_acked _ _ _ Hq Hs Hp) as (q' & more & Hack & Hq' & Hs' & Hp' & Hw & Hz & Hlen & Hafter).
  change (KEv.EventID (event_of (application_id a) n)) with (n_id n) in *.
  unfold bridge_Ack in H. rewrite Hack in H. cbn [snd] in H. set (a1 := {| a with app_queue := q' |}) in H.
  assert (∀ moved, drained id a1 s1 a' s' moved → evolves (committed s1) (committed s') → Forall (λ m, n_id n < n_id m) moved →
    drained id a s a' s' (n :: moved)) as Hmore.
  { intros moved Hdr Hev1 Hlt. eapply (drained_more _ _ _ a1); [exact Hp|exact Hp'|done|exact Hw|exact Hc| |done|done].
    by eapply moved_evolves. }
  assert (∀ d, Forall (λ m, d < n_id m) (n :: l) → d < n_id n) as Hhead by (by intros d [? _]%Forall_cons).
  apply Forall_and in Hafter as [Hseq Hids]. rewrite <-Hp' in Hseq, Hids. destruct r1 as [[]|err]; [|done|].
  - destruct (IH (n_seq n) a1 s1 r s' a') as (Hr' & Hev' & Hfin & moved & Hdr & Hlow); try done.
    { unfold rounds in *. rewrite Hp in Hfuel. change (app_queue a1) with q'. rewrite Hp', Hz, length_app, Hlen.
      rewrite (decide_True (P := 0 = 0)) by done. cbn [length] in Hfuel. case_decide; lia. }
    assert (Forall (λ m, n_id n < n_id m) moved) as Hlt by (by apply Hlow).
    split_and!; [done|by etrans|done|]. exists (n :: moved). split; [by apply Hmore|].
    intros d Hlo%Hhead. constructor; [done|]. eapply Forall_impl; [exact Hlt|]. cbn. lia.
  - injection H as <- <- <-. split_and!; [done|done|done|]. exists [n]. split; [by apply Hmore; [apply drained_nothing|..]|].
    intros d Hlo%Hhead. by constructor.
Qed.

Lemma rounds_bound depth q : qcore depth q → (rounds q ≤ S depth)%nat.
Proof.
  intros Hq. pose proof (pending_bound _ _ Hq). pose proof (omap_bound (λ i, nodes q !! i) (pending q)).
  unfold rounds, pending_nodes. case_decide; lia.
Qed.

(** C13: An event of the kernel reaches the mailbox or stays in the kernel.  Draining the
    queue of an application of any reachable registry into any reachable supervisor, with
    the disk and the mailbox failing wherever they may, ends within two rounds more than
    the queue is deep.  The events that left the queue are exactly those acknowledged,
    each once and in order, and each has its message, with its content and under its
    idempotency key, in the committed mailbox; every other event is still pending, and no
    occurrence is lost from the counts, those merged while the queue was full included.
    When the drain reports that it is through, nothing is left.  The descriptor's cursor is
    before the pending events, as that of a descriptor just opened is, and the queue has
    numbers left for the events of its merged count. *)
Theorem kernel_event_reaches_mailbox k i a c id boot fuel s r s' a' :
  env_ok env → reachable env kenv s → kreachable k → apps k !! i = Some a → spare (app_queue a) →
  Forall (λ n, c < n_seq n) (pending_nodes (app_queue a)) → (S AOK_APP_QUEUE_DEPTH < fuel)%nat →
  live_drain env kenv Errno fuel id boot (mkAppFile opened_rights c) a s = (r, s', a') →
  r ≠ Ok None ∧ ∃ moved, drained id a s a' s' moved ∧
    (r = Ok (Some true) → pending_nodes (app_queue a') = [] ∧ weight (app_queue a') = 0 ∧
       Forall (moved_to id (application_id a) (committed s')) (pending_nodes (app_queue a))).
Proof.
  intros Henv Hr Hk%kreachable_inv Ha Hs Hall Hfuel H. pose proof (rinv_lookups _ _ _ Hk Ha) as Hq.
  pose proof (rounds_bound _ _ (proj1 Hq)). pose proof (reachable_good env kenv s Henv Hr) as Hg.
  destruct (live_drain_exact id boot fuel c a s r s' a' Hg Hq Hs Hall ltac:(lia) H) as (Hne & _ & Hfin & moved & Hdr & _).
  split; [done|]. exists moved. split; [done|]. intros Hdone. destruct (Hfin Hdone) as [Hnil Hw]. split_and!; [done|done|].
  apply Forall_forall. intros n Hn. destruct (dr_kept _ _ _ _ _ _ Hdr n Hn) as [Hm|Hm]; [|rewrite Hnil in Hm; by apply elem_of_nil in Hm].
  exact (proj1 (Forall_forall _ _) (dr_mail _ _ _ _ _ _ Hdr) n Hm).
Qed.
End theorems.

(** ** A run *)

Definition sample_supervisor : Supervisor := bridged [OCreate "root" "alice" "on_event"; OBridge true].

Local Notation sample_drain :=
  (live_drain Sample.env bridge (λ _, ErrQuota) 200 Sample.app "boot" (mkAppFile opened_rights 0) sample_application sample_supervisor).

Lemma kernel_event_reaches_mailbox_witness :
  fst (fst sample_drain) = Ok (Some true) ∧
  Forall (moved_to Sample.app 7 (committed (snd (fst sample_drain)))) (pending_nodes (app_queue sample_application)) ∧
  n_data <$> pending_nodes (app_queue sample_application) = [5; 6].
Proof.
  assert (fst (fst sample_drain) = Ok (Some true)) as Hd by (by vm_compute).
  destruct sample_drain as [[r s'] a'] eqn:E. cbn [fst snd] in *.
  destruct (kernel_event_reaches_mailbox Sample.env bridge (λ _, ErrQuota) _ 0 sample_application 0 Sample.app "boot" 200 sample_supervisor
    r s' a' Sample.env_ok bridged_create_reachable sample_reachable sample_found) as (_ & moved & _ & Hfin).
  - split; [vm_compute; split_and!; reflexivity|]. intros Hz. destruct Hz. vm_compute. reflexivity.
  - vm_compute. repeat constructor.
  - unfold AOK_APP_QUEUE_DEPTH. lia.
  - exact E.
  - split_and!; [exact Hd| |by vm_compute]. by apply Hfin.
Defined.
